(* ===== verification/_CoqProject ===== *)
-Q . S2P
Prelude.v
Sys.v
Net.v
Wire.v
Frames.v
Daemon.v
Conn.v
Multi.v
Shm.v
Spawn.v
Args.v
Tracked.v
Meta.v
Scan.v
Sync.v
SyncInv.v
SyncSafe.v
SyncLive.v
Scanned.v
Send.v
EndToEnd.v
Workers.v
Walk.v
Live.v
Poll.v
Cleanup.v
Display.v
Watcher.v
Remote.v
Client.v
Recurse.v
Main.v
