(* ===== verification/Prelude.v ===== *)
(** * enuwatch: a model of the synchroniser and its correctness

    enuwatch copies a directory tree to another host. The client walks the
    tree, starts itself as a daemon on the remote host through ssh, and sends
    every directory and regular file over sockets; the daemon polls its
    connections and rebuilds the tree. A progress tree shared by the threads
    of the client is drawn on the terminal while this goes on. The program is
    [src/enu/]; this library models it as executable definitions and proves
    what they do.

    ** The parts and their files

    Foundations:
    - [Prelude.v]: fixed-width integers ([wrap], [u16], [u32], [u64]), lists
      indexed by [Z] ([zlen], [ztake], [zdrop], [store_at]), bytes and
      strings, the tactics [zl], [zbool], [case_ifs].
    - [Sys.v]: system calls as a state and error monad [Sys] over a [World]
      that holds the kernel's future answers, the trace of answered calls and
      the files. Outcomes are a value, [Blocked], [Fatal], [Exit], or
      [Undef] for undefined behaviour. [wp] is its weakest precondition.

    Transfers and the daemon:
    - [Net.v]: [net.h], [write_partial], [write_exact], [read_partial],
      [read_exact].
    - [Wire.v]: the two messages of [daemon.h] as bytes, by the layout of the
      structs.
    - [Frames.v]: the abstract specification of a connection: a parser of the
      byte stream into frames, and the effect of a frame on the file system.
    - [Daemon.v]: [daemon.h], temporary files, the connection state machine
      ([on_readable] and the handler of each state), accepting, polling,
      [daemon_main].
    - [Conn.v]: one connection refines [Frames.v]; [Multi.v]: many
      connections do, interleaved in any order; [Live.v]: a delivered frame
      is consumed; [Poll.v]: the loop as a whole; [Cleanup.v]: the temporary
      files up to the handler of exit(3).

    The client:
    - [Args.v]: [argparser.cpp], the command line.
    - [Tracked.v]: [tracked.h], the progress tree as a heap of nodes; the
      class [Renderer] is what the tree asks of the function that draws it.
    - [Meta.v], [Scan.v]: [main.cpp], paths, the metadata [M], [scan_dir].
    - [Send.v]: [main.cpp], [send_datamsg] and [write_file_contents].
    - [Sync.v]: [main.cpp], the lambdas [recurse] and [bubble] of
      [sync_with_remote] as tasks of a step relation; [SyncInv.v] its
      invariant, [SyncSafe.v] and [SyncLive.v] its theorems.
    - [Display.v]: [main.cpp], [display_progress] and [clear_progress], byte
      for byte; an instance of [Renderer].
    - [Spawn.v]: [spawn.cpp], [spawn.h], both sides of vfork(2).
    - [Watcher.v]: [watcher.h] with its two implementations, [fsevent.cpp] and
      [inotify.cpp], and [watch_dir].
    - [Shm.v]: [shm.h], the shared-memory queue.
    - [Remote.v]: [log.cpp], [report_stderr_remote], the end of
      [sync_with_remote].
    - [Client.v]: which events the parts of the client can make.
    - [Recurse.v]: [main.cpp], the tasks of [Sync.v] run by one process on one
      kernel in the order of a schedule, with the sockets of [t_sock]; the
      system calls of the sends of [Send.v] and of the report of [Remote.v]
      are steps of their own and interleave.
    - [Main.v]: [main.cpp], the signals, [sync_with_remote], [enu_main],
      [main].

    Compositions:
    - [EndToEnd.v]: [Send.v] with [Conn.v]; [Workers.v]: many senders with
      [Multi.v]; [Scanned.v]: the tree of [Scan.v] as what [Sync.v] starts
      from; [Walk.v]: the frames of a scanned tree and the files they make.

    Definitions have the names of the C++ functions and types. A C++ field is
    a record field, an enumeration an inductive type, a [uintN_t] a [Z] that
    the operations wrap, a throwing or fatal path a constructor of the outcome.

    ** What the theorems show

    - The whole: a client whose exit status is 0 has written the frames of its
      directory, to descriptor 0, which is what [t_sock] makes of the sockets,
      and nothing else, each frame whole but possibly interleaved with others
      ([Main.client_sends_tree], [Recurse.recurse_writes_tree]); with one
      thread they follow one another
      ([Recurse.recurse_one_thread_writes_frames]), and a daemon that receives
      them has the directory, every file with its contents, and no other name
      is touched ([Main.directory_synchronised]). With two threads the stream
      can be torn ([Recurse.concurrent_sends_are_torn]). No run of the walk
      has undefined behaviour ([Recurse.recurse_defined]).
    - The transfer of a tree: what a worker sends for a list of nodes is what
      a connection of the daemon has at the end ([EndToEnd.delivery]), and a
      tree distributed over many workers arrives, however the connections
      are interleaved ([Workers.tree_delivered]); the state machine computes
      the reference parser under every fragmentation
      ([Conn.connection_refines_parser]) and every interleaving of
      connections ([Multi.connections_interleave]); it never stores outside
      its buffers and leaves no temporary file between messages, nor when
      the daemon exits ([Main.daemon_cleans_up]).
    - The parallel walk: in every interleaving no destroyed node is used, no
      run gets stuck, every schedule is bounded, and a run without an error
      has sent every node once and parents first.
    - The directory walk builds the tree of the directory, in the order of the
      comparison, on every finite one whose entries the comparison orders; the
      progress tree keeps its shape and its sums; the drawing rate
      and the height of a frame are bounded.
    - Transfers, messages, options and the failure report of a child process
      make round trips; the liveness theorems say that the calls return on a
      kernel that serves them, so that the others are not about runs that
      never end.
    - Processes: the descriptors a child starts with, each pipe end closed
      once, exit codes. Diagnostics and [main]: the remote's errors are
      forwarded, what exit status means what, what is installed for SIGINT
      and SIGPIPE when.
    - Some theorems state what the code does where its comments or evident
      intent say something else (a hang-up closes the listening socket, a
      report after [terminate] is silent, an unreadable directory is taken
      for an empty one).

    ** Fuel and bounds

    - [Sys.loop] iterates as often as there are answers left plus one. A body
      that consumes an answer per round ([consuming]) cannot need more
      ([loop_inl], [loop_inr]); when the answers are used up it is [Blocked],
      which is a call that has not returned.
    - [pass_fuel]: an entry with events is visited once and may append one
      without events; a pass that ran out of it would answer [None], and none
      does ([Poll.poll_pass_terminates]).
    - [scan_dir]: any fuel from the number of directories on; that it is
      enough is part of [Scan.scan_dir_builds_tree]. With less it is
      [Blocked], a walk that has not ended.
    - [visit] and [subtree]: the number of nodes ever made, since a child is
      made after its parent ([Tracked.tree_wf]).
    - [parse]: the length of the stream, since a frame is not empty
      ([parse_fuel_enough]).
    - [task_step] needs no fuel: [SyncLive.sync_terminates] bounds the runs.
    - [recurse_run] follows a schedule; one that is used up before all tasks
      are done is a walk that has not returned ([Blocked]).
    - [node_path]: a parent is older than its child, so the node bounds the
      depth ([Scanned.path_up_paths]).

    ** What is outside

    The kernel, CoreServices, the file system's queries, [std::sort],
    [std::stod], [strerror] and the clock are arguments or scripted answers;
    a theorem that needs their documented behaviour names it as a hypothesis.
    [std::sort] is asked to sort only where the comparison is a strict weak
    ordering of the entries ([Scan.StdSort]); elsewhere the scan is [Undef].
    From the vendored TBB the program uses a task group, a concurrent hash
    map and thread-local values; [Sync.v] states their contracts and steps
    from one access of shared state to the next.

    ** Not modelled

    - [test/]; the build files; the vendored libraries.
    - A signal that arrives in the middle of a system call: [Main.deliver]
      is the arrival between two calls.
    - A frame drawn while other threads change the tree: [Display.v] draws
      one state of it, in [Recurse.v] that at the beginning of the send. The
      bytes a send has ticked are counted there when it ends; no task reads
      the counters, only a frame shows them. Whether [try_lock] succeeds is
      an answer of the environment, so that a run may draw where the mutex
      would forbid it; no frame writes to descriptor 0.
    - Which of the kernel's answers a send gets is fixed when it begins, since
      the answers are a list; as every list is considered, so is every
      sequence of answers to interleaved calls.
    - Memory orders weaker than sequential consistency, in the queue of
      [shm.h] and in the atomics of the walk. *)

From Stdlib Require Export ZArith Lia.
From stdpp Require Export base list gmap strings.
From coqutil Require Export Byte Word.LittleEndianList.

Declare Scope enu_scope.
Delimit Scope enu_scope with enu.
Open Scope Z_scope.
Open Scope enu_scope.

(** ** Machine integers

    A [w]-bit unsigned integer is a [Z]; [wrap w] is the conversion to the
    width, what an assignment to an object of that type does. *)

Definition wrap (w z : Z) : Z := z mod 2 ^ w.
Definition u8 (z : Z) : Z := wrap 8 z.
Definition u16 (z : Z) : Z := wrap 16 z.
Definition u32 (z : Z) : Z := wrap 32 z.
Definition u64 (z : Z) : Z := wrap 64 z.

Definition fits (w z : Z) : Prop := 0 <= z < 2 ^ w.

Lemma wrap_fits w z : 0 <= w -> fits w (wrap w z).
Proof. intros Hw. apply Z.mod_pos_bound. by apply Z.pow_pos_nonneg. Qed.

Lemma wrap_small w z : fits w z -> wrap w z = z.
Proof. apply Z.mod_small. Qed.

Lemma wrap_id w z : 0 <= w -> wrap w z = z <-> fits w z.
Proof.
  intros Hw. split; [|apply wrap_small].
  intros <-. by apply wrap_fits.
Qed.

(** ** Byte sequences with [Z] lengths *)

Definition zlen {A} (l : list A) : Z := Z.of_nat (length l).
Definition ztake {A} (n : Z) (l : list A) : list A := take (Z.to_nat n) l.
Definition zdrop {A} (n : Z) (l : list A) : list A := drop (Z.to_nat n) l.

Create Rewrite HintDb zlen.

Lemma zlen_nil {A} : zlen (@nil A) = 0.
Proof. done. Qed.

Lemma zlen_cons {A} (x : A) l : zlen (x :: l) = 1 + zlen l.
Proof. unfold zlen. cbn [length]. lia. Qed.

Lemma zlen_app {A} (l k : list A) : zlen (l ++ k) = zlen l + zlen k.
Proof. unfold zlen. rewrite length_app. lia. Qed.

Lemma zlen_nonneg {A} (l : list A) : 0 <= zlen l.
Proof. unfold zlen. lia. Qed.

Lemma zlen_ztake {A} n (l : list A) : zlen (ztake n l) = Z.max 0 (Z.min n (zlen l)).
Proof. unfold zlen, ztake. rewrite length_take. lia. Qed.

Lemma zlen_zdrop {A} n (l : list A) : zlen (zdrop n l) = Z.max 0 (zlen l - Z.max 0 n).
Proof. unfold zlen, zdrop. rewrite length_drop. lia. Qed.

Lemma zlen_replicate {A} n (x : A) : zlen (replicate n x) = Z.of_nat n.
Proof. unfold zlen. by rewrite length_replicate. Qed.

#[export] Hint Rewrite @zlen_nil @zlen_cons @zlen_app @zlen_ztake @zlen_zdrop
  @zlen_replicate : zlen.

(** [zl]: length arithmetic. Pushes [zlen] through the list operations and
    calls [lia] with the non-negativity of every length in sight. *)
Ltac zl_nonneg :=
  repeat match goal with
  | |- context [zlen ?l] =>
      lazymatch goal with
      | _ : 0 <= zlen l |- _ => fail
      | _ => pose proof (zlen_nonneg l)
      end
  | _ : context [zlen ?l] |- _ =>
      lazymatch goal with
      | _ : 0 <= zlen l |- _ => fail
      | _ => pose proof (zlen_nonneg l)
      end
  end.
Ltac zl := autorewrite with zlen in *; zl_nonneg; lia.

Lemma ztake_zdrop {A} n (l : list A) : ztake n l ++ zdrop n l = l.
Proof. apply take_drop. Qed.

Lemma ztake_all {A} n (l : list A) : zlen l <= n -> ztake n l = l.
Proof. unfold zlen, ztake. intros. apply take_ge. lia. Qed.

Lemma zdrop_all {A} n (l : list A) : zlen l <= n -> zdrop n l = [].
Proof. unfold zlen, zdrop. intros. apply drop_ge. lia. Qed.

Lemma ztake_le_0 {A} n (l : list A) : n <= 0 -> ztake n l = [].
Proof. unfold ztake. intros. by replace (Z.to_nat n) with 0%nat by lia. Qed.

Lemma zdrop_le_0 {A} n (l : list A) : n <= 0 -> zdrop n l = l.
Proof. unfold zdrop. intros. by replace (Z.to_nat n) with 0%nat by lia. Qed.

Lemma ztake_app_l {A} n (l k : list A) : n <= zlen l -> ztake n (l ++ k) = ztake n l.
Proof. unfold zlen, ztake. intros. apply take_app_le. lia. Qed.

Lemma ztake_app_r {A} n (l k : list A) :
  zlen l <= n -> ztake n (l ++ k) = l ++ ztake (n - zlen l) k.
Proof.
  unfold zlen, ztake. intros. rewrite take_app_ge by lia.
  repeat f_equal. lia.
Qed.

Lemma zdrop_app_r {A} n (l k : list A) :
  zlen l <= n -> zdrop n (l ++ k) = zdrop (n - zlen l) k.
Proof.
  unfold zlen, zdrop. intros. rewrite drop_app_ge by lia. f_equal. lia.
Qed.

Lemma zdrop_app_l {A} n (l k : list A) :
  n <= zlen l -> zdrop n (l ++ k) = zdrop n l ++ k.
Proof. unfold zlen, zdrop. intros. apply drop_app_le. lia. Qed.

Lemma ztake_add {A} n m (l : list A) :
  0 <= n -> 0 <= m -> ztake (n + m) l = ztake n l ++ ztake m (zdrop n l).
Proof.
  unfold ztake, zdrop. intros. rewrite Z2Nat.inj_add by lia.
  by rewrite take_take_drop.
Qed.

Lemma zdrop_zdrop {A} n m (l : list A) :
  0 <= n -> 0 <= m -> zdrop m (zdrop n l) = zdrop (n + m) l.
Proof.
  unfold zdrop. intros. rewrite drop_drop. f_equal. lia.
Qed.

Lemma ztake_ztake {A} n m (l : list A) : ztake n (ztake m l) = ztake (Z.min n m) l.
Proof. unfold ztake. rewrite take_take. f_equal. lia. Qed.

Lemma zlen_0_nil {A} (l : list A) : zlen l <= 0 -> l = [].
Proof. unfold zlen. intros. apply length_zero_iff_nil. lia. Qed.

(** A store of the bytes [bs] at [buf + off]. [None] is a store outside the
    object, which C++ leaves undefined. *)
Definition store_at {A} (buf : list A) (off : Z) (bs : list A) : option (list A) :=
  if bool_decide (0 <= off) && bool_decide (off + zlen bs <= zlen buf)
  then Some (ztake off buf ++ bs ++ zdrop (off + zlen bs) buf)
  else None.

Lemma store_at_Some {A} (buf bs : list A) off :
  0 <= off -> off + zlen bs <= zlen buf ->
  store_at buf off bs = Some (ztake off buf ++ bs ++ zdrop (off + zlen bs) buf).
Proof. intros. unfold store_at. by rewrite !bool_decide_eq_true_2. Qed.

Lemma store_at_inv {A} (buf bs buf' : list A) off :
  store_at buf off bs = Some buf' ->
  0 <= off /\ off + zlen bs <= zlen buf /\
  zlen buf' = zlen buf /\
  ztake (off + zlen bs) buf' = ztake off buf ++ bs /\
  zdrop (off + zlen bs) buf' = zdrop (off + zlen bs) buf.
Proof.
  unfold store_at. case_bool_decide as H0; case_bool_decide as H1; try done.
  intros [= <-].
  assert (zlen (ztake off buf) = off) as Ht by zl.
  split_and!; [done|done|zl|..].
  - rewrite app_assoc, ztake_app_l by zl. apply ztake_all. zl.
  - rewrite app_assoc, zdrop_app_r by zl. apply zdrop_le_0. zl.
Qed.

(** ** Case analysis on the conditionals of a goal or of a hypothesis *)

Ltac case_ifs :=
  repeat match goal with
  | |- context [if ?b then _ else _] => destruct b eqn:?
  | H : context [if ?b then _ else _] |- _ => destruct b eqn:?
  end.

Ltac zbool :=
  repeat match goal with
  | H : (_ <? _) = true |- _ => apply Z.ltb_lt in H
  | H : (_ <? _) = false |- _ => apply Z.ltb_ge in H
  | H : (_ <=? _) = true |- _ => apply Z.leb_le in H
  | H : (_ <=? _) = false |- _ => apply Z.leb_gt in H
  | H : (_ =? _) = true |- _ => apply Z.eqb_eq in H
  | H : (_ =? _) = false |- _ => apply Z.eqb_neq in H
  | H : bool_decide _ = true |- _ => apply bool_decide_eq_true_1 in H
  | H : bool_decide _ = false |- _ => apply bool_decide_eq_false_1 in H
  end.

(** ** Strings and byte sequences *)

Definition bytes_of (s : string) : list byte := String.list_byte_of_string s.
Definition string_of (bs : list byte) : string := String.string_of_list_byte bs.

Lemma string_of_bytes_of s : string_of (bytes_of s) = s.
Proof. apply String.string_of_list_byte_of_string. Qed.

Lemma bytes_of_string_of bs : bytes_of (string_of bs) = bs.
Proof. apply String.list_byte_of_string_of_list_byte. Qed.

#[global] Instance byte_eq_dec : EqDecision Init.Byte.byte := Byte.byte_eq_dec.
