(* ===== verification/Sys.v ===== *)
(** * The operating system as the program sees it

    The kernel is not part of the sources. A system call is answered by the
    next entry of a script ([w_ans]); an exhausted script is a call that has
    not returned yet ([Blocked]). Every answered call is logged, and the
    documented effect of the successful file-system calls on the names and
    contents of files is kept in [w_fs], so that a theorem can speak of the
    bytes a descriptor carried and of the files a run leaves behind. Nothing
    is assumed about the answers themselves: a short transfer, an error or a
    zero can come at any call. *)

From S2P Require Import Prelude.

Inductive errno :=
  | EINTR | EAGAIN | EWOULDBLOCK
  | ECONNREFUSED | ENETUNREACH | EHOSTUNREACH | ETIMEDOUT
  | EOTHER (code : Z).

#[global] Instance errno_eq_dec : EqDecision errno.
Proof. solve_decision. Defined.

(** Severity of a log line, [enu::log::Level]. *)
Inductive Level := info | warn | error | fatal.

#[global] Instance Level_eq_dec : EqDecision Level.
Proof. solve_decision. Defined.

Inductive stream := stdout | stderr.

(** What signal(2) installs; the program has one handler of its own. *)
Inductive disposition := SIG_DFL | SIG_IGN | Handler.

Inductive syscall :=
  (* descriptors *)
  | Write (fd : Z) (data : list byte)
  | Read (fd : Z) (count : Z)
  | Close (fd : Z)
  | FcntlGetFl (fd : Z)
  | FcntlSetFl (fd : Z) (flags : Z)
  | FcntlGetFd (fd : Z)
  | FcntlSetFd (fd : Z) (flags : Z)
  | Pipe2
  | Dup (fd : Z)
  | Dup2 (fd target : Z)
  | Poll (fds : list Z)
  (* sockets *)
  | Socket
  | SetSockOptReuse (fd : Z)
  | Bind (fd port : Z)
  | Listen (fd backlog : Z)
  | Accept (fd : Z)
  | Connect (fd port addr : Z)
  | SleepMs (ms : Z)
  (* files *)
  | Mkstemp (template : string)
  | Ftruncate (fd size : Z)
  | Mmap (fd len : Z)
  | Open (path : string)
  | Rename (src dst : string)
  | Mkdir (path : string) (mode : Z)
  | Fsync (fd : Z)
  | Unlink (path : string)
  | Shmget (key size : Z)
  | Shmat (shmid : Z)
  (* processes and signals *)
  | Signal (sig : Z) (d : disposition)
  | Sigaction (sig : Z)
  | SigmaskFill
  | SigmaskRestore
  | CancelDisable
  | CancelRestore
  | Vfork
  | Execve (path : string) (argv : list string)
  | Kill (pid sig : Z)
  | Waitpid (pid : Z)
  (* reads of state other threads write *)
  | LoadOk
  | TryLockRoot
  | Now.

Inductive sysret :=
  | ROk (v : Z)
  | RBytes (bs : list byte)
  | RInts (vs : list Z)
  | RFile (fd : Z) (name : string)
  | RErr (e : errno).

Inductive fnode := File (content : list byte) | Dir.

(** What the run shows outside the kernel: an answered call, or a line the
    program printed. *)
Inductive event :=
  | Called (c : syscall) (r : sysret)
  | Logged (l : Level) (fmt : string)
  | Printed (s : stream) (text : string).

Record World := mkWorld {
  w_ans : list sysret;
  w_trace : list event;
  w_fs : gmap string fnode;
  w_open : gmap Z string
}.

(** How a computation ends. [Fatal] is [fatal]/[pfatal], identified by its
    format string; [Exit] is [exit]/[_exit]; [Undef] is undefined behaviour
    of the C++ program (a store outside an object, a dangling reference). *)
Inductive outcome (A : Type) :=
  | Ret (a : A)
  | Fatal (fmt : string)
  | Exit (code : Z)
  | Blocked
  | Undef (what : string).
Arguments Ret {_} _.
Arguments Fatal {_} _.
Arguments Exit {_} _.
Arguments Blocked {_}.
Arguments Undef {_} _.

Definition Sys (A : Type) : Type := World -> outcome A * World.

#[global] Instance sys_ret : MRet Sys := fun A a w => (Ret a, w).
#[global] Instance sys_bind : MBind Sys := fun A B f m w =>
  match m w with
  | (Ret a, w') => f a w'
  | (Fatal s, w') => (Fatal s, w')
  | (Exit c, w') => (Exit c, w')
  | (Blocked, w') => (Blocked, w')
  | (Undef s, w') => (Undef s, w')
  end.

Definition stop {A} (o : outcome A) : Sys A := fun w => (o, w).
Definition pfatal {A} (fmt : string) : Sys A := stop (Fatal fmt).
Definition undef {A} (what : string) : Sys A := stop (Undef what).

Definition emit (e : event) : Sys unit := fun w =>
  (Ret tt, mkWorld (w_ans w) (w_trace w ++ [e]) (w_fs w) (w_open w)).
Definition log (l : Level) (fmt : string) : Sys unit := emit (Logged l fmt).
Definition print (s : stream) (text : string) : Sys unit := emit (Printed s text).

(** A transfer never exceeds the count the caller passed, and ftruncate(2)
    refuses a negative length (EINVAL). *)
Definition clip (c : syscall) (r : sysret) : sysret :=
  match c, r with
  | Write _ data, ROk v => ROk (Z.max 0 (Z.min v (zlen data)))
  | Read _ n, RBytes bs => RBytes (ztake n bs)
  | Ftruncate _ n, ROk v => if n <? 0 then RErr (EOTHER 22) else ROk v
  | _, _ => r
  end.

Definition resize (n : Z) (bs : list byte) : list byte :=
  ztake n bs ++ replicate (Z.to_nat (n - zlen bs)) Byte.x00.

Lemma zlen_resize n bs : 0 <= n -> zlen (resize n bs) = n.
Proof. intros. unfold resize. zl. Qed.

Lemma resize_same bs : resize (zlen bs) bs = bs.
Proof. unfold resize. rewrite Z.sub_diag, ztake_all by lia. apply app_nil_r. Qed.

(** The names and contents of files after a successful call (POSIX:
    [mkstemp], [ftruncate], [rename], [mkdir], [unlink], [close]). *)
Definition fs_effect (c : syscall) (r : sysret) (fs : gmap string fnode)
    (opened : gmap Z string) : gmap string fnode :=
  match c, r with
  | Mkstemp _, RFile _ name => <[name := File []]> fs
  | Ftruncate fd n, ROk _ =>
      match opened !! fd with
      | Some name =>
          match fs !! name with
          | Some (File bs) => <[name := File (resize n bs)]> fs
          | _ => fs
          end
      | None => fs
      end
  | Rename src dst, ROk _ =>
      match fs !! src with
      | Some node => <[dst := node]> (delete src fs)
      | None => fs
      end
  | Mkdir path _, ROk _ => <[path := Dir]> fs
  | Unlink path, ROk _ => delete path fs
  | _, _ => fs
  end.

Definition open_effect (c : syscall) (r : sysret) (opened : gmap Z string) : gmap Z string :=
  match c, r with
  | Mkstemp _, RFile fd name => <[fd := name]> opened
  | Close fd, ROk _ => delete fd opened
  | _, _ => opened
  end.

Definition kernel (c : syscall) (r : sysret) (rest : list sysret) (w : World) : World :=
  mkWorld rest (w_trace w ++ [Called c r])
    (fs_effect c r (w_fs w) (w_open w)) (open_effect c r (w_open w)).

(** The characters of a [std::string] up to its first NUL, what a call that
    takes a C string sees. *)
Fixpoint c_str (s : string) : string :=
  match s with
  | EmptyString => EmptyString
  | String c s' => if bool_decide (c = Ascii.zero) then EmptyString else String c (c_str s')
  end.

(** mkstemp(3) creates a file under a name (a C string) that did not exist,
    and opens it at a descriptor that was closed; mkdir(2) fails when the name
    exists. *)
Definition legal (c : syscall) (r : sysret) (w : World) : bool :=
  match c, r with
  | Mkstemp _, RFile fd name =>
      bool_decide (w_fs w !! name = None) && bool_decide (c_str name = name) &&
      bool_decide (0 <= fd) && bool_decide (w_open w !! fd = None)
  | Mkdir path _, ROk _ => bool_decide (w_fs w !! path = None)
  | _, _ => true
  end.

Definition sys (c : syscall) : Sys sysret := fun w =>
  match w_ans w with
  | [] => (Blocked, w)
  | r :: rest =>
      let r' := clip c r in
      if legal c r' w then (Ret r', kernel c r' rest w) else (Blocked, w)
  end.

(** The C convention: a non-negative result, or [-1] with [errno]. An answer
    of another shape is no answer to the call. *)
Definition sys_int (c : syscall) : Sys (Z + errno) :=
  r ← sys c;
  match r with
  | ROk v => mret (inl v)
  | RErr e => mret (inr e)
  | _ => stop Blocked
  end.

(** A call whose result the source drops. *)
Definition sys_ignore (c : syscall) : Sys unit := _ ← sys c; mret tt.

(** [if (call == -1) pfatal(...)]. *)
Definition sys_or_pfatal (c : syscall) (fmt : string) : Sys Z :=
  r ← sys_int c;
  match r with
  | inl v => mret v
  | inr _ => pfatal fmt
  end.

(** A store through a [MAP_SHARED] mapping of the file [name]. *)
Definition store_file (name : string) (off : Z) (bs : list byte) : Sys unit := fun w =>
  match w_fs w !! name with
  | Some (File content) =>
      match store_at content off bs with
      | Some content' =>
          (Ret tt, mkWorld (w_ans w) (w_trace w) (<[name := File content']> (w_fs w)) (w_open w))
      | None => (Undef "store outside the mapping", w)
      end
  | _ => (Undef "store through a stale mapping", w)
  end.

(** ** What a trace says about a descriptor *)

Definition sent_on (fd : Z) (e : event) : list byte :=
  match e with
  | Called (Write f data) (ROk v) => if bool_decide (f = fd) then ztake v data else []
  | _ => []
  end.

Definition got_on (fd : Z) (e : event) : list byte :=
  match e with
  | Called (Read f _) (RBytes bs) => if bool_decide (f = fd) then bs else []
  | _ => []
  end.

Definition written (fd : Z) (t : list event) : list byte := t ≫= sent_on fd.
Definition received (fd : Z) (t : list event) : list byte := t ≫= got_on fd.

Lemma written_app fd t1 t2 : written fd (t1 ++ t2) = written fd t1 ++ written fd t2.
Proof. apply bind_app. Qed.

Lemma received_app fd t1 t2 : received fd (t1 ++ t2) = received fd t1 ++ received fd t2.
Proof. apply bind_app. Qed.

(** ** Reasoning about [Sys] *)

Lemma bind_Ret {A B} (m : Sys A) (f : A -> Sys B) w b w' :
  (m ≫= f) w = (Ret b, w') ->
  exists a w1, m w = (Ret a, w1) /\ f a w1 = (Ret b, w').
Proof.
  unfold mbind, sys_bind. destruct (m w) as [[] w1]; naive_solver.
Qed.

Lemma bind_of_Ret {A B} (m : Sys A) (f : A -> Sys B) w a w1 :
  m w = (Ret a, w1) -> (m ≫= f) w = f a w1.
Proof. unfold mbind, sys_bind. by intros ->. Qed.

Lemma bind_assoc {A B C} (m : Sys A) (f : A -> Sys B) (g : B -> Sys C) w :
  ((m ≫= f) ≫= g) w = (m ≫= (fun a => f a ≫= g)) w.
Proof. unfold mbind, sys_bind. by destruct (m w) as [[] ?]. Qed.

(** Unfolds the monad in the goal or in a hypothesis about a concrete run. *)
Ltac sys_go :=
  unfold sys_or_pfatal, sys_int, sys_ignore, sys, emit, log, print, pfatal, undef, stop,
    mret, sys_ret, mbind, sys_bind; cbn.
Ltac sys_run H :=
  unfold sys_or_pfatal, sys_int, sys_ignore, sys, emit, log, print, pfatal, undef, stop,
    mret, sys_ret, mbind, sys_bind in H; cbn in H.

(** [wp m Q w]: running [m] in [w] ends in an outcome and a world that
    satisfy [Q]. *)
Definition wp {A} (m : Sys A) (Q : outcome A -> World -> Prop) (w : World) : Prop :=
  Q (fst (m w)) (snd (m w)).

(** [keep R Q o w]: [Q] for a returned value, [R] for every other end. *)
Definition on_ret {A} (R : World -> Prop) (Q : A -> World -> Prop)
    (o : outcome A) (w : World) : Prop :=
  match o with
  | Ret a => Q a w
  | Undef _ => False
  | _ => R w
  end.

Lemma wp_mono {A} (m : Sys A) (Q Q' : outcome A -> World -> Prop) w :
  (forall o w', Q o w' -> Q' o w') -> wp m Q w -> wp m Q' w.
Proof. unfold wp. auto. Qed.

Lemma wp_Ret {A} (m : Sys A) R (Q : A -> World -> Prop) w a w' :
  wp m (on_ret R Q) w -> m w = (Ret a, w') -> Q a w'.
Proof. unfold wp. destruct (m w) as [[] ?]; naive_solver. Qed.

Lemma wp_not_undef {A} (m : Sys A) R (Q : A -> World -> Prop) w what w' :
  wp m (on_ret R Q) w -> m w <> (Undef what, w').
Proof. unfold wp. destruct (m w) as [[] ?]; naive_solver. Qed.

Lemma wp_bind {A B} (m : Sys A) (f : A -> Sys B) (R : World -> Prop) (Q : B -> World -> Prop) w :
  wp m (on_ret R (fun a w' => wp (f a) (on_ret R Q) w')) w ->
  wp (m ≫= f) (on_ret R Q) w.
Proof. unfold wp, mbind, sys_bind. by destruct (m w) as [[] ?]. Qed.

Lemma wp_ret {A} (a : A) (R : World -> Prop) (Q : A -> World -> Prop) w :
  Q a w -> wp (mret a) (on_ret R Q) w.
Proof. done. Qed.

Lemma wp_stop {A} (o : outcome A) (Q : outcome A -> World -> Prop) w :
  Q o w -> wp (stop o) Q w.
Proof. done. Qed.

Lemma wp_sys c (R : World -> Prop) (Q : sysret -> World -> Prop) w :
  R w ->
  (forall r rest, w_ans w = r :: rest -> legal c (clip c r) w = true ->
     Q (clip c r) (kernel c (clip c r) rest w)) ->
  wp (sys c) (on_ret R Q) w.
Proof.
  intros HR HQ. unfold wp, sys. destruct (w_ans w) as [|r rest]; cbn; auto.
  destruct (legal c (clip c r) w) eqn:E; cbn; auto.
Qed.

(** ** Loops

    [while (...) { ... }] with its loop variables in [S]: the body continues
    with [inl] and leaves the loop with [inr]. Every loop of the program makes
    a system call per iteration, so the number of scripted answers bounds the
    iterations that can finish; [loop_unfold] is the loop's own equation, in
    which no fuel is left. *)

Fixpoint iter_fuel {S A} (n : nat) (body : S -> Sys (S + A)) (s : S) : Sys A :=
  match n with
  | O => stop Blocked
  | Datatypes.S n' =>
      r ← body s;
      match r with
      | inl s' => iter_fuel n' body s'
      | inr a => mret a
      end
  end.

Definition loop {S A} (body : S -> Sys (S + A)) (s : S) : Sys A := fun w =>
  iter_fuel (Datatypes.S (length (w_ans w))) body s w.

(** An iteration that continues has used up at least one answer. *)
Definition consuming {S A} (body : S -> Sys (S + A)) : Prop :=
  forall s w s' w', body s w = (Ret (inl s'), w') -> (length (w_ans w') < length (w_ans w))%nat.

Section loop_facts.
Context {S A : Type} (body : S -> Sys (S + A)) (Hc : consuming body).

Lemma iter_fuel_enough n m s w :
  (length (w_ans w) < n)%nat -> (length (w_ans w) < m)%nat ->
  iter_fuel n body s w = iter_fuel m body s w.
Proof.
  revert m s w. induction n as [|n IH]; intros [|m] s w Hn Hm; try lia.
  cbn. unfold mbind, sys_bind.
  destruct (body s w) as [[[s'|a]| | | |] w'] eqn:E; try done.
  apply Hc in E. apply IH; lia.
Qed.

Lemma loop_unfold s w :
  loop body s w =
  (r ← body s; match r with inl s' => loop body s' | inr a => mret a end) w.
Proof.
  unfold loop at 1. cbn. unfold mbind, sys_bind.
  destruct (body s w) as [[[s'|a]| | | |] w'] eqn:E; try done.
  apply Hc in E. unfold loop. apply iter_fuel_enough; lia.
Qed.

Lemma loop_inl s w s' w' :
  body s w = (Ret (inl s'), w') -> loop body s w = loop body s' w'.
Proof. intros E. by rewrite loop_unfold, (bind_of_Ret _ _ _ _ _ E). Qed.

Lemma loop_inr s w a w' :
  body s w = (Ret (inr a), w') -> loop body s w = (Ret a, w').
Proof. intros E. by rewrite loop_unfold, (bind_of_Ret _ _ _ _ _ E). Qed.

Section invariant.
Context (I : S -> World -> Prop) (R : World -> Prop) (Q : A -> World -> Prop).
Hypothesis body_inv : forall s w, I s w ->
  wp (body s) (on_ret R (fun r w' => match r with inl s' => I s' w' | inr a => Q a w' end)) w.

Lemma wp_iter_fuel n s w :
  (length (w_ans w) < n)%nat -> I s w -> wp (iter_fuel n body s) (on_ret R Q) w.
Proof.
  revert s w. induction n as [|n IH]; intros s w Hn HI; [lia|].
  cbn. apply wp_bind. specialize (body_inv s w HI) as Hb. unfold wp in Hb |- *.
  destruct (body s w) as [[[s'|a]| | | |] w'] eqn:E; cbn in *; try done.
  apply IH; [|done]. apply Hc in E. lia.
Qed.

Lemma wp_loop s w : I s w -> wp (loop body s) (on_ret R Q) w.
Proof. intros HI. apply wp_iter_fuel; [lia|done]. Qed.
End invariant.
End loop_facts.

(** ** Relations every part of a program respects *)

(** [within R m]: a run of [m] that returns relates its worlds by [R]. *)
Definition within (R : World -> World -> Prop) {A} (m : Sys A) : Prop :=
  forall w a w', m w = (Ret a, w') -> R w w'.

Section within.
Context (R : World -> World -> Prop) `{!PreOrder R}.

Lemma within_ret {A} (a : A) : within R (mret a).
Proof using All. by intros w b w' [= _ <-]. Qed.

Lemma within_stop {A} (o : outcome A) : (forall a, o <> Ret a) -> within R (stop o).
Proof. intros H w a w' [= E _]. by apply H in E. Qed.

Lemma within_bind {A B} (m : Sys A) (f : A -> Sys B) :
  within R m -> (forall a, within R (f a)) -> within R (m ≫= f).
Proof using All. intros Hm Hf w b w' (a & w1 & E1 & E2)%bind_Ret. trans w1; [by eapply Hm|by eapply Hf]. Qed.

Lemma within_sys_int c : within R (sys c) -> within R (sys_int c).
Proof using All. intros H. apply within_bind; [done|]. intros []; by (apply within_ret || apply within_stop). Qed.

Lemma within_sys_or_pfatal c fmt : within R (sys c) -> within R (sys_or_pfatal c fmt).
Proof using All. intros H. apply within_bind; [by apply within_sys_int|]. intros []; by (apply within_ret || apply within_stop). Qed.

Lemma within_sys_ignore c : within R (sys c) -> within R (sys_ignore c).
Proof using All. intros H. apply within_bind; [done|]. intros ?. apply within_ret. Qed.

Lemma within_loop {S A} (body : S -> Sys (S + A)) s : (forall s, within R (body s)) -> within R (loop body s).
Proof using All.
  intros Hb w a w'. unfold loop. generalize (Datatypes.S (length (w_ans w))). intros n. revert s w.
  induction n as [|n IH]; intros s w; cbn; [done|]. intros (r & w1 & E%Hb & H)%bind_Ret. trans w1; [done|].
  destruct r as [s1|a1]; [by eapply IH|]. by injection H as _ <-.
Qed.
End within.

(** Splits a program along its structure; [leaf] closes what is known. *)
Ltac within_by leaf :=
  repeat first
    [ progress intros
    | leaf
    | apply within_stop; done
    | apply within_ret; apply _
    | apply within_sys_int; [apply _|]
    | apply within_sys_or_pfatal; [apply _|]
    | apply within_sys_ignore; [apply _|]
    | apply within_loop; [apply _|]
    | apply within_bind; [apply _| |]
    | case_match ].

(** ** What every event of a run has in common *)

(** [emits P m]: however [m] ends, the events it adds to the trace satisfy
    [P]. *)
Definition emits (P : event -> Prop) {A} (m : Sys A) : Prop :=
  forall w, exists t, w_trace (m w).2 = w_trace w ++ t /\ Forall P t.

Section emits.
Context (P : event -> Prop).

Lemma emits_stop {A} (o : outcome A) : emits P (stop o).
Proof. intros w. exists []. by rewrite app_nil_r. Qed.

Lemma emits_ret {A} (a : A) : emits P (mret a).
Proof. exact (emits_stop (Ret a)). Qed.

Lemma emits_emit e : P e -> emits P (emit e).
Proof. intros He w. exists [e]. by repeat constructor. Qed.

Lemma emits_sys c : (forall r, P (Called c r)) -> emits P (sys c).
Proof.
  intros Hc w. unfold sys. destruct (w_ans w) as [|r rest]; [exists []; by rewrite app_nil_r|].
  destruct (legal _ _ _); [exists [Called c (clip c r)]; by repeat constructor|exists []; by rewrite app_nil_r].
Qed.

Lemma emits_bind {A B} (m : Sys A) (f : A -> Sys B) : emits P m -> (forall a, emits P (f a)) -> emits P (m ≫= f).
Proof.
  intros Hm Hf w. destruct (Hm w) as (t1 & E1 & H1). unfold mbind, sys_bind.
  destruct (m w) as [[a| | | |] w1]; cbn in *; try by exists t1.
  destruct (Hf a w1) as (t2 & E2 & H2). exists (t1 ++ t2). rewrite E2, E1, app_assoc. split; [done|by apply Forall_app].
Qed.

Lemma emits_sys_int c : emits P (sys c) -> emits P (sys_int c).
Proof. intros H. apply emits_bind; [done|]. intros []; by (apply emits_ret || apply emits_stop). Qed.

Lemma emits_sys_or_pfatal c fmt : emits P (sys c) -> emits P (sys_or_pfatal c fmt).
Proof. intros H. apply emits_bind; [by apply emits_sys_int|]. intros []; by (apply emits_ret || apply emits_stop). Qed.

Lemma emits_sys_ignore c : emits P (sys c) -> emits P (sys_ignore c).
Proof. intros H. apply emits_bind; [done|]. intros ?. apply emits_ret. Qed.

Lemma emits_loop {S A} (body : S -> Sys (S + A)) s : (forall s, emits P (body s)) -> emits P (loop body s).
Proof.
  intros Hb. assert (forall n s, emits P (iter_fuel n body s)) as H; [|intros w; apply H].
  induction n as [|n IH]; intros s'; cbn; [apply emits_stop|]. apply emits_bind; [done|].
  intros [s1|a]; [apply IH|apply emits_ret].
Qed.
End emits.

(** Splits a program along its structure; [leaf] closes what is known. *)
Ltac emits_by leaf :=
  repeat first
    [ progress intros
    | leaf
    | apply emits_stop
    | apply emits_ret
    | apply emits_sys_int
    | apply emits_sys_or_pfatal
    | apply emits_sys_ignore
    | apply emits_loop
    | apply emits_bind
    | case_match ].

(** [io_step w w' t]: from [w] to [w'] the run made the steps [t] and left
    the files alone. *)
Record io_step (w w' : World) (t : list event) : Prop := mkIoStep {
  io_trace : w_trace w' = w_trace w ++ t;
  io_fs : w_fs w' = w_fs w;
  io_open : w_open w' = w_open w
}.

Lemma io_step_refl w : io_step w w [].
Proof. split; [by rewrite app_nil_r|done..]. Qed.

Lemma io_step_trans w1 w2 w3 t1 t2 :
  io_step w1 w2 t1 -> io_step w2 w3 t2 -> io_step w1 w3 (t1 ++ t2).
Proof.
  intros [H1 H2 H3] [H4 H5 H6].
  split; [by rewrite H4, H1, app_assoc|congruence..].
Qed.

(** The calls that do not touch the names or contents of files. *)
Definition pure_io (c : syscall) : bool :=
  match c with
  | Mkstemp _ | Ftruncate _ _ | Rename _ _ | Mkdir _ _ | Unlink _ | Close _ => false
  | _ => true
  end.

Lemma io_step_kernel c r rest w :
  pure_io c = true -> io_step w (kernel c r rest w) [Called c r].
Proof. by destruct c. Qed.

Lemma io_step_snoc w w1 c r rest t :
  io_step w w1 t -> pure_io c = true -> io_step w (kernel c r rest w1) (t ++ [Called c r]).
Proof. intros H Hc. eapply io_step_trans; [done|]. by apply io_step_kernel. Qed.

Lemma wp_sys_int c (R : World -> Prop) (Q : Z + errno -> World -> Prop) w :
  R w ->
  (forall r rest, w_ans w = r :: rest -> legal c (clip c r) w = true ->
     let w' := kernel c (clip c r) rest w in
     match clip c r with
     | ROk v => Q (inl v) w'
     | RErr e => Q (inr e) w'
     | _ => R w'
     end) ->
  wp (sys_int c) (on_ret R Q) w.
Proof.
  intros HR HQ. unfold sys_int. apply wp_bind, wp_sys; [done|].
  intros r rest Hr Hl. specialize (HQ r rest Hr Hl). cbn in HQ.
  by destruct (clip c r).
Qed.

Lemma wp_sys_or_pfatal c fmt (R : World -> Prop) (Q : Z -> World -> Prop) w :
  (forall w', R w') ->
  (forall r rest v, w_ans w = r :: rest -> legal c (ROk v) w = true -> clip c r = ROk v ->
     Q v (kernel c (ROk v) rest w)) ->
  wp (sys_or_pfatal c fmt) (on_ret R Q) w.
Proof.
  intros HR HQ. unfold sys_or_pfatal. apply wp_bind, wp_sys_int; [done|].
  intros r rest Hr Hl. cbn zeta. destruct (clip c r) eqn:E; try apply HR.
  by apply wp_ret, (HQ r).
Qed.

Lemma wp_sys_ignore c (R : World -> Prop) (Q : unit -> World -> Prop) w :
  (forall w', R w') ->
  (forall r rest, w_ans w = r :: rest -> legal c (clip c r) w = true ->
     Q tt (kernel c (clip c r) rest w)) ->
  wp (sys_ignore c) (on_ret R Q) w.
Proof. intros HR HQ. apply wp_bind, wp_sys; [done|]. intros. by apply wp_ret, HQ. Qed.

(** ** Answers are used up, never put back *)

Lemma loop_ans {S A} (body : S -> Sys (S + A)) s w a w' :
  (forall s w r w', body s w = (Ret r, w') -> (length (w_ans w') <= length (w_ans w))%nat) ->
  loop body s w = (Ret a, w') -> (length (w_ans w') <= length (w_ans w))%nat.
Proof.
  intros Hb. unfold loop. generalize (Datatypes.S (length (w_ans w))). intros n.
  revert s w. induction n as [|n IH]; intros s w; cbn; [done|].
  intros ([s1|a1] & w1 & E & H)%bind_Ret; apply Hb in E.
  - apply IH in H. lia.
  - unfold mret, sys_ret in H. simplify_eq. lia.
Qed.

Lemma sys_ans c w r w' :
  sys c w = (Ret r, w') -> (length (w_ans w') < length (w_ans w))%nat.
Proof.
  unfold sys. destruct (w_ans w); [done|]. case_ifs; [|done]. intros [= <- <-]. cbn. lia.
Qed.

Lemma sys_int_ans c w r w' :
  sys_int c w = (Ret r, w') -> (length (w_ans w') < length (w_ans w))%nat.
Proof.
  intros (x & w1 & E%sys_ans & H)%bind_Ret. destruct x; cbn in H; simplify_eq;
    unfold mret, sys_ret, stop in H; simplify_eq; lia.
Qed.

Lemma sys_or_pfatal_ans c fmt w r w' :
  sys_or_pfatal c fmt w = (Ret r, w') -> (length (w_ans w') < length (w_ans w))%nat.
Proof.
  intros (x & w1 & E%sys_int_ans & H)%bind_Ret. destruct x; cbn in H;
    unfold mret, sys_ret, pfatal, stop in H; simplify_eq; lia.
Qed.

(** ** One call, one entry of the trace *)

Lemma sys_trace c w r w' : sys c w = (Ret r, w') -> w_trace w' = w_trace w ++ [Called c r].
Proof. unfold sys. destruct (w_ans w); [done|]. case_ifs; [|done]. by intros [= <- <-]. Qed.

Lemma sys_int_trace c w r w' :
  sys_int c w = (Ret r, w') ->
  w_trace w' = w_trace w ++ [Called c (match r with inl v => ROk v | inr e => RErr e end)].
Proof.
  intros (x & w1 & E%sys_trace & H)%bind_Ret.
  destruct x; unfold mret, sys_ret, stop in H; by simplify_eq.
Qed.

Lemma sys_or_pfatal_trace c fmt w v w' :
  sys_or_pfatal c fmt w = (Ret v, w') -> w_trace w' = w_trace w ++ [Called c (ROk v)].
Proof.
  intros (x & w1 & E%sys_int_trace & H)%bind_Ret.
  destruct x; unfold mret, sys_ret, pfatal, stop in H; by simplify_eq.
Qed.

Lemma sys_ignore_trace c w u w' :
  sys_ignore c w = (Ret u, w') -> exists r, w_trace w' = w_trace w ++ [Called c r].
Proof. intros (r & w1 & H%sys_trace & Hr)%bind_Ret. injection Hr as <- <-. by exists r. Qed.
