(* ===== verification/Net.v ===== *)
(** * [enu/net.h]: transfers of a whole buffer over read(2) and write(2)

    The loops of [write_partial] and [read_partial] with their [IOResult],
    what they send and receive in terms of the trace, when they complete, and
    that a transfer from one end of a byte stream to the other is the
    identity. *)

From S2P Require Import Prelude Sys.

Inductive IOKind := Ok | Fail.

#[global] Instance IOKind_eq_dec : EqDecision IOKind.
Proof. solve_decision. Defined.

Record IOResult := mkIO { kind : IOKind; n_bytes : Z }.

(** [IOResult::operator bool]. *)
Definition io_ok (r : IOResult) : bool := bool_decide (kind r = Ok).

Definition MAX_RW_SIZE : Z := 2 ^ 31 - 1.

Definition retryable (e : errno) : bool :=
  bool_decide (e = EINTR) || bool_decide (e = EAGAIN) || bool_decide (e = EWOULDBLOCK).

(** One iteration of the loop of [write_partial]; the loop variable is [off]. *)
Definition write_body (fd : Z) (buf : list byte) (off : Z) : Sys (Z + IOResult) :=
  if off <? zlen buf then
    let chunk := Z.min MAX_RW_SIZE (zlen buf - off) in
    b_wrote ← sys_int (Write fd (ztake chunk (zdrop off buf)));
    match b_wrote with
    | inl n => if n =? 0 then mret (inr (mkIO Ok off)) else mret (inl (off + n))
    | inr e => if retryable e then mret (inl off) else mret (inr (mkIO Fail off))
    end
  else mret (inr (mkIO Ok off)).

Definition write_partial (fd : Z) (buf : list byte) : Sys IOResult :=
  loop (write_body fd buf) 0.

Definition write_exact (fd : Z) (buf : list byte) : Sys IOResult :=
  r ← write_partial fd buf;
  mret (if n_bytes r =? zlen buf then r else mkIO Fail (n_bytes r)).

(** One iteration of the loop of [read_partial]: [off] and the bytes already
    stored at [buf[0..off)]. *)
Definition read_body (fd len : Z) (st : Z * list byte) : Sys (Z * list byte + IOResult * list byte) :=
  let '(off, got) := st in
  if off <? len then
    let chunk := Z.min MAX_RW_SIZE (len - off) in
    b_read ← sys (Read fd chunk);
    match b_read with
    | RBytes bs =>
        if zlen bs =? 0 then mret (inr (mkIO Ok off, got))
        else mret (inl (off + zlen bs, got ++ bs))
    | RErr e => if retryable e then mret (inl (off, got)) else mret (inr (mkIO Fail off, got))
    | _ => stop Blocked
    end
  else mret (inr (mkIO Ok off, got)).

(** The result and the bytes stored from the start of the destination. *)
Definition read_partial (fd len : Z) : Sys (IOResult * list byte) :=
  loop (read_body fd len) (0, []).

Definition read_exact (fd len : Z) : Sys (IOResult * list byte) :=
  '(r, got) ← read_partial fd len;
  mret (if n_bytes r =? len then r else mkIO Fail (n_bytes r), got).

(** ** Writing *)

(** A call of [write_partial] on [fd], with a count within (0, INT_MAX]. *)
Definition write_call (fd : Z) (e : event) : Prop :=
  exists d r, e = Called (Write fd d) r /\ 0 < zlen d <= MAX_RW_SIZE.

(** Why a transfer loop on [fd] stopped, read off its last call. *)
Definition write_end (fd : Z) (len : Z) (r : IOResult) (t : list event) : Prop :=
  match kind r with
  | Ok => n_bytes r = len \/
      n_bytes r < len /\ exists d, last t = Some (Called (Write fd d) (ROk 0))
  | Fail => n_bytes r < len /\
      exists d e, last t = Some (Called (Write fd d) (RErr e)) /\ retryable e = false
  end.

Definition write_post (fd : Z) (buf : list byte) (w0 : World) (r : IOResult) (w : World) : Prop :=
  exists t, io_step w0 w t /\ written fd t = ztake (n_bytes r) buf /\
    0 <= n_bytes r <= zlen buf /\ Forall (write_call fd) t /\ write_end fd (zlen buf) r t.

(** The wire has seen a prefix of the buffer, nothing else. *)
Definition write_prefix (fd : Z) (buf : list byte) (w0 w : World) : Prop :=
  exists t, io_step w0 w t /\ written fd t `prefix_of` buf /\ Forall (write_call fd) t.

Lemma write_body_consuming fd buf : consuming (write_body fd buf).
Proof.
  intros off w off' w' H. unfold write_body in H. case_ifs; sys_run H; [|done].
  destruct (w_ans w) as [|[] rest] eqn:E; cbn in H; case_ifs; sys_run H;
    simplify_eq; cbn; lia.
Qed.

Lemma ztake_prefix {A} n (l : list A) : ztake n l `prefix_of` l.
Proof. exists (zdrop n l). symmetry. apply ztake_zdrop. Qed.

Lemma sent_on_write fd d v : sent_on fd (Called (Write fd d) (ROk v)) = ztake v d.
Proof. cbn. by rewrite bool_decide_eq_true_2. Qed.

Lemma written_snoc fd t e : written fd (t ++ [e]) = written fd t ++ sent_on fd e.
Proof. rewrite written_app. cbn. by rewrite app_nil_r. Qed.

Lemma write_partial_wp fd buf w0 :
  wp (write_partial fd buf) (on_ret (write_prefix fd buf w0) (write_post fd buf w0)) w0.
Proof.
  apply (wp_loop _ (write_body_consuming fd buf)) with
    (I := fun off w => exists t, io_step w0 w t /\ written fd t = ztake off buf /\
       0 <= off <= zlen buf /\ Forall (write_call fd) t).
  2:{ exists []. split_and!; [apply io_step_refl|done|lia|zl|done]. }
  intros off w (t & Ht & Hw & Hoff & Hcalls). unfold write_body.
  case_ifs; zbool.
  2:{ exists t. cbn. split_and!; try done; lia. }
  set (d := ztake _ _).
  assert (0 < zlen d <= MAX_RW_SIZE) as Hd by (subst d; unfold MAX_RW_SIZE; zl).
  apply wp_bind, wp_sys_int.
  { exists t. split_and!; [done|rewrite Hw; apply ztake_prefix|done]. }
  intros r rest _ _. cbn zeta.
  assert (forall r', Forall (write_call fd) (t ++ [Called (Write fd d) r'])) as Hcalls'.
  { intros. apply Forall_app. split; [done|]. repeat constructor. by eexists _, _. }
  assert (forall r', (forall v, r' <> ROk v) ->
    written fd (t ++ [Called (Write fd d) r']) = ztake off buf) as Hnone.
  { intros r' Hr'. rewrite written_snoc, Hw. destruct r'; cbn; try by rewrite app_nil_r.
    by destruct (Hr' v). }
  destruct r as [v|bs|vs|f name|e]; cbn [clip].
  2-4: (eexists; split_and!; [by apply io_step_snoc|rewrite Hnone by done; apply ztake_prefix|done]).
  - set (n := Z.max 0 (Z.min v (zlen d))).
    assert (written fd (t ++ [Called (Write fd d) (ROk n)]) = ztake (off + n) buf) as Hw'.
    { rewrite written_snoc, Hw, sent_on_write, ztake_add by (subst n; lia).
      f_equal. subst d. rewrite ztake_ztake. f_equal. subst n. zl. }
    assert (off + n <= zlen buf) by (subst n d; zl).
    case_ifs; zbool; apply wp_ret.
    + eexists. cbn. split_and!; [by apply io_step_snoc| |lia|lia|done|].
      * rewrite Hw'. f_equal. lia.
      * right. split; [cbn; lia|]. exists d. rewrite last_snoc. do 2 f_equal. congruence.
    + eexists. split_and!; [by apply io_step_snoc|done|lia|lia|done].
  - case_ifs; apply wp_ret.
    + eexists. split_and!; [by apply io_step_snoc|by rewrite Hnone|lia|lia|done].
    + eexists. split_and!; [by apply io_step_snoc|by rewrite Hnone|cbn;lia|cbn;lia|done|].
      split; [cbn; lia|]. exists d, e. by rewrite last_snoc.
Qed.

Lemma write_partial_post fd buf w r w' :
  write_partial fd buf w = (Ret r, w') -> write_post fd buf w r w'.
Proof. apply wp_Ret with (R := write_prefix fd buf w), write_partial_wp. Qed.

(** [write_exact] reports success exactly when the whole buffer went out. *)
Lemma write_exact_post fd buf w r w' :
  write_exact fd buf w = (Ret r, w') ->
  exists t, io_step w w' t /\ written fd t = ztake (n_bytes r) buf /\
    0 <= n_bytes r <= zlen buf /\ Forall (write_call fd) t /\
    (io_ok r = true <-> written fd t = buf).
Proof.
  intros (r0 & w1 & H & Hr)%bind_Ret.
  apply write_partial_post in H as (t & Ht & Hw & Hn & Hc & He).
  unfold mret, sys_ret in Hr. injection Hr as <- <-.
  exists t. unfold write_end in He.
  assert (written fd t = buf <-> n_bytes r0 = zlen buf) as Hiff.
  { rewrite Hw. split; [intros Heq%(f_equal zlen); zl|].
    intros ->. apply ztake_all. lia. }
  rewrite Hiff. unfold io_ok. rewrite bool_decide_eq_true.
  destruct (Z.eqb_spec (n_bytes r0) (zlen buf)); cbn; split_and!; try (done || lia).
  split; [done|]. intros _. destruct (kind r0) eqn:Hk; [done|lia].
Qed.

(** The answers under which a transfer makes progress: a positive count, or
    an error after which the loop tries again. *)
Definition write_progress (r : sysret) : Prop :=
  match r with
  | ROk v => 0 < v
  | RErr e => retryable e = true
  | _ => False
  end.

Definition write_grant (r : sysret) : Z :=
  match r with ROk v => Z.min v MAX_RW_SIZE | _ => 0 end.

Fixpoint grants (f : sysret -> Z) (s : list sysret) : Z :=
  match s with [] => 0 | r :: s' => f r + grants f s' end.

Lemma write_body_grant fd buf off r rest w :
  w_ans w = r :: rest -> write_progress r -> 0 <= off < zlen buf ->
  exists n w', write_body fd buf off w = (Ret (inl (off + n)), w') /\ w_ans w' = rest /\
    0 <= n /\ Z.min (zlen buf - off) (write_grant r) <= n <= zlen buf - off.
Proof.
  intros Hans Hr Hoff. unfold write_body. destruct (Z.ltb_spec off (zlen buf)); [|lia].
  sys_go. rewrite Hans. destruct r as [v|?|?|? ?|e]; cbn in *; try done.
  - assert (zlen (ztake (Z.min MAX_RW_SIZE (zlen buf - off)) (zdrop off buf)) =
      Z.min MAX_RW_SIZE (zlen buf - off)) as -> by (unfold MAX_RW_SIZE; zl).
    unfold MAX_RW_SIZE. case_ifs; zbool; [lia|]. eexists _, _. split_and!; [done|done|lia..].
  - rewrite Hr. exists 0, (kernel (Write fd (ztake (Z.min MAX_RW_SIZE (zlen buf - off))
      (zdrop off buf))) (RErr e) rest w). rewrite Z.add_0_r. split_and!; [done|done|lia..].
Qed.

Lemma write_grants_nonneg s : Forall write_progress s -> 0 <= grants write_grant s.
Proof.
  induction 1 as [|r s Hr Hs IH]; cbn; [done|].
  destruct r; cbn in *; unfold MAX_RW_SIZE; lia.
Qed.

Lemma write_from_live fd buf s rest off w :
  w_ans w = s ++ rest -> Forall write_progress s -> 0 <= off <= zlen buf ->
  zlen buf - off <= grants write_grant s ->
  exists w', loop (write_body fd buf) off w = (Ret (mkIO Ok (zlen buf)), w').
Proof.
  revert off w. induction s as [|r s IH]; intros off w Hans Hs Hoff Hg.
  all: destruct (decide (off = zlen buf)) as [->|].
  1,3: exists w; apply loop_inr; [apply write_body_consuming|];
    unfold write_body; by rewrite Z.ltb_irrefl.
  - cbn in Hg. lia.
  - apply Forall_cons in Hs as [Hr Hs]. cbn in Hg.
    destruct (write_body_grant fd buf off r (s ++ rest) w) as (k & w1 & E & Hans1 & Hk0 & Hk);
      [done|done|lia|].
    pose proof (write_grants_nonneg s Hs).
    rewrite (loop_inl _ (write_body_consuming fd buf) _ _ _ _ E). apply IH; [done|done|lia|lia].
Qed.

(** ** Reading *)

Definition read_call (fd : Z) (e : event) : Prop :=
  exists n r, e = Called (Read fd n) r /\ 0 < n <= MAX_RW_SIZE.

(** A short count without an error is an end of file: read(2) returned 0. *)
Definition read_end (fd : Z) (len : Z) (r : IOResult) (t : list event) : Prop :=
  match kind r with
  | Ok => n_bytes r = Z.max 0 len \/
      n_bytes r < len /\ exists n, last t = Some (Called (Read fd n) (RBytes []))
  | Fail => n_bytes r < len /\
      exists n e, last t = Some (Called (Read fd n) (RErr e)) /\ retryable e = false
  end.

Definition read_post (fd len : Z) (w0 : World) (rg : IOResult * list byte) (w : World) : Prop :=
  let '(r, got) := rg in
  exists t, io_step w0 w t /\ received fd t = got /\ zlen got = n_bytes r /\
    n_bytes r <= Z.max 0 len /\ Forall (read_call fd) t /\ read_end fd len r t.

Definition read_some (fd : Z) (w0 w : World) : Prop :=
  exists t, io_step w0 w t /\ Forall (read_call fd) t.

Lemma read_body_consuming fd len : consuming (read_body fd len).
Proof.
  intros [off got] w s' w' H. unfold read_body in H. case_ifs; sys_run H; [|done].
  destruct (w_ans w) as [|[] rest] eqn:E; cbn in H; case_ifs; sys_run H;
    simplify_eq; cbn; lia.
Qed.

Lemma got_on_read fd n bs : got_on fd (Called (Read fd n) (RBytes bs)) = bs.
Proof. cbn. by rewrite bool_decide_eq_true_2. Qed.

Lemma received_snoc fd t e : received fd (t ++ [e]) = received fd t ++ got_on fd e.
Proof. rewrite received_app. cbn. by rewrite app_nil_r. Qed.

Definition read_inv (fd len : Z) (w0 : World) (st : Z * list byte) (w : World) : Prop :=
  exists t, io_step w0 w t /\ received fd t = st.2 /\ zlen st.2 = st.1 /\
    st.1 <= Z.max 0 len /\ Forall (read_call fd) t.

Lemma read_body_inv fd len w0 st w :
  read_inv fd len w0 st w ->
  wp (read_body fd len st) (on_ret (read_some fd w0) (fun r w' =>
    match r with inl st' => read_inv fd len w0 st' w' | inr a => read_post fd len w0 a w' end)) w.
Proof.
  destruct st as [off got]. intros (t & Ht & Hgot & Hoff & Hle & Hcalls). cbn in *.
  unfold read_body. case_ifs; zbool.
  2:{ exists t. cbn. split_and!; try done. left. cbn. zl. }
  set (n := Z.min _ _). assert (0 < n <= MAX_RW_SIZE) as Hn by (subst n; unfold MAX_RW_SIZE; lia).
  apply wp_bind, wp_sys; [by exists t|].
  intros r rest _ _.
  assert (forall r', Forall (read_call fd) (t ++ [Called (Read fd n) r'])) as Hcalls'.
  { intros. apply Forall_app. split; [done|]. repeat constructor. by eexists _, _. }
  destruct r as [v|bs|vs|f name|e]; cbn [clip].
  1,3,4: eexists; split; [by apply io_step_snoc|done].
  - set (bs' := ztake n bs). assert (zlen bs' <= n) by (subst bs'; zl).
    case_ifs; zbool; apply wp_ret; eexists; (split; [by apply io_step_snoc|]);
      rewrite received_snoc, got_on_read, Hgot; cbn.
    + assert (bs' = []) as -> by (apply zlen_0_nil; lia). rewrite app_nil_r.
      split_and!; try done. right. split; [cbn; lia|]. exists n. by rewrite last_snoc.
    + split_and!; [done|zl|lia|done].
  - case_ifs; apply wp_ret; eexists; (split; [by apply io_step_snoc|]);
      rewrite received_snoc, Hgot; cbn; rewrite app_nil_r; split_and!; try done.
    exists n, e. by rewrite last_snoc.
Qed.

Lemma read_partial_wp fd len w0 :
  wp (read_partial fd len) (on_ret (read_some fd w0) (read_post fd len w0)) w0.
Proof.
  apply (wp_loop _ (read_body_consuming fd len)) with (I := read_inv fd len w0);
    [apply read_body_inv|].
  exists []. cbn. split_and!; [apply io_step_refl|done..|lia|done].
Qed.

Lemma read_partial_post fd len w r got w' :
  read_partial fd len w = (Ret (r, got), w') -> read_post fd len w (r, got) w'.
Proof. apply wp_Ret with (R := read_some fd w), read_partial_wp. Qed.

Lemma read_exact_post fd len w r got w' :
  0 <= len -> read_exact fd len w = (Ret (r, got), w') ->
  exists t, io_step w w' t /\ received fd t = got /\ zlen got = n_bytes r /\
    zlen got <= len /\ Forall (read_call fd) t /\ (io_ok r = true <-> zlen got = len).
Proof.
  intros Hlen ([r0 got0] & w1 & H & Hr)%bind_Ret.
  apply read_partial_post in H as (t & Ht & Hg & Hn & Hle & Hc & He).
  unfold mret, sys_ret in Hr. injection Hr as <- <- <-. exists t. unfold read_end in He.
  unfold io_ok. rewrite bool_decide_eq_true.
  destruct (Z.eqb_spec (n_bytes r0) len); cbn; split_and!; try (done || lia).
  - split; [lia|]. intros _. destruct (kind r0) eqn:Hk; [done|lia].
  - split; [done|lia].
Qed.

(** ** Properties *)

(** However a [write_partial] ends (or while it still blocks), the wire
    has seen a prefix of the buffer and nothing else, every write(2) had a
    count in (0, INT_MAX], and when it returns: [n_bytes] is the length of that
    prefix, [Ok] with a short count means write(2) returned 0, and [Fail] means
    an error other than EINTR, EAGAIN and EWOULDBLOCK. *)
Theorem write_partial_sends_prefix fd buf w :
  wp (write_partial fd buf) (on_ret (write_prefix fd buf w) (write_post fd buf w)) w.
Proof. apply write_partial_wp. Qed.

(** [write_exact] converts to true exactly when every byte of the buffer
    went out, in order. *)
Theorem write_exact_iff_all fd buf w r w' :
  write_exact fd buf w = (Ret r, w') ->
  exists t, w_trace w' = w_trace w ++ t /\ (io_ok r = true <-> written fd t = buf).
Proof.
  intros (t & [Ht _ _] & _ & _ & _ & Hiff)%write_exact_post. by exists t.
Qed.

Lemma write_exact_iff_all_witness :
  exists t, w_trace (write_exact 7 (bytes_of "abc") (mkWorld [RErr EINTR; ROk 1; ROk 9] [] ∅ ∅)).2
              = [] ++ t /\
    (io_ok (mkIO Ok 3) = true <-> written 7 t = bytes_of "abc").
Proof. apply write_exact_iff_all with (w := mkWorld [RErr EINTR; ROk 1; ROk 9] [] ∅ ∅). reflexivity. Defined.

(** [write_exact] returns, with success, as soon as the kernel has granted
    the length of the buffer in positive counts, whatever interruptions come
    in between: the retry loop cannot spin for ever on such a descriptor. *)
Theorem write_exact_completes fd buf s rest w :
  w_ans w = s ++ rest -> Forall write_progress s -> zlen buf <= grants write_grant s ->
  exists w', write_exact fd buf w = (Ret (mkIO Ok (zlen buf)), w').
Proof.
  intros Hans Hs Hg.
  destruct (write_from_live fd buf s rest 0 w) as [w' Hw']; [done..|zl|lia|].
  exists w'. unfold write_exact. rewrite (bind_of_Ret _ _ _ _ _ Hw'). cbn.
  by rewrite Z.eqb_refl.
Qed.

Lemma write_exact_completes_witness :
  exists w', write_exact 7 (bytes_of "abc") (mkWorld [RErr EAGAIN; ROk 2; RErr EINTR; ROk 5] [] ∅ ∅)
    = (Ret (mkIO Ok 3), w').
Proof.
  apply (write_exact_completes 7 (bytes_of "abc") [RErr EAGAIN; ROk 2; RErr EINTR; ROk 5] []).
  - reflexivity.
  - repeat constructor.
  - vm_compute. discriminate.
Defined.

(** C25. [read_partial] returns the bytes read(2) delivered, in order, and with
    [Ok] it stops short of [len] only at an end of file: a descriptor with data
    pending is read until the whole count is there. *)
Theorem read_partial_short_only_at_eof fd len w r got w' :
  read_partial fd len w = (Ret (r, got), w') -> io_ok r = true -> n_bytes r <> Z.max 0 len ->
  exists t n, w_trace w' = w_trace w ++ t /\ received fd t = got /\ zlen got = n_bytes r /\
    n_bytes r < len /\ last t = Some (Called (Read fd n) (RBytes [])).
Proof.
  intros (t & [Ht _ _] & Hg & Hn & Hle & _ & He)%read_partial_post Hok Hshort.
  unfold io_ok in Hok. apply bool_decide_eq_true in Hok. unfold read_end in He.
  rewrite Hok in He. destruct He as [?|(? & n & ?)]; [done|]. by exists t, n.
Qed.

Lemma read_partial_short_only_at_eof_witness :
  exists t n,
    w_trace (read_partial 5 9 (mkWorld [RBytes (bytes_of "ab"); RErr EAGAIN; RBytes []] [] ∅ ∅)).2
      = [] ++ t /\
    received 5 t = bytes_of "ab" /\ zlen (bytes_of "ab") = 2 /\ 2 < 9 /\
    last t = Some (Called (Read 5 n) (RBytes [])).
Proof.
  apply (read_partial_short_only_at_eof 5 9
    (mkWorld [RBytes (bytes_of "ab"); RErr EAGAIN; RBytes []] [] ∅ ∅) (mkIO Ok 2)).
  - reflexivity.
  - reflexivity.
  - discriminate.
Defined.

(** C17. Round trip over a byte stream: when the reader's descriptor delivers
    the stream the writer's descriptor carried, a successful [read_exact] of
    the length a successful [write_exact] sent stores the same bytes, whatever
    the fragmentation and the interruptions on either side. *)
Theorem transfer_roundtrip fdw fdr buf w1 r1 w1' t1 w2 r2 got w2' t2 more1 more2 :
  write_exact fdw buf w1 = (Ret r1, w1') -> io_ok r1 = true ->
  w_trace w1' = w_trace w1 ++ t1 ->
  read_exact fdr (zlen buf) w2 = (Ret (r2, got), w2') -> io_ok r2 = true ->
  w_trace w2' = w_trace w2 ++ t2 ->
  received fdr t2 ++ more2 = written fdw t1 ++ more1 ->
  got = buf.
Proof.
  intros (t & [Ht _ _] & _ & _ & _ & Hw)%write_exact_post Hok1 Ht1.
  intros (t' & [Ht' _ _] & Hgot & _ & _ & _ & Hr)%read_exact_post Hok2 Ht2 Hs; [|zl].
  assert (t = t1) as -> by (apply (inj (app (w_trace w1))); congruence).
  assert (t' = t2) as -> by (apply (inj (app (w_trace w2))); congruence).
  apply Hw in Hok1. apply Hr in Hok2. rewrite Hok1, Hgot in Hs.
  apply (f_equal (ztake (zlen buf))) in Hs.
  rewrite !ztake_app_l, !ztake_all in Hs by zl. done.
Qed.

Lemma transfer_roundtrip_witness : bytes_of "abc" = bytes_of "abc".
Proof.
  set (w1 := mkWorld [ROk 2; RErr EINTR; ROk 1] [] ∅ ∅).
  set (w2 := mkWorld [RBytes (bytes_of "a"); RBytes (bytes_of "bcd")] [] ∅ ∅).
  apply (transfer_roundtrip 4 6 (bytes_of "abc") w1 (mkIO Ok 3) (write_exact 4 (bytes_of "abc") w1).2
    (w_trace (write_exact 4 (bytes_of "abc") w1).2) w2 (mkIO Ok 3) (bytes_of "abc")
    (read_exact 6 3 w2).2 (w_trace (read_exact 6 3 w2).2) [] []); reflexivity.
Defined.
