(* ===== verification/Wire.v ===== *)
(** * The messages of [enu/daemon.h] as bytes

    [DataMessage] is written and read as raw memory, so its wire format is the
    layout of the C++ struct on the (little-endian, LP64) hosts the program
    supports: the layout is computed from the sizes of the fields by the
    System V rule. The padding bytes of the sender's object are unspecified
    and are an argument of the encoder. *)

From S2P Require Import Prelude.

(** [std::filesystem::file_type], whose underlying type is [signed char] in
    libstdc++ and libc++; a value outside the enumerators is [invalid]. *)
Inductive file_type :=
  | ft_none | not_found | regular | directory | symlink
  | block | character | fifo | socket | unknown
  | invalid (v : Z).

#[global] Instance file_type_eq_dec : EqDecision file_type.
Proof. solve_decision. Defined.

Definition file_type_code (t : file_type) : Z :=
  match t with
  | ft_none => 0 | not_found => -1 | regular => 1 | directory => 2 | symlink => 3
  | block => 4 | character => 5 | fifo => 6 | socket => 7 | unknown => 8
  | invalid v => v
  end.

Definition file_type_of (v : Z) : file_type :=
  match v with
  | 0 => ft_none | -1 => not_found | 1 => regular | 2 => directory | 3 => symlink
  | 4 => block | 5 => character | 6 => fifo | 7 => socket | 8 => unknown
  | _ => invalid v
  end.

(** A [signed char] that is not one of the enumerators' values. *)
Definition file_type_wf (t : file_type) : Prop :=
  -128 <= file_type_code t < 128 /\ file_type_of (file_type_code t) = t.

Record DataMessage := mkDataMessage {
  seq : Z;
  perms : Z;
  ftype : file_type;
  path_len : Z;
  fsize : Z
}.

Definition DataMessage_wf (m : DataMessage) : Prop :=
  fits 32 (seq m) /\ fits 32 (perms m) /\ file_type_wf (ftype m) /\
  fits 16 (path_len m) /\ fits 64 (fsize m).

Record DaemonInitMessage := mkDaemonInitMessage { base_port : Z; n_conns : Z }.

(** ** Struct layout *)

Definition align_up (a off : Z) : Z := (off + a - 1) / a * a.

(** Offsets of fields given by size (each aligned to its size). *)
Fixpoint offsets (off : Z) (sizes : list Z) : list Z :=
  match sizes with
  | [] => []
  | n :: rest => let o := align_up n off in o :: offsets (o + n) rest
  end.

Fixpoint struct_end (off : Z) (sizes : list Z) : Z :=
  match sizes with
  | [] => off
  | n :: rest => struct_end (align_up n off + n) rest
  end.

Definition struct_size (sizes : list Z) : Z :=
  align_up (foldr Z.max 1 sizes) (struct_end 0 sizes).

(** [seq], [perms], [ftype], [path_len], [fsize]; the flexible array [data]
    follows at [sizeof(DataMessage)]. *)
Definition DataMessage_sizes : list Z := [4; 4; 1; 2; 8].
Definition DataMessage_size : Z := struct_size DataMessage_sizes.
Definition DaemonInitMessage_sizes : list Z := [2; 2].
Definition DaemonInitMessage_size : Z := struct_size DaemonInitMessage_sizes.

Example DataMessage_layout :
  offsets 0 DataMessage_sizes = [0; 4; 8; 10; 16] /\ DataMessage_size = 24.
Proof. split; reflexivity. Qed.

(** ** Object representation *)

(** [hdr] as the [sizeof(hdr)] bytes at its address; [pad] are the bytes at
    offsets 9 and 12 to 15. *)
Definition encode_hdr (pad : byte * list byte) (m : DataMessage) : list byte :=
  le_split 4 (seq m) ++ le_split 4 (perms m) ++
  le_split 1 (file_type_code (ftype m)) ++ [pad.1] ++
  le_split 2 (path_len m) ++ pad.2 ++
  le_split 8 (fsize m).

(** The object of [n] bytes at offset [off]. *)
Definition load (bs : list byte) (off n : Z) : Z := le_combine (ztake n (zdrop off bs)).

(** Conversion to [signed char], the underlying type of [file_type]. *)
Definition schar (z : Z) : Z := (z + 128) mod 256 - 128.

(** [reinterpret_cast<DataMessage*>(buf)] and the loads of its members. *)
Definition decode_hdr (bs : list byte) : DataMessage :=
  mkDataMessage (load bs 0 4) (load bs 4 4)
    (file_type_of (schar (load bs 8 1))) (load bs 10 2) (load bs 16 8).

#[global] Arguments decode_hdr : simpl never.
#[global] Arguments encode_hdr : simpl never.

Definition encode_init (m : DaemonInitMessage) : list byte :=
  le_split 2 (base_port m) ++ le_split 2 (n_conns m).

Definition decode_init (bs : list byte) : DaemonInitMessage :=
  mkDaemonInitMessage (load bs 0 2) (load bs 2 2).

(** ** Lemmas *)

Lemma zlen_le_split n z : zlen (le_split n z) = Z.of_nat n.
Proof. unfold zlen. by rewrite length_le_split. Qed.
#[export] Hint Rewrite zlen_le_split : zlen.

Lemma zlen_encode_hdr pad m : zlen (pad.2) = 4 -> zlen (encode_hdr pad m) = DataMessage_size.
Proof. intros H. unfold encode_hdr. autorewrite with zlen. rewrite H. reflexivity. Qed.

Lemma load_field_mod pre x post off n :
  zlen pre = off ->
  load (pre ++ le_split n x ++ post) off (Z.of_nat n) = x mod 2 ^ (8 * Z.of_nat n).
Proof.
  intros <-. unfold load.
  rewrite zdrop_app_r, Z.sub_diag, zdrop_le_0 by lia.
  rewrite ztake_app_l, ztake_all by zl. rewrite le_combine_split. f_equal. f_equal. lia.
Qed.

Lemma load_field pre x post off n :
  zlen pre = off -> fits (8 * Z.of_nat n) x ->
  load (pre ++ le_split n x ++ post) off (Z.of_nat n) = x.
Proof. intros Hoff Hx. rewrite load_field_mod by done. by apply Z.mod_small. Qed.

Lemma load_ztake bs off n len :
  0 <= off -> 0 <= n -> off + n <= len -> load (ztake len bs) off n = load bs off n.
Proof.
  intros. unfold load. f_equal. unfold ztake, zdrop.
  rewrite skipn_firstn_comm, take_take. f_equal. lia.
Qed.

Lemma load_bound bs off n : 0 <= n -> 0 <= load bs off n < 2 ^ (8 * n).
Proof.
  intros Hn. unfold load. set (l := ztake _ _).
  pose proof (le_combine_bound l) as [Hl Hu]. split; [done|].
  eapply Z.lt_le_trans; [done|]. apply Z.pow_le_mono_r; [lia|].
  assert (zlen l <= n) by (subst l; zl). unfold zlen in *. lia.
Qed.

Lemma decode_hdr_ztake bs len :
  DataMessage_size <= len -> decode_hdr (ztake len bs) = decode_hdr bs.
Proof.
  change DataMessage_size with 24. intros. unfold decode_hdr.
  by rewrite !load_ztake by lia.
Qed.

Lemma schar_mod z : schar (z mod 2 ^ 8) = schar z.
Proof. unfold schar. change (2 ^ 8) with 256. by rewrite Zplus_mod_idemp_l. Qed.

Lemma schar_small z : -128 <= z < 128 -> schar z = z.
Proof. intros. unfold schar. rewrite Z.mod_small; lia. Qed.

Lemma decode_encode_hdr pad m rest :
  zlen (pad.2) = 4 -> DataMessage_wf m -> decode_hdr (encode_hdr pad m ++ rest) = m.
Proof.
  destruct m as [s p t l f], pad as [p1 p2]. unfold DataMessage_wf. cbn.
  intros Hp (Hs & Hperm & [Ht1 Ht2] & Hl & Hf).
  unfold decode_hdr, encode_hdr. cbn [seq perms ftype path_len fsize fst snd].
  rewrite <- !app_assoc. f_equal.
  - by apply (load_field [] s).
  - by apply (load_field (le_split 4 s) p).
  - rewrite app_assoc. rewrite (load_field_mod _ _ _ 8 1) by zl.
    by rewrite schar_mod, schar_small, Ht2.
  - rewrite 3!app_assoc. apply (load_field _ l _ 10 2); [zl|done].
  - rewrite 5!app_assoc. apply (load_field _ f _ 16 8); [zl|done].
Qed.
