(* ===== verification/Frames.v ===== *)
(** * The stream a connection carries, as a sequence of frames

    The abstract specification of the daemon's side of a connection: a
    reference parser that cuts a byte stream into frames (a header, the path,
    the contents of a regular file) and the effect of a frame on the file
    system. [Conn.v] proves that the state machine of [daemon.h] computes
    this, whatever the fragmentation of the stream. *)

From S2P Require Import Prelude Sys Wire.

Record frame := mkFrame { fr_hdr : list byte; fr_path : list byte; fr_data : list byte }.

Definition fr_msg (f : frame) : DataMessage := decode_hdr (fr_hdr f).

Definition frame_bytes (f : frame) : list byte := fr_hdr f ++ fr_path f ++ fr_data f.

(** The bytes of contents that follow a header and its path. *)
Definition data_len (m : DataMessage) : Z :=
  if bool_decide (ftype m = regular) then fsize m else 0.

Definition frame_len (m : DataMessage) : Z := DataMessage_size + path_len m + data_len m.

Definition frame_wf (f : frame) : Prop :=
  zlen (fr_hdr f) = DataMessage_size /\ zlen (fr_path f) = path_len (fr_msg f) /\
  zlen (fr_data f) = data_len (fr_msg f).

(** No frame is complete in [bs]. *)
Definition incomplete (bs : list byte) : Prop :=
  zlen bs < DataMessage_size \/ zlen bs < frame_len (decode_hdr bs).

#[global] Instance incomplete_dec bs : Decision (incomplete bs).
Proof. unfold incomplete. apply _. Defined.

(** ** The reference parser *)

Definition cut (bs : list byte) : frame * list byte :=
  let m := decode_hdr bs in
  let rest := zdrop DataMessage_size bs in
  (mkFrame (ztake DataMessage_size bs) (ztake (path_len m) rest)
     (ztake (data_len m) (zdrop (path_len m) rest)),
   zdrop (frame_len m) bs).

Fixpoint parse_fuel (n : nat) (bs : list byte) : list frame * list byte :=
  match n with
  | O => ([], bs)
  | S n' =>
      if decide (incomplete bs) then ([], bs)
      else
        let '(f, rest) := cut bs in
        let '(fs, last) := parse_fuel n' rest in
        (f :: fs, last)
  end.

(** Every frame has a header, so the length of the stream bounds their number. *)
Definition parse (bs : list byte) : list frame * list byte := parse_fuel (length bs) bs.

(** What the receipt of a frame does to the names and contents of files. *)
Definition apply_frame (fs : gmap string fnode) (f : frame) : gmap string fnode :=
  let path := c_str (string_of (fr_path f)) in
  if bool_decide (ftype (fr_msg f) = regular) then <[path := File (fr_data f)]> fs
  else <[path := Dir]> fs.

Definition apply_frames (fs : gmap string fnode) (l : list frame) : gmap string fnode :=
  foldl apply_frame fs l.

(** ** Lemmas *)

Lemma path_len_decode bs : 0 <= path_len (decode_hdr bs) < 65536.
Proof. by apply (load_bound bs 10 2). Qed.

Lemma fsize_decode bs : 0 <= fsize (decode_hdr bs) < 18446744073709551616.
Proof. by apply (load_bound bs 16 8). Qed.

Lemma data_len_decode bs : 0 <= data_len (decode_hdr bs) < 18446744073709551616.
Proof. pose proof (fsize_decode bs). unfold data_len. case_bool_decide; lia. Qed.

Lemma frame_len_ge bs : DataMessage_size <= frame_len (decode_hdr bs).
Proof.
  pose proof (path_len_decode bs). pose proof (data_len_decode bs). unfold frame_len. lia.
Qed.

Lemma decode_hdr_app bs rest :
  DataMessage_size <= zlen bs -> decode_hdr (bs ++ rest) = decode_hdr bs.
Proof.
  intros H. rewrite <- (decode_hdr_ztake (bs ++ rest) (zlen bs)) by done.
  by rewrite ztake_app_l, ztake_all by lia.
Qed.

Lemma fr_msg_bytes f rest : frame_wf f -> decode_hdr (frame_bytes f ++ rest) = fr_msg f.
Proof.
  intros (H & _ & _). unfold frame_bytes. rewrite <- app_assoc. apply decode_hdr_app. lia.
Qed.

Lemma zlen_frame_bytes f : frame_wf f -> zlen (frame_bytes f) = frame_len (fr_msg f).
Proof. intros (H1 & H2 & H3). unfold frame_bytes, frame_len. zl. Qed.

Lemma frame_not_incomplete f rest : frame_wf f -> ~ incomplete (frame_bytes f ++ rest).
Proof.
  intros Hf [H|H]; [|rewrite fr_msg_bytes in H by done];
    pose proof (zlen_frame_bytes f Hf); pose proof (frame_len_ge (fr_hdr f)); unfold fr_msg in *; zl.
Qed.

Lemma cut_frame f rest : frame_wf f -> cut (frame_bytes f ++ rest) = (f, rest).
Proof.
  intros Hf. pose proof (zlen_frame_bytes f Hf) as Hlen. unfold cut.
  rewrite fr_msg_bytes by done. destruct Hf as (H1 & H2 & H3).
  rewrite (zdrop_app_r (frame_len _)), Hlen, Z.sub_diag, (zdrop_le_0 0 rest) by lia.
  destruct f as [h p d]. cbn in *. unfold frame_bytes. cbn.
  rewrite <- !app_assoc, ztake_app_l, ztake_all by lia.
  rewrite zdrop_app_r, H1, Z.sub_diag, zdrop_le_0 by lia.
  rewrite ztake_app_l, ztake_all by lia.
  rewrite zdrop_app_r, H2, Z.sub_diag, zdrop_le_0 by lia.
  by rewrite ztake_app_l, ztake_all by lia.
Qed.

Lemma cut_spec bs :
  ~ incomplete bs -> frame_wf (cut bs).1 /\ frame_bytes (cut bs).1 ++ (cut bs).2 = bs.
Proof.
  intros Hc. assert (DataMessage_size <= zlen bs /\ frame_len (decode_hdr bs) <= zlen bs)
    as [H1 H2] by (unfold incomplete in Hc; lia).
  pose proof (path_len_decode bs). pose proof (data_len_decode bs).
  assert (0 <= DataMessage_size) by done.
  unfold cut, frame_wf, fr_msg, frame_bytes, frame_len in *. cbn [fst snd fr_hdr fr_path fr_data].
  rewrite decode_hdr_ztake by lia. split_and!; [zl|zl|zl|].
  rewrite <- !app_assoc, <- (zdrop_zdrop (DataMessage_size + _)), <- (zdrop_zdrop DataMessage_size) by lia.
  by rewrite !ztake_zdrop.
Qed.

Lemma parse_fuel_frame n f rest :
  frame_wf f ->
  parse_fuel (S n) (frame_bytes f ++ rest) =
  (f :: (parse_fuel n rest).1, (parse_fuel n rest).2).
Proof.
  intros Hf. cbn [parse_fuel]. rewrite decide_False by by apply frame_not_incomplete.
  rewrite cut_frame by done. by destruct (parse_fuel n rest).
Qed.

Lemma parse_fuel_enough n m bs :
  (length bs <= n)%nat -> (length bs <= m)%nat -> parse_fuel n bs = parse_fuel m bs.
Proof.
  revert m bs. induction n as [|n IH]; intros m bs Hn Hm.
  - destruct bs; [|cbn in *; lia]. destruct m; [done|]. cbn [parse_fuel].
    rewrite decide_True; [done|]. by left.
  - destruct m as [|m].
    { destruct bs; [|cbn in *; lia]. cbn [parse_fuel]. rewrite decide_True; [done|]. by left. }
    cbn [parse_fuel]. destruct (decide (incomplete bs)) as [|Hc]; [done|].
    destruct (cut_spec bs Hc) as [Hf Hb]. destruct (cut bs) as [f rest]. cbn in *.
    pose proof (zlen_frame_bytes f Hf) as Hl. pose proof (frame_len_ge (fr_hdr f)) as Hge.
    apply (f_equal length) in Hb. rewrite length_app in Hb.
    unfold fr_msg, zlen in *. change DataMessage_size with 24 in Hge.
    rewrite (IH m rest) by lia. done.
Qed.

(** The parser inverts concatenation: its result is the only way to read a
    stream as frames followed by an incomplete one. *)
Lemma parse_frames l rest :
  Forall frame_wf l -> incomplete rest ->
  parse (concat (map frame_bytes l) ++ rest) = (l, rest).
Proof.
  unfold parse. generalize (le_n (length (concat (map frame_bytes l) ++ rest))).
  generalize (length (concat (map frame_bytes l) ++ rest)) at 2 3. intros n.
  revert n. induction l as [|f l IH]; intros n Hn Hl Hrest.
  - cbn in *. destruct n; [done|]. cbn. by rewrite decide_True.
  - apply Forall_cons in Hl as [Hf Hl]. cbn [map concat] in *. rewrite <- app_assoc in *.
    destruct n as [|n].
    { rewrite length_app in Hn. pose proof (zlen_frame_bytes f Hf) as Hz.
      pose proof (frame_len_ge (fr_hdr f)) as Hge. unfold fr_msg, zlen in *.
      change DataMessage_size with 24 in Hge. lia. }
    rewrite parse_fuel_frame by done. rewrite IH; [done| |done|done].
    rewrite length_app in Hn. pose proof (zlen_frame_bytes f Hf) as Hz.
    pose proof (frame_len_ge (fr_hdr f)) as Hge. unfold fr_msg, zlen in *.
    change DataMessage_size with 24 in Hge. lia.
Qed.

Lemma parse_step f rest :
  frame_wf f -> parse (frame_bytes f ++ rest) = (f :: (parse rest).1, (parse rest).2).
Proof.
  intros Hf. unfold parse. pose proof (zlen_frame_bytes f Hf) as Hz.
  pose proof (frame_len_ge (fr_hdr f)) as Hge. unfold fr_msg, zlen in *.
  change DataMessage_size with 24 in Hge. rewrite length_app.
  destruct (length (frame_bytes f)) as [|n] eqn:E; [lia|].
  cbn [Nat.add]. rewrite parse_fuel_frame by done.
  by rewrite (parse_fuel_enough (n + length rest) (length rest)) by lia.
Qed.

Lemma parse_incomplete bs : incomplete bs -> parse bs = ([], bs).
Proof.
  unfold parse. intros H. destruct (length bs); [done|]. cbn. by rewrite decide_True.
Qed.

(** ** Frames and names *)

(** The name a frame is stored under. *)
Definition target_name (f : frame) : string := c_str (string_of (fr_path f)).

Definition target_node (f : frame) : fnode :=
  if bool_decide (ftype (fr_msg f) = regular) then File (fr_data f) else Dir.

Lemma apply_frame_eq fs f : apply_frame fs f = <[target_name f := target_node f]> fs.
Proof. unfold apply_frame, target_name, target_node. by case_bool_decide. Qed.

Lemma apply_frames_other l fs n :
  n ∉ map target_name l -> apply_frames fs l !! n = fs !! n.
Proof.
  unfold apply_frames. revert fs. induction l as [|f l IH]; intros fs Hn; cbn; [done|].
  cbn in Hn. rewrite apply_frame_eq, IH by set_solver. apply lookup_insert_ne. set_solver.
Qed.

Lemma apply_frames_lookup l fs f :
  NoDup (map target_name l) -> f ∈ l -> apply_frames fs l !! target_name f = Some (target_node f).
Proof.
  unfold apply_frames. revert fs. induction l as [|g l IH]; intros fs Hnd Hf.
  - by apply not_elem_of_nil in Hf.
  - cbn in *. apply NoDup_cons in Hnd as [Hg Hnd]. apply elem_of_cons in Hf as [->|Hf]; [|by apply IH].
    change (foldl apply_frame (apply_frame fs g) l) with (apply_frames (apply_frame fs g) l).
    rewrite apply_frames_other by done. rewrite apply_frame_eq. apply lookup_insert_eq.
Qed.

(** What a name holds afterwards depends on what it held before only. *)
Lemma apply_frames_ext l fs fs' n :
  fs !! n = fs' !! n -> apply_frames fs l !! n = apply_frames fs' l !! n.
Proof.
  unfold apply_frames. revert fs fs'. induction l as [|f l IH]; intros fs fs' H; cbn; [done|].
  apply IH. rewrite !apply_frame_eq. destruct (decide (n = target_name f)) as [->|].
  - by rewrite !lookup_insert_eq.
  - by rewrite !lookup_insert_ne by congruence.
Qed.

(** Whole frames in front of a stream are parsed first. *)
Lemma parse_app_frames l rest :
  Forall frame_wf l -> parse (concat (map frame_bytes l) ++ rest) = (l ++ (parse rest).1, (parse rest).2).
Proof.
  induction 1 as [|f l Hf _ IH]; [cbn [map concat app]; by destruct (parse rest)|].
  cbn [map concat]. rewrite <- app_assoc, parse_step, IH by done. done.
Qed.
