(* ===== verification/Daemon.v ===== *)
(** * [enu/daemon.h]: the receiving side

    The connection state machine of the daemon, its temporary files and its
    poll loop. [AnonFiles] is the static set [ANON_FILES] with the static flag
    of [register_tempfile_cleanup]. *)

From S2P Require Import Prelude Sys Net Wire.

(** ** Temporary files *)

Record AnonFiles := mkAnon { registered : bool; ANON_FILES : gset string }.

Definition no_anon : AnonFiles := mkAnon false ∅.

Definition register_tempfile_cleanup (a : AnonFiles) : AnonFiles :=
  if registered a then a else mkAnon true (ANON_FILES a).

(** The handler [register_tempfile_cleanup] gives to atexit(3). *)
Definition tempfile_cleanup (a : AnonFiles) : Sys unit :=
  foldr (fun path k => sys_ignore (Unlink (c_str path)) ≫= fun _ => k) (mret tt)
    (elements (ANON_FILES a)).

(** What exit(3) runs: the handler, if it was registered. *)
Definition run_atexit (a : AnonFiles) : Sys unit :=
  if registered a then tempfile_cleanup a else mret tt.

(** Conversion of a [size_t] to [off_t]. *)
Definition i64 (z : Z) : Z := (z + 2 ^ 63) mod 2 ^ 64 - 2 ^ 63.

Definition create_anonfile (fsize mode : Z) (a : AnonFiles) : Sys (Z * string * AnonFiles) :=
  let a := register_tempfile_cleanup a in
  r ← sys (Mkstemp "/tmp/enu.XXXXXX");
  match r with
  | RFile fd template_path =>
      _ ← sys_or_pfatal (Ftruncate fd (i64 fsize)) "ftruncate({})";
      mret (fd, template_path, mkAnon (registered a) ({[template_path]} ∪ ANON_FILES a))
  | RErr _ => pfatal "mkstemp({})"
  | _ => stop Blocked
  end.

Definition move_anonfile (anon_path perm_path : string) (a : AnonFiles) : Sys AnonFiles :=
  _ ← sys_or_pfatal (Rename (c_str anon_path) (c_str perm_path)) "rename({}, {})";
  mret (mkAnon (registered a) (ANON_FILES a ∖ {[anon_path]})).

(** ** Sockets *)

Definition O_NONBLOCK : Z := 2048.

Definition set_nonblocking (fd : Z) : Sys unit :=
  flags ← sys_or_pfatal (FcntlGetFl fd) "fcntl(fd, F_GETFL, 0)";
  r ← sys_int (FcntlSetFl fd (Z.lor flags O_NONBLOCK));
  match r with
  | inl _ => mret tt
  | inr _ => log error "couldn't set socket as non-blocking"
  end.

Definition bind_daemon (port : Z) : Sys Z :=
  fd ← sys_or_pfatal Socket "socket()";
  _ ← sys_or_pfatal (SetSockOptReuse fd) "setsockopt({})";
  _ ← sys_or_pfatal (Bind fd port) "bind({})";
  _ ← sys_or_pfatal (Listen fd 1) "listen({})";
  _ ← set_nonblocking fd;
  mret fd.

(** The errors after which [connect_to_daemon] tries again. *)
Definition connect_retryable (e : errno) : bool :=
  match e with
  | ECONNREFUSED | ENETUNREACH | EHOSTUNREACH | ETIMEDOUT | EINTR => true
  | _ => false
  end.

(** The loop of [connect_to_daemon] with [attempts] iterations left. *)
Fixpoint connect_attempts (attempts : nat) (fd port addr delay : Z) : Sys Z :=
  match attempts with
  | O => pfatal "connect({}) - retries exhausted"
  | S attempts' =>
      r ← sys_int (Connect fd port addr);
      match r with
      | inl _ => mret fd
      | inr e =>
          if connect_retryable e then
            _ ← sys_ignore (SleepMs delay);
            connect_attempts attempts' fd port addr (delay * 2)
          else pfatal "connect({})"
      end
  end.

Definition INADDR_LOOPBACK : Z := 2130706433.

(** The call of [pfatal] after socket(2) is unconditional in the source. *)
Definition connect_to_daemon (port addr : Z) : Sys Z :=
  r ← sys_int Socket;
  let fd := match r with inl v => v | inr _ => -1 end in
  _ ← (pfatal "socket()" : Sys unit);
  connect_attempts 5 fd port addr 1.

(** ** One connection *)

Inductive ConnectionKind := Connected | HeaderP1 | HeaderP2 | Receiving.

#[global] Instance ConnectionKind_eq_dec : EqDecision ConnectionKind.
Proof. solve_decision. Defined.

(** [cs_anon_path] and [cs_anon_buf] are pointers: into a node of
    [ANON_FILES], and to the mapping of the file of that name. *)
Record ConnectionState := mkConn {
  cs_kind : ConnectionKind;
  cs_seq : Z;
  cs_perms : Z;
  cs_path : string;
  cs_progress : Z;
  cs_goal : Z;
  cs_anon_path : option string;
  cs_anon_fd : Z;
  cs_anon_buf : option string;
  cs_buf : list byte;
  cs_client_fd : Z;
  cs_sock_fd : Z
}.

(** The element [states[fd]] creates: value-initialised, so the members
    without a default initialiser are zero. *)
Definition new_conn : ConnectionState :=
  mkConn Connected 0 0 "" 0 0 None (-1) None [] (-1) (-1).

Definition set_kind (k : ConnectionKind) (c : ConnectionState) : ConnectionState :=
  mkConn k (cs_seq c) (cs_perms c) (cs_path c) (cs_progress c) (cs_goal c)
    (cs_anon_path c) (cs_anon_fd c) (cs_anon_buf c) (cs_buf c) (cs_client_fd c) (cs_sock_fd c).

Definition set_progress (n : Z) (c : ConnectionState) : ConnectionState :=
  mkConn (cs_kind c) (cs_seq c) (cs_perms c) (cs_path c) n (cs_goal c)
    (cs_anon_path c) (cs_anon_fd c) (cs_anon_buf c) (cs_buf c) (cs_client_fd c) (cs_sock_fd c).

Definition set_goal (n : Z) (c : ConnectionState) : ConnectionState :=
  mkConn (cs_kind c) (cs_seq c) (cs_perms c) (cs_path c) (cs_progress c) n
    (cs_anon_path c) (cs_anon_fd c) (cs_anon_buf c) (cs_buf c) (cs_client_fd c) (cs_sock_fd c).

Definition set_buf (b : list byte) (c : ConnectionState) : ConnectionState :=
  mkConn (cs_kind c) (cs_seq c) (cs_perms c) (cs_path c) (cs_progress c) (cs_goal c)
    (cs_anon_path c) (cs_anon_fd c) (cs_anon_buf c) b (cs_client_fd c) (cs_sock_fd c).

Definition set_meta (seq perms : Z) (path : string) (c : ConnectionState) : ConnectionState :=
  mkConn (cs_kind c) seq perms path (cs_progress c) (cs_goal c)
    (cs_anon_path c) (cs_anon_fd c) (cs_anon_buf c) (cs_buf c) (cs_client_fd c) (cs_sock_fd c).

Definition set_anon (fd : Z) (path : string) (c : ConnectionState) : ConnectionState :=
  mkConn (cs_kind c) (cs_seq c) (cs_perms c) (cs_path c) (cs_progress c) (cs_goal c)
    (Some path) fd (cs_anon_buf c) (cs_buf c) (cs_client_fd c) (cs_sock_fd c).

Definition set_anon_buf (m : string) (c : ConnectionState) : ConnectionState :=
  mkConn (cs_kind c) (cs_seq c) (cs_perms c) (cs_path c) (cs_progress c) (cs_goal c)
    (cs_anon_path c) (cs_anon_fd c) (Some m) (cs_buf c) (cs_client_fd c) (cs_sock_fd c).

Definition set_fds (client sock : Z) (c : ConnectionState) : ConnectionState :=
  mkConn (cs_kind c) (cs_seq c) (cs_perms c) (cs_path c) (cs_progress c) (cs_goal c)
    (cs_anon_path c) (cs_anon_fd c) (cs_anon_buf c) (cs_buf c) client sock.

(** [ConnectionState::reset]. *)
Definition reset (c : ConnectionState) : Sys ConnectionState :=
  _ ← sys_ignore (Close (cs_anon_fd c));
  mret (mkConn (cs_kind c) (cs_seq c) (cs_perms c) (cs_path c) 0 0
    (cs_anon_path c) (-1) (cs_anon_buf c) [] (cs_client_fd c) (cs_sock_fd c)).

(** [~ConnectionState]. *)
Definition destroy (c : ConnectionState) : Sys unit :=
  _ ← (if cs_anon_fd c =? -1 then mret tt else sys_ignore (Close (cs_anon_fd c)));
  _ ← (if cs_client_fd c =? -1 then mret tt else sys_ignore (Close (cs_client_fd c)));
  if cs_sock_fd c =? -1 then mret tt else sys_ignore (Close (cs_sock_fd c)).

Inductive Progress := PFail | Partial | Done.

(** The destination of [advance]: the vector [buf], or the mapping. *)
Inductive target := TBuf | TAnon.

Definition store_target (tg : target) (off : Z) (bs : list byte) (c : ConnectionState) :
    Sys ConnectionState :=
  match bs with
  | [] => mret c
  | _ :: _ =>
      match tg with
      | TBuf =>
          match store_at (cs_buf c) off bs with
          | Some b => mret (set_buf b c)
          | None => undef "store outside buf"
          end
      | TAnon =>
          match cs_anon_buf c with
          | Some m => _ ← store_file m off bs; mret c
          | None => undef "store through a null pointer"
          end
      end
  end.

(** The lambda [advance]. *)
Definition advance (fd : Z) (tg : target) (c : ConnectionState) : Sys (Progress * ConnectionState) :=
  '(r, got) ← read_partial fd (u64 (cs_goal c - cs_progress c));
  c ← store_target tg (cs_progress c) got c;
  if io_ok r then
    let c := set_progress (u64 (cs_progress c + n_bytes r)) c in
    mret (if cs_progress c =? cs_goal c then Done else Partial, c)
  else mret (PFail, c).

(** ** The handler of a readable connection

    The four [if] blocks of the loop body, in order; each looks at the kind
    the one before it left. *)

Definition conn : Type := AnonFiles * ConnectionState.

(** [inl]: the body goes on; [inr]: [return false] out of [daemon_main], in
    the state it leaves to the destructors and to the handlers of exit(3). *)
Definition flow (A : Type) : Type := A + A.

Definition then_ (m : Sys (flow conn)) (k : conn -> Sys (flow conn)) : Sys (flow conn) :=
  r ← m; match r with inl x => k x | inr x => mret (inr x) end.

Definition on_connected (c : ConnectionState) : ConnectionState :=
  match cs_kind c with
  | Connected =>
      set_goal DataMessage_size (set_kind HeaderP1 (set_buf (resize DataMessage_size (cs_buf c)) c))
  | _ => c
  end.

Definition on_header_p1 (fd : Z) (x : conn) : Sys (flow conn) :=
  let '(a, c) := x in
  match cs_kind c with
  | HeaderP1 =>
      '(p, c) ← advance fd TBuf c;
      match p with
      | PFail => mret (inr (a, c))
      | Done =>
          let msg := decode_hdr (cs_buf c) in
          let c := set_goal (u64 (cs_goal c + path_len msg)) c in
          let c := set_buf (resize (cs_goal c) (cs_buf c)) c in
          mret (inl (a, set_kind HeaderP2 c))
      | Partial => mret (inl (a, c))
      end
  | _ => mret (inl x)
  end.

(** The members of [msg] are loads from [cs_buf], so [path] is the [path_len]
    bytes from [data], the offset [sizeof(DataMessage)]. *)
Definition on_message (a : AnonFiles) (c : ConnectionState) : Sys (flow conn) :=
  let msg := decode_hdr (cs_buf c) in
  let path := string_of (ztake (path_len msg) (zdrop DataMessage_size (cs_buf c))) in
  let c := set_meta (seq msg) (cs_perms c) path c in
  if bool_decide (ftype msg = regular) then
    '(anon_fd, anon_path, a) ← create_anonfile (fsize msg) (cs_perms c) a;
    let c := set_goal (fsize msg) (set_progress 0 (set_anon anon_fd anon_path c)) in
    c ← (if 0 <? fsize msg then
           _ ← sys_or_pfatal (Mmap anon_fd (fsize msg)) "mmap({})";
           mret (set_anon_buf anon_path c)
         else mret c);
    mret (inl (a, set_kind Receiving c))
  else
    _ ← sys_or_pfatal (Mkdir (c_str (cs_path c)) (cs_perms c)) "mkdir({})";
    c ← reset c;
    mret (inl (a, set_kind Connected c)).

Definition on_header_p2 (fd : Z) (x : conn) : Sys (flow conn) :=
  let '(a, c) := x in
  match cs_kind c with
  | HeaderP2 =>
      '(p, c) ← advance fd TBuf c;
      match p with
      | PFail => mret (inr (a, c))
      | Done => on_message a c
      | Partial => mret (inl (a, c))
      end
  | _ => mret (inl x)
  end.

(** The last byte of a regular file is in place. *)
Definition commit (a : AnonFiles) (c : ConnectionState) : Sys (flow conn) :=
  _ ← sys_ignore (Fsync (cs_anon_fd c));
  match cs_anon_path c with
  | Some anon_path =>
      a ← move_anonfile anon_path (cs_path c) a;
      c ← reset c;
      mret (inl (a, set_kind Connected c))
  | None => undef "null anon_path"
  end.

Definition on_receiving (fd : Z) (x : conn) : Sys (flow conn) :=
  let '(a, c) := x in
  match cs_kind c with
  | Receiving =>
      '(p, c) ← advance fd TAnon c;
      match p with
      | PFail => mret (inr (a, c))
      | Done => commit a c
      | Partial => mret (inl (a, c))
      end
  | _ => mret (inl x)
  end.

Definition on_readable (fd : Z) (x : conn) : Sys (flow conn) :=
  then_ (then_ (on_header_p1 fd (x.1, on_connected x.2)) (on_header_p2 fd)) (on_receiving fd).

(** ** The poll loop *)

Definition POLLIN : Z := 1.
Definition POLLERR : Z := 8.
Definition POLLHUP : Z := 16.

Record pollfd := mkPollfd { pf_fd : Z; pf_revents : Z }.

(** [d_cap] is the capacity of the vector [fds]: a reference to an element
    dies when [emplace_back] grows the vector beyond it. *)
Record Daemon := mkDaemon {
  d_msg : DaemonInitMessage;
  d_fds : list pollfd;
  d_cap : Z;
  d_socket_fds : gset Z;
  d_states : gmap Z ConnectionState;
  d_anon : AnonFiles
}.

Definition set_pollfds (fds : list pollfd) (d : Daemon) : Daemon :=
  mkDaemon (d_msg d) fds (d_cap d) (d_socket_fds d) (d_states d) (d_anon d).
Definition set_states (m : gmap Z ConnectionState) (d : Daemon) : Daemon :=
  mkDaemon (d_msg d) (d_fds d) (d_cap d) (d_socket_fds d) m (d_anon d).
Definition set_conn (fd : Z) (x : conn) (d : Daemon) : Daemon :=
  mkDaemon (d_msg d) (d_fds d) (d_cap d) (d_socket_fds d) (<[fd := x.2]> (d_states d)) x.1.

(** [states.erase(fd)]: the destructor of the element runs. *)
Definition erase_state (fd : Z) (d : Daemon) : Sys Daemon :=
  match d_states d !! fd with
  | Some c => _ ← destroy c; mret (set_states (delete fd (d_states d)) d)
  | None => mret d
  end.

(** The branch of a listening socket. [pfd] is a reference into [fds]: after a
    reallocation the last line reads through a dangling reference. *)
Definition on_listening (pfd : pollfd) (d : Daemon) : Sys Daemon :=
  if n_conns (d_msg d) * 2 <? zlen (d_fds d) then pfatal "one too many connections accepted"
  else
    client_fd ← sys_or_pfatal (Accept (pf_fd pfd)) "accept({})";
    let moved := d_cap d <? zlen (d_fds d) + 1 in
    let d := set_pollfds (d_fds d ++ [mkPollfd client_fd 0]) d in
    if moved then undef "pfd.fd after fds was reallocated"
    else
      let c := default new_conn (d_states d !! client_fd) in
      mret (set_states (<[client_fd := set_fds client_fd (pf_fd pfd) c]> (d_states d)) d).

Definition on_client (pfd : pollfd) (d : Daemon) : Sys (flow Daemon) :=
  let c := default new_conn (d_states d !! pf_fd pfd) in
  r ← on_readable (pf_fd pfd) (d_anon d, c);
  mret (match r with
        | inl x => inl (set_conn (pf_fd pfd) x d)
        | inr x => inr (set_conn (pf_fd pfd) x d)
        end).

(** The [for] loop over [fds]. A pass visits at most twice as many elements as
    it starts with: an accepted connection appends one element, whose
    [revents] is 0. [None]: the pass has not ended after [fuel] iterations. *)
Fixpoint poll_pass (fuel : nat) (idx : nat) (d : Daemon) : Sys (option (flow Daemon)) :=
  match fuel with
  | O => mret None
  | S fuel' =>
      match d_fds d !! idx with
      | None => mret (Some (inl d))
      | Some pfd =>
          if negb (Z.land (pf_revents pfd) (Z.lor POLLHUP POLLERR) =? 0) then
            d ← erase_state (pf_fd pfd) d;
            poll_pass fuel' idx (set_pollfds (delete idx (d_fds d)) d)
          else if Z.land (pf_revents pfd) POLLIN =? 0 then
            _ ← log warn "unexpected revent from poll: {:x}";
            poll_pass fuel' (S idx) d
          else if bool_decide (pf_fd pfd ∈ d_socket_fds d) then
            d ← on_listening pfd d;
            poll_pass fuel' (S idx) d
          else
            r ← on_client pfd d;
            match r with
            | inl d => poll_pass fuel' (S idx) d
            | inr d => mret (Some (inr d))
            end
      end
  end.

Definition pass_fuel (d : Daemon) : nat := S (2 * length (d_fds d)).

(** poll(2) fills in [revents] of every element. *)
Definition set_revents (vs : list Z) (fds : list pollfd) : list pollfd :=
  zip_with (fun p v => mkPollfd (pf_fd p) v) fds vs.

(** The destructor of [states] when [daemon_main] returns, which destroys the
    elements in an order of its own. *)
Definition destroy_states (d : Daemon) : Sys unit :=
  foldr (fun c k => destroy c ≫= fun _ => k) (mret tt) (map_to_list (d_states d)).*2.

(** One iteration of [while (true)]; [inr] is [return], with [ANON_FILES],
    which outlives the function. *)
Definition daemon_round (d : Daemon) : Sys (Daemon + bool * AnonFiles) :=
  r ← sys (Poll (map pf_fd (d_fds d)));
  match r with
  | RInts vs =>
      if bool_decide (length vs = length (d_fds d)) then
        let d := set_pollfds (set_revents vs (d_fds d)) d in
        r ← poll_pass (pass_fuel d) 0 d;
        match r with
        | Some (inl d) => mret (inl d)
        | Some (inr d) => _ ← destroy_states d; mret (inr (false, d_anon d))
        | None => stop Blocked
        end
      else stop Blocked
  | RErr e => if bool_decide (e = EINTR) then mret (inl d) else pfatal "poll"
  | _ => stop Blocked
  end.

(** The [for] loop that binds the ports; [conns] is how many are left. *)
Fixpoint bind_ports (conns : nat) (conn : Z) (d : Daemon) : Sys Daemon :=
  match conns with
  | O => mret d
  | S conns' =>
      sock ← bind_daemon (u16 (base_port (d_msg d) + conn));
      bind_ports conns' (conn + 1)
        (mkDaemon (d_msg d) (d_fds d ++ [mkPollfd sock 0]) (d_cap d)
           ({[sock]} ∪ d_socket_fds d) (d_states d) (d_anon d))
  end.

(** [fds.reserve(dmsg.n_conns * 2)]. *)
Definition initial_daemon (m : DaemonInitMessage) : Daemon :=
  mkDaemon m [] (n_conns m * 2) ∅ ∅ no_anon.

Definition STDIN_FILENO : Z := 0.
Definition STDOUT_FILENO : Z := 1.
Definition STDERR_FILENO : Z := 2.

Definition daemon_main : Sys (bool * AnonFiles) :=
  '(r, got) ← read_exact STDIN_FILENO DaemonInitMessage_size;
  if io_ok r then
    let dmsg := decode_init got in
    d ← bind_ports (Z.to_nat (n_conns dmsg)) 0 (initial_daemon dmsg);
    loop daemon_round d
  else mret (false, no_anon).
