(* ===== verification/Conn.v ===== *)
(** * The connection state machine refines the frame parser

    [conn_inv] is the invariant of a [ConnectionState]; [pending] are the
    bytes of the current frame it has consumed and [base_fs] the file system
    without the temporary file it is filling. Every call of the handler
    preserves the invariant, performs no undefined store, and turns
    [pending] and the bytes it reads into whole frames, which it applies to
    the file system, and a new [pending]. *)

From S2P Require Import Prelude Sys Net Wire Frames Daemon.

(** The contents behind the temporary file of a connection. *)
Definition anon_content (c : ConnectionState) (w : World) : list byte :=
  match cs_anon_path c with
  | Some n => match w_fs w !! n with Some (File b) => b | _ => [] end
  | None => []
  end.

Definition pending (c : ConnectionState) (w : World) : list byte :=
  match cs_kind c with
  | Connected => []
  | HeaderP1 | HeaderP2 => ztake (cs_progress c) (cs_buf c)
  | Receiving => cs_buf c ++ ztake (cs_progress c) (anon_content c w)
  end.

(** The temporary file the connection owns. *)
Definition own (c : ConnectionState) : gset string :=
  match cs_kind c, cs_anon_path c with
  | Receiving, Some n => {[n]}
  | _, _ => ∅
  end.

Definition base_fs (c : ConnectionState) (w : World) : gmap string fnode :=
  match cs_kind c, cs_anon_path c with
  | Receiving, Some n => delete n (w_fs w)
  | _, _ => w_fs w
  end.

(** Every temporary file on record exists. *)
Definition anon_inv (a : AnonFiles) (w : World) : Prop :=
  forall n, n ∈ ANON_FILES a -> is_Some (w_fs w !! n).

Definition kind_inv (a : AnonFiles) (c : ConnectionState) (w : World) : Prop :=
  let m := decode_hdr (cs_buf c) in
  match cs_kind c with
  | Connected => cs_progress c = 0 /\ cs_buf c = []
  | HeaderP1 =>
      cs_goal c = DataMessage_size /\ zlen (cs_buf c) = cs_goal c /\ 0 <= cs_progress c <= cs_goal c
  | HeaderP2 =>
      cs_goal c = DataMessage_size + path_len m /\ zlen (cs_buf c) = cs_goal c /\
      DataMessage_size <= cs_progress c <= cs_goal c
  | Receiving =>
      ftype m = regular /\ cs_goal c = fsize m /\ zlen (cs_buf c) = DataMessage_size + path_len m /\
      0 <= cs_progress c <= cs_goal c /\
      cs_path c = string_of (ztake (path_len m) (zdrop DataMessage_size (cs_buf c))) /\
      exists n content, cs_anon_path c = Some n /\ c_str n = n /\ n ∈ ANON_FILES a /\
        w_fs w !! n = Some (File content) /\ zlen content = cs_goal c /\
        (0 < cs_goal c -> cs_anon_buf c = Some n)
  end.

Definition conn_inv (x : conn) (w : World) : Prop := anon_inv x.1 w /\ kind_inv x.1 x.2 w.

(** Between two calls of the handler the goal has not been reached. *)
Definition waiting (c : ConnectionState) : Prop :=
  cs_kind c = Connected \/ cs_progress c < cs_goal c.

(** The only mode a directory is created with. *)
Definition mkdir_mode (mode : Z) (e : event) : Prop :=
  match e with Called (Mkdir _ m) _ => m = mode | _ => True end.

Definition conn_step (fd : Z) (x : conn) (w : World) (x' : conn) (w' : World) : Prop :=
  exists t l, w_trace w' = w_trace w ++ t /\ Forall frame_wf l /\
    pending x.2 w ++ received fd t = concat (map frame_bytes l) ++ pending x'.2 w' /\
    base_fs x'.2 w' = apply_frames (base_fs x.2 w) l /\
    ANON_FILES x'.1 ∖ own x'.2 = ANON_FILES x.1 ∖ own x.2 /\
    cs_perms x'.2 = cs_perms x.2 /\ Forall (mkdir_mode (cs_perms x.2)) t.

Lemma conn_step_quiet fd x x' w w' t :
  w_trace w' = w_trace w ++ t -> pending x'.2 w' = pending x.2 w ++ received fd t ->
  base_fs x'.2 w' = base_fs x.2 w ->
  ANON_FILES x'.1 ∖ own x'.2 = ANON_FILES x.1 ∖ own x.2 ->
  cs_perms x'.2 = cs_perms x.2 -> Forall (mkdir_mode (cs_perms x.2)) t ->
  conn_step fd x w x' w'.
Proof. intros Ht Hp Hb Ha Hpm Hm. exists t, []. cbn. by rewrite Hp. Qed.

Lemma conn_step_refl fd x w : conn_step fd x w x w.
Proof. apply conn_step_quiet with []; cbn; by rewrite ?app_nil_r. Qed.

Lemma conn_step_trans fd x1 w1 x2 w2 x3 w3 :
  conn_step fd x1 w1 x2 w2 -> conn_step fd x2 w2 x3 w3 -> conn_step fd x1 w1 x3 w3.
Proof.
  intros (t1 & l1 & Ht1 & Hl1 & Hp1 & Hb1 & Ha1 & Hm1 & Hd1)
    (t2 & l2 & Ht2 & Hl2 & Hp2 & Hb2 & Ha2 & Hm2 & Hd2).
  exists (t1 ++ t2), (l1 ++ l2). split_and!.
  - by rewrite Ht2, Ht1, app_assoc.
  - by apply Forall_app.
  - rewrite received_app, app_assoc, Hp1, map_app, concat_app, <- !app_assoc. by rewrite Hp2.
  - unfold apply_frames in *. by rewrite foldl_app, Hb2, Hb1.
  - congruence.
  - congruence.
  - apply Forall_app. split; [done|]. by rewrite <- Hm1.
Qed.

Lemma read_calls_mkdir fd mode t : Forall (read_call fd) t -> Forall (mkdir_mode mode) t.
Proof. intros H. eapply Forall_impl; [exact H|]. by intros e (n & r & -> & _). Qed.

(** ** [advance] *)

Lemma u64_small z : 0 <= z < 18446744073709551616 -> u64 z = z.
Proof. apply (wrap_small 64). Qed.

(** The contents [b] become [b'] when [bs] arrives at offset [off]. *)
Definition filled (off : Z) (b bs b' : list byte) : Prop :=
  zlen b' = zlen b /\ ztake (off + zlen bs) b' = ztake off b ++ bs.

Lemma filled_nil off b : filled off b [] b.
Proof. split; [done|]. by rewrite zlen_nil, Z.add_0_r, app_nil_r. Qed.

Lemma filled_store off b bs :
  0 <= off -> off + zlen bs <= zlen b -> exists b', store_at b off bs = Some b' /\ filled off b bs b'.
Proof.
  intros H1 H2. eexists. split; [by apply store_at_Some|].
  destruct (store_at_inv b bs _ off (store_at_Some b bs off H1 H2)) as (_ & _ & H3 & H4 & _).
  by split.
Qed.

Lemma store_buf_wp off bs c w :
  0 <= off -> off + zlen bs <= zlen (cs_buf c) ->
  wp (store_target TBuf off bs c) (on_ret (fun _ => True) (fun c' w' =>
    w' = w /\ exists b, filled off (cs_buf c) bs b /\ c' = set_buf b c)) w.
Proof.
  intros H1 H2. destruct (filled_store off (cs_buf c) bs H1 H2) as (b & Hb & Hf).
  unfold store_target. destruct bs as [|y ys].
  - apply wp_ret. split; [done|]. exists (cs_buf c). split; [apply filled_nil|by destruct c].
  - rewrite Hb. apply wp_ret. split; [done|]. by exists b.
Qed.

Lemma store_anon_wp off bs c w n content :
  w_fs w !! n = Some (File content) -> 0 <= off -> off + zlen bs <= zlen content ->
  (0 < zlen bs -> cs_anon_buf c = Some n) ->
  wp (store_target TAnon off bs c) (on_ret (fun _ => True) (fun c' w' =>
    c' = c /\ w_trace w' = w_trace w /\ w_open w' = w_open w /\
    exists b, filled off content bs b /\ w_fs w' = <[n := File b]> (w_fs w))) w.
Proof.
  intros Hn H1 H2 Hm. destruct (filled_store off content bs H1 H2) as (b & Hb & Hf).
  unfold store_target. destruct bs as [|y ys].
  - apply wp_ret. split_and!; try done. exists content.
    split; [apply filled_nil|by rewrite insert_id].
  - rewrite Hm by zl. apply wp_bind. unfold wp, store_file. rewrite Hn, Hb. cbn.
    split_and!; try done. by exists b.
Qed.

(** What [advance] returned after [n] more bytes. *)
Definition advanced (p : Progress) (c : ConnectionState) (n : Z) : Prop :=
  cs_progress c + n <= cs_goal c /\
  match p with
  | PFail => True
  | Done => cs_progress c + n = cs_goal c
  | Partial => cs_progress c + n < cs_goal c
  end.

(** [advance] up to its target: [P c' w'] is what the store established. *)
Lemma advance_wp fd tg c w (P : list byte -> ConnectionState -> World -> Prop) :
  0 <= cs_progress c <= cs_goal c -> cs_goal c < 18446744073709551616 ->
  (forall t w1, io_step w w1 t -> cs_progress c + zlen (received fd t) <= cs_goal c ->
     wp (store_target tg (cs_progress c) (received fd t) c) (on_ret (fun _ => True) (fun c' w' =>
       w_trace w' = w_trace w1 /\ cs_progress c' = cs_progress c /\ cs_goal c' = cs_goal c /\
       P (received fd t) c' w')) w1) ->
  wp (advance fd tg c) (on_ret (fun _ => True) (fun pc w' =>
    exists t c', (w_trace w' = w_trace w ++ t /\ Forall (read_call fd) t) /\ advanced pc.1 c (zlen (received fd t)) /\
      P (received fd t) c' w' /\
      (pc.1 <> PFail -> pc.2 = set_progress (cs_progress c + zlen (received fd t)) c'))) w.
Proof.
  intros Hp Hg Hstore. unfold advance. rewrite u64_small by lia.
  apply wp_bind. eapply wp_mono; [|apply (read_partial_wp fd (cs_goal c - cs_progress c) w)].
  intros o w1 Ho. destruct o as [[r got]| | | |]; try done. cbn in Ho |- *.
  destruct Ho as (t & Ht & Hgot & Hn & Hle & Hcalls & _). subst got.
  apply wp_bind. eapply wp_mono; [|apply (Hstore t w1 Ht); zl].
  intros o w2 Ho. destruct o as [c'| | | |]; try done. cbn in Ho |- *.
  destruct Ho as (Htr & Hpc & Hgc & HP). rewrite (io_trace _ _ _ Ht) in Htr.
  unfold advanced. destruct (io_ok r) eqn:Er; apply wp_ret; exists t, c'; cbn.
  - rewrite Hpc, Hgc, <- Hn, u64_small by zl. split_and!; try done; [zl|].
    destruct (Z.eqb_spec (cs_progress c + zlen (received fd t)) (cs_goal c)); [done|zl].
  - split_and!; try done. zl.
Qed.

(** ** The phases of the handler *)

Definition rank (k : ConnectionKind) : nat :=
  match k with Connected => 0 | HeaderP1 => 1 | HeaderP2 => 2 | Receiving => 3 end.

(** The phases up to the [n]-th have run: none of them has its goal reached. *)
Definition settled (n : nat) (c : ConnectionState) : Prop :=
  cs_kind c = Connected \/ cs_progress c < cs_goal c \/ (n < rank (cs_kind c))%nat.

Definition phase_post (fd : Z) (n : nat) (x : conn) (w : World) (r : flow conn) (w' : World) : Prop :=
  match r with
  | inr _ => True
  | inl x' => conn_inv x' w' /\ conn_step fd x w x' w' /\ settled n x'.2
  end.

Definition phase_ok (fd : Z) (n : nat) (x : conn) (w : World) (m : Sys (flow conn)) : Prop :=
  wp m (on_ret (fun _ => True) (phase_post fd n x w)) w.

Lemma phase_some fd n x w a c w' :
  anon_inv a w' -> kind_inv a c w' -> conn_step fd x w (a, c) w' -> settled n c ->
  phase_post fd n x w (inl (a, c)) w'.
Proof. intros. split; [by split|by split]. Qed.

Lemma anon_inv_fs a w w' : w_fs w' = w_fs w -> anon_inv a w -> anon_inv a w'.
Proof. intros Hfs Ha n Hn. rewrite Hfs. by apply Ha. Qed.

Lemma phase_skip fd n x w :
  conn_inv x w -> settled n x.2 -> phase_ok fd n x w (mret (inl x)).
Proof. intros Hi Hs. apply wp_ret. split_and!; [done|apply conn_step_refl|done]. Qed.

Lemma settled_0 c : settled 0 c.
Proof. unfold settled. destruct (cs_kind c) eqn:E; [by left|right; right; cbn; lia..]. Qed.

Lemma settled_S n c : settled n c -> rank (cs_kind c) <> S n -> settled (S n) c.
Proof. intros [H|[H|H]] Hr; [by left|by right; left|right; right; lia]. Qed.

Lemma resize_grow n bs :
  zlen bs <= n -> resize n bs = bs ++ replicate (Z.to_nat (n - zlen bs)) Byte.x00.
Proof. intros. unfold resize. by rewrite ztake_all. Qed.

Lemma on_connected_inv a c w : conn_inv (a, c) w -> conn_inv (a, on_connected c) w.
Proof.
  intros [Ha Hk]. split; [done|]. unfold on_connected, kind_inv in *. cbn in *.
  destruct (cs_kind c) eqn:E; cbn; rewrite ?E; try done.
  destruct Hk as [-> ->]. split_and!; done.
Qed.

Lemma on_connected_step fd a c w : conn_inv (a, c) w -> conn_step fd (a, c) w (a, on_connected c) w.
Proof.
  intros [Ha Hk]. unfold on_connected, kind_inv in *. cbn in *.
  destruct (cs_kind c) eqn:E; try apply conn_step_refl.
  destruct Hk as [Hp Hb].
  apply conn_step_quiet with []; cbn; unfold pending, base_fs, own; cbn; rewrite ?E; try done.
  - by rewrite app_nil_r.
  - by rewrite Hp.
Qed.

Lemma advance_buf_wp fd c w :
  0 <= cs_progress c <= cs_goal c -> cs_goal c < 18446744073709551616 -> zlen (cs_buf c) = cs_goal c ->
  wp (advance fd TBuf c) (on_ret (fun _ => True) (fun pc w' =>
    exists t c', (w_trace w' = w_trace w ++ t /\ Forall (read_call fd) t) /\ advanced pc.1 c (zlen (received fd t)) /\
      (w_fs w' = w_fs w /\
       exists b, filled (cs_progress c) (cs_buf c) (received fd t) b /\ c' = set_buf b c) /\
      (pc.1 <> PFail -> pc.2 = set_progress (cs_progress c + zlen (received fd t)) c'))) w.
Proof.
  intros Hp Hg Hb. apply (advance_wp fd TBuf c w (fun got c' w' => w_fs w' = w_fs w /\
    exists b, filled (cs_progress c) (cs_buf c) got b /\ c' = set_buf b c)); [done|done|].
  intros t w1 Ht Hle. eapply wp_mono; [|apply store_buf_wp; lia].
  intros [c'| | | |] w' Ho; try done. destruct Ho as (-> & b & Hf & ->). cbn.
  split_and!; try done; [apply (io_fs _ _ _ Ht)|by exists b].
Qed.

Lemma on_header_p1_ok fd a c w :
  conn_inv (a, c) w -> phase_ok fd 1 (a, c) w (on_header_p1 fd (a, c)).
Proof.
  intros [Ha Hk]. unfold on_header_p1.
  destruct (cs_kind c) eqn:E;
    try (apply phase_skip; [done|apply settled_S; [apply settled_0|cbn; by rewrite E]]).
  unfold kind_inv in Hk. cbn in Hk, Ha. rewrite E in Hk. destruct Hk as (Hgoal & Hbuf & Hp).
  unfold phase_ok. apply wp_bind. change DataMessage_size with 24 in Hgoal.
  eapply wp_mono; [|apply advance_buf_wp; lia].
  intros [[p c1]| | | |] w' Ho; try done. cbn in Ho |- *.
  destruct Ho as (t & c' & [Htr Hrd%(read_calls_mkdir _ (cs_perms c))] & [Hle Hadv] & (Hfs & b & [Hlb Htb] & ->) & Hc1).
  destruct p; [by apply wp_ret| |]; rewrite Hc1 by done; apply wp_ret; cbn.
  - (* Partial *)
    apply phase_some.
    + by apply (anon_inv_fs a w).
    + unfold kind_inv. cbn. rewrite E. split_and!; [done|zl|zl|zl].
    + apply conn_step_quiet with t; cbn; unfold pending, base_fs, own; cbn; rewrite ?E; done.
    + right. left. cbn. lia.
  - (* Done *)
    pose proof (path_len_decode b) as Hpl.
    rewrite u64_small by lia. rewrite resize_grow by lia. apply phase_some.
    + by apply (anon_inv_fs a w).
    + unfold kind_inv. cbn. rewrite decode_hdr_app by (change DataMessage_size with 24; lia).
      change DataMessage_size with 24. split_and!; [lia|zl|lia|lia].
    + apply conn_step_quiet with t; cbn; unfold pending, base_fs, own; cbn; rewrite ?E; try done.
      rewrite ztake_app_l by lia. done.
    + right. right. cbn. lia.
Qed.

(** A complete header and path, before the message is acted on. *)
Definition header_done (a : AnonFiles) (c : ConnectionState) (w : World) : Prop :=
  anon_inv a w /\ cs_kind c = HeaderP2 /\
  zlen (cs_buf c) = DataMessage_size + path_len (decode_hdr (cs_buf c)) /\
  cs_progress c = zlen (cs_buf c).

Lemma frame_of_buf b data :
  zlen b = DataMessage_size + path_len (decode_hdr b) -> zlen data = data_len (decode_hdr b) ->
  let f := mkFrame (ztake DataMessage_size b)
    (ztake (path_len (decode_hdr b)) (zdrop DataMessage_size b)) data in
  frame_wf f /\ frame_bytes f = b ++ data /\ fr_msg f = decode_hdr b.
Proof.
  intros Hb Hd f. pose proof (path_len_decode b). assert (0 <= DataMessage_size) by done.
  assert (fr_msg f = decode_hdr b) as Hm by (unfold fr_msg; cbn; by rewrite decode_hdr_ztake).
  split_and!; [|unfold frame_bytes; cbn|done].
  - unfold frame_wf. rewrite Hm. cbn. split_and!; zl.
  - rewrite (ztake_all (path_len _)) by zl. by rewrite app_assoc, ztake_zdrop.
Qed.

Lemma on_directory_ok fd a c w :
  header_done a c w -> ftype (decode_hdr (cs_buf c)) <> regular ->
  phase_ok fd 2 (a, c) w (on_message a c).
Proof.
  intros (Ha & E & Hb & Hp) Hft. unfold phase_ok, on_message.
  rewrite bool_decide_eq_false_2 by done.
  apply wp_bind, wp_sys_or_pfatal; [done|]. intros r rest v Hans Hl Hclip.
  apply wp_bind. unfold reset. apply wp_bind, wp_sys_ignore; [done|].
  intros r' rest' Hans' Hl'. cbn [clip]. apply wp_ret, wp_ret.
  set (path := string_of _). cbn [cs_path set_meta] in *.
  destruct (frame_of_buf (cs_buf c) [] Hb) as (Hwf & Hbytes & Hmsg).
  { unfold data_len. by rewrite bool_decide_eq_false_2. }
  set (f := mkFrame _ _ _) in *. apply phase_some.
  - intros n Hn. cbn. apply lookup_insert_is_Some. destruct (decide (c_str path = n)); [by left|].
    right. split; [done|]. by apply Ha.
  - unfold kind_inv. cbn. done.
  - eexists _, [f]. split_and!; [cbn; by rewrite <- app_assoc|by apply Forall_singleton|..].
    + cbn [map concat fst snd]. rewrite Hbytes. unfold pending. cbn.
      rewrite E, Hp, ztake_all, !app_nil_r by done. done.
    + unfold base_fs, apply_frames. cbn [foldl fst snd]. unfold apply_frame. rewrite Hmsg.
      cbn. rewrite E. by rewrite bool_decide_eq_false_2.
    + unfold own. cbn. by rewrite E.
    + done.
    + by repeat constructor.
  - by left.
Qed.

Lemma i64_cases z : 0 <= z < 18446744073709551616 -> i64 z = z \/ i64 z < 0.
Proof.
  intros. unfold i64. change (2 ^ 64) with 18446744073709551616.
  change (2 ^ 63) with 9223372036854775808.
  destruct (decide (z < 9223372036854775808)); [left; rewrite Z.mod_small; lia|right].
  replace (z + 9223372036854775808)
    with (z - 9223372036854775808 + 1 * 18446744073709551616) by lia.
  rewrite Z_mod_plus_full, Z.mod_small; lia.
Qed.

Lemma create_anonfile_wp n mode a w :
  0 <= n < 18446744073709551616 ->
  wp (create_anonfile n mode a) (on_ret (fun _ => True) (fun r w' =>
    let '(fd, name, a') := r in
    exists content, zlen content = n /\ w_fs w' = <[name := File content]> (w_fs w) /\
      w_fs w !! name = None /\ c_str name = name /\ ANON_FILES a' = {[name]} ∪ ANON_FILES a /\
      exists t, w_trace w' = w_trace w ++ t /\ Forall (mkdir_mode mode) t /\
        forall f, received f t = [])) w.
Proof.
  intros Hn. unfold create_anonfile. apply wp_bind, wp_sys; [done|].
  intros r rest Hans Hl. cbn [clip] in *. destruct r as [| | |fd name|]; try done.
  cbn in Hl. rewrite !andb_true_iff, !bool_decide_eq_true in Hl.
  destruct Hl as [[[Hfresh Hc] Hfd] Hopen].
  apply wp_bind, wp_sys_or_pfatal; [done|]. intros r rest' v Hans' _ Hclip.
  apply wp_ret. exists (resize (i64 n) []).
  destruct r; cbn in Hclip; try done. case_ifs; [done|zbool].
  destruct (i64_cases n Hn) as [Hi|Hi]; [|lia]. rewrite Hi.
  split_and!; try done.
  - apply zlen_resize. lia.
  - cbn. rewrite lookup_insert_eq, lookup_insert_eq. by rewrite insert_insert_eq.
  - unfold register_tempfile_cleanup. by destruct (registered a).
  - eexists. split; [cbn; by rewrite <- app_assoc|by repeat constructor].
Qed.

Lemma disjoint_own (n : string) (A : gset string) : n ∉ A -> ({[n]} ∪ A) ∖ {[n]} = A ∖ ∅.
Proof. set_solver. Qed.

Lemma on_regular_ok fd a c w :
  header_done a c w -> ftype (decode_hdr (cs_buf c)) = regular ->
  phase_ok fd 2 (a, c) w (on_message a c).
Proof.
  intros (Ha & E & Hb & Hp) Hft. unfold phase_ok, on_message.
  rewrite bool_decide_eq_true_2 by done. pose proof (fsize_decode (cs_buf c)) as Hfz.
  set (m := decode_hdr (cs_buf c)) in *.
  apply wp_bind. eapply wp_mono; [|apply (create_anonfile_wp (fsize m) _ a w Hfz)].
  intros [[[afd name] a']| | | |] w1 Ho; try done. cbn in Ho |- *.
  destruct Ho as (content & Hlen & Hfs & Hfresh & Hcs & HA & t & Ht & Hmode & Hrecv).
  assert (name ∉ ANON_FILES a) as Hnew.
  { intros Hin%Ha. rewrite Hfresh in Hin. by destruct Hin. }
  assert (forall c' w', w_fs w' = w_fs w1 ->
    (exists t', w_trace w' = w_trace w1 ++ t' /\ received fd t' = [] /\
       Forall (mkdir_mode (cs_perms c)) t') ->
    cs_kind c' = Receiving -> cs_goal c' = fsize m -> cs_progress c' = 0 -> cs_buf c' = cs_buf c ->
    cs_path c' = string_of (ztake (path_len m) (zdrop DataMessage_size (cs_buf c))) ->
    cs_anon_path c' = Some name -> cs_perms c' = cs_perms c ->
    (0 < fsize m -> cs_anon_buf c' = Some name) ->
    phase_post fd 2 (a, c) w (inl (a', c')) w') as Hend.
  { intros c' w' Hfs' (t' & Ht' & Hr' & Hm') Hk Hg Hpr Hbf Hpt Hap Hpm Hab. apply phase_some.
    - intros n. rewrite HA, Hfs', Hfs, lookup_insert_is_Some, elem_of_union, elem_of_singleton.
      intros [->|Hn]; [by left|]. right. split; [by intros ->|by apply Ha].
    - unfold kind_inv. rewrite Hk, Hbf, Hg, Hpr. fold m. split_and!; try done; [lia..|].
      exists name, content. rewrite Hfs', Hfs, lookup_insert_eq, HA. split_and!; try done. set_solver +.
    - apply conn_step_quiet with (t ++ t'); cbn; unfold pending, base_fs, own, anon_content;
        rewrite ?Hk, ?E, ?Hap, ?Hpr, ?Hbf, ?Hfs', ?Hfs; try done.
      + by rewrite Ht', Ht, app_assoc.
      + by rewrite received_app, Hrecv, Hr', (ztake_le_0 0), Hp, ztake_all by lia.
      + by rewrite delete_insert_id.
      + rewrite HA. by apply disjoint_own.
      + by apply Forall_app.
    - right. right. rewrite Hk. cbn. lia. }
  apply wp_bind. destruct (Z.ltb_spec 0 (fsize m)).
  - apply wp_bind, wp_sys_or_pfatal; [done|]. intros r rest v _ _ _. apply wp_ret, wp_ret.
    apply Hend; try done. eexists. by repeat constructor.
  - apply wp_ret, wp_ret. apply Hend; try done; [|lia]. exists []. rewrite app_nil_r. by repeat constructor.
Qed.

(** A phase that runs after an earlier one. *)
Lemma phase_after fd n x w x1 w1 m :
  conn_step fd x w x1 w1 -> phase_ok fd n x1 w1 m ->
  wp m (on_ret (fun _ => True) (phase_post fd n x w)) w1.
Proof.
  intros Hs Hm. eapply wp_mono; [|exact Hm]. intros [[x'|]| | | |] w' Ho; try done.
  destruct Ho as (Hi & Hs' & Hst). split; [done|]. split; [by eapply conn_step_trans|done].
Qed.

Lemma on_header_p2_ok fd a c w :
  conn_inv (a, c) w -> settled 1 c -> phase_ok fd 2 (a, c) w (on_header_p2 fd (a, c)).
Proof.
  intros [Ha Hk] Hset. unfold on_header_p2.
  destruct (cs_kind c) eqn:E;
    try (apply phase_skip; [done|apply settled_S; [done|cbn; by rewrite E]]).
  unfold kind_inv in Hk. cbn in Hk, Ha. rewrite E in Hk. destruct Hk as (Hgoal & Hbuf & Hp).
  pose proof (path_len_decode (cs_buf c)) as Hpl. change DataMessage_size with 24 in *.
  unfold phase_ok. apply wp_bind. eapply wp_mono; [|apply advance_buf_wp; lia].
  intros [[p c1]| | | |] w' Ho; try done. cbn in Ho |- *.
  destruct Ho as (t & c' & [Htr Hrd%(read_calls_mkdir _ (cs_perms c))] & [Hle Hadv] & (Hfs & b & [Hlb Htb] & ->) & Hc1).
  assert (decode_hdr b = decode_hdr (cs_buf c)) as Hdec.
  { rewrite <- (decode_hdr_ztake b (cs_progress c + zlen (received fd t))) by (change DataMessage_size with 24; zl).
    rewrite Htb, decode_hdr_app by (change DataMessage_size with 24; zl).
    apply decode_hdr_ztake. change DataMessage_size with 24. lia. }
  destruct p; [by apply wp_ret| |]; rewrite Hc1 by done.
  - apply wp_ret, phase_some.
    + by apply (anon_inv_fs a w).
    + unfold kind_inv. cbn. rewrite E, Hdec. change DataMessage_size with 24.
      split_and!; [done|lia|zl|lia].
    + apply conn_step_quiet with t; cbn; unfold pending, base_fs, own; cbn; rewrite ?E; done.
    + right. left. cbn. lia.
  - set (c2 := set_progress _ _).
    assert (header_done a c2 w') as Hd.
    { split_and!; [|done|..]; [by apply (anon_inv_fs a w)|..]; subst c2; cbn;
        rewrite ?Hdec; change DataMessage_size with 24; lia. }
    apply phase_after with (x1 := (a, c2)).
    + apply conn_step_quiet with t; cbn; unfold pending, base_fs, own; cbn; rewrite ?E; done.
    + destruct (decide (ftype (decode_hdr (cs_buf c2)) = regular));
        [by apply on_regular_ok|by apply on_directory_ok].
Qed.

Lemma commit_ok fd a c w n b :
  anon_inv a w -> cs_kind c = Receiving -> ftype (decode_hdr (cs_buf c)) = regular ->
  zlen (cs_buf c) = DataMessage_size + path_len (decode_hdr (cs_buf c)) ->
  cs_path c = string_of (ztake (path_len (decode_hdr (cs_buf c))) (zdrop DataMessage_size (cs_buf c))) ->
  cs_anon_path c = Some n -> c_str n = n -> w_fs w !! n = Some (File b) ->
  zlen b = fsize (decode_hdr (cs_buf c)) -> cs_progress c = zlen b ->
  phase_ok fd 3 (a, c) w (commit a c).
Proof.
  intros Ha E Hreg Hbuf Hpath Hap Hcs Hfs Hlen Hp. unfold phase_ok, commit. rewrite Hap.
  apply wp_bind, wp_sys_ignore; [done|]. intros r2 rest2 _ _.
  apply wp_bind. unfold move_anonfile. apply wp_bind, wp_sys_or_pfatal; [done|].
  intros r3 rest3 v3 _ _ _. apply wp_ret.
  unfold reset. apply wp_bind, wp_bind, wp_sys_ignore; [done|]. intros r4 rest4 _ _.
  apply wp_ret, wp_ret. cbn [clip]. rewrite Hcs.
  destruct (frame_of_buf (cs_buf c) b Hbuf) as (Hwf & Hbytes & Hmsg).
  { unfold data_len. by rewrite bool_decide_eq_true_2. }
  set (f := mkFrame _ _ _) in *. apply phase_some.
  - intros k. cbn. rewrite Hfs, elem_of_difference, elem_of_singleton. intros [Hk1 Hk2].
    apply lookup_insert_is_Some'. right. rewrite lookup_delete_ne by done. by apply Ha.
  - unfold kind_inv. cbn. done.
  - eexists _, [f]. split_and!; [cbn; by rewrite <- !app_assoc|by apply Forall_singleton|..].
    + cbn [map concat fst snd]. rewrite Hbytes. unfold pending, anon_content. cbn.
      by rewrite E, Hap, Hfs, !app_nil_r, ztake_all by lia.
    + unfold base_fs, apply_frames. cbn [foldl fst snd]. unfold apply_frame. rewrite Hmsg.
      rewrite bool_decide_eq_true_2 by done. cbn. by rewrite E, Hap, Hfs, Hpath.
    + unfold own. cbn. rewrite E, Hap. clear. set_solver.
    + done.
    + by repeat constructor.
  - by left.
Qed.

Lemma on_receiving_ok fd a c w :
  conn_inv (a, c) w -> settled 2 c -> phase_ok fd 3 (a, c) w (on_receiving fd (a, c)).
Proof.
  intros [Ha Hk] Hset. unfold on_receiving.
  destruct (cs_kind c) eqn:E;
    try (apply phase_skip; [done|apply settled_S; [done|cbn; by rewrite E]]).
  unfold kind_inv in Hk. cbn in Hk, Ha. rewrite E in Hk.
  destruct Hk as (Hreg & Hgoal & Hbuf & Hp & Hpath & n & content & Hap & Hcs & Hin & Hfs & Hlen & Hab).
  pose proof (fsize_decode (cs_buf c)) as Hfz.
  unfold phase_ok. apply wp_bind.
  eapply wp_mono; [|apply (advance_wp fd TAnon c w (fun got c' w' => c' = c /\
    exists b, filled (cs_progress c) content got b /\ w_fs w' = <[n := File b]> (w_fs w)))]; [|lia|lia|].
  2:{ intros t w1 Ht Hle. eapply wp_mono;
        [|apply (store_anon_wp _ _ _ _ n content); [by rewrite (io_fs _ _ _ Ht)|lia|lia|]].
      2:{ intros Hpos. apply Hab. lia. }
      intros [c'| | | |] w' Ho; try done. destruct Ho as (-> & ? & ? & b & ? & Hfs').
      rewrite (io_fs _ _ _ Ht) in Hfs'. split_and!; try done. by exists b. }
  intros [[p c1]| | | |] w1 Ho; try done. cbn in Ho |- *.
  destruct Ho as (t & c' & [Htr Hrd%(read_calls_mkdir _ (cs_perms c))] & [Hle Hadv] & (-> & b & [Hlb Htb] & Hfs1) & Hc1).
  assert (anon_inv a w1) as Ha1.
  { intros k Hk. rewrite Hfs1, lookup_insert_is_Some'. right. by apply Ha. }
  destruct p; [by apply wp_ret| |]; rewrite Hc1 by done; clear Hc1.
  - apply wp_ret, phase_some; [done|..].
    + unfold kind_inv. cbn. rewrite E. split_and!; try done; try zl.
      exists n, b. rewrite Hfs1, lookup_insert_eq. split_and!; try done. lia.
    + apply conn_step_quiet with t; cbn; unfold pending, base_fs, own, anon_content; cbn;
        rewrite ?E, ?Hap, ?Hfs1, ?Hfs, ?lookup_insert_eq; try done.
      * by rewrite Htb, app_assoc.
      * by rewrite delete_insert_eq.
    + right. left. cbn. lia.
  - apply phase_after with (x1 := (a, set_progress (cs_progress c + zlen (received fd t)) c)).
    + apply conn_step_quiet with t; cbn; unfold pending, base_fs, own, anon_content; cbn;
        rewrite ?E, ?Hap, ?Hfs1, ?Hfs, ?lookup_insert_eq; try done.
      * by rewrite Htb, app_assoc.
      * by rewrite delete_insert_eq.
    + eapply (commit_ok _ _ _ _ n b); cbn; try done; [by rewrite Hfs1, lookup_insert_eq|lia|lia].
Qed.

Lemma on_readable_ok fd x w :
  conn_inv x w ->
  wp (on_readable fd x) (on_ret (fun _ => True) (phase_post fd 3 x w)) w.
Proof.
  destruct x as [a c]. intros Hi. unfold on_readable, then_. cbn [fst snd].
  apply wp_bind, wp_bind. pose proof (on_connected_step fd a c w Hi) as Hs0.
  apply on_connected_inv in Hi. eapply wp_mono; [|apply (on_header_p1_ok fd _ _ _ Hi)].
  intros [[[a1 c1]|]| | | |] w1 Ho; try done. destruct Ho as (Hi1 & Hs1 & Hst1). cbn.
  eapply wp_mono; [|apply (on_header_p2_ok fd _ _ _ Hi1 Hst1)].
  intros [[[a2 c2]|]| | | |] w2 Ho; try done. destruct Ho as (Hi2 & Hs2 & Hst2). cbn.
  apply phase_after with (x1 := (a2, c2)); [|by apply on_receiving_ok].
  eapply conn_step_trans; [exact Hs0|]. by eapply conn_step_trans.
Qed.

(** ** A connection's whole life *)

(** The handler called [k] times, each time poll(2) reports the connection. *)
Fixpoint serve (k : nat) (fd : Z) (x : conn) : Sys (flow conn) :=
  match k with
  | O => mret (inl x)
  | S k' => then_ (on_readable fd x) (serve k' fd)
  end.

Lemma settled_waiting c : settled 3 c -> waiting c.
Proof. intros [H|[H|H]]; [by left|by right|]. destruct (cs_kind c); cbn in H; lia. Qed.

Lemma serve_ok k fd x w :
  conn_inv x w -> waiting x.2 ->
  wp (serve k fd x) (on_ret (fun _ => True) (fun r w' =>
    match r with
    | inr _ => True
    | inl x' => conn_inv x' w' /\ waiting x'.2 /\ conn_step fd x w x' w'
    end)) w.
Proof.
  revert x w. induction k as [|k IH]; intros x w Hi Hw.
  - apply wp_ret. split; [done|split; [done|apply conn_step_refl]].
  - cbn. unfold then_. apply wp_bind. eapply wp_mono; [|by apply on_readable_ok].
    intros [[x1|]| | | |] w1 Ho; try done. destruct Ho as (Hi1 & Hs1 & Hst1). cbn.
    eapply wp_mono; [|apply IH; [done|by apply settled_waiting]].
    intros [[x2|]| | | |] w2 Ho; try done. destruct Ho as (Hi2 & Hw2 & Hs2).
    split; [done|split; [done|by eapply conn_step_trans]].
Qed.

Lemma pending_incomplete a c w : kind_inv a c w -> waiting c -> incomplete (pending c w).
Proof.
  intros Hk Hw. unfold kind_inv in Hk. unfold pending, incomplete.
  destruct (cs_kind c) eqn:E; cbn in Hk; destruct Hw as [Hw|Hw]; try congruence.
  1,2: by left.
  - destruct Hk as (Hg & Hb & Hp). left. zl.
  - destruct Hk as (Hg & Hb & Hp). right.
    pose proof (data_len_decode (cs_buf c)). rewrite decode_hdr_ztake by lia. unfold frame_len.
    change DataMessage_size with 24 in *. zl.
  - destruct Hk as (Hr & Hg & Hb & Hp & _ & n & content & _ & _ & _ & _ & Hlen & _). right.
    pose proof (path_len_decode (cs_buf c)).
    rewrite decode_hdr_app by lia. unfold frame_len, data_len.
    rewrite bool_decide_eq_true_2 by done. change DataMessage_size with 24 in *. zl.
Qed.

Lemma serve_parses k fd x w x' w' :
  conn_inv x w -> waiting x.2 -> serve k fd x w = (Ret (inl x'), w') ->
  exists t, w_trace w' = w_trace w ++ t /\ conn_inv x' w' /\ waiting x'.2 /\
    (parse (pending x.2 w ++ received fd t)).2 = pending x'.2 w' /\
    base_fs x'.2 w' = apply_frames (base_fs x.2 w) (parse (pending x.2 w ++ received fd t)).1 /\
    ANON_FILES x'.1 ∖ own x'.2 = ANON_FILES x.1 ∖ own x.2 /\
    cs_perms x'.2 = cs_perms x.2 /\ Forall (mkdir_mode (cs_perms x.2)) t.
Proof.
  intros Hi Hw Hrun.
  pose proof (wp_Ret _ _ _ _ _ _ (serve_ok k fd x w Hi Hw) Hrun)
    as (Hi' & Hw' & t & l & Ht & Hl & Hp & Hb & Ha & Hm & Hd).
  exists t. rewrite Hp, (parse_frames l); [|done|by eapply pending_incomplete; [apply Hi'|]].
  by split_and!; try apply Hi'.
Qed.

(** ** A run to instantiate the theorems with *)

Module Demo.
Definition hdr (t : file_type) (plen size : Z) : list byte :=
  encode_hdr (Byte.x00, replicate 4 Byte.x00) (mkDataMessage 0 493 t plen size).

Definition dir_frame : frame := mkFrame (hdr directory 1 0) (bytes_of "d") [].
Definition file_frame : frame := mkFrame (hdr regular 3 2) (bytes_of "d/f") (bytes_of "hi").

(** A directory, then a file that arrives in pieces over three calls. *)
Definition script : list sysret :=
  [ RBytes (hdr directory 1 0); RBytes (bytes_of "d"); ROk 0; RErr (EOTHER 9);
    RBytes (ztake 10 (hdr regular 3 2)); RErr EAGAIN; RBytes (zdrop 10 (hdr regular 3 2));
    RBytes (bytes_of "d/f"); RFile 11 "/tmp/enu.a1b2c3"; ROk 0; ROk 4096;
    RBytes (bytes_of "h"); RBytes [];
    RBytes (bytes_of "i"); ROk 0; ROk 0; ROk 0 ].

Definition world : World := mkWorld script [] ∅ ∅.
Definition start : conn := (no_anon, set_fds 9 4 new_conn).
Definition final : conn * World :=
  match serve 3 9 start world with
  | (Ret (inl x), w) => (x, w)
  | (_, w) => (start, w)
  end.

Lemma start_inv : conn_inv start world.
Proof. split; [intros n Hn; by apply elem_of_empty in Hn|done]. Qed.

Lemma run : serve 3 9 start world = (Ret (inl final.1), final.2).
Proof. vm_compute. reflexivity. Qed.
End Demo.

(** ** Properties *)

(** C7. Refinement: a connection served any number of times, whatever the
    fragmentation of its stream, leaves the file system that the reference
    parser's frames leave, in order, and holds exactly the parser's incomplete
    rest as its pending bytes; the invariant is kept. *)
Theorem connection_refines_parser k fd x w x' w' :
  conn_inv x w -> waiting x.2 -> serve k fd x w = (Ret (inl x'), w') ->
  exists t, w_trace w' = w_trace w ++ t /\ conn_inv x' w' /\
    (parse (pending x.2 w ++ received fd t)).2 = pending x'.2 w' /\
    base_fs x'.2 w' = apply_frames (base_fs x.2 w) (parse (pending x.2 w ++ received fd t)).1.
Proof.
  intros Hi Hw Hrun. destruct (serve_parses k fd x w x' w' Hi Hw Hrun)
    as (t & Ht & Hi' & _ & Hp & Hb & _). by exists t.
Qed.

Lemma connection_refines_parser_witness :
  exists t, w_trace Demo.final.2 = [] ++ t /\ conn_inv Demo.final.1 Demo.final.2 /\
    (parse ([] ++ received 9 t)).2 = pending Demo.final.1.2 Demo.final.2 /\
    base_fs Demo.final.1.2 Demo.final.2 = apply_frames ∅ (parse ([] ++ received 9 t)).1.
Proof.
  apply (connection_refines_parser 3 9 Demo.start Demo.world).
  - exact Demo.start_inv.
  - by left.
  - exact Demo.run.
Defined.

(** C16. Memory safety of a connection: no call of the handler stores outside
    [buf] or outside the mapping, or through a pointer that was never set,
    whatever bytes the peer sends and whatever the kernel answers. *)
Theorem connection_memory_safe k fd x w what w' :
  conn_inv x w -> waiting x.2 -> serve k fd x w <> (Undef what, w').
Proof. intros Hi Hw. by eapply wp_not_undef, serve_ok. Qed.

Lemma connection_memory_safe_witness :
  serve 5 9 Demo.start (mkWorld (take 6 Demo.script) [] ∅ ∅) <> (Undef "x", Demo.world).
Proof.
  apply connection_memory_safe.
  - split; [intros n Hn; by apply elem_of_empty in Hn|done].
  - by left.
Defined.

(** C18. Temporary files: between two messages a connection has no entry left
    in [ANON_FILES], so the exit handler unlinks only files of transfers that
    were cut short, never a file that was delivered. *)
Theorem no_tempfile_between_messages k fd x w x' w' :
  conn_inv x w -> cs_kind x.2 = Connected -> serve k fd x w = (Ret (inl x'), w') ->
  cs_kind x'.2 = Connected -> ANON_FILES x'.1 = ANON_FILES x.1.
Proof.
  intros Hi Hk Hrun Hk'.
  destruct (serve_parses k fd x w x' w' Hi (or_introl Hk) Hrun)
    as (t & _ & _ & _ & _ & _ & Ha & _).
  unfold own in Ha. rewrite Hk, Hk' in Ha. by rewrite !difference_empty_L in Ha.
Qed.

Lemma no_tempfile_between_messages_witness : ANON_FILES Demo.final.1.1 = ∅.
Proof.
  apply (no_tempfile_between_messages 3 9 Demo.start Demo.world _ Demo.final.2).
  - exact Demo.start_inv.
  - reflexivity.
  - exact Demo.run.
  - vm_compute. reflexivity.
Defined.

(** The permissions of a message are never used: every directory of a
    connection is created with the mode the connection state was born with,
    which is 0, although the header carries the sender's permissions. *)
Theorem directories_created_with_mode_zero k fd a client sock w x' w' :
  anon_inv a w -> serve k fd (a, set_fds client sock new_conn) w = (Ret (inl x'), w') ->
  exists t, w_trace w' = w_trace w ++ t /\ Forall (mkdir_mode 0) t.
Proof.
  intros Ha Hrun.
  destruct (serve_parses k fd (a, set_fds client sock new_conn) w x' w')
    as (t & Ht & _ & _ & _ & _ & _ & _ & Hd); [by split|by left|done|]. by exists t.
Qed.

Lemma directories_created_with_mode_zero_witness :
  exists t, w_trace Demo.final.2 = [] ++ t /\ Forall (mkdir_mode 0) t.
Proof.
  apply (directories_created_with_mode_zero 3 9 no_anon 9 4 Demo.world Demo.final.1).
  - intros n Hn. by apply elem_of_empty in Hn.
  - exact Demo.run.
Defined.
