(* ===== verification/Multi.v ===== *)
(** * Many connections

    The client branch of the daemon's loop, called for the connections in any
    order. Each call leaves the other connections as they were ([isolated]),
    so that the file system is at every moment what the frames completed so
    far leave, in the order in which they were completed. What may not happen
    is that a frame names a temporary file: [temporary] is any predicate that
    holds of the names mkstemp(3) gives and of no name a frame carries. *)

From S2P Require Import Prelude Sys Net Wire Frames Daemon Conn.

(** The handler for each descriptor poll(2) reports, in order. *)
Fixpoint serve_clients (fds : list Z) (d : Daemon) : Sys (flow Daemon) :=
  match fds with
  | [] => mret (inl d)
  | fd :: fds' =>
      r ← on_client (mkPollfd fd POLLIN) d;
      match r with
      | inl d' => serve_clients fds' d'
      | inr d' => mret (inr d')
      end
  end.

(** ** What every part of the handler respects *)

(** The handler of [fd] reads from no other descriptor, and uses up answers. *)
Definition reads_only (fd : Z) (e : event) : Prop :=
  match e with Called (Read f _) _ => f = fd | _ => True end.

Definition calls_of (fd : Z) (w w' : World) : Prop :=
  w_ans w' `suffix_of` w_ans w /\ exists t, w_trace w' = w_trace w ++ t /\ Forall (reads_only fd) t.

#[global] Instance calls_of_pre fd : PreOrder (calls_of fd).
Proof.
  split.
  - intros w. split; [done|]. exists []. by rewrite app_nil_r.
  - intros w1 w2 w3 (S1 & t1 & E1 & F1) (S2 & t2 & E2 & F2). split; [by etrans|].
    exists (t1 ++ t2). rewrite E2, E1, app_assoc. split; [done|]. by apply Forall_app.
Qed.

Lemma calls_of_sys fd c : reads_only fd (Called c (ROk 0)) -> within (calls_of fd) (sys c).
Proof.
  intros Hc w a w'. unfold sys. destruct (w_ans w) as [|r rest] eqn:E; [done|]. case_ifs; [|done].
  intros [= <- <-]. split; [rewrite E; by exists [r]|]. exists [Called c (clip c r)]. split; [done|].
  constructor; [|done]. by destruct c.
Qed.

Lemma calls_of_store fd name off bs : within (calls_of fd) (store_file name off bs).
Proof.
  intros w a w'. unfold store_file. destruct (w_fs w !! name) as [[content|]|]; [|done|done].
  destruct (store_at content off bs); [|done]. intros [= _ <-]. split; [done|]. exists []. by rewrite app_nil_r.
Qed.

Ltac calls_by leaf :=
  within_by ltac:(first [leaf | apply calls_of_store | apply calls_of_sys; done]).

Lemma calls_of_advance fd tg c : within (calls_of fd) (advance fd tg c).
Proof. unfold advance, store_target, read_partial, read_body. calls_by fail. Qed.

Lemma calls_of_header_p1 fd x : within (calls_of fd) (on_header_p1 fd x).
Proof. unfold on_header_p1. calls_by ltac:(apply calls_of_advance). Qed.

Lemma calls_of_readable fd x : within (calls_of fd) (on_readable fd x).
Proof.
  unfold on_readable, then_, on_header_p2, on_receiving, on_message, commit, reset, create_anonfile, move_anonfile.
  calls_by ltac:(first [apply calls_of_header_p1 | apply calls_of_advance]).
Qed.

(** ** Isolation *)

Lemma base_fs_own c w n : n ∈ own c -> base_fs c w !! n = None.
Proof.
  unfold own, base_fs. destruct (cs_kind c), (cs_anon_path c); try (intros Hn; by apply elem_of_empty in Hn).
  intros ->%elem_of_singleton. apply lookup_delete_eq.
Qed.

Lemma base_fs_other c w n : n ∉ own c -> base_fs c w !! n = w_fs w !! n.
Proof.
  unfold own, base_fs. intros Hn. destruct (cs_kind c), (cs_anon_path c); try done.
  apply lookup_delete_ne. set_solver.
Qed.

Lemma kind_inv_frame a a' c w w' :
  kind_inv a c w ->
  (forall n, n ∈ own c -> w_fs w' !! n = w_fs w !! n /\ (n ∈ ANON_FILES a -> n ∈ ANON_FILES a')) ->
  kind_inv a' c w' /\ pending c w' = pending c w.
Proof.
  unfold kind_inv, pending, own, anon_content. destruct (cs_kind c); try done.
  intros (H1 & H2 & H3 & H4 & H5 & n & content & Hn & Hc & Hin & Hfs & Hlen & Hb) Hk. rewrite Hn in Hk |- *.
  destruct (Hk n) as [Hw Ha]; [set_solver|]. rewrite Hw, Hfs. split; [|done].
  do 5 (split; [done|]). exists n, content. split_and!; try done; [by apply Ha|congruence].
Qed.

(** A step of one connection leaves another alone, if it does not store a
    frame under the name of the other's temporary file. *)
Lemma isolated a c w a1 c1 w1 c2 l :
  kind_inv a c2 w -> own c ## own c2 ->
  base_fs c1 w1 = apply_frames (base_fs c w) l -> (forall f, f ∈ l -> target_name f ∉ own c2) ->
  ANON_FILES a1 ∖ own c1 = ANON_FILES a ∖ own c ->
  own c1 ## own c2 /\ kind_inv a1 c2 w1 /\ pending c2 w1 = pending c2 w.
Proof.
  intros Hk Hd Hb Hl Ha.
  assert (forall n, n ∈ own c2 -> n ∉ own c1 /\ w_fs w1 !! n = w_fs w !! n) as Hown.
  { intros n Hn. assert (base_fs c1 w1 !! n = base_fs c w !! n) as E.
    { rewrite Hb. apply apply_frames_other. rewrite list_elem_of_fmap. intros (f & -> & Hf). by eapply Hl. }
    rewrite (base_fs_other c w n) in E by set_solver.
    assert (is_Some (w_fs w !! n)) as [x Hx].
    { unfold own, kind_inv in *. destruct (cs_kind c2); try done.
      destruct Hk as (_ & _ & _ & _ & _ & m & content & Hm & _ & _ & Hfs & _). rewrite Hm in Hn.
      apply elem_of_singleton in Hn as ->. by eexists. }
    assert (n ∉ own c1) as Hn1.
    { intros Hn1. rewrite (base_fs_own c1 w1 n Hn1) in E. congruence. }
    split; [done|]. by rewrite (base_fs_other c1 w1 n) in E. }
  split; [intros n Hn1 Hn2; by apply Hown in Hn2 as []|].
  eapply kind_inv_frame; [done|]. intros n Hn. destruct (Hown n Hn) as [Hn1 Hw]. split; [done|].
  intros Hin. assert (n ∈ ANON_FILES a ∖ own c) as H by set_solver. rewrite <- Ha in H. set_solver.
Qed.

(** ** The connections of a daemon *)

Record clients_inv (d : Daemon) (w : World) : Prop := mkClientsInv {
  ci_anon : anon_inv (d_anon d) w;
  ci_conn : forall fd c, d_states d !! fd = Some c -> kind_inv (d_anon d) c w /\ waiting c;
  ci_apart : forall fd fd' c c', fd <> fd' -> d_states d !! fd = Some c -> d_states d !! fd' = Some c' ->
    own c ## own c'
}.

(** The temporary files in use, and the files that are not temporary. *)
Definition temps (d : Daemon) : gset string := ⋃ (map (fun kv => own kv.2) (map_to_list (d_states d))).

Definition visible (d : Daemon) (w : World) : gmap string fnode :=
  base.filter (fun kv => kv.1 ∉ temps d) (w_fs w).

Lemma elem_temps n d : n ∈ temps d <-> exists fd c, d_states d !! fd = Some c /\ n ∈ own c.
Proof.
  unfold temps. rewrite elem_of_union_list. split.
  - intros (X & ([fd c] & -> & Hin)%list_elem_of_fmap & Hn). exists fd, c. by rewrite <- elem_of_map_to_list.
  - intros (fd & c & Hc & Hn). exists (own c). split; [|done].
    apply list_elem_of_fmap. exists (fd, c). by rewrite elem_of_map_to_list.
Qed.

Lemma lookup_visible d w n : visible d w !! n = if decide (n ∈ temps d) then None else w_fs w !! n.
Proof.
  unfold visible. destruct (decide (n ∈ temps d)) as [Hn|Hn].
  - apply map_lookup_filter_None_2. right. intros x _. cbn. by intros H.
  - destruct (w_fs w !! n) as [x|] eqn:E.
    + by apply map_lookup_filter_Some_2.
    + apply map_lookup_filter_None_2. by left.
Qed.

(** What one call of the client branch does. *)
Record client_step (fd : Z) (c : ConnectionState) (d : Daemon) (w : World) (d' : Daemon) (w' : World)
    (t : list event) (l : list frame) : Prop := mkClientStep {
  cl_trace : w_trace w' = w_trace w ++ t;
  cl_reads : Forall (reads_only fd) t;
  cl_wf : Forall frame_wf l;
  cl_state : exists c', d_states d' = <[fd := c']> (d_states d) /\
    pending c w ++ received fd t = concat (map frame_bytes l) ++ pending c' w' /\
    base_fs c' w' = apply_frames (base_fs c w) l /\ conn_inv (d_anon d', c') w' /\ waiting c' /\
    ANON_FILES (d_anon d') ∖ own c' = ANON_FILES (d_anon d) ∖ own c
}.

Lemma on_client_step fd c d w d' w' rev :
  clients_inv d w -> d_states d !! fd = Some c ->
  on_client (mkPollfd fd rev) d w = (Ret (inl d'), w') ->
  exists t l, client_step fd c d w d' w' t l /\ w_ans w' `suffix_of` w_ans w.
Proof.
  intros Hi Hc (r & w1 & E & Hr)%bind_Ret. cbn [pf_fd] in *. rewrite Hc in E. cbn [default] in E.
  destruct (calls_of_readable _ _ _ _ _ E) as (Hs & t' & Ht' & Hro).
  destruct r as [[a1 c1]|]; [|done]. injection Hr as <- <-.
  destruct (ci_conn _ _ Hi fd c Hc) as [Hk Hw].
  pose proof (wp_Ret _ _ _ _ _ _ (on_readable_ok fd (d_anon d, c) w (conj (ci_anon _ _ Hi) Hk)) E)
    as (Hi' & (t & l & Ht & Hwf & Hp & Hb & Ha & _) & Hst).
  assert (t' = t) as -> by (apply (inj (app (w_trace w))); congruence).
  exists t, l. split; [|done]. split; try done. exists c1. split_and!; try done. by apply settled_waiting.
Qed.

Section step_facts.
Context (fd : Z) (c : ConnectionState) (d : Daemon) (w : World) (d' : Daemon) (w' : World).
Context (t : list event) (l : list frame).
Hypothesis Hinv : clients_inv d w.
Hypothesis Hc : d_states d !! fd = Some c.
Hypothesis Hstep : client_step fd c d w d' w' t l.
Hypothesis Hclash : forall f fd' c', f ∈ l -> fd' <> fd -> d_states d !! fd' = Some c' -> target_name f ∉ own c'.

Lemma others_isolated fd2 c2 :
  fd2 <> fd -> d_states d !! fd2 = Some c2 ->
  d_states d' !! fd2 = Some c2 /\ pending c2 w' = pending c2 w /\ kind_inv (d_anon d') c2 w' /\
  forall c1, d_states d' !! fd = Some c1 -> own c1 ## own c2.
Proof using All.
  intros Hne Hc2. destruct (cl_state _ _ _ _ _ _ _ _ Hstep) as (c1 & Hst & _ & Hb & _ & _ & Ha).
  destruct (isolated (d_anon d) c w (d_anon d') c1 w' c2 l) as (H1 & H2 & H3); try done.
  - by apply (ci_conn _ _ Hinv fd2).
  - by apply (ci_apart _ _ Hinv fd fd2).
  - intros f Hf. by eapply Hclash.
  - rewrite Hst, lookup_insert_ne by congruence. split_and!; try done.
    intros c1'. rewrite lookup_insert_eq. by intros [= <-].
Qed.

Lemma client_step_inv : clients_inv d' w'.
Proof using All.
  destruct (cl_state _ _ _ _ _ _ _ _ Hstep) as (c1 & Hst & _ & _ & Hi1 & Hw1 & _).
  assert (forall k ck, d_states d' !! k = Some ck -> k = fd /\ ck = c1 \/ k <> fd /\ d_states d !! k = Some ck) as Hcase.
  { intros k ck Hk. rewrite Hst in Hk. apply lookup_insert_Some in Hk as [[-> ->]|[Hne Hk]]; [by left|by right]. }
  split.
  - apply Hi1.
  - intros k ck [[-> ->]|[Hne Hk]]%Hcase; [split; [apply Hi1|done]|].
    destruct (others_isolated k ck Hne Hk) as (_ & _ & Hki & _). split; [done|]. by apply (ci_conn _ _ Hinv k).
  - intros k1 k2 x1 x2 Hne H1 H2.
    apply Hcase in H1 as H1'; apply Hcase in H2 as H2'.
    destruct H1' as [[-> ->]|[Hn1 Hk1]], H2' as [[-> ->]|[Hn2 Hk2]]; try done.
    + destruct (others_isolated k2 x2 Hn2 Hk2) as (_ & _ & _ & Hap). by apply Hap.
    + destruct (others_isolated k1 x1 Hn1 Hk1) as (_ & _ & _ & Hap). symmetry. by apply Hap.
    + by apply (ci_apart _ _ Hinv k1 k2).
Qed.

Lemma client_step_visible : visible d' w' = apply_frames (visible d w) l.
Proof using All.
  destruct (cl_state _ _ _ _ _ _ _ _ Hstep) as (c1 & Hst & _ & Hb & _).
  assert (forall n k ck, d_states d' !! k = Some ck -> n ∈ own ck ->
    n ∈ own c1 \/ n ∈ temps (set_states (delete fd (d_states d)) d)) as Hcase.
  { intros n k ck Hk Hn. rewrite Hst in Hk. apply lookup_insert_Some in Hk as [[-> ->]|[Hne Hk]]; [by left|right].
    apply elem_temps. exists k, ck. cbn [d_states set_states]. by rewrite lookup_delete_ne. }
  apply map_eq. intros n.
  destruct (decide (n ∈ temps (set_states (delete fd (d_states d)) d))) as [Hn|Hn].
  - apply elem_temps in Hn as (k & ck & Hk & Hn). cbn [d_states set_states] in Hk.
    apply lookup_delete_Some in Hk as [Hne Hk].
    rewrite apply_frames_other.
    + rewrite !lookup_visible, !decide_True; [done| |]; apply elem_temps; exists k, ck; [done|].
      by rewrite Hst, lookup_insert_ne.
    + rewrite list_elem_of_fmap. intros (f & -> & Hf). by eapply (Hclash f k ck).
  - assert (visible d' w' !! n = base_fs c1 w' !! n) as ->.
    { rewrite lookup_visible. case_decide as Ht.
      - apply elem_temps in Ht as (k & ck & Hk & Hnk). destruct (Hcase n k ck Hk Hnk) as [H1|]; [|done].
        by rewrite base_fs_own.
      - symmetry. apply base_fs_other. intros H1. apply Ht, elem_temps. exists fd, c1. by rewrite Hst, lookup_insert_eq. }
    rewrite Hb. apply apply_frames_ext. rewrite lookup_visible. case_decide as Ht.
    + apply elem_temps in Ht as (k & ck & Hk & Hnk). destruct (decide (k = fd)) as [->|Hne].
      * simplify_eq. by apply base_fs_own.
      * destruct Hn. apply elem_temps. exists k, ck. cbn [d_states set_states]. by rewrite lookup_delete_ne.
    + apply base_fs_other. intros H1. apply Ht, elem_temps. by exists fd, c.
Qed.
End step_facts.

(** ** Where the names of temporary files come from *)

(** The pointer is the old one, or mkstemp(3) gave the name. *)
Definition path_from (w : World) (p p' : option string) : Prop :=
  p' = p \/ exists f n, p' = Some n /\ RFile f n ∈ w_ans w.

Lemma path_from_trans w w1 p p1 p2 :
  w_ans w1 `suffix_of` w_ans w -> path_from w p p1 -> path_from w1 p1 p2 -> path_from w p p2.
Proof.
  intros [l Hl] H1 [->|(f & n & -> & Hn)]; [done|]. right. exists f, n. split; [done|].
  rewrite Hl. by apply elem_of_app; right.
Qed.

Lemma advance_path fd tg c w p c' w' :
  advance fd tg c w = (Ret (p, c'), w') -> cs_anon_path c' = cs_anon_path c.
Proof.
  intros ([r got] & w1 & _ & H)%bind_Ret. apply bind_Ret in H as (c1 & w2 & Hs & H).
  assert (cs_anon_path c1 = cs_anon_path c) as E.
  { unfold store_target in Hs. destruct got; [by injection Hs as <- <-|]. destruct tg.
    - destruct (store_at _ _ _); [by injection Hs as <- <-|done].
    - destruct (cs_anon_buf c); [|done]. apply bind_Ret in Hs as (? & ? & _ & Hs). by injection Hs as <- <-. }
  destruct (io_ok r); injection H as _ <- _; by rewrite <- E.
Qed.

Lemma create_anonfile_name size mode a w fd n a' w' :
  create_anonfile size mode a w = (Ret (fd, n, a'), w') -> exists f, RFile f n ∈ w_ans w.
Proof.
  intros (r & w1 & E & H)%bind_Ret. unfold sys in E. destruct (w_ans w) as [|x rest]; [done|].
  case_ifs; [|done]. injection E as <- <-. destruct x; try done. cbn in H.
  apply bind_Ret in H as (? & ? & _ & H). injection H as _ <- _ _. eexists. apply list_elem_of_here.
Qed.

Lemma reset_path c w c' w' : reset c w = (Ret c', w') -> cs_anon_path c' = cs_anon_path c.
Proof. intros (? & ? & _ & H)%bind_Ret. by injection H as <- <-. Qed.

Lemma header_p1_path fd x w x' w' :
  on_header_p1 fd x w = (Ret (inl x'), w') -> cs_anon_path x'.2 = cs_anon_path x.2.
Proof.
  destruct x as [a c]. unfold on_header_p1. destruct (cs_kind c); try by intros [= <- <-].
  intros ([p c1] & w1 & E%advance_path & H)%bind_Ret.
  destruct p; [done|by injection H as <- <-|]. injection H as <- <-. exact E.
Qed.

Lemma message_path a c w x' w' :
  on_message a c w = (Ret (inl x'), w') -> path_from w (cs_anon_path c) (cs_anon_path x'.2).
Proof.
  unfold on_message. case_bool_decide.
  - intros ([[fd n] a'] & w1 & E & H2)%bind_Ret. apply create_anonfile_name in E as [f Hf].
    apply bind_Ret in H2 as (c1 & w2 & E2 & H3). injection H3 as <- <-. right. exists f, n. split; [|done].
    destruct (0 <? _); [|by injection E2 as <- <-].
    apply bind_Ret in E2 as (? & ? & _ & E2). by injection E2 as <- <-.
  - intros (? & w1 & _ & H2)%bind_Ret. apply bind_Ret in H2 as (c1 & w2 & E%reset_path & H2).
    injection H2 as <- <-. left. exact E.
Qed.

Lemma header_p2_path fd x w x' w' :
  on_header_p2 fd x w = (Ret (inl x'), w') -> path_from w (cs_anon_path x.2) (cs_anon_path x'.2).
Proof.
  destruct x as [a c]. unfold on_header_p2. destruct (cs_kind c); try (intros [= <- <-]; by left).
  intros ([p c1] & w1 & E & H)%bind_Ret. pose proof (advance_path _ _ _ _ _ _ _ E) as Ep.
  apply calls_of_advance in E as [Hs _].
  destruct p; [done|injection H as <- <-; by left|].
  apply message_path in H. eapply path_from_trans; [done| |done]. by left.
Qed.

Lemma receiving_path fd x w x' w' :
  on_receiving fd x w = (Ret (inl x'), w') -> cs_anon_path x'.2 = cs_anon_path x.2.
Proof.
  destruct x as [a c]. unfold on_receiving. destruct (cs_kind c); try by intros [= <- <-].
  intros ([p c1] & w1 & E%advance_path & H)%bind_Ret. destruct p; [done|by injection H as <- <-|].
  unfold commit in H. apply bind_Ret in H as (? & w2 & _ & H). destruct (cs_anon_path c1) as [n|] eqn:En; [|done].
  apply bind_Ret in H as (a' & w3 & _ & H). apply bind_Ret in H as (c2 & w4 & Er%reset_path & H).
  injection H as <- <-. cbn. congruence.
Qed.

Lemma readable_path fd x w x' w' :
  on_readable fd x w = (Ret (inl x'), w') -> path_from w (cs_anon_path x.2) (cs_anon_path x'.2).
Proof.
  intros (r2 & w2 & H & H3)%bind_Ret. apply bind_Ret in H as (r1 & w1 & H1 & H2).
  destruct r1 as [x1|]; [|by injection H2 as <- <-]. destruct r2 as [x2|]; [|done].
  pose proof H1 as E1%header_p1_path. apply header_p2_path in H2. apply receiving_path in H3.
  assert (cs_anon_path (on_connected x.2) = cs_anon_path x.2) as E0 by (unfold on_connected; by destruct (cs_kind x.2)).
  apply calls_of_header_p1 in H1 as [Hs _].
  rewrite H3. eapply path_from_trans; [exact Hs| |exact H2]. left. cbn in E1. congruence.
Qed.

(** ** Properties *)

Section interleaving.
Context (temporary : string -> Prop).

Definition names_ok (d : Daemon) (w : World) : Prop :=
  (forall fd c n, d_states d !! fd = Some c -> cs_anon_path c = Some n -> temporary n) /\
  (forall f n, RFile f n ∈ w_ans w -> temporary n).

(** The frames and the rest of what a connection has received. *)
Definition stream (fd : Z) (c : ConnectionState) (w : World) (t : list event) : list frame * list byte :=
  parse (pending c w ++ received fd t).

Definition of_conn {A} (fd : Z) (l : list (Z * A)) : list A := (base.filter (fun x => x.1 = fd) l).*2.

Lemma own_temporary d w fd c n :
  names_ok d w -> d_states d !! fd = Some c -> n ∈ own c -> temporary n.
Proof.
  intros [Hn _] Hc. unfold own. destruct (cs_kind c); try (intros H; by apply elem_of_empty in H).
  destruct (cs_anon_path c) as [m|] eqn:E; [|intros H; by apply elem_of_empty in H].
  intros ->%elem_of_singleton. by eapply Hn.
Qed.

Lemma on_client_names fd c d w d' w' rev :
  names_ok d w -> d_states d !! fd = Some c ->
  on_client (mkPollfd fd rev) d w = (Ret (inl d'), w') -> names_ok d' w'.
Proof.
  intros [Hn Ha] Hc (r & w1 & E & Hr)%bind_Ret. cbn [pf_fd] in *. rewrite Hc in E. cbn [default] in E.
  destruct r as [x|]; [|done]. injection Hr as <- <-. pose proof (readable_path _ _ _ _ _ E) as Hp.
  apply calls_of_readable in E as [[l Hl] _]. split.
  - intros k ck n Hk Hkn. cbn in Hk. apply lookup_insert_Some in Hk as [[-> <-]|[_ Hk]]; [|by eapply Hn].
    destruct Hp as [Hp|(f & m & Hp & Hm)]; cbn in Hp.
    + eapply Hn; [done|]. congruence.
    + assert (n = m) as -> by congruence. by eapply Ha.
  - intros f n Hf. eapply (Ha f). rewrite Hl. apply elem_of_app. by right.
Qed.

Lemma reads_only_other fd fd' t : fd <> fd' -> Forall (reads_only fd) t -> received fd' t = [].
Proof.
  intros Hne. induction 1 as [|e t He _ IH]; [done|]. unfold received in *. cbn. rewrite IH, app_nil_r.
  destruct e as [c r| |]; try done. destruct c; try done. destruct r; try done. cbn in *. subst.
  by rewrite bool_decide_eq_false_2.
Qed.

Lemma stream_self fd c d w d' w' t1 t2 l c' :
  client_step fd c d w d' w' t1 l -> d_states d' !! fd = Some c' ->
  stream fd c w (t1 ++ t2) = (l ++ (stream fd c' w' t2).1, (stream fd c' w' t2).2).
Proof.
  intros H Hc'. destruct (cl_state _ _ _ _ _ _ _ _ H) as (c1 & Hst & Hp & _).
  rewrite Hst, lookup_insert_eq in Hc'. injection Hc' as ->. unfold stream.
  rewrite received_app, app_assoc, Hp, <- app_assoc. apply parse_app_frames, (cl_wf _ _ _ _ _ _ _ _ H).
Qed.

Definition extends (w w' : World) : Prop := exists t, w_trace w' = w_trace w ++ t.

#[global] Instance extends_pre : PreOrder extends.
Proof.
  split; [intros w; exists []; by rewrite app_nil_r|].
  intros w1 w2 w3 [t1 E1] [t2 E2]. exists (t1 ++ t2). by rewrite E2, E1, app_assoc.
Qed.

Lemma serve_clients_extends fds d : within extends (serve_clients fds d).
Proof.
  revert d. induction fds as [|fd fds IH]; intros d; cbn [serve_clients]; [apply within_ret, _|].
  apply within_bind; [apply _| |intros []; [apply IH|apply within_ret, _]].
  intros w r w' (x & w1 & (_ & t & Ht & _)%calls_of_readable & H)%bind_Ret. injection H as _ <-. by exists t.
Qed.

(** The clause of the theorem for one order of calls. *)
Definition interleaved (d : Daemon) (w : World) (t : list event) (d' : Daemon) (w' : World) : Prop :=
  clients_inv d' w' /\ dom (d_states d') = dom (d_states d) /\
  (forall fd c, d_states d !! fd = Some c ->
     exists c', d_states d' !! fd = Some c' /\ pending c' w' = (stream fd c w t).2) /\
  exists l : list (Z * frame),
    visible d' w' = apply_frames (visible d w) l.*2 /\ Forall (fun x => is_Some (d_states d !! x.1)) l /\
    forall fd c, d_states d !! fd = Some c -> of_conn fd l = (stream fd c w t).1.

Lemma interleaved_refl d w : clients_inv d w -> interleaved d w [] d w.
Proof.
  intros Hi. assert (forall fd c, d_states d !! fd = Some c -> stream fd c w [] = ([], pending c w)) as E.
  { intros fd c Hc. unfold stream. cbn. rewrite app_nil_r. destruct (ci_conn _ _ Hi fd c Hc) as [Hk Hw].
    by eapply parse_incomplete, pending_incomplete. }
  split_and!; [done..| |].
  - intros fd c Hc. exists c. by rewrite (E fd c Hc).
  - exists []. split_and!; [done..|]. intros fd c Hc. by rewrite (E fd c Hc).
Qed.

Lemma of_conn_app {A} fd (l1 l2 : list (Z * A)) : of_conn fd (l1 ++ l2) = of_conn fd l1 ++ of_conn fd l2.
Proof. unfold of_conn. by rewrite filter_app, fmap_app. Qed.

Lemma of_conn_same {A} fd (l : list A) : of_conn fd (pair fd <$> l) = l.
Proof.
  unfold of_conn. induction l as [|f l IH]; [done|]. by rewrite fmap_cons, filter_cons_True, fmap_cons, IH.
Qed.

Lemma of_conn_other {A} fd fd' (l : list A) : fd' <> fd -> of_conn fd' (pair fd <$> l) = [].
Proof.
  intros Hne. unfold of_conn. induction l as [|f l IH]; [done|]. by rewrite fmap_cons, filter_cons_False by (cbn; congruence).
Qed.

Section one_call.
Context (fd : Z) (c : ConnectionState) (d : Daemon) (w : World) (d1 : Daemon) (w1 : World).
Context (t1 t2 : list event) (l : list frame).
Hypothesis Hi : clients_inv d w.
Hypothesis Hn : names_ok d w.
Hypothesis Hc : d_states d !! fd = Some c.
Hypothesis Hs : client_step fd c d w d1 w1 t1 l.
Hypothesis Hfr : forall fd c f, d_states d !! fd = Some c -> f ∈ (stream fd c w (t1 ++ t2)).1 -> ~ temporary (target_name f).

Lemma state_after : exists c1, d_states d1 !! fd = Some c1.
Proof using Hs. destruct (cl_state _ _ _ _ _ _ _ _ Hs) as (c1 & -> & _). exists c1. apply lookup_insert_eq. Qed.

Lemma no_clash f fd' c' : f ∈ l -> fd' <> fd -> d_states d !! fd' = Some c' -> target_name f ∉ own c'.
Proof using All.
  intros Hf _ Hc' Ho. destruct state_after as [c1 Hc1]. apply (Hfr fd c f Hc).
  - rewrite (stream_self _ _ _ _ _ _ _ _ _ _ Hs Hc1). apply elem_of_app. by left.
  - by eapply own_temporary.
Qed.

Lemma stream_other fd2 c2 :
  fd2 <> fd -> d_states d !! fd2 = Some c2 ->
  d_states d1 !! fd2 = Some c2 /\ stream fd2 c2 w (t1 ++ t2) = stream fd2 c2 w1 t2.
Proof using All.
  intros Hne Hc2. destruct (others_isolated fd c d w d1 w1 t1 l Hi Hc Hs no_clash fd2 c2 Hne Hc2) as (H1 & H2 & _).
  split; [done|]. unfold stream.
  by rewrite received_app, (reads_only_other fd), H2 by (congruence || apply (cl_reads _ _ _ _ _ _ _ _ Hs)).
Qed.

Lemma frames_after fd' c' f :
  d_states d1 !! fd' = Some c' -> f ∈ (stream fd' c' w1 t2).1 -> ~ temporary (target_name f).
Proof using All.
  intros Hc' Hf. destruct (decide (fd' = fd)) as [->|Hne].
  - apply (Hfr fd c f Hc). rewrite (stream_self _ _ _ _ _ _ _ _ _ _ Hs Hc'). apply elem_of_app. by right.
  - destruct (cl_state _ _ _ _ _ _ _ _ Hs) as (c1 & Hst & _). rewrite Hst, lookup_insert_ne in Hc' by done.
    apply (Hfr fd' c' f Hc'). by rewrite (proj2 (stream_other fd' c' Hne Hc')).
Qed.

Lemma states_before fd' : is_Some (d_states d1 !! fd') -> is_Some (d_states d !! fd').
Proof using Hc Hs.
  destruct (cl_state _ _ _ _ _ _ _ _ Hs) as (c1 & -> & _). intros [<-|H]%lookup_insert_is_Some'; [by exists c|done].
Qed.

Lemma interleaved_step d' w' : interleaved d1 w1 t2 d' w' -> interleaved d w (t1 ++ t2) d' w'.
Proof using All.
  intros (Hi' & Hdom & Hp & l2 & Hv & Hfds & Hl2). destruct state_after as [c1 Hc1].
  pose proof (stream_self fd c d w d1 w1 t1 t2 l c1 Hs Hc1) as Hself. split_and!; [done| | |].
  - destruct (cl_state _ _ _ _ _ _ _ _ Hs) as (c2 & Hst & _). rewrite Hdom, Hst, dom_insert_L.
    apply elem_of_dom_2 in Hc. set_solver.
  - intros k ck Hk. destruct (decide (k = fd)) as [->|Hne].
    + simplify_eq. rewrite Hself. by apply Hp.
    + destruct (stream_other k ck Hne Hk) as [Hk1 ->]. by apply Hp.
  - exists ((pair fd <$> l) ++ l2). split_and!.
    + rewrite Hv, (client_step_visible fd c d w d1 w1 t1 l) by (done || exact no_clash).
      unfold apply_frames. rewrite fmap_app, foldl_app. by rewrite <- list_fmap_compose, list_fmap_id.
    + apply Forall_app. split; [apply Forall_fmap, Forall_true; by exists c|].
      eapply Forall_impl; [exact Hfds|]. intros x. apply states_before.
    + intros k ck Hk. rewrite of_conn_app. destruct (decide (k = fd)) as [->|Hne].
      * simplify_eq. by rewrite Hself, of_conn_same, (Hl2 fd c1).
      * destruct (stream_other k ck Hne Hk) as [Hk1 ->]. by rewrite of_conn_other, (Hl2 k ck).
Qed.
End one_call.

Lemma serve_interleaved fds d w d' w' t :
  clients_inv d w -> names_ok d w -> Forall (fun fd => is_Some (d_states d !! fd)) fds ->
  serve_clients fds d w = (Ret (inl d'), w') -> w_trace w' = w_trace w ++ t ->
  (forall fd c f, d_states d !! fd = Some c -> f ∈ (stream fd c w t).1 -> ~ temporary (target_name f)) ->
  interleaved d w t d' w'.
Proof.
  revert d w t. induction fds as [|fd fds IH]; intros d w t Hi Hn Hfds Hrun Ht Hfr.
  - injection Hrun as <- <-. rewrite <- (app_nil_r (w_trace w)) in Ht at 1.
    apply (inj (app (w_trace w))) in Ht. subst t. by apply interleaved_refl.
  - apply Forall_cons in Hfds as [[c Hc] Hfds]. apply bind_Ret in Hrun as (r & w1 & E & Hrun).
    destruct r as [d1|]; [|done]. pose proof (on_client_names _ _ _ _ _ _ _ Hn Hc E) as Hn1.
    apply (on_client_step fd c) in E as (t1 & l & Hs & _); [|done|done].
    destruct (serve_clients_extends _ _ _ _ _ Hrun) as [t2 Ht2].
    assert (t = t1 ++ t2) as ->.
    { rewrite Ht2, (cl_trace _ _ _ _ _ _ _ _ Hs), <- app_assoc in Ht. by apply (inj (app (w_trace w))) in Ht. }
    eapply interleaved_step; [done..|]. apply IH; [|done| |done|done|by eapply frames_after].
    + eapply client_step_inv; [done..|]. by eapply no_clash.
    + destruct (cl_state _ _ _ _ _ _ _ _ Hs) as (c1 & -> & _).
      eapply Forall_impl; [done|]. cbn. intros k Hk. apply lookup_insert_is_Some'. by right.
Qed.

(** C8. Many connections: the client branch is called for accepted
    connections in any order, under any fragmentation of their streams, and no
    completed frame carries a name that mkstemp(3) gives. Then the invariant
    of all connections is kept, each connection holds the incomplete rest of
    its own stream, and the files other than the temporary ones are what the
    frames of all the streams leave in some order [l] in which the frames of
    each stream keep theirs; [l] has no other frames. *)
Theorem connections_interleave fds d w d' w' t :
  clients_inv d w -> names_ok d w -> Forall (fun fd => is_Some (d_states d !! fd)) fds ->
  serve_clients fds d w = (Ret (inl d'), w') -> w_trace w' = w_trace w ++ t ->
  (forall fd c f, d_states d !! fd = Some c -> f ∈ (stream fd c w t).1 -> ~ temporary (target_name f)) ->
  clients_inv d' w' /\ dom (d_states d') = dom (d_states d) /\
  (forall fd c, d_states d !! fd = Some c ->
     exists c', d_states d' !! fd = Some c' /\ pending c' w' = (stream fd c w t).2) /\
  exists l : list (Z * frame),
    visible d' w' = apply_frames (visible d w) l.*2 /\ Forall (fun x => is_Some (d_states d !! x.1)) l /\
    forall fd c, d_states d !! fd = Some c -> of_conn fd l = (stream fd c w t).1.
Proof. apply serve_interleaved. Qed.
End interleaving.

(** ** Two connections, one in the middle of the other *)

Module MultiDemo.
Definition conn (sock fd : Z) : ConnectionState := set_fds fd sock new_conn.
Definition daemon : Daemon :=
  mkDaemon (mkDaemonInitMessage 50000 2) [] 4 ∅ (<[9 := conn 3 9]> {[10 := conn 4 10]}) no_anon.
Definition tmp : string := "/tmp/enu.k1k2k3".

(** A directory on 9, interrupted after its header by a file on 10. *)
Definition script : list sysret :=
  [RBytes (Demo.hdr directory 1 0); RBytes [];
   RBytes (Demo.hdr regular 1 2); RBytes (bytes_of "f"); RFile 11 tmp; ROk 0; ROk 4096;
   RBytes (bytes_of "hi"); ROk 0; ROk 0; ROk 0;
   RBytes (bytes_of "d"); ROk 0; RErr (EOTHER 9)].
Definition world : World := mkWorld script [] ∅ ∅.
Definition order : list Z := [9; 10; 9].
Definition run : outcome (flow Daemon) * World := serve_clients order daemon world.
Definition final : Daemon := match run.1 with Ret (inl d) => d | _ => daemon end.

Lemma states fd c : d_states daemon !! fd = Some c -> fd = 9 /\ c = conn 3 9 \/ fd = 10 /\ c = conn 4 10.
Proof.
  cbn [d_states daemon]. intros [[<- <-]|[_ H]]%lookup_insert_Some; [by left|right].
  by apply lookup_singleton_Some in H as [<- <-].
Qed.

Lemma daemon_inv w : clients_inv daemon w.
Proof.
  split.
  - intros n Hn. by apply elem_of_empty in Hn.
  - intros fd c [[-> ->]|[-> ->]]%states; (split; [done|by left]).
  - intros fd fd' c c' _ [[-> ->]|[-> ->]]%states _; set_solver.
Qed.

Lemma daemon_names : names_ok (fun n => n = tmp) daemon world.
Proof.
  split; [by intros fd c n [[-> ->]|[-> ->]]%states|].
  intros f n Hf. cbn in Hf. unfold script in Hf. rewrite !elem_of_cons in Hf.
  destruct_or!; simplify_eq; try done. by apply not_elem_of_nil in Hf.
Qed.

Lemma frames fd c f : d_states daemon !! fd = Some c -> f ∈ (stream fd c world (w_trace run.2)).1 -> target_name f <> tmp.
Proof.
  intros Hc Hf.
  assert (Forall (fun f => target_name f <> tmp) (stream fd c world (w_trace run.2)).1) as H.
  { apply states in Hc as [[-> ->]|[-> ->]]; apply (bool_decide_unpack _); by vm_compute. }
  rewrite Forall_forall in H. by apply H.
Qed.
End MultiDemo.

Lemma connections_interleave_witness :
  exists l : list (Z * frame),
    visible MultiDemo.final MultiDemo.run.2 = apply_frames ∅ l.*2 /\
    map target_name (of_conn 9 l) = ["d"] /\ map target_name (of_conn 10 l) = ["f"].
Proof.
  destruct (connections_interleave (fun n => n = MultiDemo.tmp) MultiDemo.order MultiDemo.daemon MultiDemo.world
    MultiDemo.final MultiDemo.run.2 (w_trace MultiDemo.run.2)) as (_ & _ & _ & l & Hv & _ & Hl).
  - apply MultiDemo.daemon_inv.
  - exact MultiDemo.daemon_names.
  - repeat constructor; by eexists.
  - by vm_compute.
  - by vm_compute.
  - exact MultiDemo.frames.
  - exists l. split; [exact Hv|]. split.
    + rewrite (Hl 9 (MultiDemo.conn 3 9)); by vm_compute.
    + rewrite (Hl 10 (MultiDemo.conn 4 10)); by vm_compute.
Defined.
