(* ===== verification/Shm.v ===== *)
(** * [enu/shm.h]: the shared-memory queue

    A ring of 32-bit slots with a 32-bit running counter, one writer and any
    number of readers that keep their own [tail_]. The element type [T] is
    taken at [uint32_t], the type of the slots. The object is larger than the
    segment it is laid over: an access of a slot behind the end of the segment
    is undefined, [None]. *)

From S2P Require Import Prelude Sys.

Definition shmkey : Z := 0x43576825.
Definition SHM_SIZE : Z := 1024 * 4.

(** Elements of [ShmBuffer]: [SHM_SIZE / sizeof(uint32_t) - sizeof(uint32_t)]. *)
Definition buf_size : Z := SHM_SIZE / 4 - 4.

Record ShmQueue := mkQueue { head_ : Z; buf_ : list Z }.
Record ShmReader := mkReader { tail_ : Z }.

(** Members aligned to 64 bytes: [head_] at 0, [buf_] at 64. *)
Definition buf_offset : Z := 64.
Definition ShmQueue_sizeof : Z := (buf_offset + 4 * buf_size + 63) / 64 * 64.

(** [open]: the address the segment is attached at. *)
Definition open : Sys Z :=
  shmid ← sys_or_pfatal (Shmget shmkey SHM_SIZE) "shmget()";
  sys_or_pfatal (Shmat shmid) "shmat()".

Definition slot (idx : Z) : nat := Z.to_nat (idx mod buf_size).

(** The slot lies within the [SHM_SIZE] bytes of the segment. *)
Definition in_segment (idx : Z) : bool := buf_offset + 4 * (idx mod buf_size) + 4 <=? SHM_SIZE.

(** [push(uint64_t value)]: the slot takes the low 32 bits of [value], and the
    counter the low 32 bits of [idx + 1]. *)
Definition push (value : Z) (q : ShmQueue) : option ShmQueue :=
  let idx := head_ q in
  if in_segment idx then Some (mkQueue (u32 (idx + 1)) (<[slot idx := u32 value]> (buf_ q)))
  else None.

Definition reader (q : ShmQueue) : ShmReader := mkReader (head_ q).

(** [pop]. On an empty queue the source returns [false], from which
    [std::optional<uint32_t>] constructs an engaged optional holding 0. *)
Definition pop (r : ShmReader) (q : ShmQueue) : option (Z * ShmReader) :=
  if tail_ r =? head_ q then Some (0, r)
  else if in_segment (tail_ r) then
    v ← buf_ q !! slot (tail_ r); Some (v, mkReader (u32 (tail_ r + 1)))
  else None.

Fixpoint pushes (vs : list Z) (q : ShmQueue) : option ShmQueue :=
  match vs with [] => Some q | v :: vs' => push v q ≫= pushes vs' end.

Fixpoint pops (n : nat) (r : ShmReader) (q : ShmQueue) : option (list Z * ShmReader) :=
  match n with
  | O => Some ([], r)
  | S n' => '(v, r) ← pop r q; '(vs, r) ← pops n' r q; Some (v :: vs, r)
  end.

Definition queue_wf (q : ShmQueue) : Prop :=
  fits 32 (head_ q) /\ zlen (buf_ q) = buf_size /\ Forall (fits 32) (buf_ q).

(** ** Lemmas *)

Lemma slot_lt idx l : zlen l = buf_size -> (slot idx < length (l : list Z))%nat.
Proof.
  unfold slot, zlen. intros H. change buf_size with 1020 in *.
  pose proof (Z.mod_pos_bound idx 1020). lia.
Qed.

Lemma slot_inj i j : slot i = slot j -> (i - j) mod buf_size = 0.
Proof.
  unfold slot. change buf_size with 1020. intros H.
  pose proof (Z.mod_pos_bound i 1020). pose proof (Z.mod_pos_bound j 1020).
  rewrite Zminus_mod. replace (i mod 1020) with (j mod 1020) by lia.
  by rewrite Z.sub_diag.
Qed.

Lemma slot_ne i j : 0 < i - j < buf_size -> slot i <> slot j.
Proof.
  intros Hd H%slot_inj. change buf_size with 1020 in *. rewrite Z.mod_small in H; lia.
Qed.

(** The slots [0, buf_size - 12) are inside. *)
Lemma in_segment_iff idx : in_segment idx = true <-> idx mod buf_size < buf_size - 12.
Proof.
  unfold in_segment. change buf_offset with 64. change SHM_SIZE with 4096. change buf_size with 1020.
  rewrite Z.leb_le. lia.
Qed.

Lemma push_inside v q :
  queue_wf q -> in_segment (head_ q) = true -> head_ q + 1 < 2 ^ 32 ->
  exists q', push v q = Some q' /\ queue_wf q' /\ head_ q' = head_ q + 1 /\
    buf_ q' = <[slot (head_ q) := u32 v]> (buf_ q).
Proof.
  intros (Hh & Hl & Hb) Hin Hlt. unfold push. rewrite Hin. eexists. split; [done|]. cbn.
  assert (u32 (head_ q + 1) = head_ q + 1) as -> by (unfold fits in Hh; apply wrap_small; split; lia).
  split_and!; try done. unfold fits in Hh. split_and!; cbn; [split; lia| |].
  - unfold zlen in *. by rewrite length_insert.
  - apply Forall_insert; [done|by apply wrap_fits].
Qed.

(** Every one of [n] slots from [idx] on is inside. *)
Definition window (idx n : Z) : Prop := forall k, 0 <= k < n -> in_segment (idx + k) = true.

Lemma window_cons idx n : 0 <= n -> window idx (1 + n) -> in_segment idx = true /\ window (idx + 1) n.
Proof.
  intros Hn H. split; [rewrite <- (Z.add_0_r idx); apply H; lia|].
  intros k Hk. rewrite <- Z.add_assoc. apply H. lia.
Qed.

Lemma window_intro idx n : idx mod buf_size + n <= buf_size - 12 -> window idx n.
Proof.
  intros H k Hk. apply in_segment_iff. change buf_size with 1020 in *.
  pose proof (Z.mod_pos_bound idx 1020 ltac:(lia)).
  rewrite <- Zplus_mod_idemp_l, Z.mod_small; lia.
Qed.

(** Pushes into slots that are inside: the counter follows, a slot that is
    not reused keeps its value, and the new slots hold the new values. *)
Lemma pushes_inside vs q :
  queue_wf q -> window (head_ q) (zlen vs) -> zlen vs <= buf_size -> head_ q + zlen vs < 2 ^ 32 ->
  exists q', pushes vs q = Some q' /\ head_ q' = head_ q + zlen vs /\
    (forall i, 0 < head_ q - i -> head_ q - i + zlen vs <= buf_size -> buf_ q' !! slot i = buf_ q !! slot i) /\
    (forall k v, vs !! k = Some v -> buf_ q' !! slot (head_ q + Z.of_nat k) = Some (u32 v)).
Proof.
  revert q. induction vs as [|v vs IH]; intros q Hq Hw Hn Hlt; cbn [pushes].
  { exists q. rewrite zlen_nil, Z.add_0_r. done. }
  rewrite zlen_cons in *. pose proof (zlen_nonneg vs). apply window_cons in Hw as [Hin Hw]; [|done].
  destruct (push_inside v q Hq Hin ltac:(lia)) as (q1 & -> & Hq1 & Hh1 & Hb1).
  rewrite <- Hh1 in Hw. destruct (IH q1 Hq1 Hw ltac:(lia) ltac:(lia)) as (q2 & E2 & Hh2 & Hold & Hnew).
  exists q2. cbn. split; [done|]. split; [lia|]. split.
  - intros i Hi1 Hi2. rewrite Hold, Hb1 by lia. apply list_lookup_insert_ne, slot_ne. lia.
  - intros [|k] x Hk; cbn in Hk.
    + simplify_eq. rewrite Z.add_0_r, Hold, Hb1 by lia. apply list_lookup_insert_eq, slot_lt, Hq.
    + replace (head_ q + Z.of_nat (S k)) with (head_ q1 + Z.of_nat k) by lia. by apply Hnew.
Qed.

Lemma pops_read n r q (vs : list Z) :
  0 <= tail_ r -> tail_ r + Z.of_nat n <= head_ q -> head_ q < 2 ^ 32 -> length vs = n ->
  window (tail_ r) (Z.of_nat n) ->
  (forall k v, vs !! k = Some v -> buf_ q !! slot (tail_ r + Z.of_nat k) = Some v) ->
  pops n r q = Some (vs, mkReader (tail_ r + Z.of_nat n)).
Proof.
  revert r vs. induction n as [|n IH]; intros r vs Hr Hle Hh Hlen Hw Hv.
  - destruct vs; [|done]. cbn. rewrite Z.add_0_r. by destruct r.
  - destruct vs as [|v vs]; [done|]. cbn [pops]. unfold pop.
    destruct (Z.eqb_spec (tail_ r) (head_ q)); [lia|].
    replace (Z.of_nat (S n)) with (1 + Z.of_nat n) in Hw by lia. apply window_cons in Hw as [-> Hw]; [|lia].
    assert (u32 (tail_ r + 1) = tail_ r + 1) as -> by (apply wrap_small; split; lia).
    pose proof (Hv 0%nat v eq_refl) as H0. rewrite Z.add_0_r in H0. rewrite H0. cbn.
    rewrite (IH (mkReader (tail_ r + 1)) vs); cbn; [|lia|lia|lia|by injection Hlen|done|].
    + do 2 f_equal. f_equal. lia.
    + intros k x Hk. specialize (Hv (S k) x Hk). by replace (tail_ r + 1 + Z.of_nat k)
        with (tail_ r + Z.of_nat (S k)) by lia.
Qed.

(** ** Properties *)

(** C33. First in, first out, inside the segment: as long as the counter
    stays below 2^32 and the slots used lie within the segment, which has room
    for all but the last twelve, pushes are defined, and a reader opened
    before them pops the low 32 bits of the pushed values, in order, and is
    then level with the writer. *)
Theorem queue_fifo vs q :
  queue_wf q -> head_ q mod buf_size + zlen vs <= buf_size - 12 -> head_ q + zlen vs < 2 ^ 32 ->
  exists q', pushes vs q = Some q' /\
    pops (length vs) (reader q) q' = Some (map u32 vs, reader q').
Proof.
  intros Hq Hn Hlt. pose proof Hq as (Hh & _ & _). unfold fits in Hh.
  pose proof (Z.mod_pos_bound (head_ q) buf_size ltac:(done)).
  pose proof (window_intro _ _ Hn) as Hw.
  destruct (pushes_inside vs q Hq Hw ltac:(lia) Hlt) as (q' & E & Hh' & _ & Hnew). exists q'. split; [done|].
  rewrite (pops_read _ _ _ (map u32 vs)); cbn.
  - unfold reader. repeat f_equal. unfold zlen in Hh'. lia.
  - lia.
  - unfold zlen in *. lia.
  - lia.
  - by rewrite length_map.
  - exact Hw.
  - intros k v. rewrite list_lookup_fmap. destruct (vs !! k) eqn:Ek; [|done].
    cbn. intros [= <-]. by apply Hnew.
Qed.

Definition zero_queue (h : Z) : ShmQueue := mkQueue h (replicate 1020 0).

Lemma zero_queue_wf h : fits 32 h -> queue_wf (zero_queue h).
Proof.
  intros Hh. split_and!; [done..|]. apply Forall_replicate. by split.
Qed.

Lemma queue_fifo_witness :
  exists q', pushes [1; 2; 2 ^ 32 + 3] (zero_queue 7) = Some q' /\
    pops 3 (reader (zero_queue 7)) q' = Some ([1; 2; 3], reader q').
Proof.
  apply (queue_fifo [1; 2; 2 ^ 32 + 3] (zero_queue 7)).
  - apply zero_queue_wf. by split.
  - vm_compute. discriminate.
  - vm_compute. reflexivity.
Defined.

(** The buffer cannot be filled: the push number 1009 into a fresh queue
    writes behind the segment. *)
Theorem push_leaves_segment :
  is_Some (pushes (replicate 1008 0) (zero_queue 0)) /\ pushes (replicate 1009 0) (zero_queue 0) = None.
Proof. vm_compute. split; [by eexists|done]. Qed.

(** An empty queue is not distinguishable from a queued zero: [pop] of a
    reader level with the writer returns an engaged optional holding 0. *)
Theorem pop_empty_returns_zero q : pop (reader q) q = Some (0, reader q).
Proof. unfold pop, reader. cbn. by rewrite Z.eqb_refl. Qed.

(** The wrap of the counter loses values: [buf_size] does not divide
    2^32, so with only 257 unread values, far below the capacity of 1020, the
    first value a reader pops is the last one pushed. *)
Theorem counter_wrap_overwrites_unread :
  let q := zero_queue (2 ^ 32 - 256) in
  exists q', pushes (map (fun n => Z.of_nat n + 1) (List.seq 0 257)) q = Some q' /\
    fst <$> pop (reader q) q' = Some 257 /\ 257 < buf_size.
Proof. eexists. split; [vm_compute; reflexivity|]. split; reflexivity. Qed.

(** The object does not fit the segment: when [open] returns, the segment
    it attached was asked for with a size that leaves the last twelve slots of
    the buffer, and no others, beyond its end. *)
Theorem buffer_exceeds_segment w addr w' :
  open w = (Ret addr, w') ->
  exists shmid size, w_trace w' = w_trace w ++ [Called (Shmget shmkey size) (ROk shmid); Called (Shmat shmid) (ROk addr)] /\
    forall i, 0 <= i < buf_size -> (size < buf_offset + 4 * i + 4 <-> buf_size - 12 <= i).
Proof.
  intros (shmid & w1 & E1%sys_or_pfatal_trace & E2%sys_or_pfatal_trace)%bind_Ret.
  exists shmid, SHM_SIZE. split; [by rewrite E2, E1, <- app_assoc|].
  change SHM_SIZE with 4096. change buf_offset with 64. change buf_size with 1020. lia.
Qed.

Lemma buffer_exceeds_segment_witness :
  exists shmid size, [Called (Shmget shmkey 4096) (ROk 5); Called (Shmat 5) (ROk 65536)]
      = [Called (Shmget shmkey size) (ROk shmid); Called (Shmat shmid) (ROk 65536)] /\
    forall i, 0 <= i < buf_size -> (size < buf_offset + 4 * i + 4 <-> buf_size - 12 <= i).
Proof.
  exact (buffer_exceeds_segment (mkWorld [ROk 5; ROk 65536] [] ∅ ∅) 65536
    (open (mkWorld [ROk 5; ROk 65536] [] ∅ ∅)).2 eq_refl).
Defined.
