(* ===== verification/Spawn.v ===== *)
(** * [enu/spawn.h], [enu/spawn.cpp]: child processes

    The parent and the child are two runs over scripted answers: vfork(2)
    answers 0 in the child and the pid in the parent. A successful execve(2)
    ends the program image ([Exit 0] with the call in the trace). Signal
    numbers are those of Linux. [strerror] is the C library's. The descriptors
    a child keeps are read off the trace of its calls ([fd_run], [fd_exec]). *)

From S2P Require Import Prelude Sys Net Wire.

Definition FD_CLOEXEC : Z := 1.
Definition NSIG : Z := 65.
Definition SIGKILL : Z := 9.
Definition SIGTERM : Z := 15.
Definition SIGSTOP : Z := 19.

Definition close_on_exec (fd : Z) : Sys unit :=
  flags ← sys_or_pfatal (FcntlGetFd fd) "fcntl(F_GETFD)";
  _ ← sys_or_pfatal (FcntlSetFd fd (Z.lor flags FD_CLOEXEC)) "fcntl(F_SETFD)";
  mret tt.

Record Pipe := mkPipe { rd : Z; wr : Z }.

(** [Pipe::Pipe]; pipe(2) answers the two descriptors. *)
Definition new_pipe : Sys Pipe :=
  r ← sys Pipe2;
  match r with
  | RInts [a; b] =>
      _ ← close_on_exec a;
      _ ← close_on_exec b;
      mret (mkPipe a b)
  | RErr _ => pfatal "pipe"
  | _ => stop Blocked
  end.

Record ChildArgs := mkChildArgs {
  ca_path : string;
  ca_argv : list string;
  ca_result : Pipe;
  ca_in : Pipe;
  ca_out : Pipe;
  ca_err : Pipe
}.

Section Spawn.
Context (strerror : errno -> string).

(** The writes of the lambda [fail]: the length of the message as a [size_t],
    then its text. *)
Definition fail_writes (err : string) (e : errno) : list (list byte) :=
  let errn := bytes_of (strerror e) in
  let errn_len := zlen errn in
  let msg_len := zlen (bytes_of err) + (if 0 <? errn_len then zlen (bytes_of ": ") + errn_len else 0) in
  [le_split 8 msg_len; bytes_of err] ++ (if 0 <? errn_len then [bytes_of ": "; errn] else []).

Fixpoint write_each (fd : Z) (l : list (list byte)) : Sys unit :=
  match l with
  | [] => mret tt
  | bs :: l' => _ ← sys_ignore (Write fd bs); write_each fd l'
  end.

Definition fail {A} (args : ChildArgs) (err : string) (e : errno) : Sys A :=
  _ ← write_each (wr (ca_result args)) (fail_writes err e);
  stop (Exit 127).

(** [if (call == -1) fail(err)]. *)
Definition or_fail (args : ChildArgs) (c : syscall) (err : string) : Sys Z :=
  r ← sys_int c;
  match r with
  | inl v => mret v
  | inr e => fail args err e
  end.

(** The loop over the signals from [sig] on, [n] of them left. *)
Fixpoint reset_signals (args : ChildArgs) (n : nat) (sig : Z) : Sys unit :=
  match n with
  | O => mret tt
  | S n' =>
      _ ← (if (sig =? SIGKILL) || (sig =? SIGSTOP) then mret 0
           else or_fail args (Sigaction sig) "sigaction (should not happen)");
      reset_signals args n' (sig + 1)
  end.

(** The loop over [in_fds] and [out_fds]. *)
Fixpoint redirect (args : ChildArgs) (fds : list (Z * Z)) : Sys unit :=
  match fds with
  | [] => mret tt
  | (in_fd, out_fd) :: fds' =>
      tmp_fd ← or_fail args (Dup in_fd) "dup";
      _ ← sys_ignore (Close in_fd);
      _ ← or_fail args (Dup2 tmp_fd out_fd) "dup2";
      _ ← sys_ignore (Close tmp_fd);
      redirect args fds'
  end.

Definition redirections (args : ChildArgs) : list (Z * Z) :=
  [(rd (ca_in args), 0); (wr (ca_out args), 1); (wr (ca_err args), 2)].

Definition subprocess {A} (args : ChildArgs) : Sys A :=
  _ ← sys_ignore (Close (rd (ca_result args)));
  _ ← reset_signals args (Z.to_nat (NSIG - 1)) 1;
  _ ← redirect args (redirections args);
  _ ← sys_ignore SigmaskRestore;
  r ← sys_int (Execve (ca_path args) (ca_argv args));
  match r with
  | inl _ => stop (Exit 0)
  | inr e => fail args "execve" e
  end.

Record Process := mkProcess { pid : Z; in_wr : Z; out_rd : Z; err_rd : Z }.

Definition restore_signals : Sys unit :=
  _ ← sys_ignore SigmaskRestore;
  sys_ignore CancelRestore.

(** ["path=\"{}\" {}"] of the report. *)
Definition fatal_text (path msg : string) : string :=
  let q := String (Ascii.ascii_of_nat 34) EmptyString in
  String.append "path=" (String.append q (String.append path (String.append q (String.append " " msg)))).

(** The parent's side after vfork(2). [msg_len] is the value of the bytes one
    read(2) stored, indeterminate in part when it stored fewer than eight; the
    message is what a second one stored, in a vector of zeros. *)
Definition await_child (child : Z) (args : ChildArgs) : Sys Process :=
  _ ← sys_ignore (Close (wr (ca_result args)));
  _ ← sys_ignore (Close (rd (ca_in args)));
  _ ← sys_ignore (Close (wr (ca_out args)));
  _ ← sys_ignore (Close (wr (ca_err args)));
  r ← sys (Read (rd (ca_result args)) 8);
  match r with
  | RBytes (b :: bs) =>
      _ ← (if zlen (b :: bs) <? 8 then undef "msg_len is indeterminate" else mret tt);
      let msg_len := le_combine (b :: bs) in
      m ← sys (Read (rd (ca_result args)) msg_len);
      let msg := match m with RBytes x => resize msg_len x | _ => resize msg_len [] end in
      _ ← sys_ignore (Waitpid child);
      _ ← sys_ignore (Close (rd (ca_result args)));
      _ ← sys_ignore (Close (wr (ca_in args)));
      _ ← sys_ignore (Close (rd (ca_out args)));
      _ ← sys_ignore (Close (rd (ca_err args)));
      _ ← restore_signals;
      stop (Fatal (fatal_text (ca_path args) (string_of msg)))
  | _ =>
      _ ← sys_ignore (Close (rd (ca_result args)));
      _ ← restore_signals;
      mret (mkProcess child (wr (ca_in args)) (rd (ca_out args)) (rd (ca_err args)))
  end.

Definition process_spawn (path : string) (argv : list string) : Sys Process :=
  result ← new_pipe;
  inp ← new_pipe;
  out ← new_pipe;
  err ← new_pipe;
  let args := mkChildArgs path argv result inp out err in
  _ ← sys_ignore CancelDisable;
  _ ← sys_ignore SigmaskFill;
  pid ← sys_int Vfork;
  match pid with
  | inl pid =>
      if pid =? 0 then subprocess args
      else if pid <? 0 then pfatal "vfork()"
      else await_child pid args
  | inr _ => pfatal "vfork()"
  end.

(** [Process::spawn(path, args...)]: [argv[0]] is the path. *)
Definition spawn (path : string) (args : list string) : Sys Process := process_spawn path (path :: args).
End Spawn.

(** ** Waiting and termination *)

(** The default constructor sets the pid only; the descriptors are whatever
    the memory held. *)
Definition no_process (i o e : Z) : Process := mkProcess (-1) i o e.

(** The macros of <sys/wait.h>. *)
Definition WTERMSIG (status : Z) : Z := Z.land status 127.
Definition WIFEXITED (status : Z) : bool := WTERMSIG status =? 0.
Definition WEXITSTATUS (status : Z) : Z := Z.shiftr (Z.land status 65280) 8.
Definition WIFSIGNALED (status : Z) : bool := (1 <=? WTERMSIG status) && (WTERMSIG status <=? 126).

Definition exit_code_of (status : Z) : Z :=
  if WIFEXITED status then WEXITSTATUS status
  else if WIFSIGNALED status then
    let sig := WTERMSIG status in
    if sig =? SIGTERM then 0 else 128 + sig
  else status.

(** [Process::wait]; waitpid(2) answers the status. *)
Definition wait (p : Process) : Sys (Z * Process) :=
  r ← sys_int (Waitpid (pid p));
  match r with
  | inl status => mret (exit_code_of status, mkProcess (-1) (in_wr p) (out_rd p) (err_rd p))
  | inr _ => mret (1, p)
  end.

Definition close_pipe_end (fd : Z) : Sys unit :=
  if negb (fd =? 0) && negb (fd =? 2) && negb (fd =? 1) then sys_ignore (Close fd) else mret tt.

Definition terminate (p : Process) : Sys (Z * Process) :=
  if pid p =? -1 then mret (1, p)
  else
    k ← sys_int (Kill (pid p) SIGTERM);
    '(exit_code, p) ← (match k with
                       | inl _ => wait p
                       | inr _ => mret (1, p)
                       end);
    _ ← close_pipe_end (in_wr p);
    _ ← close_pipe_end (out_rd p);
    _ ← close_pipe_end (err_rd p);
    mret (exit_code, p).

(** The private [move]: the new process and what is left in [src]; the
    destructor is [terminate]. *)
Definition move (src : Process) : Process * Process :=
  (src, mkProcess (-1) (in_wr src) (out_rd src) (err_rd src)).

Definition move_assign (same : bool) (this src : Process) : Sys (Process * Process) :=
  if same then mret (this, src)
  else
    _ ← terminate this;
    mret (move src).

(** ** The descriptor table

    What the answered calls of a trace do to the descriptors of a process: an
    entry is the object behind the descriptor and its close-on-exec flag.
    [None] when an answer is not the kernel's: dup(2) and pipe(2) give the
    lowest free descriptors. A pipe is named by the descriptors pipe(2) gave
    its ends. *)

Inductive object := ReadEnd (p : Pipe) | WriteEnd (p : Pipe) | Other (name : string).

Notation fdtable := (gmap Z (object * bool)).

Definition lowest_free (v : Z) (t : fdtable) : bool :=
  bool_decide (0 <= v) && bool_decide (t !! v = None) &&
  forallb (fun k => bool_decide (is_Some (t !! Z.of_nat k))) (List.seq 0 (Z.to_nat v)).

Definition fd_call (e : event) (t : fdtable) : option fdtable :=
  match e with
  | Called (Dup fd) (ROk v) =>
      if lowest_free v t then
        match t !! fd with Some (o, _) => Some (<[v := (o, false)]> t) | None => None end
      else None
  | Called (Dup2 fd target) (ROk v) =>
      match t !! fd with
      | Some (o, _) =>
          if v =? target then Some (if fd =? target then t else <[target := (o, false)]> t) else None
      | None => None
      end
  | Called (Close fd) _ => Some (delete fd t)
  | Called Pipe2 (RInts [a; b]) =>
      let t' := <[a := (ReadEnd (mkPipe a b), false)]> t in
      if lowest_free a t && lowest_free b t' then Some (<[b := (WriteEnd (mkPipe a b), false)]> t') else None
  | Called (FcntlSetFd fd flags) (ROk _) =>
      match t !! fd with Some (o, _) => Some (<[fd := (o, Z.testbit flags 0)]> t) | None => None end
  | _ => Some t
  end.

Fixpoint fd_run (es : list event) (t : fdtable) : option fdtable :=
  match es with
  | [] => Some t
  | e :: es' => t' ← fd_call e t; fd_run es' t'
  end.

(** execve(2) closes the descriptors with the flag. *)
Definition fd_exec (t : fdtable) : gmap Z object := fst <$> base.filter (fun kv => kv.2.2 = false) t.

Lemma fd_run_app es1 es2 t : fd_run (es1 ++ es2) t = t' ← fd_run es1 t; fd_run es2 t'.
Proof. revert t. induction es1 as [|e es1 IH]; intros t; cbn; [done|]. destruct (fd_call e t); cbn; auto. Qed.

Lemma lowest_free_spec v t :
  lowest_free v t = true -> 0 <= v /\ t !! v = None /\ forall k, 0 <= k < v -> is_Some (t !! k).
Proof.
  unfold lowest_free. rewrite !andb_true_iff, !bool_decide_eq_true, forallb_forall.
  intros [[H1 H2] H3]. split_and!; [done|done|]. intros k Hk.
  specialize (H3 (Z.to_nat k)). rewrite bool_decide_eq_true, Z2Nat.id in H3 by lia.
  apply H3, in_seq. lia.
Qed.

Section redirections.
Context (strerror : errno -> string).

Lemma or_fail_ret args c err w v w' :
  or_fail strerror args c err w = (Ret v, w') -> w_trace w' = w_trace w ++ [Called c (ROk v)].
Proof.
  intros (r & w1 & H%sys_int_trace & Hr)%bind_Ret. destruct r as [u|e].
  - by injection Hr as <- <-.
  - exfalso. unfold fail in Hr. by apply bind_Ret in Hr as (? & ? & _ & Hr).
Qed.

(** The trace of one redirection. *)
Lemma redirect_cons_trace args a out fds w w' :
  redirect strerror args ((a, out) :: fds) w = (Ret tt, w') ->
  exists v r1 r2 u w1, w_trace w1 = w_trace w ++ [Called (Dup a) (ROk v); Called (Close a) r1;
      Called (Dup2 v out) (ROk u); Called (Close v) r2] /\
    redirect strerror args fds w1 = (Ret tt, w').
Proof.
  cbn [redirect]. intros (v & w1 & E1%or_fail_ret & H)%bind_Ret.
  apply bind_Ret in H as (? & w2 & [r1 E2]%sys_ignore_trace & H).
  apply bind_Ret in H as (u & w3 & E3%or_fail_ret & H).
  apply bind_Ret in H as (? & w4 & [r2 E4]%sys_ignore_trace & H).
  exists v, r1, r2, u, w4. split; [|done]. by rewrite E4, E3, E2, E1, <- !app_assoc.
Qed.

(** With the standard descriptors open, the temporary descriptor is none of
    them, and the only changes are the target and the closed source. *)
Lemma redirect_one v r1 r2 u a out o fl t t' :
  (forall k, 0 <= k <= 2 -> is_Some (t !! k)) -> 2 < a -> 0 <= out <= 2 -> t !! a = Some (o, fl) ->
  fd_run [Called (Dup a) (ROk v); Called (Close a) r1; Called (Dup2 v out) (ROk u); Called (Close v) r2] t
    = Some t' ->
  t' = <[out := (o, false)]> (delete a t).
Proof.
  intros Hstd Ha Hout Hta H. cbn [fd_run fd_call mbind option_bind] in H. destruct (lowest_free v t) eqn:Hl; [|done].
  apply lowest_free_spec in Hl as (Hv0 & Hv & _). rewrite Hta in H. cbn [mbind option_bind] in H.
  assert (2 < v) as Hv2.
  { destruct (Z.le_gt_cases v 2); [|lia]. destruct (Hstd v) as [x Hx]; [lia|congruence]. }
  assert (v <> a) as Hva by congruence.
  rewrite lookup_delete_ne, lookup_insert_eq in H by done.
  destruct (u =? out); [|done]. destruct (Z.eqb_spec v out); [lia|]. cbn [mbind option_bind] in H. injection H as <-.
  apply map_eq. intros k. destruct (decide (k = v)) as [->|Hkv].
  - by rewrite lookup_delete_eq, lookup_insert_ne, lookup_delete_ne by lia.
  - rewrite lookup_delete_ne by done. destruct (decide (k = out)) as [->|].
    + by rewrite !lookup_insert_eq.
    + rewrite !lookup_insert_ne by done. destruct (decide (k = a)) as [->|].
      * by rewrite !lookup_delete_eq.
      * by rewrite !lookup_delete_ne, lookup_insert_ne by done.
Qed.

Lemma redirect_three args a b c w w' es tbl tbl' oa ob oc fa fb fc :
  redirect strerror args [(a, 0); (b, 1); (c, 2)] w = (Ret tt, w') -> w_trace w' = w_trace w ++ es ->
  fd_run es tbl = Some tbl' -> (forall k, 0 <= k <= 2 -> is_Some (tbl !! k)) ->
  2 < a -> 2 < b -> 2 < c -> a <> b -> a <> c -> b <> c ->
  tbl !! a = Some (oa, fa) -> tbl !! b = Some (ob, fb) -> tbl !! c = Some (oc, fc) ->
  tbl' = <[2 := (oc, false)]> (delete c (<[1 := (ob, false)]> (delete b (<[0 := (oa, false)]> (delete a tbl))))).
Proof.
  intros Hr Ht Hes Hstd Ha Hb Hc Hab Hac Hbc Ta Tb Tc.
  apply redirect_cons_trace in Hr as (v1 & r1 & s1 & u1 & w1 & E1 & Hr).
  apply redirect_cons_trace in Hr as (v2 & r2 & s2 & u2 & w2 & E2 & Hr).
  apply redirect_cons_trace in Hr as (v3 & r3 & s3 & u3 & w3 & E3 & Hr).
  cbn in Hr. unfold mret, sys_ret in Hr. injection Hr as <-.
  rewrite E3, E2, E1, <- !app_assoc in Ht. apply (inj (app (w_trace w))) in Ht. subst es.
  rewrite fd_run_app in Hes. destruct (fd_run _ tbl) as [t1|] eqn:F1 in Hes; [|done]. cbn [mbind option_bind] in Hes.
  rewrite fd_run_app in Hes. destruct (fd_run _ t1) as [t2|] eqn:F2 in Hes; [|done]. cbn [mbind option_bind] in Hes.
  assert (forall k x (t : fdtable) y o, 2 < y -> 0 <= x <= 2 -> (forall j, 0 <= j <= 2 -> is_Some (t !! j)) ->
    0 <= k <= 2 -> is_Some (<[x := o]> (delete y t) !! k)) as Hkeep.
  { intros k x t y o Hy Hx Hj Hk. destruct (decide (k = x)) as [->|]; [rewrite lookup_insert_eq; by eexists|].
    rewrite lookup_insert_ne, lookup_delete_ne by lia. by apply Hj. }
  apply (redirect_one _ _ _ _ _ _ oa fa) in F1; [|done|done|lia|done]. subst t1.
  apply (redirect_one _ _ _ _ _ _ ob fb) in F2; [|by intros; apply Hkeep; try lia; auto|done|lia|].
  2:{ by rewrite lookup_insert_ne, lookup_delete_ne by lia. }
  subst t2. apply (redirect_one _ _ _ _ _ _ oc fc) in Hes; [done| |done|lia|].
  - intros k Hk. apply Hkeep; [lia|lia| |lia]. intros j Hj. apply Hkeep; try lia. auto.
  - by rewrite lookup_insert_ne, lookup_delete_ne, lookup_insert_ne, lookup_delete_ne by lia.
Qed.

(** ** The whole child *)

(** [fail] is the only way the child leaves before execve(2). *)
Definition exits_127 {A} (m : Sys A) : Prop := forall w c w', m w = (Exit c, w') -> c = 127.

Lemma exits_bind {A B} (m : Sys A) (f : A -> Sys B) :
  exits_127 m -> (forall a, exits_127 (f a)) -> exits_127 (m ≫= f).
Proof.
  intros Hm Hf w c w'. unfold mbind, sys_bind. destruct (m w) as [[] w1] eqn:E; try done.
  - apply Hf.
  - intros [= <- <-]. by eapply Hm.
Qed.

Lemma exits_ret {A} (a : A) : exits_127 (mret a).
Proof. by intros ???. Qed.

Lemma exits_sys c : exits_127 (sys c).
Proof. intros w x w'. unfold sys. destruct (w_ans w); [done|]. by destruct (legal _ _ _). Qed.

Lemma exits_sys_ignore c : exits_127 (sys_ignore c).
Proof. apply exits_bind; [apply exits_sys|]. intros ?. apply exits_ret. Qed.

Lemma exits_sys_int c : exits_127 (sys_int c).
Proof. apply exits_bind; [apply exits_sys|]. by intros []. Qed.

Lemma exits_fail {A} args err e : exits_127 (@fail strerror A args err e).
Proof.
  apply exits_bind; [|by intros ? w c w' [= <- <-]].
  induction (fail_writes strerror err e) as [|bs l IH]; cbn [write_each]; [apply exits_ret|].
  apply exits_bind; [apply exits_sys_ignore|done].
Qed.

Lemma exits_or_fail args c err : exits_127 (or_fail strerror args c err).
Proof. apply exits_bind; [apply exits_sys_int|]. intros []; [apply exits_ret|apply exits_fail]. Qed.

Lemma exits_reset_signals args n sig : exits_127 (reset_signals strerror args n sig).
Proof.
  revert sig. induction n as [|n IH]; intros sig; cbn [reset_signals]; [apply exits_ret|].
  apply exits_bind; [|done]. destruct (_ || _); [apply exits_ret|apply exits_or_fail].
Qed.

Lemma exits_redirect args fds : exits_127 (redirect strerror args fds).
Proof.
  induction fds as [|[a b] fds IH]; cbn [redirect]; [apply exits_ret|].
  apply exits_bind; [apply exits_or_fail|]. intros ?.
  apply exits_bind; [apply exits_sys_ignore|]. intros ?.
  apply exits_bind; [apply exits_or_fail|]. intros ?.
  by apply exits_bind; [apply exits_sys_ignore|].
Qed.

Lemma bind_exit_0 {A B} (m : Sys A) (f : A -> Sys B) w w' :
  exits_127 m -> (m ≫= f) w = (Exit 0, w') -> exists a w1, m w = (Ret a, w1) /\ f a w1 = (Exit 0, w').
Proof.
  intros Hm. unfold mbind, sys_bind. destruct (m w) as [[] w1] eqn:E; try done; [by eauto|].
  intros [= -> ->]. by apply Hm in E.
Qed.

(** Calls that leave the descriptor table alone. *)
Definition fd_neutral (es : list event) : Prop := forall t, fd_run es t = Some t.

Lemma reset_signals_neutral args n sig w w' :
  reset_signals strerror args n sig w = (Ret tt, w') ->
  exists es, w_trace w' = w_trace w ++ es /\ fd_neutral es.
Proof.
  revert sig w. induction n as [|n IH]; intros sig w; cbn [reset_signals].
  - intros [= <-]. exists []. by rewrite app_nil_r.
  - intros (v & w1 & H & (es & E & Hes)%IH)%bind_Ret. destruct (_ || _).
    + injection H as <- <-. by exists es.
    + apply or_fail_ret in H. exists (Called (Sigaction sig) (ROk v) :: es).
      split; [by rewrite E, H, <- app_assoc|]. intros t. apply Hes.
Qed.

Lemma subprocess_trace A args w w' :
  @subprocess strerror A args w = (Exit 0, w') ->
  exists r es1 es2 es3 w1 w2, w_trace w' = w_trace w ++ Called (Close (rd (ca_result args))) r :: es1 ++ es2 ++ es3 /\
    fd_neutral es1 /\ fd_neutral es3 /\
    redirect strerror args (redirections args) w1 = (Ret tt, w2) /\ w_trace w2 = w_trace w1 ++ es2.
Proof.
  intros (? & w1 & [r E1]%sys_ignore_trace & H)%bind_exit_0; [|apply exits_sys_ignore].
  apply bind_exit_0 in H as ([] & w2 & (es1 & E2 & N1)%reset_signals_neutral & H); [|apply exits_reset_signals].
  apply bind_exit_0 in H as ([] & w3 & Hr & H); [|apply exits_redirect].
  assert (exists es2, w_trace w3 = w_trace w2 ++ es2) as [es2 E3].
  { cbn [redirections] in Hr. unfold redirections in Hr.
    apply redirect_cons_trace in Hr as (v1 & r1 & s1 & u1 & x1 & X1 & Hr).
    apply redirect_cons_trace in Hr as (v2 & r2 & s2 & u2 & x2 & X2 & Hr).
    apply redirect_cons_trace in Hr as (v3 & r3 & s3 & u3 & x3 & X3 & Hr).
    cbn in Hr. injection Hr as <-. rewrite X3, X2, X1, <- !app_assoc. by eexists. }
  apply bind_exit_0 in H as (? & w4 & [r4 E4]%sys_ignore_trace & H); [|apply exits_sys_ignore].
  apply bind_exit_0 in H as (res & w5 & E5%sys_int_trace & H); [|apply exits_sys_int].
  destruct res as [v|e]; [|by apply exits_fail in H]. injection H as <-.
  exists r, es1, es2, [Called SigmaskRestore r4; Called (Execve (ca_path args) (ca_argv args)) (ROk v)], w2, w3.
  split_and!; try done. by rewrite E5, E4, E3, E2, E1, <- !app_assoc.
Qed.

Lemma fd_exec_open (t : fdtable) k o : t !! k = Some (o, false) -> fd_exec t !! k = Some o.
Proof.
  intros H. unfold fd_exec. rewrite lookup_fmap, (map_lookup_filter_Some_2 _ _ _ (o, false)); done.
Qed.

Lemma fd_exec_closed (t : fdtable) k :
  (forall o fl, t !! k = Some (o, fl) -> fl = true) -> fd_exec t !! k = None.
Proof.
  intros H. unfold fd_exec. rewrite lookup_fmap, map_lookup_filter_None_2; [done|].
  right. intros [o fl] Hl. cbn. apply H in Hl. congruence.
Qed.

(** The descriptors of the program the child starts. *)
Lemma subprocess_descriptors A args w w' es tbl tbl' oi oo oe fi fo fe :
  @subprocess strerror A args w = (Exit 0, w') -> w_trace w' = w_trace w ++ es ->
  fd_run es tbl = Some tbl' ->
  (forall k, 0 <= k <= 2 -> is_Some (tbl !! k)) ->
  (forall k o fl, tbl !! k = Some (o, fl) -> k < 0 \/ 2 < k -> fl = true) ->
  NoDup [rd (ca_result args); rd (ca_in args); wr (ca_out args); wr (ca_err args)] ->
  Forall (fun fd => 2 < fd) [rd (ca_result args); rd (ca_in args); wr (ca_out args); wr (ca_err args)] ->
  tbl !! rd (ca_in args) = Some (oi, fi) -> tbl !! wr (ca_out args) = Some (oo, fo) ->
  tbl !! wr (ca_err args) = Some (oe, fe) ->
  fd_exec tbl' = {[0 := oi; 1 := oo; 2 := oe]}.
Proof.
  intros Hrun Ht Hes Hstd Hcl Hnd Hgt Ti To Te.
  apply subprocess_trace in Hrun as (r & es1 & es2 & es3 & w1 & w2 & E & N1 & N3 & Hr & E2).
  rewrite E in Ht. apply (inj (app (w_trace w))) in Ht. subst es.
  cbn [fd_run fd_call mbind option_bind] in Hes.
  rewrite fd_run_app, N1 in Hes. cbn [mbind option_bind] in Hes.
  rewrite fd_run_app in Hes. destruct (fd_run es2 _) as [t2|] eqn:F; [|done].
  cbn [mbind option_bind] in Hes. rewrite N3 in Hes. injection Hes as <-.
  rewrite !NoDup_cons, !not_elem_of_cons in Hnd. rewrite !Forall_cons in Hgt. destruct_and!.
  unfold redirections in Hr.
  apply (redirect_three args (rd (ca_in args)) (wr (ca_out args)) (wr (ca_err args)) w1 w2 es2 _ _ oi oo oe fi fo fe) in F; try done.
  2:{ intros k Hk. rewrite lookup_delete_ne by lia. auto. }
  2-4: by rewrite lookup_delete_ne.
  subst t2. apply map_eq. intros k. destruct (decide (0 <= k <= 2)) as [Hk|Hk].
  - assert (k = 0 \/ k = 1 \/ k = 2) as [Hk0 | [Hk0 | Hk0]] by lia; subst k; simpl_map; apply fd_exec_open;
      by rewrite ?lookup_insert_ne, ?lookup_delete_ne, ?lookup_insert_ne, ?lookup_delete_ne, ?lookup_insert_eq by lia.
  - rewrite !lookup_insert_ne, lookup_singleton_ne by lia. apply fd_exec_closed. intros o fl Hl.
    rewrite lookup_insert_ne in Hl by lia.
    apply lookup_delete_Some in Hl as [? Hl]. rewrite lookup_insert_ne in Hl by lia.
    apply lookup_delete_Some in Hl as [? Hl]. rewrite lookup_insert_ne in Hl by lia.
    apply lookup_delete_Some in Hl as [? Hl]. apply lookup_delete_Some in Hl as [? Hl].
    apply Hcl in Hl; [done|lia].
Qed.
(** *** The pipes of the parent *)

Lemma exits_sys_or_pfatal c fmt : exits_127 (sys_or_pfatal c fmt).
Proof. apply exits_bind; [apply exits_sys_int|]. by intros []. Qed.

Lemma exits_new_pipe : exits_127 new_pipe.
Proof.
  apply exits_bind; [apply exits_sys|]. intros [|?|[|a [|b []]]|?|?]; try done.
  apply exits_bind; [|intros _; apply exits_bind; [|intros _; apply exits_ret]];
    (apply exits_bind; [apply exits_sys_or_pfatal|]; intros ?);
    (apply exits_bind; [apply exits_sys_or_pfatal|]; intros ?); apply exits_ret.
Qed.

Lemma close_on_exec_trace fd w u w' :
  close_on_exec fd w = (Ret u, w') -> exists f g, w_trace w' = w_trace w ++
    [Called (FcntlGetFd fd) (ROk f); Called (FcntlSetFd fd (Z.lor f FD_CLOEXEC)) (ROk g)].
Proof.
  intros (f & w1 & E1%sys_or_pfatal_trace & H)%bind_Ret.
  apply bind_Ret in H as (g & w2 & E2%sys_or_pfatal_trace & H). injection H as _ <-.
  exists f, g. by rewrite E2, E1, <- app_assoc.
Qed.

(** The pipes a trace has made. *)
Definition made_pipe (e : event) : list Pipe :=
  match e with Called Pipe2 (RInts [a; b]) => [mkPipe a b] | _ => [] end.
Definition pipes_made (es : list event) : list Pipe := es ≫= made_pipe.

(** The table with a new pipe, both ends close-on-exec. *)
Definition with_pipe (p : Pipe) (t : fdtable) : fdtable :=
  <[wr p := (WriteEnd p, true)]> (<[rd p := (ReadEnd p, true)]> t).

Definition fresh_pipe (p : Pipe) (t : fdtable) : Prop :=
  0 <= rd p /\ 0 <= wr p /\ rd p <> wr p /\ t !! rd p = None /\ t !! wr p = None.

Lemma fd_set_cloexec fd f g o fl t :
  t !! fd = Some (o, fl) ->
  fd_run [Called (FcntlGetFd fd) (ROk f); Called (FcntlSetFd fd (Z.lor f FD_CLOEXEC)) (ROk g)] t
    = Some (<[fd := (o, true)]> t).
Proof.
  intros H. cbn [fd_run fd_call mbind option_bind]. rewrite H, Z.lor_spec. cbn [mbind option_bind].
  by rewrite orb_true_r.
Qed.

Lemma new_pipe_fds w p w' :
  new_pipe w = (Ret p, w') -> exists es, w_trace w' = w_trace w ++ es /\ pipes_made es = [p] /\
    forall t t', fd_run es t = Some t' -> t' = with_pipe p t /\ fresh_pipe p t.
Proof.
  intros (r & w1 & E1%sys_trace & H)%bind_Ret. destruct r as [|?|[|a [|b []]]|?|?]; try done.
  apply bind_Ret in H as (? & w2 & (f & g & E2)%close_on_exec_trace & H).
  apply bind_Ret in H as (? & w3 & (f' & g' & E3)%close_on_exec_trace & H). injection H as <- <-.
  eexists. split; [rewrite E3, E2, E1, <- !app_assoc; reflexivity|]. split; [done|].
  intros t t'. rewrite fd_run_app. cbn [fd_run fd_call mbind option_bind].
  destruct (lowest_free a t) eqn:Ha; [|done]. set (ta := <[a := _]> t). cbn [andb].
  destruct (lowest_free b ta) eqn:Hb; [|done]. cbn [mbind option_bind].
  apply lowest_free_spec in Ha as (Ha0 & Ha & _). apply lowest_free_spec in Hb as (Hb0 & Hb & _).
  assert (a <> b) as Hab by (intros ->; unfold ta in Hb; by rewrite lookup_insert_eq in Hb).
  assert (t !! b = None) as Hbt by (unfold ta in Hb; by rewrite lookup_insert_ne in Hb).
  rewrite fd_run_app, (fd_set_cloexec a _ _ (ReadEnd (mkPipe a b)) false).
  2:{ unfold ta. by rewrite lookup_insert_ne, lookup_insert_eq by done. }
  cbn [mbind option_bind]. rewrite (fd_set_cloexec b _ _ (WriteEnd (mkPipe a b)) false).
  2:{ by rewrite lookup_insert_ne, lookup_insert_eq by done. }
  intros [= <-]. split; [|by split_and!]. unfold with_pipe, ta. cbn [rd wr].
  rewrite (insert_insert_ne _ a b) by done. by rewrite !insert_insert_eq.
Qed.

(** A pipe made while 0, 1 and 2 are open. *)
Definition std_open (t : fdtable) : Prop := forall k, 0 <= k <= 2 -> is_Some (t !! k).
Definition rest_cloexec (t : fdtable) : Prop := forall k o fl, t !! k = Some (o, fl) -> k < 0 \/ 2 < k -> fl = true.

Lemma with_pipe_keeps p t k : is_Some (t !! k) -> fresh_pipe p t -> with_pipe p t !! k = t !! k.
Proof.
  intros [x Hx] (_ & _ & _ & H1 & H2). unfold with_pipe. rewrite !lookup_insert_ne by congruence. done.
Qed.

Lemma with_pipe_std p t :
  std_open t -> rest_cloexec t -> fresh_pipe p t ->
  std_open (with_pipe p t) /\ rest_cloexec (with_pipe p t) /\ 2 < rd p /\ 2 < wr p /\
  with_pipe p t !! rd p = Some (ReadEnd p, true) /\ with_pipe p t !! wr p = Some (WriteEnd p, true).
Proof.
  intros Hs Hr Hf. pose proof Hf as (Ha & Hb & Hab & H1 & H2). split_and!.
  - intros k Hk. rewrite with_pipe_keeps; auto.
  - intros k o fl. unfold with_pipe. rewrite !lookup_insert_Some.
    intros [[_ [= _ <-]]|[_ [[_ [= _ <-]]|[_ Hk]]]]; try done. by eapply Hr.
  - destruct (Z.le_gt_cases (rd p) 2); [|lia]. destruct (Hs (rd p)) as [x Hx]; [lia|congruence].
  - destruct (Z.le_gt_cases (wr p) 2); [|lia]. destruct (Hs (wr p)) as [x Hx]; [lia|congruence].
  - unfold with_pipe. by rewrite lookup_insert_ne, lookup_insert_eq.
  - unfold with_pipe. by rewrite lookup_insert_eq.
Qed.

Lemma exits_await_child child args : exits_127 (await_child child args).
Proof.
  unfold await_child, restore_signals. do 4 (apply exits_bind; [apply exits_sys_ignore|]; intros ?).
  apply exits_bind; [apply exits_sys|]. intros [|[|b bs]|?|?|?].
  3:{ apply exits_bind; [destruct (_ <? _); [done|apply exits_ret]|]. intros _.
      apply exits_bind; [apply exits_sys|]. intros m. do 5 (apply exits_bind; [apply exits_sys_ignore|]; intros ?).
      apply exits_bind; [|done]. apply exits_bind; [apply exits_sys_ignore|]. intros ?. apply exits_sys_ignore. }
  all: apply exits_bind; [apply exits_sys_ignore|]; intros ?; (apply exits_bind; [|intros ?; apply exits_ret]);
    apply exits_bind; [apply exits_sys_ignore|]; intros ?; apply exits_sys_ignore.
Qed.

(** The trace of a successful child: the four pipes, then [subprocess]. *)
Lemma process_spawn_child path argv w w' :
  process_spawn strerror path argv w = (Exit 0, w') ->
  exists result inp out err e1 e2 e3 e4 e5 w5 w6,
    w_trace w5 = w_trace w ++ e1 ++ e2 ++ e3 ++ e4 /\
    (forall t t', fd_run e1 t = Some t' -> t' = with_pipe result t /\ fresh_pipe result t) /\
    (forall t t', fd_run e2 t = Some t' -> t' = with_pipe inp t /\ fresh_pipe inp t) /\
    (forall t t', fd_run e3 t = Some t' -> t' = with_pipe out t /\ fresh_pipe out t) /\
    (forall t t', fd_run e4 t = Some t' -> t' = with_pipe err t /\ fresh_pipe err t) /\
    pipes_made (e1 ++ e2 ++ e3 ++ e4) = [result; inp; out; err] /\
    w_trace w6 = w_trace w5 ++ e5 /\ fd_neutral e5 /\ pipes_made e5 = [] /\
    subprocess strerror (mkChildArgs path argv result inp out err) w6 = (@Exit Process 0, w').
Proof.
  intros (p1 & w1 & (e1 & E1 & M1 & T1)%new_pipe_fds & H)%bind_exit_0; [|apply exits_new_pipe].
  apply bind_exit_0 in H as (p2 & w2 & (e2 & E2 & M2 & T2)%new_pipe_fds & H); [|apply exits_new_pipe].
  apply bind_exit_0 in H as (p3 & w3 & (e3 & E3 & M3 & T3)%new_pipe_fds & H); [|apply exits_new_pipe].
  apply bind_exit_0 in H as (p4 & w4 & (e4 & E4 & M4 & T4)%new_pipe_fds & H); [|apply exits_new_pipe].
  apply bind_exit_0 in H as (? & w5 & [r5 E5]%sys_ignore_trace & H); [|apply exits_sys_ignore].
  apply bind_exit_0 in H as (? & w6 & [r6 E6]%sys_ignore_trace & H); [|apply exits_sys_ignore].
  apply bind_exit_0 in H as (pid & w7 & E7%sys_int_trace & H); [|apply exits_sys_int].
  destruct pid as [pid|]; [|done]. destruct (pid =? 0).
  - exists p1, p2, p3, p4, e1, e2, e3, e4, [Called CancelDisable r5; Called SigmaskFill r6; Called Vfork (ROk pid)], w4, w7.
    split_and!; try done.
    + by rewrite E4, E3, E2, E1, <- !app_assoc.
    + unfold pipes_made in *. by rewrite !bind_app, M1, M2, M3, M4.
    + by rewrite E7, E6, E5, <- !app_assoc.
  - destruct (pid <? 0); [done|]. by apply exits_await_child in H.
Qed.

End redirections.

(** ** Runs of the child and of the parent *)

Module Demo.
Definition args : ChildArgs :=
  mkChildArgs "/bin/sh" ["/bin/sh"] (mkPipe 3 4) (mkPipe 5 6) (mkPipe 7 8) (mkPipe 9 10).

Definition pipe_entry (p : Pipe) : list (Z * (object * bool)) :=
  [(rd p, (ReadEnd p, true)); (wr p, (WriteEnd p, true))].

(** The parent's descriptors before the spawn, and at vfork(2). *)
Definition std : list (Z * (object * bool)) :=
  [(0, (Other "tty", false)); (1, (Other "tty", false)); (2, (Other "tty", false))].
Definition tbl : fdtable :=
  list_to_map (std ++ pipe_entry (ca_result args) ++ pipe_entry (ca_in args) ++ pipe_entry (ca_out args) ++ pipe_entry (ca_err args)).

(** One redirection through the temporary descriptor [v]. *)
Definition redirected (v out : Z) : list sysret := [ROk v; ROk 0; ROk out; ROk 0].

Definition child_answers : list sysret :=
  ROk 0 :: replicate 62 (ROk 0) ++ redirected 3 0 ++ redirected 3 1 ++ redirected 3 2 ++ [ROk 0; ROk 0].

(** The spawn up to vfork(2), which answers 0. *)
Definition piped (p : Pipe) : list sysret := [RInts [rd p; wr p]; ROk 0; ROk 0; ROk 0; ROk 0].

Definition child_world : World :=
  mkWorld (piped (ca_result args) ++ piped (ca_in args) ++ piped (ca_out args) ++ piped (ca_err args) ++
    [ROk 0; ROk 0; ROk 0] ++ child_answers) [] ∅ ∅.

Definition child : outcome Process * World := process_spawn (fun _ => "") "/bin/sh" ["/bin/sh"] child_world.
End Demo.


(** A parent whose standard input is closed gets another child: dup(2)
    answers 0, dup2(0, 0) does nothing and the redirection closes the
    descriptor again, so the program starts without standard input. *)
Theorem closed_stdin_is_lost :
  let tbl := delete 0 Demo.tbl in
  let answers := ROk 0 :: replicate 62 (ROk 0) ++ Demo.redirected 0 0 ++ Demo.redirected 0 1
                   ++ Demo.redirected 0 2 ++ [ROk 0; ROk 0] in
  let run := @subprocess (fun _ => "") unit Demo.args (mkWorld answers [] ∅ ∅) in
  run.1 = Exit 0 /\ fd_exec <$> fd_run (w_trace run.2) tbl = Some {[1 := WriteEnd (mkPipe 7 8); 2 := WriteEnd (mkPipe 9 10)]}.
Proof. split; by vm_compute. Qed.

(** ** The report of a failure *)

Section report.
Context (strerror : errno -> string).

(** Every write took all its bytes. *)
Definition write_complete (e : event) : Prop :=
  match e with
  | Called (Write _ d) (ROk v) => v = zlen d
  | Called (Write _ _) _ => False
  | _ => True
  end.

Lemma writes_written fd l w u w' es :
  write_each fd l w = (Ret u, w') ->
  w_trace w' = w_trace w ++ es -> Forall write_complete es -> written fd es = concat l.
Proof.
  revert w es. induction l as [|bs l IH]; intros w es; cbn [write_each].
  - intros [= <- <-] E _. rewrite <- (app_nil_r (w_trace w)) in E at 1.
    apply (inj (app (w_trace w))) in E. by subst es.
  - intros (? & w1 & [r E1]%sys_ignore_trace & H)%bind_Ret E Hc.
    assert (exists es', w_trace w' = w_trace w1 ++ es') as [es' E'].
    { clear -H. revert w1 H. induction l as [|b l IH]; intros w1; cbn [write_each].
      - intros [= _ <-]. exists []. by rewrite app_nil_r.
      - intros (? & w2 & [r E]%sys_ignore_trace & [es' H]%IH)%bind_Ret. rewrite H, E, <- app_assoc. by eexists. }
    rewrite E', E1, <- app_assoc in E. apply (inj (app (w_trace w))) in E. subst es.
    inversion Hc as [|? ? Hw Hc']; subst. cbn in Hw. cbn [concat].
    change (sent_on fd (Called (Write fd bs) r) ++ written fd es' = bs ++ concat l).
    f_equal; [|by eapply IH]. destruct r; try done. cbn. rewrite bool_decide_eq_true_2 by done.
    subst. by rewrite ztake_all.
Qed.

Lemma bytes_of_append s1 s2 : bytes_of (String.append s1 s2) = bytes_of s1 ++ bytes_of s2.
Proof.
  induction s1 as [|c s IH]; [done|]. change (String.append (String c s) s2) with (String c (String.append s s2)).
  change (Ascii.byte_of_ascii c :: bytes_of (String.append s s2) = Ascii.byte_of_ascii c :: bytes_of s ++ bytes_of s2).
  by rewrite IH.
Qed.

(** The message. *)
Definition fail_text (err : string) (e : errno) : string :=
  let errn := strerror e in
  if 0 <? zlen (bytes_of errn) then String.append err (String.append ": " errn) else err.

Lemma fail_writes_concat err e :
  concat (fail_writes strerror err e) =
    le_split 8 (zlen (bytes_of (fail_text err e))) ++ bytes_of (fail_text err e).
Proof.
  unfold fail_writes, fail_text. rewrite concat_app. cbn [concat]. rewrite app_nil_r, <- app_assoc.
  destruct (0 <? _); cbn [concat]; rewrite app_nil_r.
  - by rewrite !bytes_of_append, !zlen_app.
  - by rewrite Z.add_0_r.
Qed.

Lemma writes_never_exit fd l w c w' :
  write_each fd l w <> (Exit c, w').
Proof.
  revert w. induction l as [|bs l IH]; intros w; cbn [write_each]; [done|].
  unfold mbind at 1, sys_bind at 1. destruct (sys_ignore (Write fd bs) w) as [[] w1] eqn:E; try done.
  intros _. unfold sys_ignore, mbind, sys_bind, sys in E. destruct (w_ans w); [done|].
  by destruct (legal _ _ _).
Qed.

(** C21. What the child reports when it fails is what the parent dies with:
    when the writes took all their bytes and the two reads of the parent get
    the eight bytes of the length and the rest, spawning ends in the fatal
    error that names the path, the failed call and the error's text. *)
Theorem spawn_reports_failure A args err e w w' es child pw a1 a2 a3 a4 rest :
  @fail strerror A args err e w = (Exit 127, w') -> w_trace w' = w_trace w ++ es -> Forall write_complete es ->
  zlen (bytes_of (fail_text err e)) < 2 ^ 64 ->
  let s := written (wr (ca_result args)) es in
  w_ans pw = a1 :: a2 :: a3 :: a4 :: RBytes (ztake 8 s) :: RBytes (zdrop 8 s) :: rest ->
  (7 <= length rest)%nat ->
  fst (await_child child args pw) = Fatal (fatal_text (ca_path args) (fail_text err e)).
Proof.
  intros Hf Et Hc Hlen s Ha Hn.
  assert (s = concat (fail_writes strerror err e)) as Hs.
  { unfold fail in Hf. unfold mbind at 1, sys_bind at 1 in Hf.
    destruct (write_each _ _ w) as [[u| | | |] w1] eqn:E; try done; cbn in Hf.
    - injection Hf as <-. by eapply writes_written.
    - by apply writes_never_exit in E. }
  rewrite fail_writes_concat in Hs. set (t := bytes_of (fail_text err e)) in *.
  assert (ztake 8 s = le_split 8 (zlen t)) as H8.
  { by rewrite Hs, ztake_app_l, ztake_all by (rewrite zlen_le_split; lia). }
  assert (zdrop 8 s = t) as Hd.
  { by rewrite Hs, zdrop_app_r, zlen_le_split, zdrop_le_0 by (rewrite ?zlen_le_split; lia). }
  rewrite H8, Hd in Ha. clear Hs H8 Hd Hf Et Hc s.
  assert (fail_text err e = string_of t) as -> by (unfold t; by rewrite string_of_bytes_of).
  destruct pw as [ans tr fs op]. cbn in Ha. subst ans.
  do 7 (destruct rest as [|? rest]; [cbn in Hn; lia|]).
  pose proof (zlen_le_split 8 (zlen t)) as H8. pose proof (le_combine_split 8 (zlen t)) as H9.
  rewrite Z.mod_small in H9 by (zl_nonneg; cbn; lia).
  unfold await_child, restore_signals, sys_ignore, sys, undef, stop, mbind, sys_bind, mret, sys_ret.
  cbn [w_ans kernel clip legal]. rewrite ztake_all by lia.
  destruct (le_split 8 (zlen t)) as [|b bs] eqn:El; [done|].
  rewrite (proj2 (Z.ltb_ge _ _)) by lia. cbn [w_ans kernel clip legal].
  rewrite H9, ztake_all, resize_same by lia. cbn. reflexivity.
Qed.
End report.

Definition enoent (e : errno) : string := "No such file or directory".

Lemma spawn_reports_failure_witness :
  let w := mkWorld [ROk 8; ROk 6; ROk 2; ROk 25] [] ∅ ∅ in
  let s := written 4 (w_trace (@fail enoent unit Demo.args "execve" (EOTHER 2) w).2) in
  fst (await_child 77 Demo.args
    (mkWorld ([ROk 0; ROk 0; ROk 0; ROk 0; RBytes (ztake 8 s); RBytes (zdrop 8 s)] ++ replicate 7 (ROk 0)) [] ∅ ∅))
  = Fatal (fatal_text "/bin/sh" "execve: No such file or directory").
Proof.
  intros w s.
  exact (spawn_reports_failure enoent unit Demo.args "execve" (EOTHER 2) w
    (@fail enoent unit Demo.args "execve" (EOTHER 2) w).2
    (w_trace (@fail enoent unit Demo.args "execve" (EOTHER 2) w).2) 77
    (mkWorld ([ROk 0; ROk 0; ROk 0; ROk 0; RBytes (ztake 8 s); RBytes (zdrop 8 s)] ++ replicate 7 (ROk 0)) [] ∅ ∅)
    (ROk 0) (ROk 0) (ROk 0) (ROk 0) (replicate 7 (ROk 0))
    ltac:(by vm_compute) ltac:(by vm_compute) ltac:(vm_compute; repeat constructor) ltac:(by vm_compute)
    ltac:(reflexivity) ltac:(cbn; lia)).
Defined.

(** ** Exit codes, waiting and termination *)

Definition all_below (n : nat) (P : Z -> bool) : bool := forallb (fun k => P (Z.of_nat k)) (List.seq 0 n).

Lemma all_below_spec n P : all_below n P = true -> forall z, 0 <= z < Z.of_nat n -> P z = true.
Proof.
  unfold all_below. rewrite forallb_forall. intros H z Hz. specialize (H (Z.to_nat z)).
  rewrite Z2Nat.id in H by lia. apply H, in_seq. lia.
Qed.

(** [wait] reports an exit with status [c] as [c], a death by SIGTERM
    as success, and a death by any other signal as 128 plus its number,
    whether or not there was a core dump. *)
Theorem exit_code_of_status c sig core :
  0 <= c < 256 -> 1 <= sig <= 126 -> core = 0 \/ core = 128 ->
  exit_code_of (Z.shiftl c 8) = c /\
  exit_code_of (sig + core) = (if sig =? SIGTERM then 0 else 128 + sig).
Proof.
  intros Hc Hs Hcore. split.
  - apply Z.eqb_eq.
    by refine (all_below_spec 256 (fun c => exit_code_of (Z.shiftl c 8) =? c) _ c _); [vm_compute|lia].
  - apply Z.eqb_eq.
    assert (all_below 127 (fun s => (s =? 0) || (exit_code_of (s + core) =? (if s =? SIGTERM then 0 else 128 + s)))
      = true) as H by (destruct Hcore as [-> | ->]; by vm_compute).
    pose proof (all_below_spec _ _ H sig ltac:(lia)) as Hsig.
    cbn in Hsig. apply orb_true_iff in Hsig as [Hsig|Hsig]; [lia|done].
Qed.

Lemma exit_code_of_status_witness : exit_code_of (Z.shiftl 3 8) = 3 /\ exit_code_of (9 + 128) = 137.
Proof. apply (exit_code_of_status 3 9 128); [lia|lia|by right]. Defined.

Definition dead (p : Process) : Process := mkProcess (-1) (in_wr p) (out_rd p) (err_rd p).

(** The calls of [terminate] on a running child that can be signalled. *)
Definition terminate_calls (p : Process) (status : Z) (r1 r2 r3 : sysret) : list event :=
  [Called (Kill (pid p) SIGTERM) (ROk 0); Called (Waitpid (pid p)) (ROk status);
   Called (Close (in_wr p)) r1; Called (Close (out_rd p)) r2; Called (Close (err_rd p)) r3].

Lemma terminate_run p w status r1 r2 r3 rest :
  0 < pid p -> Forall (fun fd => 2 < fd) [in_wr p; out_rd p; err_rd p] ->
  w_ans w = ROk 0 :: ROk status :: r1 :: r2 :: r3 :: rest ->
  exists w', terminate p w = (Ret (exit_code_of status, dead p), w') /\
    w_trace w' = w_trace w ++ terminate_calls p status r1 r2 r3 /\ w_ans w' = rest.
Proof.
  intros Hp Hfd Ha. destruct p as [n i o e], w as [ans tr fs op]. cbn in *. subst ans.
  rewrite !Forall_cons in Hfd. destruct_and!. eexists.
  unfold terminate, wait, close_pipe_end, sys_int, sys_ignore, sys, mbind, sys_bind.
  cbn [pid in_wr out_rd err_rd w_ans kernel clip legal mret sys_ret]. unfold mret, sys_ret.
  rewrite (proj2 (Z.eqb_neq n (-1))) by lia. cbn [in_wr out_rd err_rd w_ans kernel clip legal].
  assert (forall fd, 2 < fd -> negb (fd =? 0) && negb (fd =? 2) && negb (fd =? 1) = true) as Hn.
  { intros fd Hfd. rewrite !(proj2 (Z.eqb_neq fd _)) by lia. done. }
  rewrite !Hn by done. cbn. split_and!; [reflexivity|cbn; by rewrite <- !app_assoc|done].
Qed.

(** C34. Terminating a running child signals it, reaps it and closes the
    three pipe ends, each once, and leaves an object whose destructor makes no
    further call; with [wait] called first, [terminate] and the destructor
    close nothing. *)
Theorem terminate_closes_once p w status r1 r2 r3 rest :
  0 < pid p -> Forall (fun fd => 2 < fd) [in_wr p; out_rd p; err_rd p] ->
  w_ans w = ROk 0 :: ROk status :: r1 :: r2 :: r3 :: rest ->
  (exists w', terminate p w = (Ret (exit_code_of status, dead p), w') /\
    w_trace w' = w_trace w ++ terminate_calls p status r1 r2 r3) /\
  (forall x, terminate (dead p) x = (Ret (1, dead p), x)) /\
  exists w2, wait p (mkWorld (ROk status :: rest) [] ∅ ∅) = (Ret (exit_code_of status, dead p), w2).
Proof.
  intros Hp Hfd Ha. destruct (terminate_run _ _ _ _ _ _ _ Hp Hfd Ha) as (w' & H1 & H2 & _).
  split_and!; [by exists w'|done|]. by eexists.
Qed.

Lemma terminate_closes_once_witness :
  exists w', terminate (mkProcess 77 6 7 9) (mkWorld (replicate 5 (ROk 0)) [] ∅ ∅)
    = (Ret (0, dead (mkProcess 77 6 7 9)), w').
Proof.
  destruct (terminate_closes_once (mkProcess 77 6 7 9) (mkWorld (replicate 5 (ROk 0)) [] ∅ ∅) 0 (ROk 0) (ROk 0) (ROk 0) [])
    as ((w' & H & _) & _); [cbn; lia|cbn; repeat constructor|reflexivity|]. by exists w'.
Defined.

(** When kill(2) fails the process keeps its pid, and every further call, the
    destructor's included, closes the same numbers again. *)
Lemma failed_kill_closes_twice :
  let p := mkProcess 77 6 7 9 in
  let m := '(_, p') ← terminate p; terminate p' in
  w_trace (m (mkWorld (RErr (EOTHER 3) :: replicate 3 (ROk 0) ++ RErr (EOTHER 3) :: replicate 3 (ROk 0)) [] ∅ ∅)).2
    = let round := [Called (Kill 77 SIGTERM) (RErr (EOTHER 3)); Called (Close 6) (ROk 0);
                    Called (Close 7) (ROk 0); Called (Close 9) (ROk 0)] in round ++ round.
Proof. by vm_compute. Qed.
