(* ===== verification/Args.v ===== *)
(** * [enu/argparser.cpp]: the command line

    The lambdas of [Args::parse] become functions on the remaining arguments
    [prog_args]; [exit(1)] is [PExit] with the format string of its message.
    [std::stod] is an argument: the conversion of a latency that is not a
    number throws, which ends the program. *)

From Stdlib Require Import Ascii.
From Equations Require Import Equations.
From S2P Require Import Prelude.

Section Args.
Context {double : Type} (zero : double) (stod : string -> option double).

Record Args := mkArgs {
  daemon : bool;
  sequencer : bool;
  path : string;
  latency : double;
  user_host : string
}.

Definition default_args : Args := mkArgs false false "" zero "".

Inductive parse_result :=
  | PArgs (a : Args)
  | PExit (fmt : string)
  | PAbort.

Fixpoint starts_with (p s : string) : bool :=
  match p, s with
  | EmptyString, _ => true
  | String a p', String b s' => bool_decide (b = a) && starts_with p' s'
  | String _ _, EmptyString => false
  end.

Definition substr (n : nat) (s : string) : string := String.substring n (String.length s - n) s.

(** [strip_dash]: the argument without its dashes. *)
Definition strip_dash (arg : string) : option string :=
  if starts_with "--" arg then Some (substr 2 arg)
  else if starts_with "-" arg then Some (substr 1 arg)
  else None.

Definition is_flag (exp arg : string) : bool :=
  match strip_dash arg with
  | Some a => bool_decide (a = exp)
  | None => false
  end.

(** [read_flag]: the remaining arguments after a flag [exp] in front. *)
Definition read_flag (exp : string) (prog_args : list string) : option (list string) :=
  match prog_args with
  | arg :: rest => if is_flag exp arg then Some rest else None
  | [] => None
  end.

(** [read_value]: no such flag, a flag with its value, or a flag at the end. *)
Inductive value_result := NoFlag | NoValue | Value (v : string) (rest : list string).

Definition read_value (exp : string) (prog_args : list string) : value_result :=
  match read_flag exp prog_args with
  | None => NoFlag
  | Some [] => NoValue
  | Some (v :: rest) => Value v rest
  end.

(** [std::count(arg.begin(), arg.end(), c)]. *)
Fixpoint count_char (c : Ascii.ascii) (s : string) : nat :=
  match s with
  | EmptyString => 0
  | String d s' => (if bool_decide (d = c) then 1 else 0) + count_char c s'
  end.

Definition is_target_host (arg : string) : bool := Nat.eqb (count_char "@"%char arg) 1.

Definition read_target_host (prog_args : list string) : option (string * list string) :=
  match prog_args with
  | arg :: rest => if is_target_host arg then Some (arg, rest) else None
  | [] => None
  end.

Definition set_daemon (a : Args) : Args :=
  mkArgs true (sequencer a) (path a) (latency a) (user_host a).
Definition set_path (p : string) (a : Args) : Args :=
  mkArgs (daemon a) (sequencer a) p (latency a) (user_host a).
Definition set_latency (l : double) (a : Args) : Args :=
  mkArgs (daemon a) (sequencer a) (path a) l (user_host a).
Definition set_user_host (h : string) (a : Args) : Args :=
  mkArgs (daemon a) (sequencer a) (path a) (latency a) h.

(** One iteration of the loop, on a non-empty [prog_args]: the arguments that
    are left with the record so far, or the end of the parse. *)
Definition parse_step (prog_args : list string) (arg : Args) : parse_result + list string * Args :=
  match read_flag "daemon" prog_args with
  | Some rest => inr (rest, set_daemon arg)
  | None =>
      match read_value "path" prog_args with
      | Value v rest => inr (rest, set_path v arg)
      | NoValue => inl (PExit "flag --{} requires a value")
      | NoFlag =>
          match read_value "latency" prog_args with
          | Value v rest =>
              match stod v with
              | Some d => inr (rest, set_latency d arg)
              | None => inl PAbort
              end
          | NoValue => inl (PExit "flag --{} requires a value")
          | NoFlag =>
              match read_target_host prog_args with
              | Some (v, rest) => inr (rest, set_user_host v arg)
              | None => inl (PExit "invalid argument: '{}'")
              end
          end
      end
  end.

Lemma read_flag_shorter exp l rest : read_flag exp l = Some rest -> (length rest < length l)%nat.
Proof. destruct l; cbn; [done|]. case_ifs; [|done]. intros [= <-]. lia. Qed.

Lemma read_value_shorter exp l v rest :
  read_value exp l = Value v rest -> (length rest < length l)%nat.
Proof.
  unfold read_value. destruct (read_flag exp l) as [[|x xs]|] eqn:E; try done.
  intros [= -> ->]. apply read_flag_shorter in E. cbn in E. lia.
Qed.

Lemma read_target_host_shorter l v rest :
  read_target_host l = Some (v, rest) -> (length rest < length l)%nat.
Proof. destruct l; cbn; [done|]. case_ifs; [|done]. intros [= <- <-]. lia. Qed.

Lemma parse_step_shorter l arg rest arg' :
  parse_step l arg = inr (rest, arg') -> (length rest < length l)%nat.
Proof.
  unfold parse_step. destruct (read_flag "daemon" l) eqn:E1.
  { intros [= <- <-]. by apply read_flag_shorter in E1. }
  destruct (read_value "path" l) eqn:E2; try done.
  2:{ intros [= <- <-]. by apply read_value_shorter in E2. }
  destruct (read_value "latency" l) eqn:E3; try done.
  2:{ destruct (stod v); [|done]. intros [= <- <-]. by apply read_value_shorter in E3. }
  destruct (read_target_host l) as [[v r]|] eqn:E4; [|done].
  intros [= <- <-]. by apply read_target_host_shorter in E4.
Qed.

(** A value with the equation that says where it came from. *)
Definition inspect {A} (a : A) : {b | a = b} := exist _ a eq_refl.

(** [while (prog_args.size() > 0)]: every iteration drops an argument. *)
Equations? parse_loop (prog_args : list string) (arg : Args) : parse_result + Args
  by wf (length prog_args) lt :=
  parse_loop [] arg := inr arg;
  parse_loop (a :: l) arg with inspect (parse_step (a :: l) arg) => {
    | exist _ (inl r) _ := inl r;
    | exist _ (inr (rest, arg')) H := parse_loop rest arg' }.
Proof. by apply parse_step_shorter in H. Defined.

(** [Args::parse]; [argv] with the program path in front. *)
Definition parse (argv : list string) : parse_result :=
  match parse_loop (tail argv) default_args with
  | inl r => r
  | inr arg =>
      if negb (daemon arg) && negb (sequencer arg) && bool_decide (user_host arg = EmptyString)
      then PExit "missing user@hostname argument"
      else PArgs arg
  end.

(** ** The options as data, and how a user may write them *)

Inductive opt :=
  | ODaemon (dashes : bool)
  | OPath (dashes : bool) (p : string)
  | OLatency (dashes : bool) (text : string) (v : double)
  | OHost (h : string).

(** A flag with two dashes or with one. *)
Definition dash (two : bool) (flag : string) : string :=
  if two then String "-" (String "-" flag) else String "-" flag.

Definition render_opt (o : opt) : list string :=
  match o with
  | ODaemon d => [dash d "daemon"]
  | OPath d p => [dash d "path"; p]
  | OLatency d text _ => [dash d "latency"; text]
  | OHost h => [h]
  end.

Definition apply_opt (a : Args) (o : opt) : Args :=
  match o with
  | ODaemon _ => set_daemon a
  | OPath _ p => set_path p a
  | OLatency _ _ v => set_latency v a
  | OHost h => set_user_host h a
  end.

Definition opt_wf (o : opt) : Prop :=
  match o with
  | OLatency _ text v => stod text = Some v
  | OHost h => is_target_host h = true
  | _ => True
  end.

(** ** Lemmas *)

Lemma parse_loop_cons a l arg :
  parse_loop (a :: l) arg =
  match parse_step (a :: l) arg with
  | inl r => inl r
  | inr (rest, arg') => parse_loop rest arg'
  end.
Proof.
  rewrite parse_loop_equation_2.
  destruct (inspect (parse_step (a :: l) arg)) as [[r|[rest arg']] E]; by simpl; rewrite E.
Qed.

(** Invariants of the record: preserved by an iteration, they hold at the end. *)
Lemma parse_loop_inv (P : Args -> Prop) l arg arg' :
  (forall l arg rest arg', P arg -> parse_step l arg = inr (rest, arg') -> P arg') ->
  P arg -> parse_loop l arg = inr arg' -> P arg'.
Proof.
  intros Hstep. remember (length l) as n eqn:Hn. revert l arg Hn.
  induction (lt_wf n) as [n _ IH]. intros l arg -> HP Hl.
  destruct l as [|a l]; [rewrite parse_loop_equation_1 in Hl; by injection Hl as <-|].
  rewrite parse_loop_cons in Hl.
  destruct (parse_step (a :: l) arg) as [|[rest arg1]] eqn:E; [done|].
  eapply (IH (length rest)); [|done|by eapply Hstep|done]. by apply parse_step_shorter in E.
Qed.

Lemma substring_full s : String.substring 0 (String.length s) s = s.
Proof. induction s as [|c s IH]; cbn; [done|by rewrite IH]. Qed.

Lemma strip_dash_count c arg a :
  c <> "-"%char -> strip_dash arg = Some a -> count_char c a = count_char c arg.
Proof.
  intros Hc. unfold strip_dash, substr. destruct arg as [|c1 arg]; [done|].
  destruct (decide (c1 = "-"%char)) as [->|Hne].
  2:{ cbn. by rewrite bool_decide_eq_false_2. }
  assert (count_char c (String "-" arg) = count_char c arg) as -> by
    (cbn; by rewrite bool_decide_eq_false_2).
  destruct arg as [|c2 arg]; [by intros [= <-]|].
  destruct (decide (c2 = "-"%char)) as [->|Hne]; cbn.
  - rewrite Nat.sub_0_r, substring_full. intros [= <-]. by rewrite bool_decide_eq_false_2.
  - rewrite (bool_decide_eq_false_2 _ Hne). cbn. rewrite substring_full. by intros [= <-].
Qed.

Lemma host_is_no_flag exp h :
  count_char "@"%char exp = 0%nat -> is_target_host h = true -> is_flag exp h = false.
Proof.
  unfold is_target_host, is_flag. intros He Hh%Nat.eqb_eq.
  destruct (strip_dash h) as [a|] eqn:E; [|done].
  apply bool_decide_eq_false. intros ->. apply (strip_dash_count "@"%char) in E; [|done].
  rewrite E, Hh in He. done.
Qed.

Lemma parse_step_opt o rest arg :
  opt_wf o -> parse_step (render_opt o ++ rest) arg = inr (rest, apply_opt arg o).
Proof.
  intros Ho. destruct o as [[]|[] p|[] text v|h]; cbn in Ho; try reflexivity.
  1,2: cbv -[set_latency]; by rewrite Ho.
  unfold parse_step, read_value, read_flag, read_target_host. cbn.
  rewrite !host_is_no_flag by done. by rewrite Ho.
Qed.

Lemma parse_loop_opts os rest arg :
  Forall opt_wf os ->
  parse_loop (concat (map render_opt os) ++ rest) arg = parse_loop rest (foldl apply_opt arg os).
Proof.
  intros Hos. revert arg. induction Hos as [|o os Ho Hos IH]; intros arg; [done|].
  cbn [map concat foldl]. rewrite <- app_assoc.
  assert (exists a l, render_opt o ++ concat (map render_opt os) ++ rest = a :: l) as (a & l & E)
    by (destruct o; by eexists _, _).
  rewrite E, parse_loop_cons, <- E, parse_step_opt by done. apply IH.
Qed.

(** What every record of the loop satisfies. *)
Definition role_inv (arg : Args) : Prop :=
  sequencer arg = false /\ (user_host arg = EmptyString \/ is_target_host (user_host arg) = true).

Lemma parse_step_role l arg rest arg' :
  role_inv arg -> parse_step l arg = inr (rest, arg') -> role_inv arg'.
Proof.
  intros HP. unfold parse_step. destruct (read_flag "daemon" l).
  { by intros [= <- <-]. }
  destruct (read_value "path" l); [|done|by intros [= <- <-]].
  destruct (read_value "latency" l); [|done|destruct (stod v); [by intros [= <- <-]|done]].
  unfold read_target_host. destruct l as [|a l]; [done|].
  destruct (is_target_host a) eqn:E; [|done]. intros [= <- <-]. destruct HP. split; [done|by right].
Qed.

Lemma parse_loop_early l arg a : parse_loop l arg <> inl (PArgs a).
Proof.
  remember (length l) as n eqn:Hn. revert l arg Hn. induction (lt_wf n) as [n _ IH].
  intros [|x l] arg Hn; [by rewrite parse_loop_equation_1|]. rewrite parse_loop_cons.
  destruct (parse_step (x :: l) arg) as [r|[rest arg1]] eqn:E.
  - unfold parse_step in E. repeat case_match; simplify_eq; done.
  - apply parse_step_shorter in E. by eapply (IH (length rest)); [lia|].
Qed.

(** ** Properties *)

(** C24. Round trip: options written in any order, repeated or not, with one
    dash or two, are read back as the record they describe (a later option
    wins over an earlier one), and the parse succeeds when they name a daemon
    or a host. *)
Theorem parse_render_roundtrip prog os :
  Forall opt_wf os ->
  let arg := foldl apply_opt default_args os in
  daemon arg = true \/ user_host arg <> EmptyString ->
  parse (prog :: concat (map render_opt os)) = PArgs arg.
Proof.
  intros Hos arg Hok. unfold parse. cbn [tail].
  rewrite <- (app_nil_r (concat _)), parse_loop_opts by done. fold arg. rewrite parse_loop_equation_1.
  destruct Hok as [->|Hh]; [done|]. rewrite (bool_decide_eq_false_2 _ Hh).
  by rewrite andb_false_r.
Qed.

(** C36. A parse that succeeds gives the program a role: the daemon, or a
    client of a target with exactly one @; [sequencer] is never set. *)
Theorem parse_ok_has_role argv a :
  parse argv = PArgs a ->
  sequencer a = false /\ (daemon a = true \/ is_target_host (user_host a) = true).
Proof.
  unfold parse. destruct (parse_loop (tail argv) default_args) as [r|arg] eqn:E.
  { intros ->. by apply parse_loop_early in E. }
  apply (parse_loop_inv role_inv) in E as [Hs Hh]; [|apply parse_step_role|by split; [|left]].
  destruct (daemon arg) eqn:Hd; cbn; [intros [= <-]; tauto|].
  rewrite Hs. cbn. case_bool_decide as Hu; [done|]. intros [= <-]. tauto.
Qed.
End Args.

(** A latency in whole units. *)
Definition stod_digit (s : string) : option Z := if bool_decide (s = "5"%string) then Some 5 else None.

Lemma parse_render_roundtrip_witness :
  parse 0 stod_digit ["enu"; "-path"; "/a"; "--latency"; "5"; "u@h"; "--path"; "/b"] =
  PArgs (mkArgs false false "/b" 5 "u@h").
Proof.
  apply (parse_render_roundtrip 0 stod_digit "enu"
    [OPath false "/a"; OLatency true "5" 5; OHost "u@h"; OPath true "/b"]).
  - repeat constructor.
  - right. discriminate.
Defined.

Lemma parse_ok_has_role_witness :
  false = false /\ (true = true \/ is_target_host "" = true).
Proof. apply (parse_ok_has_role 0 stod_digit ["enu"; "--daemon"] (mkArgs true false "" 0 "")). reflexivity. Defined.
