(* ===== verification/Tracked.v ===== *)
(** * [enu/tracked.h]: the progress tree

    Nodes live in a heap keyed by an identity (the address of the C++ object);
    [children_] owns its elements, so erasing one destroys its subtree. An
    operation on a destroyed node returns [None]. Time is in nanoseconds of
    the steady clock; the outcome of [try_lock] and the clock are arguments.
    [tick] also says whether it called the drawing function, when, and how
    that call ended. *)

From Stdlib Require Import Sorted.
From S2P Require Import Prelude.

(** [chrono::milliseconds{80}], in nanoseconds. *)
Definition UPDATE_INTERVAL_MS : Z := 80 * 10 ^ 6.

(** How a call of the drawing function ends: with the rows it drew, with an
    exception, or not, because it waits for the children of a node. *)
Inductive drawn := Rows (n : Z) | Throws | Waits.

Section Tracked.
Context {M : Type}.

Record TrackedNode := mkNode {
  ready_ : bool;
  children_ : list nat;
  done_ : Z;
  total_ : Z;
  parent : option nat;
  meta : M
}.

(** [mutex_] is set when the root's mutex is held by a call that will not
    release it. *)
Record TrackedRoot := mkRoot {
  start_ : Z;
  last_draw_ : Z;
  last_drawn_rows_ : Z;
  sum_done_ : Z;
  sum_total_ : Z;
  mutex_ : bool
}.

(** The heap, the next fresh identity and [root_meta_], which all the nodes
    of a tree share. Identity 0 is the root. *)
Record Tracked := mkTracked {
  nodes : gmap nat TrackedNode;
  next_id : nat;
  root_meta_ : TrackedRoot
}.

Definition RenderFn : Type := Tracked -> Z -> drawn.

(** [TrackedNode(M metadata, RenderFn render_fn)] at time [now]. *)
Definition new_root (m : M) (now : Z) : Tracked :=
  mkTracked {[0%nat := mkNode false [] 0 0 None m]} 1 (mkRoot now now 0 0 0 false).

Definition set_nodes (ns : gmap nat TrackedNode) (t : Tracked) : Tracked :=
  mkTracked ns (next_id t) (root_meta_ t).

Definition set_children (l : list nat) (n : TrackedNode) : TrackedNode :=
  mkNode (ready_ n) l (done_ n) (total_ n) (parent n) (meta n).

Definition add_child (n : nat) (m : M) (t : Tracked) : option (nat * Tracked) :=
  nd ← nodes t !! n;
  let c := next_id t in
  mret (c, mkTracked
    (<[c := mkNode false [] 0 0 (Some n) m]> (<[n := set_children (children_ nd ++ [c]) nd]> (nodes t)))
    (S c) (root_meta_ t)).

Definition unlock (n : nat) (t : Tracked) : option Tracked :=
  nd ← nodes t !! n;
  mret (set_nodes (<[n := mkNode true (children_ nd) (done_ nd) (total_ nd) (parent nd) (meta nd)]>
    (nodes t)) t).

(** The children [iter_children] visits, in order; [inr tt] while it waits for
    [ready_]. *)
Definition iter_children (n : nat) (t : Tracked) : option (list nat + unit) :=
  nd ← nodes t !! n;
  mret (if ready_ nd then inl (children_ nd) else inr tt).

(** [done_ += delta; root_meta_->sum_done_ += delta]. *)
Definition count (n : nat) (delta : Z) (t : Tracked) : option Tracked :=
  nd ← nodes t !! n;
  let r := root_meta_ t in
  mret (mkTracked
    (<[n := mkNode (ready_ nd) (children_ nd) (u64 (done_ nd + delta)) (total_ nd) (parent nd) (meta nd)]>
       (nodes t)) (next_id t)
    (mkRoot (start_ r) (last_draw_ r) (last_drawn_rows_ r) (u64 (sum_done_ r + delta)) (sum_total_ r)
       (mutex_ r))).

Definition set_root (r : TrackedRoot) (t : Tracked) : Tracked := mkTracked (nodes t) (next_id t) r.

(** The rest of [tick], with the mutex held: the tree, and the time and the
    end of the call of [render_fn_], if there was one. [last_draw_] is set
    before the call; an exception leaves the mutex locked, as waiting does. *)
Definition redraw (render_fn_ : RenderFn) (now : Z) (t : Tracked) : Tracked * option (Z * drawn) :=
  let r := root_meta_ t in
  if UPDATE_INTERVAL_MS <=? now - last_draw_ r then
    let t := set_root (mkRoot (start_ r) now (last_drawn_rows_ r) (sum_done_ r) (sum_total_ r) true) t in
    let d := render_fn_ t (now - start_ r) in
    (match d with
     | Rows rows => set_root (mkRoot (start_ r) now rows (sum_done_ r) (sum_total_ r) false) t
     | _ => t
     end, Some (now, d))
  else (t, None).

(** [try_lock] fails when another thread holds the mutex, which is an
    argument, or when it was never released. *)
Definition tick (render_fn_ : RenderFn) (n : nat) (delta : Z) (try_lock : bool) (now : Z)
    (t : Tracked) : option (Tracked * option (Z * drawn)) :=
  t ← count n delta t;
  mret (if try_lock && negb (mutex_ (root_meta_ t)) then redraw render_fn_ now t else (t, None)).

Definition shift_total (n : nat) (delta : Z) (t : Tracked) : option Tracked :=
  nd ← nodes t !! n;
  let r := root_meta_ t in
  mret (mkTracked
    (<[n := mkNode (ready_ nd) (children_ nd) (done_ nd) (u64 (total_ nd + delta)) (parent nd) (meta nd)]>
       (nodes t)) (next_id t)
    (mkRoot (start_ r) (last_draw_ r) (last_drawn_rows_ r) (sum_done_ r) (u64 (sum_total_ r + delta))
       (mutex_ r))).

(** The objects the destructor of [n] destroys: [n] and its subtree. *)
Fixpoint subtree (fuel : nat) (ns : gmap nat TrackedNode) (n : nat) : list nat :=
  match fuel with
  | O => []
  | S fuel' =>
      match ns !! n with
      | Some nd => n :: concat (map (subtree fuel' ns) (children_ nd))
      | None => []
      end
  end.

(** [remove]: [assert(parent != nullptr)], then the element of the parent's
    list is erased, which destroys it. Identities grow from parent to child,
    so [next_id] bounds the depth. *)
Definition remove (n : nat) (t : Tracked) : option Tracked :=
  nd ← nodes t !! n;
  p ← parent nd;
  pd ← nodes t !! p;
  let dead := subtree (next_id t) (nodes t) n in
  mret (set_nodes (filter (fun kv => kv.1 ∉ dead)
    (<[p := set_children (filter (fun c => c <> n) (children_ pd)) pd]> (nodes t))) t).

Definition child_count (n : nat) (t : Tracked) : option Z :=
  nd ← nodes t !! n; mret (zlen (children_ nd)).
Definition is_root (n : nat) (t : Tracked) : option bool :=
  nd ← nodes t !! n; mret (bool_decide (parent nd = None)).
Definition done (n : nat) (t : Tracked) : option Z := nd ← nodes t !! n; mret (done_ nd).
Definition total (n : nat) (t : Tracked) : option Z := nd ← nodes t !! n; mret (total_ nd).
Definition sum_done (t : Tracked) : Z := sum_done_ (root_meta_ t).
Definition sum_total (t : Tracked) : Z := sum_total_ (root_meta_ t).
Definition drawn_rows (t : Tracked) : Z := last_drawn_rows_ (root_meta_ t).

(** ** The tree invariant *)

Record tree_wf (t : Tracked) : Prop := mkTreeWf {
  wf_root : exists nd, nodes t !! 0%nat = Some nd /\ parent nd = None;
  wf_ids : forall n nd, nodes t !! n = Some nd -> (n < next_id t)%nat;
  wf_parent : forall n nd, nodes t !! n = Some nd -> n <> 0%nat ->
    exists p pd, parent nd = Some p /\ nodes t !! p = Some pd /\ n ∈ children_ pd /\ (p < n)%nat;
  wf_child : forall n nd c, nodes t !! n = Some nd -> c ∈ children_ nd ->
    exists cd, nodes t !! c = Some cd /\ parent cd = Some n;
  wf_nodup : forall n nd, nodes t !! n = Some nd -> NoDup (children_ nd)
}.

(** ** The operations keep the tree *)

Lemma new_root_wf m now : tree_wf (new_root m now).
Proof.
  split; cbn.
  - eexists. by rewrite lookup_singleton_eq.
  - intros n nd [<- <-]%lookup_singleton_Some. lia.
  - intros n nd [<- <-]%lookup_singleton_Some. done.
  - intros n nd c [<- <-]%lookup_singleton_Some. cbn. by intros ?%not_elem_of_nil.
  - intros n nd [<- <-]%lookup_singleton_Some. constructor.
Qed.

(** Counters and flags of a node do not matter to the shape of the tree. *)
Lemma same_shape_wf t t' n nd nd' :
  tree_wf t -> nodes t !! n = Some nd -> nodes t' = <[n := nd']> (nodes t) ->
  next_id t' = next_id t -> children_ nd' = children_ nd -> parent nd' = parent nd -> tree_wf t'.
Proof.
  intros [Hroot Hids Hpar Hch Hnd] Hn Hns Hid Hc Hp.
  assert (forall k kd, nodes t' !! k = Some kd -> exists kd0, nodes t !! k = Some kd0 /\
    children_ kd = children_ kd0 /\ parent kd = parent kd0) as Hback.
  { intros k kd. rewrite Hns, lookup_insert_Some. intros [[<- <-]|[_ Hk]]; [by exists nd|by exists kd]. }
  assert (forall k kd0, nodes t !! k = Some kd0 -> exists kd, nodes t' !! k = Some kd /\
    children_ kd = children_ kd0 /\ parent kd = parent kd0) as Hfwd.
  { intros k kd0 Hk. rewrite Hns. destruct (decide (k = n)) as [->|].
    - rewrite lookup_insert_eq. simplify_eq. by exists nd'.
    - rewrite lookup_insert_ne by congruence. by exists kd0. }
  split.
  - destruct Hroot as (rd & Hr & Hrp). apply Hfwd in Hr as (rd' & Hr' & _ & E).
    exists rd'. by rewrite E.
  - intros k kd Hk. rewrite Hid. apply Hback in Hk as (kd0 & Hk & _). by eapply Hids.
  - intros k kd Hk Hk0. apply Hback in Hk as (kd0 & Hk & _ & Ekp).
    destruct (Hpar k kd0 Hk Hk0) as (p & pd & E1 & E2 & E3 & E4).
    apply Hfwd in E2 as (pd' & E2' & Ec & _). exists p, pd'. rewrite Ec, Ekp. done.
  - intros k kd c Hk Hc'. apply Hback in Hk as (kd0 & Hk & Ekc & _). rewrite Ekc in Hc'.
    destruct (Hch k kd0 c Hk Hc') as (cd & E1 & E2).
    apply Hfwd in E1 as (cd' & E1' & _ & Ep). exists cd'. by rewrite Ep.
  - intros k kd Hk. apply Hback in Hk as (kd0 & Hk & -> & _). by eapply Hnd.
Qed.

Lemma add_child_wf n m t c t' : tree_wf t -> add_child n m t = Some (c, t') -> tree_wf t'.
Proof.
  intros [Hroot Hids Hpar Hch Hnd]. unfold add_child.
  destruct (nodes t !! n) as [nd|] eqn:Hn; [|done]. cbn. intros [= <- <-].
  pose proof (Hids n nd Hn) as Hlt.
  assert (nodes t !! next_id t = None) as Hfresh.
  { destruct (nodes t !! next_id t) eqn:E; [|done]. apply Hids in E. lia. }
  split; cbn.
  - destruct Hroot as (rd & Hr & Hrp). rewrite lookup_insert_ne by lia.
    destruct (decide (n = 0%nat)) as [->|].
    + rewrite lookup_insert_eq. eexists. split; [done|]. cbn. congruence.
    + rewrite lookup_insert_ne by done. by exists rd.
  - intros k kd. rewrite !lookup_insert_Some. intros [[<- _]|[_ [[<- _]|[_ Hk]]]]; [lia|lia|].
    apply Hids in Hk. lia.
  - intros k kd. rewrite lookup_insert_Some. intros [[<- <-]|[Hne Hk]] Hk0; cbn.
    + exists n, (set_children (children_ nd ++ [next_id t]) nd).
      rewrite lookup_insert_ne, lookup_insert_eq by lia. cbn. split_and!; [done|done|set_solver|done].
    + assert (exists kd0, nodes t !! k = Some kd0 /\ parent kd = parent kd0) as (kd0 & Hk' & ->).
      { rewrite lookup_insert_Some in Hk. destruct Hk as [[<- <-]|[_ Hk]]; [by exists nd|by exists kd]. }
      destruct (Hpar k kd0 Hk' Hk0) as (p & pd & E1 & E2 & E3 & E4). exists p.
      assert (p <> next_id t) by (intros ->; congruence).
      rewrite lookup_insert_ne by done. destruct (decide (n = p)) as [->|].
      * rewrite lookup_insert_eq. eexists. split_and!; [done|done| |done].
        simplify_eq. cbn. set_solver.
      * rewrite lookup_insert_ne by done. by exists pd.
  - intros k kd x. rewrite lookup_insert_Some. intros [[<- <-]|[Hne Hk]] Hx; cbn in *; [by apply not_elem_of_nil in Hx|].
    destruct (decide (x = next_id t)) as [->|Hx'].
    + rewrite lookup_insert_eq. eexists. split; [done|]. cbn. f_equal.
      rewrite lookup_insert_Some in Hk. destruct Hk as [[<- <-]|[_ Hk]]; [done|].
      apply (Hch _ _ _ Hk) in Hx as (cd & E & _). congruence.
    + assert (exists cd0, nodes t !! x = Some cd0 /\ parent cd0 = Some k) as (cd0 & Hx1 & Hx2).
      { rewrite lookup_insert_Some in Hk. destruct Hk as [[<- <-]|[_ Hk]]; cbn in Hx.
        - apply (Hch n nd); [done|]. set_solver.
        - by apply (Hch k kd). }
      rewrite lookup_insert_ne by congruence. destruct (decide (n = x)) as [->|].
      * rewrite lookup_insert_eq. eexists. split; [done|]. cbn. congruence.
      * rewrite lookup_insert_ne by done. by exists cd0.
  - intros k kd. rewrite !lookup_insert_Some. intros [[<- <-]|[_ [[<- <-]|[_ Hk]]]]; cbn.
    + constructor.
    + apply NoDup_app. split_and!; [by eapply Hnd|..].
      * intros x Hx1 Hx2. apply list_elem_of_singleton in Hx2 as ->.
        apply (Hch _ _ _ Hn) in Hx1 as (cd & E & _). congruence.
      * apply NoDup_singleton.
    + by eapply Hnd.
Qed.

(** The descendants of a node, itself included. *)
Inductive desc (ns : gmap nat TrackedNode) : nat -> nat -> Prop :=
  | desc_refl n : is_Some (ns !! n) -> desc ns n n
  | desc_step n nd c x : ns !! n = Some nd -> c ∈ children_ nd -> desc ns c x -> desc ns n x.

Lemma desc_snoc ns n x xd c :
  desc ns n x -> ns !! x = Some xd -> c ∈ children_ xd -> is_Some (ns !! c) -> desc ns n c.
Proof.
  induction 1 as [n _|n nd y x Hn Hy _ IH]; intros Hx Hc Hs.
  - eapply desc_step; [done..|by apply desc_refl].
  - by eapply desc_step; [| |apply IH].
Qed.

Section removal.
Context (t : Tracked) (Hwf : tree_wf t).

Lemma child_gt n nd c : nodes t !! n = Some nd -> c ∈ children_ nd -> (n < c)%nat.
Proof.
  intros Hn Hc. destruct (wf_child t Hwf n nd c Hn Hc) as (cd & Hcd & Hp).
  assert (c <> 0%nat) as Hc0.
  { intros ->. destruct (wf_root t Hwf) as (rd & Hr & Hrp). congruence. }
  destruct (wf_parent t Hwf c cd Hcd Hc0) as (p & pd & E & _ & _ & Hlt). congruence.
Qed.

Lemma desc_ge n x : desc (nodes t) n x -> (n <= x)%nat.
Proof.
  induction 1 as [|n nd c x Hn Hc _ IH]; [lia|]. pose proof (child_gt n nd c Hn Hc). lia.
Qed.

Lemma desc_parent n x xd p :
  desc (nodes t) n x -> x <> n -> nodes t !! x = Some xd -> parent xd = Some p -> desc (nodes t) n p.
Proof.
  induction 1 as [|n nd c x Hn Hc Hd IH]; intros Hne Hx Hp; [done|].
  destruct (decide (x = c)) as [->|Hxc].
  - destruct (wf_child t Hwf n nd c Hn Hc) as (cd & Hcd & Hcp). simplify_eq. by apply desc_refl.
  - by eapply desc_step; [| |apply IH].
Qed.

Lemma subtree_spec fuel n x :
  (next_id t <= fuel + n)%nat -> x ∈ subtree fuel (nodes t) n <-> desc (nodes t) n x.
Proof.
  revert n. induction fuel as [|fuel IH]; intros n Hf; cbn.
  - split; [by intros ?%not_elem_of_nil|]. intros Hd. exfalso.
    assert (is_Some (nodes t !! n)) as [nd Hn] by (inversion Hd; [done|by eexists]).
    apply (wf_ids t Hwf) in Hn. lia.
  - destruct (nodes t !! n) as [nd|] eqn:Hn.
    2:{ split; [by intros ?%not_elem_of_nil|]. inversion 1; simplify_eq.
        rewrite Hn in *. by destruct H0. }
    rewrite elem_of_cons, list_elem_of_In, in_concat. split.
    + intros [->|(l & Hl & Hx)]; [apply desc_refl; by rewrite Hn|].
      apply in_map_iff in Hl as (c & <- & Hc). apply list_elem_of_In in Hc, Hx.
      pose proof (child_gt n nd c Hn Hc). eapply desc_step; [done..|]. apply IH; [lia|done].
    + inversion 1 as [|? nd' c ? Hn' Hc Hd]; simplify_eq; [by left|right].
      pose proof (child_gt n _ c Hn Hc).
      exists (subtree fuel (nodes t) c). split.
      * apply in_map. by apply list_elem_of_In.
      * apply list_elem_of_In, IH; [lia|done].
Qed.

(** The node [k], without [n] among its children when it is the parent [p]. *)
Definition detach (n p k : nat) (kd : TrackedNode) : TrackedNode :=
  if decide (k = p) then set_children (filter (fun c => c <> n) (children_ kd)) kd else kd.

Lemma detach_parent n p k kd : parent (detach n p k kd) = parent kd.
Proof. unfold detach. by case_decide. Qed.

Lemma detach_children n p k kd c :
  c ∈ children_ (detach n p k kd) <-> c ∈ children_ kd /\ (k = p -> c <> n).
Proof.
  unfold detach. case_decide; cbn; [|naive_solver]. rewrite list_elem_of_filter. naive_solver.
Qed.

(** What [remove] leaves: the nodes outside the subtree, detached from it. *)
Lemma remove_spec n t' :
  remove n t = Some t' ->
  exists nd p, nodes t !! n = Some nd /\ parent nd = Some p /\ next_id t' = next_id t /\
    root_meta_ t' = root_meta_ t /\
    forall k kd, nodes t' !! k = Some kd <->
      ~ desc (nodes t) n k /\ exists kd0, nodes t !! k = Some kd0 /\ kd = detach n p k kd0.
Proof.
  unfold remove. destruct (nodes t !! n) as [nd|] eqn:Hn; [|done]. cbn.
  destruct (parent nd) as [p|] eqn:Hp; [|done]. cbn.
  destruct (nodes t !! p) as [pd|] eqn:Hpd; [|done]. cbn. intros [= <-].
  exists nd, p. split_and!; try done. intros k kd. cbn.
  rewrite map_lookup_filter_Some. cbn. rewrite (subtree_spec (next_id t) n k) by lia.
  rewrite lookup_insert_Some. unfold detach. split.
  - intros [[[<- <-]|[Hne Hk]] Hd]; (split; [done|]).
    + exists pd. by rewrite decide_True.
    + exists kd. by rewrite decide_False.
  - intros (Hd & kd0 & Hk & ->). split; [|done]. case_decide as E; [left|right]; simplify_eq; done.
Qed.

Lemma remove_wf n t' : remove n t = Some t' -> tree_wf t'.
Proof.
  intros (nd & p & Hn & Hp & Hid & _ & HL)%remove_spec.
  assert (n <> 0%nat) as Hn0.
  { intros ->. destruct (wf_root t Hwf) as (rd & Hr & Hrp). congruence. }
  split.
  - destruct (wf_root t Hwf) as (rd & Hr & Hrp). exists (detach n p 0 rd). rewrite detach_parent.
    split; [|done]. apply HL. split; [|by exists rd]. intros Hd%desc_ge. lia.
  - intros k kd (_ & kd0 & Hk & _)%HL. rewrite Hid. by eapply (wf_ids t Hwf).
  - intros k kd (Hd & kd0 & Hk & ->)%HL Hk0. rewrite detach_parent.
    destruct (wf_parent t Hwf k kd0 Hk Hk0) as (q & qd & E1 & E2 & E3 & E4).
    exists q, (detach n p q qd). split_and!; [done| | |done].
    + apply HL. split; [|by exists qd]. intros Hq. apply Hd. eapply desc_snoc; [done..|by eexists].
    + apply detach_children. split; [done|]. intros _ ->. apply Hd, desc_refl. by rewrite Hk.
  - intros k kd c (Hd & kd0 & Hk & ->)%HL Hc. apply detach_children in Hc as [Hc Hcn].
    destruct (wf_child t Hwf k kd0 c Hk Hc) as (cd & E1 & E2).
    exists (detach n p c cd). rewrite detach_parent. split; [|done].
    apply HL. split; [|by exists cd]. intros Hdc. destruct (decide (c = n)) as [->|Hne].
    + apply Hcn; [congruence|done].
    + apply Hd. by eapply desc_parent.
  - intros k kd (_ & kd0 & Hk & ->)%HL. unfold detach. case_decide; cbn;
      [apply NoDup_filter|]; by eapply (wf_nodup t Hwf).
Qed.
End removal.

Lemma unlock_wf n t t' : tree_wf t -> unlock n t = Some t' -> tree_wf t'.
Proof.
  intros Hwf. unfold unlock. destruct (nodes t !! n) as [nd|] eqn:Hn; [|done].
  intros [= <-]. by eapply same_shape_wf.
Qed.

Lemma count_wf n d t t' : tree_wf t -> count n d t = Some t' -> tree_wf t'.
Proof.
  intros Hwf. unfold count. destruct (nodes t !! n) as [nd|] eqn:Hn; [|done].
  intros [= <-]. by eapply same_shape_wf.
Qed.

Lemma set_root_wf r t : tree_wf t -> tree_wf (set_root r t).
Proof. by intros []. Qed.

(** Drawing is a matter of [root_meta_]. *)
Lemma redraw_root f now t : exists r, (redraw f now t).1 = set_root r t /\
  sum_done_ r = sum_done t /\ sum_total_ r = sum_total t.
Proof.
  unfold redraw. destruct (_ <=? _); [|exists (root_meta_ t); by destruct t].
  cbn. destruct (f _ _); by eexists.
Qed.

Lemma tick_count f n d l now t t' x :
  tick f n d l now t = Some (t', x) -> exists t1 r, count n d t = Some t1 /\ t' = set_root r t1 /\
    sum_done t' = sum_done t1 /\ sum_total t' = sum_total t1.
Proof.
  unfold tick. destruct (count n d t) as [t1|]; [|done]. cbn. intros [= H]. exists t1.
  destruct (l && _).
  - destruct (redraw_root f now t1) as (r & E & Hd & Ht). rewrite H in E. cbn in E. subst t'. by exists r.
  - injection H as <- <-. exists (root_meta_ t1). by destruct t1.
Qed.

Lemma tick_wf f n d l now t t' x : tree_wf t -> tick f n d l now t = Some (t', x) -> tree_wf t'.
Proof. intros Hwf (t1 & r & Hc & -> & _)%tick_count. by eapply set_root_wf, count_wf. Qed.

Lemma shift_total_wf n d t t' : tree_wf t -> shift_total n d t = Some t' -> tree_wf t'.
Proof.
  intros Hwf. unfold shift_total. destruct (nodes t !! n) as [nd|] eqn:Hn; [|done].
  intros [= <-]. by eapply same_shape_wf.
Qed.

(** ** Sequences of operations *)

Inductive op :=
  | OpAddChild (n : nat) (m : M)
  | OpUnlock (n : nat)
  | OpTick (n : nat) (delta : Z) (try_lock : bool) (now : Z)
  | OpShiftTotal (n : nat) (delta : Z)
  | OpRemove (n : nat).

Section runs.
Context (render_fn_ : RenderFn).

Definition exec (o : op) (t : Tracked) : option Tracked :=
  match o with
  | OpAddChild n m => snd <$> add_child n m t
  | OpUnlock n => unlock n t
  | OpTick n delta l now => fst <$> tick render_fn_ n delta l now t
  | OpShiftTotal n delta => shift_total n delta t
  | OpRemove n => remove n t
  end.

Fixpoint run (os : list op) (t : Tracked) : option Tracked :=
  match os with
  | [] => Some t
  | o :: os' => exec o t ≫= run os'
  end.

Definition ticked (o : op) : Z := match o with OpTick _ d _ _ => d | _ => 0 end.
Definition shifted (o : op) : Z := match o with OpShiftTotal _ d => d | _ => 0 end.
Definition sumZ (f : op -> Z) (os : list op) : Z := foldr (fun o n => f o + n) 0 os.

Lemma exec_wf o t t' : tree_wf t -> exec o t = Some t' -> tree_wf t'.
Proof.
  intros Hwf. destruct o; cbn.
  - destruct (add_child n m t) as [[c t1]|] eqn:E; [|done]. intros [= <-]. by eapply add_child_wf.
  - by apply unlock_wf.
  - destruct (tick _ _ _ _ _ _) as [[t1 x]|] eqn:E; [|done]. intros [= <-]. by eapply tick_wf.
  - by apply shift_total_wf.
  - by apply remove_wf.
Qed.

(** What an operation other than [tick] does to [root_meta_]. *)
Lemma exec_root o t t' :
  exec o t = Some t' ->
  match o with
  | OpTick n d _ _ => exists t1 r, count n d t = Some t1 /\ t' = set_root r t1 /\
      sum_done t' = sum_done t1 /\ sum_total t' = sum_total t1
  | OpShiftTotal _ d => root_meta_ t' = (let r := root_meta_ t in
      mkRoot (start_ r) (last_draw_ r) (last_drawn_rows_ r) (sum_done_ r) (u64 (sum_total_ r + d)) (mutex_ r))
  | _ => root_meta_ t' = root_meta_ t
  end.
Proof.
  destruct o; cbn; unfold add_child, unlock, shift_total, remove.
  3:{ destruct (tick _ _ _ _ _ _) as [[t1 x]|] eqn:E; [|done]. intros [= <-]. by eapply tick_count. }
  all: destruct (nodes t !! n) as [nd|]; try done; cbn; try by intros [= <-].
  destruct (parent nd) as [p|]; [|done]. cbn. destruct (nodes t !! p); [|done]. by intros [= <-].
Qed.

Lemma count_sums n d t t1 :
  count n d t = Some t1 -> sum_done t1 = u64 (sum_done t + d) /\ sum_total t1 = sum_total t.
Proof. unfold count. destruct (nodes t !! n); [|done]. by intros [= <-]. Qed.

Lemma exec_sums o t t' :
  exec o t = Some t' ->
  sum_done t' = u64 (sum_done t + ticked o) \/ ticked o = 0 /\ sum_done t' = sum_done t.
Proof.
  intros H%exec_root. destruct o; cbn; unfold sum_done in *.
  3:{ destruct H as (t1 & r & [Hs _]%count_sums & -> & Hd & _). left. by rewrite Hd. }
  all: right; rewrite H; by destruct (root_meta_ t).
Qed.

Lemma exec_totals o t t' :
  exec o t = Some t' ->
  sum_total t' = u64 (sum_total t + shifted o) \/ shifted o = 0 /\ sum_total t' = sum_total t.
Proof.
  intros H%exec_root. destruct o; cbn; unfold sum_total in *.
  3:{ destruct H as (t1 & r & [_ Hs]%count_sums & -> & _ & Ht). right. by rewrite Ht. }
  all: rewrite H; (by left) || (by right).
Qed.

Lemma u64_add a b : u64 (u64 a + b) = u64 (a + b).
Proof. apply Zplus_mod_idemp_l. Qed.

(** A counter that every operation advances by its share, modulo 2^64. *)
Lemma run_counter (f : op -> Z) (get : Tracked -> Z) os t t' :
  (forall o t t', exec o t = Some t' ->
     get t' = u64 (get t + f o) \/ f o = 0 /\ get t' = get t) ->
  get t = u64 (get t) -> run os t = Some t' -> get t' = u64 (get t + sumZ f os).
Proof.
  intros Hf. revert t. induction os as [|o os IH]; intros t H0; cbn.
  - intros [= <-]. by rewrite Z.add_0_r.
  - destruct (exec o t) as [t1|] eqn:E; [|done]. cbn. intros Hr.
    assert (get t1 = u64 (get t + f o)) as H1.
    { destruct (Hf _ _ _ E) as [|[-> ->]]; [done|]. by rewrite Z.add_0_r. }
    rewrite (IH t1) by (done || (rewrite H1; unfold u64; symmetry; apply wrap_small, wrap_fits; done)).
    rewrite H1, u64_add. f_equal. unfold sumZ. cbn. lia.
Qed.

Lemma run_wf os t t' : tree_wf t -> run os t = Some t' -> tree_wf t'.
Proof.
  revert t. induction os as [|o os IH]; intros t Hwf; cbn; [by intros [= <-]|].
  destruct (exec o t) as [t1|] eqn:E; [|done]. cbn. apply IH. by eapply exec_wf.
Qed.

(** The calls of [render_fn_] of an operation and of a run: when, and how they
    ended. *)
Definition frame_of_op (o : op) (t : Tracked) : option (Z * drawn) :=
  match o with
  | OpTick n delta l now => tick render_fn_ n delta l now t ≫= snd
  | _ => None
  end.

Fixpoint frames (os : list op) (t : Tracked) : list (Z * drawn) :=
  match os with
  | [] => []
  | o :: os' => option_list (frame_of_op o t) ++ from_option (frames os') [] (exec o t)
  end.

Definition apart (a b : Z) : Prop := a + UPDATE_INTERVAL_MS <= b.

(** What an operation means for the frames after it: without a call nothing
    changes; a call comes late enough, and one that failed keeps the mutex. *)
Lemma exec_frame o t t' :
  exec o t = Some t' ->
  let r := root_meta_ t in
  let r' := root_meta_ t' in
  start_ r' = start_ r /\
  match frame_of_op o t with
  | None => last_draw_ r' = last_draw_ r /\ mutex_ r' = mutex_ r /\ last_drawn_rows_ r' = last_drawn_rows_ r
  | Some (now, d) => mutex_ r = false /\ apart (last_draw_ r) now /\ last_draw_ r' = now /\
      exists t1, (tree_wf t -> tree_wf t1) /\ d = render_fn_ t1 (now - start_ r) /\
        match d with
        | Rows k => mutex_ r' = false /\ last_drawn_rows_ r' = k
        | _ => mutex_ r' = true /\ last_drawn_rows_ r' = last_drawn_rows_ r
        end
  end.
Proof.
  intros H. pose proof (exec_root _ _ _ H) as Hr. destruct o; cbn in *; try (rewrite Hr; by destruct (root_meta_ t)).
  unfold tick in *. destruct (count n delta t) as [t1|] eqn:Ec; [|done]. cbn in *.
  pose proof (fun Hwf => count_wf _ _ _ _ Hwf Ec) as Hwf1.
  unfold count in Ec. destruct (nodes t !! n) as [nd|]; [|done]. injection Ec as Ec.
  assert (root_meta_ t1 = mkRoot (start_ (root_meta_ t)) (last_draw_ (root_meta_ t)) (last_drawn_rows_ (root_meta_ t))
    (u64 (sum_done_ (root_meta_ t) + delta)) (sum_total_ (root_meta_ t)) (mutex_ (root_meta_ t))) as Hm by by subst t1.
  clear Ec. injection H as H. destruct try_lock; cbn in *; [|subst t'; by rewrite Hm].
  rewrite Hm in *. cbn in *. destruct (mutex_ (root_meta_ t)); cbn in *; [subst t'; by rewrite Hm|].
  unfold redraw in *. rewrite Hm in *. cbn in *. destruct (Z.leb_spec UPDATE_INTERVAL_MS (now - last_draw_ (root_meta_ t)));
    cbn in *; [|subst t'; by rewrite Hm].
  set (t2 := set_root _ t1) in *.
  split; [destruct (render_fn_ t2 _); by subst t'|]. split; [done|]. split; [unfold apart; lia|].
  split; [destruct (render_fn_ t2 _); by subst t'|]. exists t2.
  split; [intros; by apply set_root_wf, Hwf1|]. split; [done|]. destruct (render_fn_ t2 _); by subst t'.
Qed.

Lemma locked_frames os t t' : run os t = Some t' -> mutex_ (root_meta_ t) = true -> frames os t = [].
Proof.
  revert t. induction os as [|o os IH]; intros t; cbn; [done|].
  destruct (exec o t) as [t1|] eqn:E; [|done]. cbn. intros Hr Hm.
  apply exec_frame in E as [_ E]. destruct (frame_of_op o t) as [[? ?]|]; cbn in *; [|rewrite (IH t1 Hr); naive_solver].
  destruct E as [E _]. congruence.
Qed.

Lemma last_cons_default (a b : Z) l : List.last (b :: l) a = List.last l b.
Proof.
  revert a b. induction l as [|c l IH]; intros a b; [done|].
  change (List.last (c :: l) a = List.last (c :: l) b). by rewrite !IH.
Qed.

Lemma frames_spaced os t t' :
  run os t = Some t' -> Sorted apart (last_draw_ (root_meta_ t) :: (frames os t).*1) /\
  last_draw_ (root_meta_ t') = List.last (frames os t).*1 (last_draw_ (root_meta_ t)).
Proof.
  revert t. induction os as [|o os IH]; intros t; cbn [run frames].
  { intros [= <-]. split; [by repeat constructor|done]. }
  destruct (exec o t) as [t1|] eqn:E; [|done]. cbn [mbind option_bind from_option]. intros [Hs Hl]%IH.
  apply exec_frame in E as [_ E]. destruct (frame_of_op o t) as [[now d]|]; cbn [option_list app] in *.
  - destruct E as (_ & Ha & Hd & _). rewrite Hd in Hs, Hl. cbn [fmap list_fmap fst].
    split; [by constructor; [|constructor]|]. rewrite Hl. symmetry. exact (last_cons_default _ _ _).
  - destruct E as (Hd & _). by rewrite Hd in Hs, Hl.
Qed.

(** A frame that does not end is the last one. *)
Lemma frames_end os t t' l1 x l2 :
  run os t = Some t' -> frames os t = l1 ++ x :: l2 -> (exists k, x.2 = Rows k) \/ l2 = [].
Proof.
  revert t l1. induction os as [|o os IH]; intros t l1; cbn [run frames].
  { intros _ H. by destruct l1. }
  destruct (exec o t) as [t1|] eqn:E; [|done]. cbn [mbind option_bind from_option]. intros Hr H.
  apply exec_frame in E as [_ E]. destruct (frame_of_op o t) as [[now d]|]; cbn [option_list app] in *; [|by eapply IH].
  destruct l1 as [|y l1]; injection H as H1 H2; [|by eapply IH].
  subst x. cbn. destruct E as (_ & _ & _ & t2 & _ & _ & E). destruct d; [by left; eexists|right..].
  all: rewrite <- H2; eapply locked_frames; [done|by destruct E].
Qed.

Lemma apart_length a l : Sorted apart (a :: l) -> zlen l * UPDATE_INTERVAL_MS <= List.last l a - a.
Proof.
  revert a. induction l as [|b l IH]; intros a Hs; [unfold zlen; cbn; lia|].
  apply Sorted_inv in Hs as [Hs Hh]. apply HdRel_inv in Hh. specialize (IH b Hs). unfold apart in Hh.
  rewrite last_cons_default.
  rewrite zlen_cons. lia.
Qed.
End runs.

(** What the tree expects of its drawing function, and what its users may
    then expect of [drawn_rows]: [rows] is the room at a time since the start. *)
Class Renderer (render_fn : RenderFn) (rows : Z -> Z) : Prop :=
  render_rows t elapsed k : tree_wf t -> render_fn t elapsed = Rows k -> 1 <= k <= rows elapsed.

(** The last frame that was drawn, at time [now]. *)
Lemma run_rows render_fn rows `{!Renderer render_fn rows} os t t' :
  tree_wf t -> run render_fn os t = Some t' ->
  drawn_rows t' = drawn_rows t /\ (forall now k, (now, Rows k) ∉ frames render_fn os t) \/
  exists now, (now, Rows (drawn_rows t')) ∈ frames render_fn os t /\
    1 <= drawn_rows t' <= rows (now - start_ (root_meta_ t)).
Proof.
  revert t. induction os as [|o os IH]; intros t Hwf; cbn [run frames].
  { intros [= <-]. left. split; [done|]. intros now k. apply not_elem_of_nil. }
  destruct (exec render_fn o t) as [t1|] eqn:E; [|done]. cbn [mbind option_bind from_option]. intros Hr.
  destruct (IH t1 (exec_wf _ _ _ _ Hwf E) Hr) as [[Hd Hf]|(now & Hf & Hb)]; clear IH;
    apply exec_frame in E as [Hst E].
  2:{ right. exists now. rewrite Hst in Hb. split; [|done]. apply elem_of_app. by right. }
  unfold drawn_rows in *. rewrite Hd. destruct (frame_of_op render_fn o t) as [[now d]|]; cbn [option_list app].
  - destruct E as (_ & _ & _ & t2 & Hw2 & Hd2 & E). destruct d as [k| |].
    + right. exists now. destruct E as [_ ->]. split; [apply list_elem_of_here|]. by eapply render_rows; [apply Hw2|].
    + left. split; [apply E|]. intros ? ? [?|?]%elem_of_cons; [done|by eapply Hf].
    + left. split; [apply E|]. intros ? ? [?|?]%elem_of_cons; [done|by eapply Hf].
  - left. by split; [apply E|].
Qed.

(** ** Properties *)

(** C22. Whatever operations a tree goes through, as long as none names a
    destroyed node, parents and children agree, a parent is older than its
    children and no child is listed twice: [remove] leaves no dangling parent
    pointer and no dangling child. *)
Theorem tracked_tree_wf f m now os t :
  run f os (new_root m now) = Some t -> tree_wf t.
Proof. apply run_wf, new_root_wf. Qed.

(** C23. The totals of the progress bar: after any operations, removals
    included, [sum_done] is the sum of the ticks and [sum_total] the sum of the
    shifts, modulo the 64 bits of [size_t]. *)
Theorem tracked_sums f m now os t :
  run f os (new_root m now) = Some t ->
  sum_done t = u64 (sumZ ticked os) /\ sum_total t = u64 (sumZ shifted os).
Proof.
  intros Hr. split.
  - apply (run_counter f ticked sum_done os (new_root m now)); [apply exec_sums|done|done].
  - apply (run_counter f shifted sum_total os (new_root m now)); [apply exec_totals|done|done].
Qed.

(** C35. The drawing is rate-limited, however many threads tick: the calls of
    the drawing function in a run are at least [UPDATE_INTERVAL_MS] apart, the
    first one that long after the start, so a run draws at most one frame per
    80 ms of the clock; and a call that throws or waits is the last one, since
    the mutex is then never released. *)
Theorem tracked_draw_rate f m now os t :
  run f os (new_root m now) = Some t ->
  let calls := frames f os (new_root m now) in
  Sorted apart (now :: calls.*1) /\
  zlen calls <= (List.last calls.*1 now - now) / UPDATE_INTERVAL_MS /\
  forall l1 x l2, calls = l1 ++ x :: l2 -> (exists k, x.2 = Rows k) \/ l2 = [].
Proof.
  intros Hr calls. destruct (frames_spaced f os _ t Hr) as [Hs _]. cbn in Hs. split; [done|]. split.
  - apply apart_length in Hs. fold calls in Hs. unfold zlen in *. rewrite length_fmap in Hs.
    apply Z.div_le_lower_bound; unfold UPDATE_INTERVAL_MS in *; lia.
  - intros l1 x l2. by apply (frames_end f os _ t).
Qed.
End Tracked.

(** A tree with a directory and a file in it, removed bottom up. *)
Definition demo_ops : list (op (M := string)) :=
  [OpAddChild 0 "dir"; OpAddChild 1 "file"; OpShiftTotal 2 700; OpUnlock 2; OpUnlock 1; OpUnlock 0;
   OpTick 2 300 true (1050 * 10 ^ 6); OpTick 2 400 true (1090 * 10 ^ 6); OpRemove 2; OpRemove 1].

Definition demo_render : RenderFn (M := string) := fun _ _ => Rows 3.

Definition demo_tree : option Tracked := run demo_render demo_ops (new_root "root"%string (1000 * 10 ^ 6)).

Lemma tracked_tree_wf_witness :
  exists t, run demo_render demo_ops (new_root "root"%string (1000 * 10 ^ 6)) = Some t /\ tree_wf t.
Proof.
  destruct demo_tree as [t|] eqn:E; [|vm_compute in E; discriminate E].
  exists t. split; [exact E|]. exact (tracked_tree_wf demo_render "root"%string (1000 * 10 ^ 6) demo_ops t E).
Defined.

Lemma tracked_sums_witness :
  exists t, run demo_render demo_ops (new_root "root"%string (1000 * 10 ^ 6)) = Some t /\
    sum_done t = u64 700 /\ sum_total t = u64 700.
Proof.
  destruct demo_tree as [t|] eqn:E; [|vm_compute in E; discriminate E].
  exists t. split; [exact E|]. exact (tracked_sums demo_render "root"%string (1000 * 10 ^ 6) demo_ops t E).
Defined.

Lemma tracked_draw_rate_witness :
  exists t, run demo_render demo_ops (new_root "root"%string (1000 * 10 ^ 6)) = Some t /\
    frames demo_render demo_ops (new_root "root"%string (1000 * 10 ^ 6)) = [(1090 * 10 ^ 6, Rows 3)] /\
    zlen (frames demo_render demo_ops (new_root "root"%string (1000 * 10 ^ 6))) <=
      (List.last (frames demo_render demo_ops (new_root "root"%string (1000 * 10 ^ 6))).*1 (1000 * 10 ^ 6) -
        1000 * 10 ^ 6) / UPDATE_INTERVAL_MS.
Proof.
  destruct demo_tree as [t|] eqn:E; [|vm_compute in E; discriminate E].
  exists t. split; [exact E|]. split; [vm_compute; reflexivity|].
  exact (proj1 (proj2 (tracked_draw_rate demo_render "root"%string (1000 * 10 ^ 6) demo_ops t E))).
Defined.

Arguments TrackedNode : clear implicits.
Arguments Tracked : clear implicits.
Arguments RenderFn : clear implicits.
