(* ===== verification/Meta.v ===== *)
(** * What [enu/main.cpp] knows about a file: paths, [M] and its printing

    An absolute [fs::path] in normal form is the list of its components below
    the root directory, so [/] of the source is [++] and [filename] is the
    last component. [fs::relative] is [weakly_canonical] of both arguments, a
    query of the file system and hence an argument here, followed by the
    lexical part, which is translated from the standard. *)

From S2P Require Import Prelude Wire.

Definition path : Type := list string.

(** [path::native] of an absolute path and of a relative one. *)
Definition rel_native (p : path) : string := String.concat "/" p.
Definition native (p : path) : string := String.append "/" (rel_native p).

(** Reading an absolute path in normal form: the parts between slashes, of
    which the first is empty. *)
Definition slash : Ascii.ascii := Ascii.ascii_of_nat 47.

Fixpoint split_from (acc s : string) : list string :=
  match s with
  | EmptyString => [acc]
  | String c s' =>
      if bool_decide (c = slash) then acc :: split_from EmptyString s'
      else split_from (acc +:+ String c EmptyString) s'
  end.

Definition components (s : string) : path := base.filter (fun c => c <> EmptyString) (split_from EmptyString s).

(** What the name of an entry of a directory is made of (POSIX). *)
Fixpoint no_char (c : Ascii.ascii) (s : string) : bool :=
  match s with
  | EmptyString => true
  | String d s' => negb (bool_decide (d = c)) && no_char c s'
  end.

Definition entry_name (s : string) : Prop :=
  s <> EmptyString /\ no_char slash s = true /\ no_char Ascii.zero s = true.

Definition filename (p : path) : string := default EmptyString (last p).
Definition parent_path (p : path) : path := take (length p - 1) p.

Fixpoint mismatch (p base : path) : path * path :=
  match p, base with
  | x :: p', y :: base' => if bool_decide (x = y) then mismatch p' base' else (p, base)
  | _, _ => (p, base)
  end.

(** How far up one component of the base's remainder leads. *)
Definition climb (c : string) : Z :=
  if bool_decide (c = "..") then -1
  else if bool_decide (c = "") || bool_decide (c = ".") then 0 else 1.

Definition lexically_relative (p base : path) : path :=
  let '(a, b) := mismatch p base in
  match a, b with
  | [], [] => ["."%string]
  | _, _ =>
      let n := foldr (fun c n => climb c + n) 0 b in
      if n <? 0 then []
      else if (n =? 0) && match a with [] => true | x :: _ => bool_decide (x = "") end
      then ["."%string]
      else replicate (Z.to_nat n) ".."%string ++ a
  end.

(** [fs::relative(p, base, ec)]; [None] is an error in [ec]. *)
Definition relative (weakly_canonical : path -> option path) (p base : path) : option path :=
  cp ← weakly_canonical p;
  cb ← weakly_canonical base;
  Some (lexically_relative cp cb).

(** [str_to_lower], with [std::tolower] of the "C" locale. *)
Definition tolower (c : Ascii.ascii) : Ascii.ascii :=
  let n := Ascii.nat_of_ascii c in
  if bool_decide (65 ≤ n ≤ 90)%nat then Ascii.ascii_of_nat (n + 32) else c.

Fixpoint str_to_lower (s : string) : string :=
  match s with
  | EmptyString => EmptyString
  | String c s' => String (tolower c) (str_to_lower s')
  end.

(** [std::formatter<fs::file_type>]. *)
Definition file_type_name (t : file_type) : string :=
  match t with
  | ft_none => "none"
  | not_found => "not_found"
  | regular => "regular"
  | directory => "directory"
  | symlink => "symlink"
  | block => "block"
  | character => "character"
  | fifo => "fifo"
  | socket => "socket"
  | unknown => "unknown"
  | invalid _ => "invalid"
  end.

Record M := mkM {
  m_name : string;
  m_perms : Z;
  m_ftype : file_type;
  m_fsize : Z
}.

(** The queries of the file system the client makes: [fs::status],
    [fs::file_size] ([None] on error) and the entries of
    [fs::directory_iterator] in the order it yields them ([None] when the
    directory cannot be opened). *)
Record fsview := mkView {
  v_status : path -> Z * file_type;
  v_file_size : path -> option Z;
  v_entries : path -> option (list string)
}.

(** [M::M(const fs::path&)]. The errors are dropped: a failed [file_size]
    returns [static_cast<uintmax_t>(-1)]. *)
Definition M_of (v : fsview) (p : path) : M :=
  let status := v_status v p in
  mkM (filename p) status.1 status.2
    (match status.2 with
     | regular => default (2 ^ 64 - 1) (v_file_size v p)
     | _ => 0
     end).

(** ** Lemmas *)

Lemma mismatch_app base rest : mismatch (base ++ rest) base = (rest, []).
Proof.
  induction base as [|x base IH]; cbn; [by destruct rest|]. by rewrite bool_decide_eq_true_2.
Qed.

Lemma lexically_relative_below base x rest :
  x <> EmptyString -> lexically_relative (base ++ x :: rest) base = x :: rest.
Proof.
  intros Hx. unfold lexically_relative. rewrite mismatch_app. cbn.
  by rewrite bool_decide_eq_false_2.
Qed.

Lemma relative_below wc base x rest :
  wc (base ++ x :: rest) = Some (base ++ x :: rest) -> wc base = Some base ->
  x <> EmptyString -> relative wc (base ++ x :: rest) base = Some (x :: rest).
Proof.
  intros H1 H2 Hx. unfold relative. rewrite H1, H2. cbn. by rewrite lexically_relative_below.
Qed.

Lemma string_app_assoc (a b c : string) : (a +:+ b) +:+ c = a +:+ (b +:+ c).
Proof. induction a as [|x a IH]; [done|]. change (String x ((a +:+ b) +:+ c) = String x (a +:+ (b +:+ c))). by rewrite IH. Qed.

Lemma string_app_nil_r (a : string) : a +:+ EmptyString = a.
Proof. induction a as [|x a IH]; [done|]. change (String x (a +:+ EmptyString) = String x a). by rewrite IH. Qed.

Lemma split_from_name acc s rest :
  no_char slash s = true -> split_from acc (s +:+ rest) = split_from (acc +:+ s) rest.
Proof.
  revert acc. induction s as [|c s IH]; intros acc; [by rewrite string_app_nil_r|].
  change (String c s +:+ rest) with (String c (s +:+ rest)). cbn [split_from no_char].
  intros [Hc Hs]%andb_prop. apply negb_true_iff in Hc. rewrite Hc, IH by done.
  by rewrite string_app_assoc.
Qed.

Lemma split_concat p :
  Forall entry_name p -> p <> [] -> split_from EmptyString (rel_native p) = p.
Proof.
  intros Hp. induction Hp as [|x p (Hx & Hs & _) Hp IH]; [done|]. intros _. unfold rel_native in *.
  destruct p as [|y p].
  - change (String.concat "/" [x]) with x. rewrite <- (string_app_nil_r x) at 1. by rewrite split_from_name.
  - change (String.concat "/" (x :: y :: p)) with (x +:+ "/" +:+ String.concat "/" (y :: p)).
    rewrite split_from_name by done. change ("/" +:+ String.concat "/" (y :: p)) with
      (String slash (String.concat "/" (y :: p))). cbn [split_from].
    rewrite bool_decide_eq_true_2 by done. by rewrite IH.
Qed.

Lemma components_names p : Forall entry_name p -> base.filter (fun c => c <> EmptyString) p = p.
Proof. induction 1 as [|x p (Hx & _) _ IH]; [done|]. by rewrite filter_cons_True, IH. Qed.

(** Printing a path and reading it back. *)
Lemma components_rel_native p : Forall entry_name p -> components (rel_native p) = p.
Proof.
  intros Hp. unfold components. destruct p as [|x p]; [done|]. by rewrite split_concat, components_names.
Qed.

Lemma components_native p : Forall entry_name p -> components (native p) = p.
Proof.
  intros Hp. rewrite <- (components_rel_native p) at 2 by done. unfold components, native.
  change (String.append "/" (rel_native p)) with (String slash (rel_native p)). cbn [split_from].
  rewrite bool_decide_eq_true_2 by done. by rewrite filter_cons_False by auto.
Qed.

Lemma rel_native_inj p q : Forall entry_name p -> Forall entry_name q -> rel_native p = rel_native q -> p = q.
Proof. intros Hp Hq H. by rewrite <- (components_rel_native p), H, components_rel_native. Qed.

Lemma parent_path_snoc p x : parent_path (p ++ [x]) = p.
Proof. unfold parent_path. rewrite length_app. cbn. by rewrite Nat.add_sub, take_app_length. Qed.

Lemma filename_snoc p x : filename (p ++ [x]) = x.
Proof. unfold filename. by rewrite last_snoc. Qed.

(** The names of the file types tell the enumerators apart. *)
Lemma file_type_name_inj t1 t2 :
  file_type_name t1 = file_type_name t2 ->
  t1 = t2 \/ (exists v1 v2, t1 = invalid v1 /\ t2 = invalid v2).
Proof. destruct t1, t2; cbn; intros H; try discriminate H; eauto. Qed.

Lemma tolower_idem c : tolower (tolower c) = tolower c.
Proof. by destruct c as [[] [] [] [] [] [] [] []]. Qed.

Lemma str_to_lower_idem s : str_to_lower (str_to_lower s) = str_to_lower s.
Proof. induction s as [|c s IH]; cbn; [done|]. by rewrite tolower_idem, IH. Qed.
