(* ===== verification/Scan.v ===== *)
(** * [enu/main.cpp], [scan_dir]: the tree of a directory

    A depth-first walk with an explicit stack. The directory's entries come
    from the file system ([fsview]); [std::sort] is the argument [sort], whose
    contract is the class [StdSort]: it sorts when the comparison is a strict
    weak ordering of the entries. The comparison it is given need not be one
    (see [entry_order_cycle]): sorting such entries is undefined behaviour.
    Every node is built by the operations of [Tracked.v]. *)

From Stdlib Require Import Sorted.
From S2P Require Import Prelude Sys Wire Tracked Meta.

(** The comparison of the entries. *)
Definition entry_lt (a b : M) : bool :=
  if bool_decide (m_ftype a = regular) && bool_decide (m_ftype b = regular)
  then m_fsize a <? m_fsize b
  else String.ltb (m_name a) (m_name b).

(** What [std::sort] requires of its comparison, on the entries at hand. *)
Definition incomparable (a b : M) : bool := negb (entry_lt a b) && negb (entry_lt b a).

Definition strict_weak (l : list M) : bool :=
  forallb (fun a => negb (entry_lt a a) &&
    forallb (fun b => forallb (fun c =>
      implb (entry_lt a b && entry_lt b c) (entry_lt a c) &&
      implb (incomparable a b && incomparable b c) (incomparable a c)) l) l) l.

(** No element comes before an earlier one. *)
Definition entry_sorted : list M -> Prop := StronglySorted (fun a b => entry_lt b a = false).

(** What [std::sort] then promises. *)
Class StdSort (sort : list M -> list M) : Prop := mkStdSort {
  sort_permutes : forall l, strict_weak l = true -> sort l ≡ₚ l;
  sort_sorts : forall l, strict_weak l = true -> entry_sorted (sort l)
}.

(** Insertion, a sort that keeps the promise. *)
Fixpoint insert_entry (a : M) (l : list M) : list M :=
  match l with
  | [] => [a]
  | b :: l' => if entry_lt a b then a :: l else b :: insert_entry a l'
  end.

Definition insertion_sort (l : list M) : list M := foldr insert_entry [] l.

Lemma insert_entry_perm a l : insert_entry a l ≡ₚ a :: l.
Proof.
  induction l as [|b l IH]; cbn; [done|]. destruct (entry_lt a b); [done|]. rewrite IH. constructor.
Qed.

Lemma insertion_sort_perm l : insertion_sort l ≡ₚ l.
Proof. induction l as [|a l IH]; cbn; [done|]. by rewrite insert_entry_perm, IH. Qed.

Lemma strict_weak_inv l :
  strict_weak l = true ->
  forall a b c, a ∈ l -> b ∈ l -> c ∈ l -> entry_lt a a = false /\
    (entry_lt a b = true -> entry_lt b c = true -> entry_lt a c = true).
Proof.
  intros H a b c Ha%list_elem_of_In Hb%list_elem_of_In Hc%list_elem_of_In.
  unfold strict_weak in H. rewrite forallb_forall in H. specialize (H a Ha).
  apply andb_true_iff in H as [H1 H]. rewrite forallb_forall in H. specialize (H b Hb).
  rewrite forallb_forall in H. specialize (H c Hc). apply andb_true_iff in H as [H _].
  split; [by apply negb_true_iff|]. intros E1 E2. by rewrite E1, E2 in H.
Qed.

Lemma insert_entry_sorted all a l :
  strict_weak all = true -> a ∈ all -> (forall b, b ∈ l -> b ∈ all) -> entry_sorted l ->
  entry_sorted (insert_entry a l).
Proof.
  intros Hsw Ha. induction l as [|b l IH]; intros Hin Hs; cbn; [by repeat constructor|].
  apply StronglySorted_inv in Hs as [Hs Hb]. rewrite Forall_forall in Hb.
  destruct (entry_lt a b) eqn:E.
  - constructor; [constructor; [done|by apply Forall_forall]|].
    assert (forall c, c ∈ b :: l -> entry_lt c b = false -> entry_lt c a = false) as Hc.
    { intros c Hc Hcb. destruct (entry_lt c a) eqn:Eca; [|done].
      destruct (strict_weak_inv _ Hsw c a b) as [_ Ht]; [auto|done|apply Hin; set_solver|]. by rewrite Ht in Hcb. }
    apply Forall_forall. intros c Hcl. apply Hc; [done|]. apply elem_of_cons in Hcl as [->|Hcl]; [|by apply Hb].
    apply (strict_weak_inv _ Hsw b b b); apply Hin; set_solver.
  - constructor; [apply IH; [set_solver|done]|]. apply Forall_forall. intros c Hc.
    rewrite insert_entry_perm in Hc. apply elem_of_cons in Hc as [->|Hc]; [done|by apply Hb].
Qed.

#[global] Instance insertion_sort_ok : StdSort insertion_sort.
Proof.
  split; [intros; apply insertion_sort_perm|]. intros all Hsw.
  assert (forall l, (forall b, b ∈ l -> b ∈ all) -> entry_sorted (insertion_sort l)) as H; [|by apply H].
  induction l as [|a l IH]; intros Hin; cbn; [constructor|].
  apply (insert_entry_sorted all); [done|apply Hin; set_solver| |apply IH; set_solver].
  intros b Hb. rewrite insertion_sort_perm in Hb. apply Hin. set_solver.
Qed.

(** A frame of the walk: the stack (its back is the head of the list), the
    tree, and the paths whose type was ignored with a warning. *)
Record walk := mkWalk {
  k_stack : list (path * nat);
  k_tree : Tracked M;
  k_ignored : list (path * file_type)
}.

Section Scan.
Context (v : fsview) (sort : list M -> list M).

(** The loop over [fs::directory_iterator(path, ec)]. When the directory
    cannot be opened the iterator is at its end at once: the branch that
    reports [ec] is inside the loop and does not run. *)
Definition entries (p : path) : list M :=
  match v_entries v p with
  | Some names => map (fun name => M_of v (p ++ [name])) names
  | None => []
  end.

(** The body of [for (M meta : entries)]; [None] is the use of a destroyed
    node. *)
Definition add_entry (p : path) (node : nat) (m : M) (k : walk) : option walk :=
  match m_ftype m with
  | directory =>
      '(child, t) ← add_child node m (k_tree k);
      Some (mkWalk ((p ++ [m_name m], child) :: k_stack k) t (k_ignored k))
  | regular =>
      '(child, t) ← add_child node m (k_tree k);
      t ← shift_total child (m_fsize m) t;
      t ← unlock child t;
      Some (mkWalk (k_stack k) t (k_ignored k))
  | ft => Some (mkWalk (k_stack k) (k_tree k) (k_ignored k ++ [(p ++ [m_name m], ft)]))
  end.

Fixpoint add_entries (p : path) (node : nat) (ms : list M) (k : walk) : option walk :=
  match ms with
  | [] => Some k
  | m :: ms' => k' ← add_entry p node m k; add_entries p node ms' k'
  end.

(** One iteration of [while (!stack.empty())]. *)
Definition scan_step (p : path) (node : nat) (k : walk) : outcome walk :=
  if strict_weak (entries p) then
    match
      k ← add_entries p node (sort (entries p)) k;
      t ← unlock node (k_tree k);
      Some (mkWalk (k_stack k) t (k_ignored k))
    with
    | Some k' => Ret k'
    | None => Undef "destroyed node"
    end
  else Undef "std::sort: not a strict weak ordering".

(** [Blocked]: the walk has not ended after [fuel] iterations. *)
Fixpoint scan_loop (fuel : nat) (k : walk) : outcome walk :=
  match k_stack k with
  | [] => Ret k
  | (p, node) :: rest =>
      match fuel with
      | O => Blocked
      | S fuel' =>
          match scan_step p node (mkWalk rest (k_tree k) (k_ignored k)) with
          | Ret k' => scan_loop fuel' k'
          | o => o
          end
      end
  end.

Definition scan_dir (fuel : nat) (root_path : path) (t : Tracked M) : outcome walk :=
  scan_loop fuel (mkWalk [(root_path, 0%nat)] t []).

(** ** The tree a directory should give *)

Definition kept (m : M) : bool :=
  match m_ftype m with regular | directory => true | _ => false end.

(** The children of the node at [p], which is the root or has metadata [m]. *)
Definition listing (p : path) (is_dir : bool) : list M :=
  if is_dir then base.filter (fun m => kept m = true) (sort (entries p)) else [].

(** The nodes [cs] carry the metadata [ms]. *)
Definition kids (t : Tracked M) (cs : list nat) (ms : list M) : Prop :=
  Forall2 (fun c m => exists cd, nodes t !! c = Some cd /\ meta cd = m) cs ms.

Definition is_dir (i : nat) (nd : TrackedNode M) : bool :=
  Nat.eqb i 0 || bool_decide (m_ftype (meta nd) = directory).

(** Everything about a node but its children: identity [i] stands for the
    path [paths !! i]. *)
Record node_ok (paths : list path) (i : nat) (nd : TrackedNode M) (p : path) : Prop := mkNodeOk {
  ok_path : paths !! i = Some p;
  ok_meta : i <> 0%nat -> meta nd = M_of v p /\ kept (meta nd) = true /\
    exists pi pp, parent nd = Some pi /\ paths !! pi = Some pp /\ p = pp ++ [m_name (meta nd)];
  ok_total : total_ nd = if is_dir i nd then 0 else u64 (m_fsize (meta nd));
  ok_done : done_ nd = 0
}.

(** A node whose directory was read, sorted and filled in. *)
Definition complete (t : Tracked M) (i : nat) (nd : TrackedNode M) (p : path) : Prop :=
  ready_ nd = true /\ kids t (children_ nd) (listing p (is_dir i nd)) /\
  (is_dir i nd = true -> strict_weak (entries p) = true).

(** [now]: the node being filled and the entries done; the nodes on the stack
    are untouched, every other node is complete. *)
Definition children_ok (now : option (nat * list M)) (stack : list (path * nat)) (t : Tracked M)
    (i : nat) (nd : TrackedNode M) (p : path) : Prop :=
  if bool_decide (i ∈ map snd stack) then
    (p, i) ∈ stack /\ ready_ nd = false /\ children_ nd = [] /\ is_dir i nd = true
  else match now with
  | Some (n, ms) =>
      if bool_decide (i = n) then
        ready_ nd = false /\ is_dir i nd = true /\
        kids t (children_ nd) (base.filter (fun m => kept m = true) ms)
      else complete t i nd p
  | None => complete t i nd p
  end.

Record scan_inv (paths : list path) (now : option (nat * list M)) (k : walk) : Prop := mkScanInv {
  si_next : next_id (k_tree k) = length paths;
  si_ids : forall i, is_Some (nodes (k_tree k) !! i) <-> (i < length paths)%nat;
  si_stack : NoDup (map snd (k_stack k)) /\ Forall (fun x => (x.2 < length paths)%nat) (k_stack k) /\
    (match now with Some (n, _) => n ∉ map snd (k_stack k) /\ (n < length paths)%nat | None => True end);
  si_node : forall i nd, nodes (k_tree k) !! i = Some nd ->
    exists p, node_ok paths i nd p /\ children_ok now (k_stack k) (k_tree k) i nd p
}.

(** ** The steps of the walk keep the invariant *)

(** Metadata is never overwritten. *)
Definition metas_kept (t t' : Tracked M) : Prop :=
  forall c cd, nodes t !! c = Some cd -> exists cd', nodes t' !! c = Some cd' /\ meta cd' = meta cd.

Lemma kids_mono t t' cs ms : metas_kept t t' -> kids t cs ms -> kids t' cs ms.
Proof.
  intros Hm H. eapply Forall2_impl; [exact H|]. intros c m (cd & Hc & <-). by apply Hm in Hc.
Qed.

Lemma node_ok_mono paths paths' i nd nd' p :
  paths `prefix_of` paths' -> meta nd' = meta nd -> parent nd' = parent nd ->
  total_ nd' = total_ nd -> done_ nd' = done_ nd -> node_ok paths i nd p -> node_ok paths' i nd' p.
Proof.
  intros Hp Hm Hpar Ht Hd [H1 H2 H3 H4].
  assert (is_dir i nd' = is_dir i nd) as Hi by (unfold is_dir; by rewrite Hm).
  split; rewrite ?Hm, ?Hpar, ?Ht, ?Hd, ?Hi; try done.
  - by eapply prefix_lookup_Some.
  - intros Hi0. destruct (H2 Hi0) as (? & ? & pi & pp & ? & ? & ?). split_and!; try done.
    exists pi, pp. split_and!; try done. by eapply prefix_lookup_Some.
Qed.

Lemma children_ok_mono n ms ms' stk stk' t t' i nd p :
  metas_kept t t' -> i <> n -> (i ∈ map snd stk' <-> i ∈ map snd stk) -> stk ⊆ stk' ->
  children_ok (Some (n, ms)) stk t i nd p -> children_ok (Some (n, ms')) stk' t' i nd p.
Proof.
  intros Hm Hn Hs Hsub. unfold children_ok.
  rewrite (bool_decide_ext _ _ Hs), !(bool_decide_eq_false_2 (i = n)) by done.
  case_bool_decide.
  - intros (? & ? & ? & ?). split_and!; try done. by apply Hsub.
  - intros (? & ? & ?). split_and!; [done|by eapply kids_mono|done].
Qed.

Section new_child.
Context (paths : list path) (n : nat) (ms : list M) (stk : list (path * nat)) (t : Tracked M).
Context (ig ig' : list (path * file_type)) (nd : TrackedNode M) (p : path) (m : M).
Hypothesis Hinv : scan_inv paths (Some (n, ms)) (mkWalk stk t ig).
Hypothesis Hn : nodes t !! n = Some nd.
Hypothesis Hp : paths !! n = Some p.
Hypothesis Hm : m = M_of v (p ++ [m_name m]).

Section child_added.
Context (t' : Tracked M) (stk' : list (path * nat)) (ready : bool) (total : Z).
Let c := length paths.
Let cd := mkNode ready [] 0 total (Some n) m.
Let now := Some (n, ms ++ [m]).
Hypothesis Hns : nodes t' = <[c := cd]> (<[n := set_children (children_ nd ++ [c]) nd]> (nodes t)).
Hypothesis Hnext : next_id t' = S c.
Hypothesis Hcase :
  m_ftype m = directory /\ ready = false /\ total = 0 /\ stk' = (p ++ [m_name m], c) :: stk \/
  m_ftype m = regular /\ ready = true /\ total = u64 (m_fsize m) /\ stk' = stk.

Lemma child_fresh : nodes t !! c = None /\ c ∉ map snd stk /\ (n < c)%nat.
Proof using All.
  destruct Hinv as [_ I2 (_ & I4 & _ & I6) _]. cbn in *. split_and!; [| |done].
  - apply eq_None_not_Some. rewrite I2. subst c. lia.
  - intros (x & Hx & Hin)%list_elem_of_fmap. rewrite Forall_forall in I4. specialize (I4 _ Hin). subst c. lia.
Qed.

Lemma child_metas : metas_kept t t'.
Proof using All.
  destruct child_fresh as [Hf _]. intros k kd Hk. rewrite Hns, lookup_insert_ne by congruence.
  destruct (decide (k = n)) as [->|]; [rewrite lookup_insert_eq|rewrite lookup_insert_ne by done];
    eexists; (split; [done|]); simplify_eq; done.
Qed.

Lemma child_stack i : i <> c -> i ∈ map snd stk' <-> i ∈ map snd stk.
Proof using All. intros Hi. destruct Hcase as [(_ & _ & _ & ->)|(_ & _ & _ & ->)]; cbn; set_solver. Qed.

Lemma child_node_ok : node_ok (paths ++ [p ++ [m_name m]]) c cd (p ++ [m_name m]).
Proof using All.
  destruct child_fresh as (_ & _ & Hlt).
  split; cbn; [by rewrite lookup_app_r, Nat.sub_diag by lia| | |done].
  - intros _. split_and!; [done|unfold kept; by destruct Hcase as [(-> & _)|(-> & _)]|].
    exists n, p. split_and!; [done|by apply lookup_app_l_Some|done].
  - unfold is_dir. cbn. destruct (Nat.eqb_spec c 0); [lia|].
    destruct Hcase as [(-> & _ & -> & _)|(-> & _ & -> & _)]; done.
Qed.

Lemma child_children_ok : children_ok now stk' t' c cd (p ++ [m_name m]).
Proof using All.
  destruct child_fresh as (_ & Hcs & Hlt). unfold children_ok.
  destruct Hcase as [(Ht & -> & _ & ->)|(Ht & -> & _ & ->)].
  - rewrite bool_decide_eq_true_2 by (cbn; set_solver). split_and!; [set_solver|done|done|].
    unfold is_dir. cbn. rewrite Ht. by rewrite orb_true_r.
  - cbn. rewrite !bool_decide_eq_false_2 by (done || lia). unfold complete, is_dir. cbn. rewrite Ht.
    destruct (Nat.eqb_spec c 0); [lia|]. split_and!; [done|constructor|done].
Qed.

Lemma parent_children_ok p' :
  children_ok (Some (n, ms)) stk t n nd p' ->
  children_ok now stk' t' n (set_children (children_ nd ++ [c]) nd) p'.
Proof using All.
  destruct child_fresh as (_ & _ & Hlt). destruct (si_stack _ _ _ Hinv) as (_ & _ & Hns' & _). cbn in Hns'.
  assert (kept m = true) as Hkept by (unfold kept; by destruct Hcase as [(-> & _)|(-> & _)]).
  unfold children_ok, now. rewrite (bool_decide_eq_false_2 (n ∈ map snd stk)) by done.
  rewrite (bool_decide_eq_false_2 (n ∈ map snd stk')) by (rewrite child_stack by lia; done).
  rewrite !bool_decide_eq_true_2 by done. intros (H1 & H2 & H3).
  split_and!; [done|done|]. cbn. rewrite filter_app.
  apply Forall2_app; [eapply kids_mono; [exact child_metas|done]|].
  rewrite filter_cons_True by done. constructor; [|constructor].
  exists cd. rewrite Hns. by rewrite lookup_insert_eq.
Qed.

Lemma child_stack_ok :
  NoDup (map snd stk') /\ Forall (fun x => (x.2 < S c)%nat) stk' /\ n ∉ map snd stk' /\ (n < S c)%nat.
Proof using All.
  destruct child_fresh as (_ & Hcs & Hlt). destruct (si_stack _ _ _ Hinv) as (I3 & I4 & I5 & _). cbn in *.
  assert (Forall (fun x : path * nat => (x.2 < S c)%nat) stk)
    by (eapply Forall_impl; [exact I4|]; cbn; subst c; lia).
  split_and!; [| |by rewrite child_stack by lia|lia];
    destruct Hcase as [(_ & _ & _ & ->)|(_ & _ & _ & ->)]; try done; cbn; constructor; (done || cbn; lia).
Qed.

Lemma new_child_inv : scan_inv (paths ++ [p ++ [m_name m]]) now (mkWalk stk' t' ig').
Proof using All.
  destruct child_fresh as (Hfresh & _ & Hlt). destruct Hinv as [I1 I2 I3 I7]. cbn in *.
  assert (length (paths ++ [p ++ [m_name m]]) = S c) as Hlen by (rewrite length_app; cbn; subst c; lia).
  split; cbn; rewrite ?Hlen; [done| |exact child_stack_ok|].
  - intros i. rewrite Hns, !lookup_insert_is_Some', I2. subst c. lia.
  - intros i id. rewrite Hns, lookup_insert_Some. intros [[<- <-]|[Hic Hi]].
    { exists (p ++ [m_name m]). split; [exact child_node_ok|exact child_children_ok]. }
    rewrite lookup_insert_Some in Hi. destruct Hi as [[<- <-]|[Hin Hi]].
    + destruct (I7 n nd Hn) as (p' & Hok & Hch). exists p'. split; [|by apply parent_children_ok].
      apply (node_ok_mono paths _ _ nd); [by apply prefix_app_r|done..].
    + destruct (I7 i id Hi) as (p' & Hok & Hch). exists p'. split.
      { apply (node_ok_mono paths _ _ id); [by apply prefix_app_r|done..]. }
      eapply children_ok_mono; [exact child_metas|done|by apply child_stack| |done].
      destruct Hcase as [(_ & _ & _ & ->)|(_ & _ & _ & ->)]; set_solver.
Qed.
End child_added.
End new_child.

(** ** The size of the tree *)

Definition sumf (f : nat -> Z) (l : list nat) : Z := foldr (fun i z => f i + z) 0 l.

Lemma sumf_app f l l' : sumf f (l ++ l') = sumf f l + sumf f l'.
Proof. unfold sumf. induction l as [|i l IH]; cbn; lia. Qed.

Lemma sumf_ext f g l : (forall i, i ∈ l -> f i = g i) -> sumf f l = sumf g l.
Proof.
  unfold sumf. induction l as [|i l IH]; intros H; cbn; [done|].
  rewrite IH, H; [done|set_solver|]. intros j Hj. apply H. set_solver.
Qed.

Definition total_of (t : Tracked M) (i : nat) : Z :=
  match nodes t !! i with Some nd => total_ nd | None => 0 end.

(** Identities are handed out in order and the walk removes none. *)
Definition totals (t : Tracked M) : Z := sumf (total_of t) (List.seq 0 (next_id t)).

Definition sum_ok (k : walk) : Prop := sum_total (k_tree k) = u64 (totals (k_tree k)).

Lemma totals_new_child t t' n nd cd :
  nodes t !! n = Some nd -> (n < next_id t)%nat -> next_id t' = S (next_id t) ->
  nodes t' = <[next_id t := cd]> (<[n := set_children (children_ nd ++ [next_id t]) nd]> (nodes t)) ->
  totals t' = totals t + total_ cd.
Proof.
  intros Hn Hlt Hnext Hns. unfold totals. rewrite Hnext, seq_S, sumf_app. f_equal.
  - apply sumf_ext. intros i Hi%elem_of_seq. unfold total_of. rewrite Hns, lookup_insert_ne by lia.
    destruct (decide (i = n)) as [->|]; [by rewrite lookup_insert_eq, Hn|by rewrite lookup_insert_ne].
  - cbn. unfold total_of. rewrite Hns, lookup_insert_eq. lia.
Qed.

Lemma u64_add_r a b : u64 (a + u64 b) = u64 (a + b).
Proof. apply Zplus_mod_idemp_r. Qed.

Context (sort_ok : StdSort sort).

Lemma entries_M_of p m : m ∈ entries p -> m = M_of v (p ++ [m_name m]).
Proof.
  unfold entries. destruct (v_entries v p); [|by intros ?%not_elem_of_nil].
  intros (name & -> & _)%list_elem_of_fmap. cbn. by rewrite filename_snoc.
Qed.

Lemma scan_inv_lookup paths now k n p :
  scan_inv paths now k -> paths !! n = Some p -> exists nd, nodes (k_tree k) !! n = Some nd.
Proof. intros [_ I2 _ _] Hp%lookup_lt_Some. by apply I2. Qed.

(** The directories among some entries of [p]. *)
Definition dir_paths (p : path) (ms : list M) : list path :=
  map (fun m => p ++ [m_name m]) (base.filter (fun m => m_ftype m = directory) ms).

#[local] Arguments dir_paths : simpl never.

Lemma dir_paths_cons p m ms :
  dir_paths p (m :: ms) =
    (if decide (m_ftype m = directory) then [p ++ [m_name m]] else []) ++ dir_paths p ms.
Proof. unfold dir_paths. rewrite filter_cons. by case_decide. Qed.

Lemma add_entry_ok paths p n ms m k :
  scan_inv paths (Some (n, ms)) k -> paths !! n = Some p -> m = M_of v (p ++ [m_name m]) ->
  exists k' paths', add_entry p n m k = Some k' /\ paths `prefix_of` paths' /\
    scan_inv paths' (Some (n, ms ++ [m])) k' /\
    map fst (k_stack k') = dir_paths p [m] ++ map fst (k_stack k) /\ (sum_ok k -> sum_ok k').
Proof.
  intros Hinv Hp Hm. destruct (scan_inv_lookup _ _ _ _ _ Hinv Hp) as [nd Hn].
  destruct k as [stk t ig]. cbn in Hn. pose proof (si_next _ _ _ Hinv) as Hnext. cbn in Hnext.
  assert (n < next_id t)%nat as Hlt by (rewrite Hnext; by eapply lookup_lt_Some).
  destruct (decide (m_ftype m = directory)) as [Ed|Ed]; [|destruct (decide (m_ftype m = regular)) as [Er|Er]].
  - unfold add_entry, add_child. rewrite Ed. cbn. rewrite Hn. cbn.
    eexists _, (paths ++ [p ++ [m_name m]]). split; [done|]. split; [by apply prefix_app_r|].
    split_and!.
    + rewrite Hnext. eapply new_child_inv; [exact Hinv|done|done|done|cbn; reflexivity|done|]. left. done.
    + by rewrite dir_paths_cons, decide_True by done.
    + unfold sum_ok. cbn [k_tree]. intros Hs.
      erewrite (totals_new_child t) by (done || reflexivity). by rewrite Z.add_0_r.
  - unfold add_entry, add_child, shift_total, unlock. rewrite Er. cbn. rewrite Hn. cbn.
    rewrite !lookup_insert_eq. cbn. rewrite !lookup_insert_eq. cbn.
    eexists _, (paths ++ [p ++ [m_name m]]). split; [done|]. split; [by apply prefix_app_r|].
    split_and!.
    + rewrite Hnext. eapply new_child_inv; [exact Hinv|done|done|done|cbn; by rewrite !insert_insert_eq|done|]. right. done.
    + by rewrite dir_paths_cons, decide_False by congruence.
    + unfold sum_ok. cbn [k_tree]. intros Hs.
      erewrite (totals_new_child t) by (done || (cbn; rewrite !insert_insert_eq; reflexivity)).
      cbn [total_]. change (sum_total _) with (u64 (sum_total t + m_fsize m)).
      by rewrite Hs, u64_add, u64_add_r.
  - assert (kept m = false) as Hk by (unfold kept; by destruct (m_ftype m)).
    exists (mkWalk stk t (ig ++ [(p ++ [m_name m], m_ftype m)])), paths.
    split; [unfold add_entry; by destruct (m_ftype m)|]. split; [done|]. split_and!.
    + destruct Hinv as [I1 I2 I3 I4]. split; cbn in *; try done.
      intros i id Hi. destruct (I4 i id Hi) as (q & Hq & Hc). exists q. split; [done|].
      unfold children_ok in *. rewrite filter_app, filter_cons_False, filter_nil, app_nil_r; [done|congruence].
    + by rewrite dir_paths_cons, decide_False by done.
    + done.
Qed.

Lemma add_entries_ok ms' paths p n ms k :
  scan_inv paths (Some (n, ms)) k -> paths !! n = Some p -> Forall (fun m => m = M_of v (p ++ [m_name m])) ms' ->
  exists k' paths', add_entries p n ms' k = Some k' /\ paths `prefix_of` paths' /\
    scan_inv paths' (Some (n, ms ++ ms')) k' /\
    map fst (k_stack k') = rev (dir_paths p ms') ++ map fst (k_stack k) /\ (sum_ok k -> sum_ok k').
Proof.
  revert paths ms k. induction ms' as [|m ms' IH]; intros paths ms k Hinv Hp Hms.
  - exists k, paths. rewrite app_nil_r. done.
  - apply Forall_cons in Hms as [Hm Hms].
    destruct (add_entry_ok _ _ _ _ _ _ Hinv Hp Hm) as (k1 & paths1 & E1 & Hp1 & Hinv1 & Hs1 & Hsum1).
    destruct (IH paths1 (ms ++ [m]) k1) as (k2 & paths2 & E2 & Hp2 & Hinv2 & Hs2 & Hsum2);
      [done|by eapply prefix_lookup_Some|done|].
    exists k2, paths2. cbn. rewrite E1. cbn. rewrite <- app_assoc in Hinv2.
    split_and!; [done|by etrans|done| |by auto]. rewrite Hs2, Hs1, !dir_paths_cons.
    change (dir_paths p []) with (@nil path).
    case_decide; cbn; [by rewrite <- app_assoc|done].
Qed.

(** [node->unlock()] at the end of an iteration. *)
Lemma close_node_ok paths p n k :
  scan_inv paths (Some (n, sort (entries p))) k -> paths !! n = Some p -> strict_weak (entries p) = true ->
  exists t, unlock n (k_tree k) = Some t /\ scan_inv paths None (mkWalk (k_stack k) t (k_ignored k)) /\
    (sum_ok k -> sum_ok (mkWalk (k_stack k) t (k_ignored k))).
Proof.
  intros Hinv Hp Hsw. destruct (scan_inv_lookup _ _ _ _ _ Hinv Hp) as [nd Hn].
  unfold unlock. rewrite Hn. cbn. eexists. split; [done|]. split.
  2:{ unfold sum_ok, totals. cbn [k_tree]. change (sum_total (set_nodes _ _)) with (sum_total (k_tree k)).
      intros ->. f_equal. apply sumf_ext. intros i _. unfold total_of. cbn.
      destruct (decide (i = n)) as [->|]; [by rewrite lookup_insert_eq, Hn|by rewrite lookup_insert_ne]. }
  destruct Hinv as [I1 I2 (I3 & I4 & I5 & I6) I7]. set (nd' := mkNode _ _ _ _ _ _).
  set (t' := set_nodes _ _).
  assert (metas_kept (k_tree k) t') as Hmk.
  { intros c cd Hc. cbn. destruct (decide (c = n)) as [->|].
    - rewrite lookup_insert_eq. exists nd'. by simplify_eq.
    - rewrite lookup_insert_ne by done. by exists cd. }
  split; cbn; [done| |done|].
  - intros i. rewrite <- I2. destruct (decide (i = n)) as [->|]; [|by rewrite lookup_insert_ne].
    rewrite lookup_insert_eq, Hn. split; by eexists.
  - intros i id. rewrite lookup_insert_Some. intros [[<- <-]|[Hi Hid]].
    + destruct (I7 n nd Hn) as (q & Hq & Hc). assert (q = p) as -> by (destruct Hq; congruence).
      exists p. split; [by eapply (node_ok_mono paths _ _ nd)|].
      unfold children_ok in *. rewrite bool_decide_eq_false_2 in Hc |- * by done.
      rewrite bool_decide_eq_true_2 in Hc by done. destruct Hc as (_ & Hd & Hk).
      unfold complete. replace (is_dir n nd') with true. split_and!; [done|by eapply kids_mono|done].
    + destruct (I7 i id Hid) as (q & Hq & Hc). exists q. split; [done|].
      unfold children_ok in *. case_bool_decide; [done|].
      rewrite bool_decide_eq_false_2 in Hc by done. destruct Hc as (? & ? & ?). split_and!; [done|by eapply kids_mono|done].
Qed.

(** The head of the stack becomes the node being filled. *)
Lemma open_node_ok paths p n rest t ig :
  scan_inv paths None (mkWalk ((p, n) :: rest) t ig) ->
  scan_inv paths (Some (n, [])) (mkWalk rest t ig) /\ paths !! n = Some p.
Proof.
  intros [I1 I2 (I3 & I4 & _) I5]. cbn in *. apply NoDup_cons in I3 as [Hn I3].
  apply Forall_cons in I4 as [Hlt I4]. cbn in Hlt.
  assert (paths !! n = Some p) as Hp.
  { destruct (proj2 (I2 n) Hlt) as [nd Hnd]. destruct (I5 n nd Hnd) as (q & [Hq _ _ _] & Hc).
    unfold children_ok in Hc. rewrite bool_decide_eq_true_2 in Hc by (cbn; set_solver).
    destruct Hc as [Hin _]. apply elem_of_cons in Hin as [[= ->]|Hin]; [done|].
    destruct Hn. apply list_elem_of_fmap. by exists (q, n). }
  split; [|done]. split; cbn; try done.
  intros i id Hi. destruct (I5 i id Hi) as (q & Hq & Hc). exists q. split; [done|].
  unfold children_ok in *. cbn in Hc. destruct (decide (i = n)) as [->|Hne].
  - rewrite bool_decide_eq_true_2 in Hc by set_solver. rewrite bool_decide_eq_false_2 by done.
    rewrite bool_decide_eq_true_2 by done. destruct Hc as (_ & ? & -> & ?).
    split_and!; [done|done|]. constructor.
  - rewrite (bool_decide_ext _ (i ∈ map snd rest)) in Hc by set_solver.
    rewrite (bool_decide_eq_false_2 (i = n)) by done.
    case_bool_decide; [|done]. destruct Hc as (Hin & ?). split; [|done].
    apply elem_of_cons in Hin as [[= ? ?]|]; done.
Qed.

Lemma scan_step_ok paths p n rest t ig :
  scan_inv paths None (mkWalk ((p, n) :: rest) t ig) -> strict_weak (entries p) = true ->
  exists k' paths', scan_step p n (mkWalk rest t ig) = Ret k' /\ paths `prefix_of` paths' /\
    scan_inv paths' None k' /\ map fst (k_stack k') = rev (dir_paths p (sort (entries p))) ++ map fst rest /\
    (sum_ok (mkWalk rest t ig) -> sum_ok k').
Proof.
  intros [Hinv Hp]%open_node_ok Hsw. unfold scan_step. rewrite Hsw.
  destruct (add_entries_ok (sort (entries p)) _ _ _ _ _ Hinv Hp) as (k1 & paths1 & E1 & Hp1 & Hinv1 & Hs1 & Hsum1).
  { apply Forall_forall. intros m Hm. rewrite sort_permutes in Hm by done. by apply entries_M_of. }
  cbn [app] in Hinv1. destruct (close_node_ok _ p n _ Hinv1) as (t2 & E2 & Hinv2 & Hsum2);
    [by eapply prefix_lookup_Some|done|].
  rewrite E1. cbn. rewrite E2. cbn. eexists _, paths1. split_and!; try done. by auto.
Qed.

(** ** Termination *)

Fixpoint sum_opt (l : list (option nat)) : option nat :=
  match l with
  | [] => Some 0%nat
  | x :: l' => a ← x; b ← sum_opt l'; Some (a + b)%nat
  end.

(** The number of directories at and below [p], if [fuel] levels reach the
    bottom. *)
Fixpoint count_dirs (fuel : nat) (p : path) : option nat :=
  match fuel with
  | O => None
  | S fuel' => n ← sum_opt (map (count_dirs fuel') (dir_paths p (entries p))); Some (S n)
  end.

(** The directories at and below [p]. *)
Inductive below : path -> path -> Prop :=
  | below_refl p : below p p
  | below_dir p d q : d ∈ dir_paths p (entries p) -> below d q -> below p q.

(** Every directory at and below [p] can be sorted. *)
Definition sortable (p : path) : Prop := forall q, below p q -> strict_weak (entries q) = true.

Definition counted (p : path) (c : nat) : Prop := sortable p /\ exists fuel, count_dirs fuel p = Some c.

Lemma sum_opt_Some (f : path -> option nat) l n :
  sum_opt (map f l) = Some n -> exists cs, Forall2 (fun p c => f p = Some c) l cs /\ sum_list cs = n.
Proof.
  revert n. induction l as [|p l IH]; intros n; cbn; [intros [= <-]; by exists []|].
  destruct (f p) as [a|] eqn:E; [|done]. cbn. destruct (sum_opt (map f l)) as [b|]; [|done].
  cbn. intros [= <-]. destruct (IH b eq_refl) as (cs & Hcs & <-). exists (a :: cs). split; [by constructor|done].
Qed.

Lemma dir_paths_perm p ms ms' : ms ≡ₚ ms' -> dir_paths p ms ≡ₚ dir_paths p ms'.
Proof. intros H. unfold dir_paths. by rewrite H. Qed.

Lemma sum_list_perm (l l' : list nat) : l ≡ₚ l' -> sum_list l = sum_list l'.
Proof. induction 1; cbn; lia. Qed.

(** The directories of [p] are counted by one less than [p] is. *)
Lemma counted_inv p c :
  counted p c -> exists cs, Forall2 counted (rev (dir_paths p (sort (entries p)))) cs /\ c = S (sum_list cs).
Proof.
  intros (Hsw & [|fuel] & H); [done|]. cbn in H. pose proof (Hsw p (below_refl p)) as Hp.
  destruct (sum_opt _) as [n|] eqn:E; [|done]. injection H as <-.
  apply sum_opt_Some in E as (cs & Hcs & <-).
  assert (dir_paths p (entries p) ≡ₚ rev (dir_paths p (sort (entries p)))) as Hperm.
  { rewrite <- Permutation_rev. apply dir_paths_perm. by rewrite sort_permutes. }
  destruct (Permutation_Forall2 Hperm Hcs) as (cs' & Hpcs & Hcs'). exists cs'. split; [|by rewrite (sum_list_perm _ _ Hpcs)].
  apply Forall2_same_length_lookup_2; [by eapply Forall2_length|]. intros i q d Hq Hd. split.
  - intros r Hr. apply Hsw. eapply below_dir; [|done]. rewrite Hperm. by eapply list_elem_of_lookup_2.
  - exists fuel. by apply (Forall2_lookup_lr _ _ _ _ _ _ Hcs' Hq Hd).
Qed.

Lemma scan_loop_live fuel paths k cs :
  scan_inv paths None k -> Forall2 counted (map fst (k_stack k)) cs -> (sum_list cs <= fuel)%nat ->
  exists k' paths', scan_loop fuel k = Ret k' /\ k_stack k' = [] /\ paths `prefix_of` paths' /\
    scan_inv paths' None k' /\ (sum_ok k -> sum_ok k').
Proof.
  revert paths k cs. induction fuel as [|fuel IH]; intros paths [stk t ig] cs Hinv Hcs Hle;
    (destruct stk as [|[p n] rest]; [by eexists _, paths|]); cbn in Hcs;
    inversion Hcs as [|? c ? cs1 Hc Hcs1]; subst; cbn in Hle;
    pose proof (proj1 Hc p (below_refl p)) as Hsw; apply counted_inv in Hc as (cs2 & Hcs2 & ->); [lia|].
  destruct (scan_step_ok _ _ _ _ _ _ Hinv Hsw) as (k1 & paths1 & E1 & Hp1 & Hinv1 & Hs1 & Hsum1).
  cbn [scan_loop k_stack k_tree k_ignored]. rewrite E1. cbn.
  destruct (IH paths1 k1 (cs2 ++ cs1)) as (k2 & paths2 & E2 & Hst2 & Hp2 & Hinv2 & Hsum2); [done| | |].
  - rewrite Hs1. by apply Forall2_app.
  - rewrite sum_list_with_app. lia.
  - exists k2, paths2. split_and!; try done; [by etrans|by auto].
Qed.


(** ** Properties *)

Lemma scan_start_inv root m now : scan_inv [root] None (mkWalk [(root, 0%nat)] (new_root m now) []).
Proof.
  split; cbn.
  - done.
  - intros i. destruct (decide (i = 0%nat)) as [->|].
    + rewrite lookup_singleton_eq. split; [lia|by eexists].
    + rewrite lookup_singleton_ne by done. split; [by intros []|lia].
  - split_and!; [apply NoDup_singleton|by repeat constructor|done].
  - intros i nd [<- <-]%lookup_singleton_Some. exists root. split; [by split|].
    unfold children_ok. rewrite bool_decide_eq_true_2 by set_solver. split_and!; try done. set_solver.
Qed.

Lemma entry_sorted_filter (f : M -> bool) l : entry_sorted l -> entry_sorted (base.filter (fun m => f m = true) l).
Proof.
  induction 1 as [|m l _ IH Hm]; [constructor|]. rewrite filter_cons. case_decide; [|done].
  constructor; [done|]. rewrite Forall_forall in *. intros x [_ Hx]%list_elem_of_filter. by apply Hm.
Qed.

(** C12. The walk ends and the tree is the directory: if the directories below
    the root are finitely many and the comparison is a strict weak ordering of
    the entries of each, as many iterations as there are directories suffice;
    then every node is ready, stands for a path made of its parent's path and
    its own name with the metadata of that path, its children are exactly the
    regular files and directories listed there, once each and in the order of
    the comparison, and [sum_total] is the sum of the sizes modulo 2^64. *)
Theorem scan_dir_builds_tree root m now depth n :
  count_dirs depth root = Some n -> sortable root ->
  exists k paths, scan_dir n root (new_root m now) = Ret k /\ k_stack k = [] /\ paths !! 0%nat = Some root /\
    sum_total (k_tree k) = u64 (totals (k_tree k)) /\
    forall i nd, nodes (k_tree k) !! i = Some nd ->
      exists p, node_ok paths i nd p /\ ready_ nd = true /\
        exists ms, kids (k_tree k) (children_ nd) ms /\ entry_sorted ms /\
          ms ≡ₚ (if is_dir i nd then base.filter (fun m => kept m = true) (entries p) else []).
Proof.
  intros Hc Hsw.
  destruct (scan_loop_live n [root] (mkWalk [(root, 0%nat)] (new_root m now) []) [n])
    as (k & paths & E & Hst & Hp & Hinv & Hsum).
  - apply scan_start_inv.
  - constructor; [by split; [|exists depth]|constructor].
  - cbn. lia.
  - exists k, paths. split_and!; [done|done|by apply (prefix_lookup_Some [root])|by apply Hsum|].
    intros i nd Hi. destruct (si_node _ _ _ Hinv i nd Hi) as (p & Hok & Hch). exists p. split; [done|].
    unfold children_ok in Hch. rewrite Hst, bool_decide_eq_false_2 in Hch by apply not_elem_of_nil.
    destruct Hch as (Hr & Hk & Hd). split; [done|]. eexists. split; [done|].
    unfold listing. destruct (is_dir i nd); [|by repeat constructor]. specialize (Hd eq_refl).
    split; [by apply entry_sorted_filter, sort_sorts|]. by rewrite sort_permutes.
Qed.

(** A directory that cannot be read is silently taken for an empty one:
    the walk ends with a ready root without children and reports nothing. *)
Theorem scan_unreadable_is_empty root m now :
  v_entries v root = None ->
  exists t, scan_dir 1 root (new_root m now) = Ret (mkWalk [] t []) /\
    nodes t !! 0%nat = Some (mkNode true [] 0 0 None m).
Proof.
  intros Hv. unfold scan_dir. cbn. unfold scan_step, entries. rewrite Hv. cbn.
  assert (sort [] = []) as -> by (apply Permutation_nil; symmetry; by apply sort_permutes). cbn.
  eexists. split; [done|]. cbn. by rewrite lookup_insert_eq.
Qed.
End Scan.

(** The comparison given to [std::sort] is not a strict weak ordering:
    a file, a directory and a file each come before the next, in a circle. *)
Theorem entry_order_cycle :
  let a := mkM "a" 420 regular 10 in
  let b := mkM "b" 493 directory 0 in
  let c := mkM "c" 420 regular 5 in
  entry_lt a b = true /\ entry_lt b c = true /\ entry_lt c a = true.
Proof. done. Qed.

(** ** A directory with a file, a subdirectory and a socket *)

Module ScanDemo.
Definition view : fsview := mkView
  (fun p => match p with
            | [_] | [_; "sub"%string] => (493, directory)
            | [_; "sock"%string] => (493, socket)
            | _ => (420, regular)
            end)
  (fun p => Some 700)
  (fun p => match p with
            | [_] => Some ["sub"; "f"; "sock"]%string
            | [_; "sub"%string] => Some ["g"%string]
            | _ => None
            end).
Definition root : path := ["r"%string].

(** Two files, and a directory whose name is between theirs. *)
Definition mixed_view : fsview := mkView
  (fun p => match p with
            | [_] | [_; "b"%string] => (493, directory)
            | _ => (420, regular)
            end)
  (fun p => match p with [_; "a"%string] => Some 10 | _ => Some 5 end)
  (fun p => match p with [_] => Some ["a"; "b"; "c"]%string | _ => None end).
End ScanDemo.

Lemma scan_dir_builds_tree_witness :
  exists k paths, scan_dir ScanDemo.view insertion_sort 2 ScanDemo.root
      (new_root (M_of ScanDemo.view ScanDemo.root) 0) = Ret k /\ k_stack k = [] /\
    paths !! 0%nat = Some ScanDemo.root /\
    sum_total (k_tree k) = u64 (totals (k_tree k)) /\
    forall i nd, nodes (k_tree k) !! i = Some nd ->
      exists p, node_ok ScanDemo.view paths i nd p /\ ready_ nd = true /\
        exists ms, kids (k_tree k) (children_ nd) ms /\ entry_sorted ms /\
          ms ≡ₚ (if is_dir i nd then base.filter (fun m => kept m = true) (entries ScanDemo.view p) else []).
Proof.
  apply (scan_dir_builds_tree ScanDemo.view insertion_sort insertion_sort_ok) with (depth := 2%nat).
  - reflexivity.
  - intros q Hq. inversion Hq as [|p d q' Hd Hq']; subst; [reflexivity|].
    apply list_elem_of_singleton in Hd as ->.
    inversion Hq' as [|p d q' Hd Hq'']; subst; [reflexivity|]. by apply not_elem_of_nil in Hd.
Defined.

Lemma scan_unreadable_is_empty_witness :
  exists t, scan_dir ScanDemo.view insertion_sort 1 [] (new_root (M_of ScanDemo.view []) 0) =
      Ret (mkWalk [] t []) /\
    nodes t !! 0%nat = Some (mkNode true [] 0 0 None (M_of ScanDemo.view [])).
Proof.
  apply (scan_unreadable_is_empty ScanDemo.view insertion_sort insertion_sort_ok).
  reflexivity.
Defined.

(** A directory with two files and a subdirectory named between them, the
    first file the larger, cannot be sorted: its scan is undefined, whatever
    [std::sort] does. *)
Theorem mixed_directory_is_undefined sort fuel :
  scan_dir ScanDemo.mixed_view sort (S fuel) ScanDemo.root (new_root (M_of ScanDemo.mixed_view ScanDemo.root) 0) =
    Undef "std::sort: not a strict weak ordering".
Proof. reflexivity. Qed.
