(* ===== verification/Sync.v ===== *)
(** * [enu/main.cpp], [sync_with_remote]: the parallel walk of the tree

    [recurse] runs as tasks of a thread pool. A task is a program counter in
    [recurse] (or in the [bubble] it ends in) with its local variables; the
    shared state is the progress tree, the map [pending], [ok], [g_seq] and
    the mutexes held. A step runs one task up to its next access of shared
    state, so that every interleaving of the accesses is a sequence of steps.
    [Crash] is the use of a destroyed node, of a missing entry of [pending],
    or the unreachable [fatal].

    [tbb::concurrent_hash_map] gives exclusive access to an entry through its
    accessor: the decrement in [bubble] is one step. [task_group::wait]
    touches nothing that is shared and is not a step of its own. The outcome
    of [send_datamsg] ([Send.v]) and the bytes it ticked are chosen by the
    environment. *)

From S2P Require Import Prelude Wire Tracked Meta.

Inductive task :=
  | TCheck (n : nat)                              (* if (!ok) return; *)
  | TSeqLoad (n : nat)                            (* uint32_t seq = g_seq; *)
  | TSeqIncr (n : nat) (seq : Z)                  (* ... (g_seq + 1) % max *)
  | TSeqStore (n : nat) (seq v : Z)               (* g_seq = ... *)
  | TSend (n : nat) (seq : Z)                     (* send_datamsg(...) *)
  | TReport                                       (* report_async_error() *)
  | TSwitch (n : nat)                             (* switch (node->meta.ftype) *)
  | TRemove (n parent : nat)                      (* node->remove(); bubble(parent) *)
  | TIterWait (n : nat)                           (* iter_children: lock *)
  | TIter (n : nat) (cs : list nat)               (* iter_children: loop *)
  | TBubble (n : nat)                             (* bubble: --it->second *)
  | TBubbleRemove (n parent : nat)                (* bubble: node->remove(), erase *)
  | TDone.

#[global] Instance task_eq_dec : EqDecision task.
Proof. solve_decision. Defined.

Record shared := mkShared {
  g_tree : Tracked M;
  g_pending : gmap nat Z;
  g_ok : bool;
  g_seq : Z;
  g_sent : list (nat * Z);   (* nodes sent, with the sequence number used *)
  g_locks : gset nat         (* nodes whose mutex an iteration holds *)
}.

Inductive effect :=
  | Crash (what : string)
  | Wait
  | Go (ts : list task) (g : shared).

Definition set_tree (t : Tracked M) (g : shared) : shared :=
  mkShared t (g_pending g) (g_ok g) (g_seq g) (g_sent g) (g_locks g).
Definition set_pending (m : gmap nat Z) (g : shared) : shared :=
  mkShared (g_tree g) m (g_ok g) (g_seq g) (g_sent g) (g_locks g).
Definition set_ok (b : bool) (g : shared) : shared :=
  mkShared (g_tree g) (g_pending g) b (g_seq g) (g_sent g) (g_locks g).
Definition set_seq (v : Z) (g : shared) : shared :=
  mkShared (g_tree g) (g_pending g) (g_ok g) v (g_sent g) (g_locks g).
Definition add_sent (n : nat) (seq : Z) (g : shared) : shared :=
  mkShared (g_tree g) (g_pending g) (g_ok g) (g_seq g) (g_sent g ++ [(n, seq)]) (g_locks g).
Definition set_locks (l : gset nat) (g : shared) : shared :=
  mkShared (g_tree g) (g_pending g) (g_ok g) (g_seq g) (g_sent g) l.

(** [(g_seq + 1) % std::numeric_limits<uint32_t>::max()]. *)
Definition next_seq (v : Z) : Z := u32 (v + 1) mod (2 ^ 32 - 1).

(** The environment's choice at [send_datamsg]: its result and the bytes it
    reported with [tick]. *)
Record choice := mkChoice { c_sent : bool; c_ticked : Z }.

Definition with_node (n : nat) (g : shared) (k : TrackedNode M -> effect) : effect :=
  match nodes (g_tree g) !! n with
  | Some nd => k nd
  | None => Crash "destroyed node"
  end.

(** [send_datamsg] and the branch on its result. What [tick] draws changes
    [root_meta_] alone, which no task looks at. *)
Definition step_send (n : nat) (seq : Z) (ch : choice) (g : shared) : effect :=
  match count n (c_ticked ch) (g_tree g) with
  | Some t =>
      if c_sent ch then Go [TSwitch n] (add_sent n seq (set_tree t g))
      else Go [TReport] (set_tree t g)
  | None => Crash "destroyed node"
  end.

(** The [switch]; a regular file or an empty directory below the root goes to
    [remove] and [bubble], another directory to its children. *)
Definition step_switch (n : nat) (g : shared) : effect :=
  with_node n g (fun nd =>
    match m_ftype (meta nd) with
    | regular =>
        match parent nd with
        | Some p => Go [TRemove n p] g
        | None => Crash "assert(parent != nullptr)"
        end
    | directory =>
        match children_ nd, parent nd with
        | [], Some p => Go [TRemove n p] g
        | _, _ =>
            let m := match g_pending g !! n with
                     | Some _ => g_pending g
                     | None => <[n := zlen (children_ nd)]> (g_pending g)
                     end in
            Go [TIterWait n] (set_pending m g)
        end
    | _ => Crash "impossible"
    end).

(** [node->remove()], which takes the mutex of the parent. *)
Definition step_remove (n p : nat) (g : shared) (k : Tracked M -> effect) : effect :=
  with_node n g (fun _ => with_node p g (fun _ =>
    if bool_decide (p ∈ g_locks g) then Wait
    else match remove n (g_tree g) with
         | Some t => k t
         | None => Crash "assert(parent != nullptr)"
         end)).

Definition step_bubble (n : nat) (g : shared) : effect :=
  match g_pending g !! n with
  | None => Crash "no entry in pending"
  | Some v =>
      let v' := u64 (v - 1) in
      if v' =? 0 then
        with_node n g (fun nd =>
          match parent nd with
          | Some p => Go [TBubbleRemove n p] (set_pending (<[n := v']> (g_pending g)) g)
          | None => Go [TDone] (set_pending (delete n (g_pending g)) g)
          end)
      else Go [TDone] (set_pending (<[n := v']> (g_pending g)) g)
  end.

Definition task_step (tk : task) (ch : choice) (g : shared) : effect :=
  match tk with
  | TCheck n => if g_ok g then Go [TSeqLoad n] g else Go [TDone] g
  | TSeqLoad n => Go [TSeqIncr n (g_seq g)] g
  | TSeqIncr n seq => Go [TSeqStore n seq (g_seq g)] g
  | TSeqStore n seq v => Go [TSend n seq] (set_seq (next_seq v) g)
  | TSend n seq => step_send n seq ch g
  | TReport => Go [TDone] (set_ok false g)
  | TSwitch n => step_switch n g
  | TRemove n p => step_remove n p g (fun t => Go [TBubble p] (set_tree t g))
  | TIterWait n =>
      with_node n g (fun nd =>
        if ready_ nd && bool_decide (n ∉ g_locks g)
        then Go [TIter n (children_ nd)] (set_locks ({[n]} ∪ g_locks g) g)
        else Wait)
  | TIter n [] => with_node n g (fun _ => Go [TDone] (set_locks (g_locks g ∖ {[n]}) g))
  | TIter n (c :: cs) =>
      with_node n g (fun _ => with_node c g (fun _ => Go [TIter n cs; TCheck c] g))
  | TBubble n => step_bubble n g
  | TBubbleRemove n p =>
      step_remove n p g (fun t =>
        Go [TBubble p] (set_pending (delete n (g_pending g)) (set_tree t g)))
  | TDone => Wait
  end.

(** A configuration: the tasks in flight and the shared state. *)
Record config := mkConfig { f_tasks : list task; f_shared : shared }.

Inductive step : config -> config -> Prop :=
  | step_task l1 tk l2 ch g ts g' :
      task_step tk ch g = Go ts g' -> step (mkConfig (l1 ++ tk :: l2) g) (mkConfig (l1 ++ ts ++ l2) g').

(** [recurse(recurse, root, root_node)]. *)
Definition start (t : Tracked M) : config := mkConfig [TCheck 0] (mkShared t ∅ true 0 [] ∅).

Definition reachable (t : Tracked M) (c : config) : Prop := rtc step (start t) c.

Definition crashes (c : config) : Prop :=
  exists tk ch what, tk ∈ f_tasks c /\ task_step tk ch (f_shared c) = Crash what.

Definition finished (c : config) : Prop := Forall (fun tk => tk = TDone) (f_tasks c).

(** ** The worker's socket and the ports *)

(** [tbb::enumerable_thread_specific<int>::local()]: an element is created on
    first use, value-initialised. *)
Definition t_sock_local (t_sock : gmap nat Z) (thread : nat) : Z * gmap nat Z :=
  match t_sock !! thread with
  | Some sock => (sock, t_sock)
  | None => (0, <[thread := 0]> t_sock)
  end.

(** The descriptor a task sends on, and whether it would connect. *)
Definition task_sock (t_sock : gmap nat Z) (thread : nat) : Z * bool :=
  let sock := (t_sock_local t_sock thread).1 in (sock, sock =? -1).

(** [random_port], from the value of [rand()]. *)
Definition random_port (rand : Z) : Z :=
  let lo := 49152 in
  let hi := 65535 in
  u16 (lo + Z.rem rand (hi - lo + 1)).

(** [dmsg], built before any thread has a socket. *)
Definition init_message (rand : Z) (t_sock : gmap nat Z) : DaemonInitMessage :=
  mkDaemonInitMessage (random_port rand) (u16 (Z.of_nat (size t_sock))).
