(* ===== verification/SyncInv.v ===== *)
(** * The invariant of the parallel walk

    A task matters to the others through its role: the owner of a node, in
    one of six stages, a bubbler on its way to a parent's counter, a reporter
    of an error, or nothing. The invariant speaks of the roles up to their
    order ([inv_perm]); each kind of step of [Sync.v] is shown to keep it. *)

From S2P Require Import Prelude Wire Tracked Meta Sync.

Inductive stage :=
  | Pre                        (* before [send_datamsg] has succeeded *)
  | Post                       (* sent, before the [switch] *)
  | Removing (p : nat)
  | IterWait
  | Iter (cs : list nat)       (* [cs]: the children not yet spawned *)
  | BubbleRm (p : nat).

Inductive role := Owner (n : nat) (st : stage) | Bubbler (n : nat) | Reporter | Idle.

#[global] Instance stage_eq_dec : EqDecision stage.
Proof. solve_decision. Defined.
#[global] Instance role_eq_dec : EqDecision role.
Proof. solve_decision. Defined.

Definition role_of (tk : task) : role :=
  match tk with
  | TCheck n | TSeqLoad n | TSeqIncr n _ | TSeqStore n _ _ | TSend n _ => Owner n Pre
  | TReport => Reporter
  | TSwitch n => Owner n Post
  | TRemove n p => Owner n (Removing p)
  | TIterWait n => Owner n IterWait
  | TIter n cs => Owner n (Iter cs)
  | TBubble n => Bubbler n
  | TBubbleRemove n p => Owner n (BubbleRm p)
  | TDone => Idle
  end.

Definition owner (r : role) : option nat := match r with Owner n _ => Some n | _ => None end.
Definition busy (rs : list role) : list nat := omap owner rs.

(** How many children of [n] are removed but not yet counted down. *)
Definition bubblers (n : nat) (rs : list role) : Z :=
  Z.of_nat (length (base.filter (fun r => r = Bubbler n) rs)).

Definition has_pending (g : shared) (n : nat) : Prop := is_Some (g_pending g !! n).
Definition sent (g : shared) (n : nat) : Prop := n ∈ ((g_sent g).*1).

(** An error has been seen. *)
Definition failing (rs : list role) (g : shared) : Prop := g_ok g = false \/ Reporter ∈ rs.

(** Not started, or on its way. *)
Definition fresh (rs : list role) (g : shared) (c : nat) : Prop := c ∉ busy rs /\ ~ has_pending g c.
Definition active (rs : list role) (g : shared) (c : nat) : Prop :=
  c ∈ busy rs \/ has_pending g c \/ failing rs g.

(** The scanned tree: every node ready, files without children, the root a
    directory. *)
Definition scanned (t : Tracked M) : Prop :=
  tree_wf t /\
  forall n nd, nodes t !! n = Some nd -> ready_ nd = true /\
    (m_ftype (meta nd) = directory \/ n <> 0%nat /\ m_ftype (meta nd) = regular /\ children_ nd = []).

Definition alive (g : shared) (n : nat) (nd : TrackedNode M) : Prop := nodes (g_tree g) !! n = Some nd.

Definition stage_ok (rs : list role) (g : shared) (n : nat) (st : stage) (nd : TrackedNode M) : Prop :=
  match st with
  | Pre => ~ sent g n /\ ~ has_pending g n
  | Post => sent g n /\ ~ has_pending g n
  | Removing p => sent g n /\ ~ has_pending g n /\ parent nd = Some p /\ children_ nd = []
  | IterWait => has_pending g n /\ bubblers n rs = 0 /\ forall c, c ∈ children_ nd -> fresh rs g c
  | Iter cs => has_pending g n /\ bubblers n rs = 0 /\ n ∈ g_locks g /\ NoDup cs /\
      (forall c, c ∈ cs -> c ∈ children_ nd /\ fresh rs g c) /\
      (forall c, c ∈ children_ nd -> c ∉ cs -> active rs g c)
  | BubbleRm p => g_pending g !! n = Some 0 /\ parent nd = Some p
  end.

Definition is_iter (st : stage) : bool := match st with IterWait | Iter _ => true | _ => false end.
Definition iterating (rs : list role) (n : nat) : Prop :=
  exists st, Owner n st ∈ rs /\ is_iter st = true.

(** A node on the map [pending] counts its children and those that are removed
    but not yet subtracted; when it has come to zero somebody removes the
    node; unless its children are being spawned they are on their way. *)
Definition pending_ok (rs : list role) (g : shared) (n : nat) (v : Z) : Prop :=
  sent g n /\
  exists nd, alive g n nd /\ v = zlen (children_ nd) + bubblers n rs /\
    (forall p, parent nd = Some p -> v = 0 -> Owner n (BubbleRm p) ∈ rs) /\
    (~ iterating rs n -> forall c, c ∈ children_ nd -> active rs g c).

(** Where a node can be that was sent and is still there. *)
Definition placed (rs : list role) (g : shared) (n : nat) : Prop :=
  has_pending g n \/ Owner n Post ∈ rs \/ (exists p, Owner n (Removing p) ∈ rs) \/
  n = 0%nat /\ 0%nat ∉ busy rs.

Record inv (t0 : Tracked M) (rs : list role) (g : shared) : Prop := mkInv {
  v_scanned : scanned (g_tree g);
  v_nodup : NoDup (busy rs);
  v_stage : forall n st, Owner n st ∈ rs -> exists nd, alive g n nd /\ stage_ok rs g n st nd;
  v_up : forall n nd p, alive g n nd -> parent nd = Some p ->
    n ∈ busy rs \/ has_pending g n -> has_pending g p;
  v_pending : forall n v, g_pending g !! n = Some v -> pending_ok rs g n v;
  v_bubble : forall n, Bubbler n ∈ rs -> has_pending g n;
  v_locks : forall n, n ∈ g_locks g -> exists cs, Owner n (Iter cs) ∈ rs;
  v_root : forall nd, alive g 0 nd ->
    active rs g 0 \/ children_ nd = [] /\ sent g 0;
  v_sent : NoDup (g_sent g).*1 /\
    (forall n, sent g n -> is_Some (nodes t0 !! n)) /\
    (forall n, is_Some (nodes t0 !! n) -> is_Some (nodes (g_tree g) !! n) \/ sent g n) /\
    (forall n nd, alive g n nd -> sent g n -> placed rs g n);
  v_origin : forall n nd, alive g n nd -> exists nd0, nodes t0 !! n = Some nd0 /\ parent nd0 = parent nd;
  v_order : forall l1 n l2 nd0 p, (g_sent g).*1 = l1 ++ n :: l2 -> nodes t0 !! n = Some nd0 ->
    parent nd0 = Some p -> p ∈ l1;
  v_small : forall n v, g_pending g !! n = Some v -> v < 2 ^ 64
}.

(** ** Roles up to order *)

Lemma busy_cons r rs : busy (r :: rs) = match owner r with Some n => n :: busy rs | None => busy rs end.
Proof. done. Qed.

Lemma elem_busy n rs : n ∈ busy rs <-> exists st, Owner n st ∈ rs.
Proof.
  unfold busy. rewrite list_elem_of_omap. split.
  - intros ([m st| | |] & Hin & [= ->]). by exists st.
  - intros [st Hin]. by exists (Owner n st).
Qed.

Lemma bubblers_cons n r rs :
  bubblers n (r :: rs) = (if decide (r = Bubbler n) then 1 else 0) + bubblers n rs.
Proof. unfold bubblers. rewrite filter_cons. case_decide; cbn [length]; lia. Qed.

Lemma bubblers_nonneg n rs : 0 <= bubblers n rs.
Proof. unfold bubblers. lia. Qed.

Lemma bubblers_0 n rs : bubblers n rs = 0 <-> Bubbler n ∉ rs.
Proof.
  induction rs as [|r rs IH]; [split; [intros _; apply not_elem_of_nil|done]|].
  rewrite bubblers_cons, not_elem_of_cons, <- IH. pose proof (bubblers_nonneg n rs).
  case_decide; split; intros; [lia|destruct_and!; congruence|split; [congruence|lia]|lia].
Qed.

Lemma busy_perm rs rs' : rs ≡ₚ rs' -> busy rs ≡ₚ busy rs'.
Proof. intros H. unfold busy. by rewrite H. Qed.

Lemma bubblers_perm n rs rs' : rs ≡ₚ rs' -> bubblers n rs = bubblers n rs'.
Proof. intros H. unfold bubblers. by rewrite H. Qed.

Lemma stage_ok_perm rs rs' g n st nd : rs ≡ₚ rs' -> stage_ok rs g n st nd -> stage_ok rs' g n st nd.
Proof.
  intros H. assert (forall c, fresh rs g c -> fresh rs' g c) as Hf.
  { intros c [H1 H2]. split; [|done]. by rewrite <- (busy_perm _ _ H). }
  assert (forall c, active rs g c -> active rs' g c) as Ha.
  { intros c. unfold active, failing. by rewrite (busy_perm _ _ H), H. }
  destruct st; cbn; rewrite <- ?(bubblers_perm n _ _ H); naive_solver.
Qed.

#[global] Instance inv_perm t0 : Proper ((≡ₚ) ==> (=) ==> impl) (inv t0).
Proof.
  intros rs rs' H g ? <- [I1 I2 I3 I4 I5 I6 I7 I8 (S1 & S2 & S3 & S4) I10 I11 I12].
  assert (busy rs ≡ₚ busy rs') as Hb by by apply busy_perm.
  split; try done.
  - by rewrite <- Hb.
  - intros n st Hin. rewrite <- H in Hin. destruct (I3 n st Hin) as (nd & ? & ?).
    exists nd. split; [done|]. by eapply stage_ok_perm.
  - intros n nd p. rewrite <- Hb. apply I4.
  - intros n v Hv. destruct (I5 n v Hv) as (? & nd & ? & ? & Hz & Hk). split; [done|]. exists nd.
    rewrite <- (bubblers_perm n _ _ H). split_and!; try done.
    + intros p. rewrite <- H. apply Hz.
    + intros Hi c Hc. unfold active, failing. rewrite <- Hb, <- H. apply Hk; [|done].
      intros (st & Hst & ?). apply Hi. exists st. by rewrite <- H.
  - intros n. rewrite <- H. apply I6.
  - intros n Hn. destruct (I7 n Hn) as [cs Hcs]. exists cs. by rewrite <- H.
  - intros nd Hnd. unfold active, failing. rewrite <- Hb, <- H. by apply I8.
  - split_and!; try done. intros n nd Hn Hs. unfold placed. rewrite <- Hb, <- H.
    destruct (S4 n nd Hn Hs) as [?|[?|[[p Hp]|?]]]; auto. right. right. left. exists p. by rewrite <- H.
Qed.

(** ** Steps that leave the shape alone *)

(** The same nodes with the same parents, children, flags and metadata. *)
Definition shape_eq (t t' : Tracked M) : Prop :=
  forall n, match nodes t !! n, nodes t' !! n with
            | Some nd, Some nd' => parent nd' = parent nd /\ children_ nd' = children_ nd /\
                ready_ nd' = ready_ nd /\ meta nd' = meta nd
            | None, None => True
            | _, _ => False
            end.

Lemma shape_alive t t' n nd' :
  shape_eq t t' -> nodes t' !! n = Some nd' ->
  exists nd, nodes t !! n = Some nd /\ parent nd' = parent nd /\ children_ nd' = children_ nd /\
    ready_ nd' = ready_ nd /\ meta nd' = meta nd.
Proof. intros H Hn. specialize (H n). rewrite Hn in H. destruct (nodes t !! n) as [nd|]; [by exists nd|done]. Qed.

Lemma shape_alive_r t t' n nd :
  shape_eq t t' -> nodes t !! n = Some nd ->
  exists nd', nodes t' !! n = Some nd' /\ parent nd' = parent nd /\ children_ nd' = children_ nd.
Proof. intros H Hn. specialize (H n). rewrite Hn in H. destruct (nodes t' !! n) as [nd'|]; [naive_solver|done]. Qed.

Lemma count_shape n d t t' : count n d t = Some t' -> shape_eq t t'.
Proof.
  unfold count. destruct (nodes t !! n) as [nd|] eqn:E; [|done]. intros [= <-].
  intros k. cbn [nodes]. destruct (decide (k = n)) as [->|].
  - by rewrite E, lookup_insert_eq.
  - rewrite lookup_insert_ne by done. by destruct (nodes t !! k).
Qed.

Lemma inv_shape t0 rs g t' :
  tree_wf t' -> shape_eq (g_tree g) t' -> inv t0 rs g -> inv t0 rs (set_tree t' g).
Proof.
  intros Hwf Hsh [[_ I1] I2 I3 I4 I5 I6 I7 I8 (S1 & S2 & S3 & S4) I10 I11 I12].
  split; unfold alive in *; cbn [g_tree set_tree] in *; try done.
  - split; [done|]. intros n nd' Hn.
    destruct (shape_alive _ _ _ _ Hsh Hn) as (nd & Hn0 & _ & -> & -> & ->). by apply I1.
  - intros n st Hin. destruct (I3 n st Hin) as (nd & Hn & Hok).
    destruct (shape_alive_r _ _ _ _ Hsh Hn) as (nd' & Hn' & Hp & Hc). exists nd'. split; [done|].
    destruct st; cbn in *; by rewrite ?Hp, ?Hc.
  - intros n nd' p Hn' Hp. destruct (shape_alive _ _ _ _ Hsh Hn') as (nd & Hn & Hp' & _).
    rewrite Hp' in Hp. by apply (I4 n nd p).
  - intros n v Hv. destruct (I5 n v Hv) as (Hs & nd & Hn & Hlen & Hz & Hk). split; [done|].
    destruct (shape_alive_r _ _ _ _ Hsh Hn) as (nd' & Hn' & Hp & Hc). exists nd'.
    by rewrite Hp, Hc.
  - intros nd' Hn'. destruct (shape_alive _ _ _ _ Hsh Hn') as (nd & Hn & _ & -> & _). by apply I8.
  - split_and!; try done.
    + intros n Hn. destruct (S3 n Hn) as [[nd Hnd]|?]; [left|by right].
      destruct (shape_alive_r _ _ _ _ Hsh Hnd) as (nd' & Hn' & _). by exists nd'.
    + intros n nd' Hn'. destruct (shape_alive _ _ _ _ Hsh Hn') as (nd & Hn & _). by apply (S4 n nd).
  - intros n nd' Hn'. destruct (shape_alive _ _ _ _ Hsh Hn') as (nd & Hn & -> & _). by apply I10.
Qed.

(** The roles of a list with a given head. *)
Lemma head_unique t0 n st rest g st' :
  inv t0 (Owner n st :: rest) g -> Owner n st' ∈ Owner n st :: rest -> st' = st.
Proof.
  intros Hinv [[= ->]|Hin]%elem_of_cons; [done|].
  pose proof (v_nodup _ _ _ Hinv) as Hnd. cbn in Hnd. apply NoDup_cons in Hnd as [Hn _].
  destruct Hn. apply elem_busy. by exists st'.
Qed.

Lemma rest_other t0 n st rest g m st' :
  inv t0 (Owner n st :: rest) g -> Owner m st' ∈ rest -> m <> n.
Proof.
  intros Hinv Hin ->. pose proof (v_nodup _ _ _ Hinv) as Hnd. cbn in Hnd.
  apply NoDup_cons in Hnd as [Hn _]. destruct Hn. apply elem_busy. by exists st'.
Qed.

Lemma bubblers_skip m r rs : (forall k, r <> Bubbler k) -> bubblers m (r :: rs) = bubblers m rs.
Proof. intros H. rewrite bubblers_cons, decide_False by apply H. lia. Qed.

(** What a task's stage depends on. *)
Lemma stage_ok_mono rs rs' g g' m st nd :
  (sent g' m <-> sent g m) -> g_pending g' !! m = g_pending g !! m ->
  (bubblers m rs = 0 -> bubblers m rs' = 0) -> (m ∈ g_locks g -> m ∈ g_locks g') ->
  (forall c, c ∈ children_ nd -> fresh rs g c -> fresh rs' g' c) ->
  (forall c, c ∈ children_ nd -> active rs g c -> active rs' g' c) ->
  stage_ok rs g m st nd -> stage_ok rs' g' m st nd.
Proof.
  intros Hs Hp Hb Hl Hf Ha. assert (has_pending g' m <-> has_pending g m) as Hp'
    by (unfold has_pending; by rewrite Hp).
  destruct st; cbn; rewrite ?Hs, ?Hp', ?Hp; try naive_solver.
Qed.

Lemma has_pending_insert g g' n v m :
  g_pending g' = <[n := v]> (g_pending g) -> has_pending g' m <-> m = n \/ has_pending g m.
Proof. unfold has_pending. intros ->. rewrite lookup_insert_is_Some'. naive_solver. Qed.

Lemma has_pending_delete g g' n m :
  g_pending g' = delete n (g_pending g) -> has_pending g' m <-> m <> n /\ has_pending g m.
Proof. unfold has_pending. intros ->. rewrite lookup_delete_is_Some. naive_solver. Qed.

Lemma pending_ok_mono rs rs' g g' m v :
  (sent g m -> sent g' m) -> (forall md, alive g m md -> alive g' m md) -> bubblers m rs' = bubblers m rs ->
  (forall p, Owner m (BubbleRm p) ∈ rs -> Owner m (BubbleRm p) ∈ rs') ->
  (forall md c, alive g m md -> c ∈ children_ md -> ~ iterating rs' m ->
     (~ iterating rs m -> active rs g c) -> active rs' g' c) ->
  pending_ok rs g m v -> pending_ok rs' g' m v.
Proof.
  intros Hs Hal Hb Hrm Hac (Hsm & md & Hm & Hlen & Hz & Hk). split; [auto|]. exists md. rewrite Hb.
  split_and!; [by apply Hal|done|auto|]. intros Hni c Hc. apply (Hac md); auto.
Qed.

Lemma placed_mono rs rs' g g' m :
  (has_pending g m -> has_pending g' m) -> (Owner m Post ∈ rs -> placed rs' g' m) ->
  (forall p, Owner m (Removing p) ∈ rs -> placed rs' g' m) ->
  (m = 0%nat -> 0%nat ∉ busy rs -> 0%nat ∉ busy rs') -> placed rs g m -> placed rs' g' m.
Proof. unfold placed. naive_solver. Qed.

Lemma placed_post rs g m : Owner m Post ∈ rs -> placed rs g m.
Proof. by right; left. Qed.

Lemma placed_removing rs g m p : Owner m (Removing p) ∈ rs -> placed rs g m.
Proof. right; right; left. by exists p. Qed.

Lemma iterating_in rs m st : Owner m st ∈ rs -> is_iter st = true -> iterating rs m.
Proof. intros. by exists st. Qed.

(** The owner of [n] moves to another stage; nothing but its own entry in the
    list of sent nodes and its own mutex changes. *)
Lemma inv_restage t0 n st st' rest g g' :
  inv t0 (Owner n st :: rest) g ->
  g_tree g' = g_tree g -> g_pending g' = g_pending g -> g_ok g' = g_ok g ->
  (forall m, m <> n -> sent g' m <-> sent g m) -> (sent g n -> sent g' n) ->
  (forall m, m <> n -> m ∈ g_locks g' <-> m ∈ g_locks g) ->
  (n ∈ g_locks g' -> exists cs, st' = Iter cs) ->
  (forall nd, alive g n nd -> stage_ok (Owner n st :: rest) g n st nd ->
     stage_ok (Owner n st' :: rest) g' n st' nd) ->
  (is_iter st = true -> is_iter st' = true) ->
  (forall p, st <> BubbleRm p) ->
  (sent g' n -> has_pending g n \/ st' = Post \/ exists p, st' = Removing p) ->
  NoDup (g_sent g').*1 -> (forall m, sent g' m -> is_Some (nodes t0 !! m)) ->
  (forall l1 m l2 nd0 p, (g_sent g').*1 = l1 ++ m :: l2 -> nodes t0 !! m = Some nd0 ->
     parent nd0 = Some p -> p ∈ l1) ->
  inv t0 (Owner n st' :: rest) g'.
Proof.
  intros Hinv Ht Hp Ho Hs Hsn Hl Hln Hst Hit Hrm Hpost Hnd Hin0 Hord.
  pose proof Hinv as [I1 I2 I3 I4 I5 I6 I7 I8 (S1 & S2 & S3 & S4) I10 I11 I12].
  assert (forall m, has_pending g' m <-> has_pending g m) as Hp' by (intros; unfold has_pending; by rewrite Hp).
  assert (forall m nd, alive g' m nd <-> alive g m nd) as Hal by (intros; unfold alive; by rewrite Ht).
  assert (forall m, sent g m -> sent g' m) as Hmono.
  { intros m Hm. destruct (decide (m = n)) as [->|]; [by auto|by apply Hs]. }
  assert (forall rs, failing (Owner n st' :: rs) g' <-> failing (Owner n st :: rs) g) as Hfail
    by (intros; unfold failing; rewrite Ho, !elem_of_cons; naive_solver).
  assert (forall c, fresh (Owner n st :: rest) g c -> fresh (Owner n st' :: rest) g' c) as Hfr
    by (unfold fresh; intros c; by rewrite Hp').
  assert (forall c, active (Owner n st :: rest) g c -> active (Owner n st' :: rest) g' c) as Hac
    by (unfold active; intros c; by rewrite Hp', Hfail).
  assert (forall m, bubblers m (Owner n st' :: rest) = bubblers m (Owner n st :: rest)) as Hbu
    by (intros; by rewrite !bubblers_skip).
  split.
  - by rewrite Ht.
  - done.
  - intros m st0 [[= -> ->]|Hin]%elem_of_cons.
    + destruct (I3 n st) as (nd & Hn & Hok); [by left|]. exists nd. rewrite Hal. auto.
    + pose proof (rest_other _ _ _ _ _ _ _ Hinv Hin) as Hne.
      destruct (I3 m st0) as (nd & Hn & Hok); [by right|]. exists nd. split; [by apply Hal|].
      apply (stage_ok_mono (Owner n st :: rest) _ g); [by apply Hs|by rewrite Hp|by rewrite Hbu|intros ?; by apply Hl|auto|auto|exact Hok].
  - intros m nd p. rewrite Hal, !Hp'. apply I4.
  - intros m v. rewrite Hp. intros Hv. apply (pending_ok_mono (Owner n st :: rest) _ g); [auto|intros; by apply Hal|done| | |by apply I5].
    + intros p [[= -> Heq]|Hz]%elem_of_cons; [by destruct (Hrm p)|by right].
    + intros md c _ Hc Hni Hk. apply Hac, Hk. intros (sx & [[= -> ->]|Hx]%elem_of_cons & Hxi); apply Hni;
        (eapply iterating_in; [by constructor|by auto]).
  - intros m [|Hin]%elem_of_cons; [done|]. apply Hp', I6. by right.
  - intros m Hm. destruct (decide (m = n)) as [->|Hne].
    + destruct (Hln Hm) as [cs ->]. exists cs. by left.
    + apply Hl in Hm; [|done]. apply I7 in Hm as [cs [[= ? ?]|Hcs]%elem_of_cons]; [done|].
      exists cs. by right.
  - intros nd. rewrite Hal. intros Hn. destruct (I8 nd Hn) as [?|[? ?]]; auto.
  - split_and!; [done|done| |].
    + intros m Hm. rewrite Ht. destruct (S3 m Hm); auto.
    + intros m nd. rewrite Hal. intros Hn Hsm. destruct (decide (m = n)) as [->|Hne].
      * unfold placed. rewrite Hp'. destruct (Hpost Hsm) as [?|[->|[p ->]]]; [by left|..];
          [apply placed_post|eapply placed_removing]; by left.
      * apply Hs in Hsm; [|done]. apply (placed_mono (Owner n st :: rest) _ g); [by apply Hp'| | |done|by eapply S4].
        -- intros [[= ? ?]|Hin]%elem_of_cons; [done|]. apply placed_post. by right.
        -- intros p [[= ? ?]|Hin]%elem_of_cons; [done|]. eapply placed_removing. by right.
  - intros m nd. rewrite Hal. apply I10.
  - done.
  - by rewrite Hp.
Qed.

Lemma sent_add n sq g m : sent (add_sent n sq g) m <-> sent g m \/ m = n.
Proof. unfold sent. cbn. rewrite fmap_app. cbn. set_solver. Qed.

(** The parent of a node at work has been sent. *)
Lemma parent_sent t0 rs g n nd0 p :
  inv t0 rs g -> n ∈ busy rs -> nodes t0 !! n = Some nd0 -> parent nd0 = Some p -> sent g p.
Proof.
  intros Hinv Hb Hn0 Hp. apply elem_busy in Hb as [st Hst].
  destruct (v_stage _ _ _ Hinv n st Hst) as (nd & Hn & _).
  destruct (v_origin _ _ _ Hinv n nd Hn) as (nd0' & Hn0' & Hpar). simplify_eq.
  destruct (v_up _ _ _ Hinv n nd p) as [v Hv]; [done|congruence|left; apply elem_busy; by exists st|].
  by apply (v_pending _ _ _ Hinv p v).
Qed.

(** A successful [send_datamsg]. *)
Lemma inv_sent t0 n rest g sq :
  inv t0 (Owner n Pre :: rest) g -> inv t0 (Owner n Post :: rest) (add_sent n sq g).
Proof.
  intros Hinv. destruct (v_stage _ _ _ Hinv n Pre) as (nd & Hn & Hns & Hnp); [by left|].
  destruct (v_sent _ _ _ Hinv) as (S1 & S2 & S3 & S4).
  destruct (v_origin _ _ _ Hinv n nd Hn) as (nd0 & Hn0 & Hpar).
  eapply inv_restage; try done.
  - intros m Hm. rewrite sent_add. naive_solver.
  - intros Hl. destruct (v_locks _ _ _ Hinv n Hl) as [cs Hcs].
    by apply (head_unique _ _ _ _ _ _ Hinv) in Hcs.
  - intros nd' Hn' _. cbn. rewrite sent_add. split; [by right|done].
  - auto.
  - cbn. rewrite fmap_app. apply NoDup_app. split_and!; [done| |apply NoDup_singleton].
    intros m Hm. cbn. intros ->%list_elem_of_singleton. done.
  - intros m [Hm| ->]%sent_add; [auto|by eexists].
  - intros l1 m l2 nd1 p. cbn. rewrite fmap_app. cbn. intros Hl Hm Hp.
    destruct l2 as [|k l2] using rev_ind.
    + apply app_inj_tail in Hl as [<- <-]. eapply parent_sent; [done| |done|done]. by left.
    + rewrite app_comm_cons, app_assoc in Hl. apply app_inj_tail in Hl as [Hl _].
      by eapply (v_order _ _ _ Hinv).
Qed.

(** The [switch] of a file or of an empty directory. *)
Lemma inv_removing t0 n p nd rest g :
  alive g n nd -> parent nd = Some p -> children_ nd = [] ->
  inv t0 (Owner n Post :: rest) g -> inv t0 (Owner n (Removing p) :: rest) g.
Proof.
  intros Hn Hp Hc Hinv. destruct (v_sent _ _ _ Hinv) as (S1 & S2 & S3 & S4).
  eapply inv_restage; try done.
  - intros Hl. destruct (v_locks _ _ _ Hinv n Hl) as [cs Hcs].
    by apply (head_unique _ _ _ _ _ _ Hinv) in Hcs.
  - unfold alive in *. intros nd' Hn' [H1 H2]. simplify_eq. by cbn.
  - intros _. right. right. by exists p.
  - by apply (v_order _ _ _ Hinv).
Qed.

(** [iter_children] takes the mutex. *)
Lemma inv_iter_start t0 n nd rest g :
  alive g n nd ->
  inv t0 (Owner n IterWait :: rest) g ->
  inv t0 (Owner n (Iter (children_ nd)) :: rest) (set_locks ({[n]} ∪ g_locks g) g).
Proof.
  intros Hn Hinv. destruct (v_sent _ _ _ Hinv) as (S1 & S2 & S3 & S4).
  assert (NoDup (children_ nd)) as Hnd by (destruct (v_scanned _ _ _ Hinv) as [[] _]; eauto).
  eapply inv_restage; try done.
  - cbn. set_solver.
  - intros _. by eexists.
  - unfold alive in *. intros nd' Hn' (H1 & H2 & H3). simplify_eq. cbn.
    rewrite bubblers_skip in H2 |- * by done. split_and!; try done; [set_solver|].
    intros c Hc. split; [done|]. by apply H3.
  - intros _. destruct (v_stage _ _ _ Hinv n IterWait) as (nd' & _ & Hp & _); [by left|]. by left.
  - by apply (v_order _ _ _ Hinv).
Qed.

(** ** A task ends *)

(** The owner of [n] gives it up, before it was sent or after its children
    were spawned, and releases its mutex. *)
Lemma inv_drop t0 n st r rest g g' :
  inv t0 (Owner n st :: rest) g ->
  r = Idle \/ r = Reporter -> st = Pre \/ st = Iter [] ->
  g_tree g' = g_tree g -> g_pending g' = g_pending g -> g_ok g' = g_ok g -> g_sent g' = g_sent g ->
  (forall m, m ∈ g_locks g' <-> m ∈ g_locks g /\ m <> n) ->
  (forall c, active (Owner n st :: rest) g c -> active (r :: rest) g' c) ->
  inv t0 (r :: rest) g'.
Proof.
  intros Hinv Hr Hst Ht Hp Ho Hs Hl Hac.
  pose proof Hinv as [I1 I2 I3 I4 I5 I6 I7 I8 (S1 & S2 & S3 & S4) I10 I11 I12].
  assert (busy (r :: rest) = busy rest) as Hbusy by by destruct Hr as [->| ->].
  assert (forall m, has_pending g' m <-> has_pending g m) as Hp' by (intros; unfold has_pending; by rewrite Hp).
  assert (forall m nd, alive g' m nd <-> alive g m nd) as Hal by (intros; unfold alive; by rewrite Ht).
  assert (forall m, sent g' m <-> sent g m) as Hs' by (intros; unfold sent; by rewrite Hs).
  assert (forall m, m ∈ busy rest -> m ∈ busy (Owner n st :: rest)) as Hsub by (intros; by right).
  assert (forall m, bubblers m (r :: rest) = bubblers m (Owner n st :: rest)) as Hbu
    by (intros; rewrite !bubblers_skip; by destruct Hr as [->| ->]).
  assert (forall m sx, Owner m sx ∈ r :: rest -> Owner m sx ∈ rest) as Hown.
  { intros m sx [Hm|]%elem_of_cons; [|done]. by destruct Hr; subst. }
  assert (forall m p, Owner m p ∈ Owner n st :: rest -> m <> n -> Owner m p ∈ rest) as Hback.
  { intros m p [[= ? ?]|]%elem_of_cons; done. }
  split.
  - by rewrite Ht.
  - rewrite Hbusy. cbn in I2. by apply NoDup_cons in I2 as [_ I2].
  - intros m sx Hin%Hown. pose proof (rest_other _ _ _ _ _ _ _ Hinv Hin) as Hne.
    destruct (I3 m sx) as (nd & Hn & Hok); [by right|]. exists nd. split; [by apply Hal|].
    apply (stage_ok_mono (Owner n st :: rest) _ g);
      [by apply Hs'|by rewrite Hp|by rewrite Hbu|intros ?; by apply Hl| |auto|exact Hok].
    intros c _ [H1 H2]. split; [|by rewrite Hp']. rewrite Hbusy. auto.
  - intros m nd p. rewrite Hal, !Hp', Hbusy. intros Hn Hpar [Hb|Hb]; apply (I4 m nd p); auto.
  - intros m v. rewrite Hp. intros Hv.
    apply (pending_ok_mono (Owner n st :: rest) _ g); [by apply Hs'|intros; by apply Hal|done| | |by apply I5].
    + intros p [[= -> Heq]|Hz]%elem_of_cons; [destruct Hst; congruence|by right].
    + intros nd c Hn Hc Hni Hk. apply Hac. destruct (decide (m = n)) as [->|Hne].
      * destruct (I3 n st) as (nd' & Hn' & Hok); [by left|]. unfold alive in *. simplify_eq.
        destruct Hst as [->| ->]; [destruct Hok as [_ []]; by exists v|].
        destruct Hok as (_ & _ & _ & _ & _ & Hall). apply Hall; [done|apply not_elem_of_nil].
      * apply Hk. intros (sx & Hx & Hxi). apply Hni. eapply iterating_in; [|done]. right. by apply Hback.
  - intros m [Hm|Hin]%elem_of_cons; [destruct Hr; congruence|]. apply Hp', I6. by right.
  - intros m [Hm Hne]%Hl. apply I7 in Hm as [cs Hcs]. exists cs. right. by apply Hback.
  - intros nd. rewrite Hal, Hs'. intros Hn. destruct (I8 nd Hn) as [?|?]; auto.
  - rewrite Hs. split_and!; [done| |rewrite Ht|].
    + intros m. rewrite Hs'. apply S2.
    + intros m Hm. rewrite Hs'. by apply S3.
    + intros m nd. rewrite Hal, Hs'. intros Hn Hsm.
      apply (placed_mono (Owner n st :: rest) _ g); [by apply Hp'| | |rewrite Hbusy; auto|by eapply S4].
      * intros [[= -> <-]|Hin]%elem_of_cons; [by destruct Hst|]. apply placed_post. by right.
      * intros p [[= -> <-]|Hin]%elem_of_cons; [by destruct Hst|]. eapply placed_removing. by right.
  - intros m nd. rewrite Hal. apply I10.
  - intros l1 m l2. rewrite Hs. apply I11.
  - by rewrite Hp.
Qed.

(** [if (!ok) return], or the error of [send_datamsg]. *)
Lemma inv_stop t0 n r rest g :
  r = Idle \/ r = Reporter -> failing (r :: rest) g ->
  inv t0 (Owner n Pre :: rest) g -> inv t0 (r :: rest) g.
Proof.
  intros Hr Hf Hinv. eapply inv_drop; try done; [by left| |].
  - intros m. split; [|by intros []]. intros Hm. split; [done|]. intros ->.
    destruct (v_locks _ _ _ Hinv n Hm) as [cs Hcs]. by apply (head_unique _ _ _ _ _ _ Hinv) in Hcs.
  - intros c _. right. by right.
Qed.

(** The end of [iter_children]. *)
Lemma inv_iter_end t0 n rest g :
  inv t0 (Owner n (Iter []) :: rest) g -> inv t0 (Idle :: rest) (set_locks (g_locks g ∖ {[n]}) g).
Proof.
  intros Hinv. destruct (v_stage _ _ _ Hinv n (Iter [])) as (nd & _ & Hp & _); [by left|].
  eapply inv_drop; try done; [by left|by right| |].
  - cbn. set_solver.
  - intros c [Hb|[Hc|Hf]].
    + cbn in Hb. apply elem_of_cons in Hb as [->|Hb]; [right; by left|by left].
    + right. by left.
    + right. right. destruct Hf as [Hf|Hf]; [by left|right].
      apply elem_of_cons in Hf as [|Hf]; [done|by right].
Qed.

(** [report_async_error]. *)
Lemma inv_report t0 rest g :
  inv t0 (Reporter :: rest) g -> inv t0 (Idle :: rest) (set_ok false g).
Proof.
  intros [I1 I2 I3 I4 I5 I6 I7 I8 (S1 & S2 & S3 & S4) I10 I11 I12].
  assert (forall c, active (Idle :: rest) (set_ok false g) c) as Hac by (intros; right; right; by left).
  assert (forall m sx, Owner m sx ∈ Idle :: rest <-> Owner m sx ∈ Reporter :: rest) as Hown
    by (intros; rewrite !elem_of_cons; naive_solver).
  assert (forall m, bubblers m (Idle :: rest) = bubblers m (Reporter :: rest)) as Hbu
    by (intros; by rewrite !bubblers_skip).
  split; try done.
  - intros m sx Hin%Hown. destruct (I3 m sx Hin) as (nd & Hn & Hok). exists nd. split; [done|].
    by apply (stage_ok_mono (Reporter :: rest) _ g).
  - intros m v Hv. destruct (I5 m v Hv) as (Hsm & nd & Hn & Hlen & Hz & Hk). split; [done|].
    exists nd. rewrite Hbu. split_and!; try done. intros p. rewrite Hown. apply Hz.
  - intros m [|Hin]%elem_of_cons; [done|]. apply I6. by right.
  - intros m Hm. destruct (I7 m Hm) as [cs Hcs]. exists cs. by apply Hown.
  - intros nd _. by left.
  - split_and!; try done. intros m nd Hn Hsm. unfold placed. setoid_rewrite Hown. by apply (S4 m nd).
Qed.

(** ** A directory is expanded and its children are spawned *)

Section tree_facts.
Context {t0 : Tracked M} {rs : list role} {g : shared} (Hinv : inv t0 rs g).

Lemma child_alive n nd c :
  alive g n nd -> c ∈ children_ nd -> c <> 0%nat /\ c <> n /\ exists cd, alive g c cd /\ parent cd = Some n.
Proof using Hinv.
  intros Hn Hc. destruct (v_scanned _ _ _ Hinv) as [Hwf _].
  pose proof (child_gt _ Hwf _ _ _ Hn Hc). destruct (wf_child _ Hwf _ _ _ Hn Hc) as (cd & Hcd & Hp).
  split_and!; [lia|lia|by exists cd].
Qed.

Lemma parent_of n nd c m md : alive g n nd -> alive g m md -> c ∈ children_ nd -> c ∈ children_ md -> m = n.
Proof using Hinv.
  intros Hn Hm H1 H2. destruct (child_alive _ _ _ Hn H1) as (_ & _ & cd & Hc & Hp).
  destruct (child_alive _ _ _ Hm H2) as (_ & _ & cd' & Hc' & Hp'). unfold alive in *. congruence.
Qed.

(** Nothing below a node that is not expanded is at work. *)
Lemma unexpanded_children n nd c :
  alive g n nd -> ~ has_pending g n -> c ∈ children_ nd -> fresh rs g c.
Proof using Hinv.
  intros Hn Hnp Hc. destruct (child_alive _ _ _ Hn Hc) as (_ & _ & cd & Hcd & Hp).
  split; intros H; apply Hnp; apply (v_up _ _ _ Hinv c cd n); auto.
Qed.

Lemma no_bubbler n : ~ has_pending g n -> bubblers n rs = 0.
Proof using Hinv. intros Hnp. apply bubblers_0. intros Hb. by apply Hnp, (v_bubble _ _ _ Hinv). Qed.

Lemma children_bound n nd :
  Z.of_nat (next_id (g_tree g)) < 2 ^ 64 -> alive g n nd -> zlen (children_ nd) < 2 ^ 64.
Proof using Hinv.
  intros Hb Hn. destruct (v_scanned _ _ _ Hinv) as [Hwf _].
  assert (children_ nd ⊆ List.seq 0 (next_id (g_tree g))) as Hsub.
  { intros c Hc. destruct (child_alive _ _ _ Hn Hc) as (_ & _ & cd & Hcd & _).
    apply (wf_ids _ Hwf) in Hcd. apply elem_of_seq. lia. }
  pose proof (submseteq_length _ _ (NoDup_submseteq _ _ (wf_nodup _ Hwf _ _ Hn) Hsub)) as Hl.
  rewrite length_seq in Hl. unfold zlen. lia.
Qed.
Lemma listed_child m md p : alive g m md -> parent md = Some p -> exists pd, alive g p pd /\ m ∈ children_ pd.
Proof using Hinv.
  intros Hm Hp. destruct (v_scanned _ _ _ Hinv) as [Hwf _]. assert (m <> 0%nat) as Hm0.
  { intros ->. destruct (wf_root _ Hwf) as (rd & Hr & Hrp). unfold alive in *. congruence. }
  destruct (wf_parent _ Hwf m md Hm Hm0) as (q & qd & Hq & Hqd & Hin & _).
  exists qd. unfold alive. split; [|done]. congruence.
Qed.
End tree_facts.

(** The [emplace] into [pending]. *)
Lemma inv_expand t0 n nd rest g :
  alive g n nd -> children_ nd <> [] \/ parent nd = None ->
  Z.of_nat (next_id (g_tree g)) < 2 ^ 64 -> inv t0 (Owner n Post :: rest) g ->
  inv t0 (Owner n IterWait :: rest) (set_pending (<[n := zlen (children_ nd)]> (g_pending g)) g).
Proof.
  intros Hn Hex Hid Hinv. set (g' := set_pending _ g).
  pose proof Hinv as [I1 I2 I3 I4 I5 I6 I7 I8 (S1 & S2 & S3 & S4) I10 I11 I12].
  destruct (I3 n Post) as (? & _ & Hsn & Hnp); [by left|].
  assert (forall m, has_pending g' m <-> m = n \/ has_pending g m) as Hp'
    by (intros; by eapply has_pending_insert).
  assert (forall c, active (Owner n Post :: rest) g c -> active (Owner n IterWait :: rest) g' c) as Hac.
  { intros c. unfold active, failing. rewrite Hp', !elem_of_cons. cbn. naive_solver. }
  assert (forall c, c <> n -> fresh (Owner n Post :: rest) g c -> fresh (Owner n IterWait :: rest) g' c) as Hfr.
  { intros c Hc [H1 H2]. split; [done|]. rewrite Hp'. naive_solver. }
  assert (forall m, bubblers m (Owner n IterWait :: rest) = bubblers m (Owner n Post :: rest)) as Hbu
    by (intros; by rewrite !bubblers_skip).
  assert (bubblers n (Owner n Post :: rest) = 0) as Hb0 by by eapply no_bubbler.
  split; try done.
  - intros m st [[= -> ->]|Hin]%elem_of_cons.
    + exists nd. split; [done|]. cbn. split_and!; [by apply Hp'; left|by rewrite Hbu|].
      intros c Hc. destruct (child_alive Hinv _ _ _ Hn Hc) as (_ & Hne & _).
      apply Hfr; [done|]. by eapply unexpanded_children.
    + pose proof (rest_other _ _ _ _ _ _ _ Hinv Hin) as Hne.
      destruct (I3 m st) as (md & Hm & Hok); [by right|]. exists md. split; [done|].
      apply (stage_ok_mono (Owner n Post :: rest) _ g);
        [done|cbn; by rewrite lookup_insert_ne|by rewrite Hbu|done| |auto|exact Hok].
      intros c Hc Hf. apply Hfr; [|done]. intros ->. destruct Hf as [Hf _]. apply Hf. by left.
  - intros m md p Hm Hpar. rewrite !Hp'. intros [Hb|[->|Hb]]; right.
    + apply (I4 m md p); auto.
    + apply (I4 n md p); [done|done|]. left. by left.
    + apply (I4 m md p); auto.
  - intros m v. cbn. rewrite lookup_insert_Some. intros [[<- <-]|[Hne Hv]].
    + split; [done|]. exists nd. rewrite Hbu, Hb0. split_and!; [done|lia| |].
      * intros p Hpar Hz. destruct Hex as [Hex|Hex]; [|congruence]. by destruct Hex; apply zlen_0_nil; lia.
      * intros Hni. destruct Hni. exists IterWait. split; [by left|done].
    + apply (pending_ok_mono (Owner n Post :: rest) _ g); [done|done|done| | |by apply I5].
      * intros p [|Hin]%elem_of_cons; [done|by right].
      * intros md c _ Hc Hni Hk. apply Hac, Hk. intros (sx & [[= -> ->]|Hx]%elem_of_cons & Hxi); [done|].
        apply Hni. eapply iterating_in; [by right|done].
  - intros m [|Hin]%elem_of_cons; [done|]. apply Hp'. right. apply I6. by right.
  - intros m Hm. destruct (I7 m Hm) as [cs [|Hcs]%elem_of_cons]; [done|]. exists cs. by right.
  - intros md Hm. destruct (I8 md Hm); auto.
  - split_and!; try done. intros m md Hm Hsm. apply (placed_mono (Owner n Post :: rest) _ g); [rewrite Hp'; by right| | |done|by eapply S4].
    + intros [[= ->]|Hin]%elem_of_cons; [left; apply Hp'; by left|]. apply placed_post. by right.
    + intros p [|Hin]%elem_of_cons; [done|]. eapply placed_removing. by right.
  - intros m v. cbn. rewrite lookup_insert_Some. intros [[<- <-]|[_ Hv]]; [|by eapply I12].
    by eapply children_bound.
Qed.

(** [tbb.run] of a child. *)
Lemma inv_spawn t0 n c cs rest g :
  inv t0 (Owner n (Iter (c :: cs)) :: rest) g -> inv t0 (Owner n (Iter cs) :: Owner c Pre :: rest) g.
Proof.
  intros Hinv. pose proof Hinv as [I1 I2 I3 I4 I5 I6 I7 I8 (S1 & S2 & S3 & S4) I10 I11 I12].
  destruct (I3 n (Iter (c :: cs))) as (nd & Hn & Hp & Hb0 & Hlock & Hnd & Hcs & Hrest); [by left|].
  destruct (Hcs c) as [Hc [Hcb Hcp]]; [by left|]. apply NoDup_cons in Hnd as [Hccs Hnd].
  destruct (child_alive Hinv _ _ _ Hn Hc) as (Hc0 & Hcn & cd & Hcd & Hpar).
  set (rs := Owner n (Iter (c :: cs)) :: rest) in *. set (rs' := Owner n (Iter cs) :: Owner c Pre :: rest).
  assert (forall m, m ∈ busy rs' <-> m = c \/ m ∈ busy rs) as Hbusy.
  { intros m. cbn. rewrite !elem_of_cons. naive_solver. }
  assert (forall x, active rs g x -> active rs' g x) as Hac.
  { intros x. unfold active, failing. rewrite Hbusy. subst rs rs'. rewrite !elem_of_cons. naive_solver. }
  assert (forall x, x <> c -> fresh rs g x -> fresh rs' g x) as Hfr.
  { intros x Hx [H1 H2]. split; [|done]. rewrite Hbusy. naive_solver. }
  assert (forall m, bubblers m rs' = bubblers m rs) as Hbu by (intros; subst rs rs'; by rewrite !bubblers_skip).
  assert (forall m st, Owner m st ∈ rest -> Owner m st ∈ rs') as Hr' by (intros; subst rs'; set_solver).
  split; try done.
  - cbn. cbn in I2, Hcb. apply NoDup_cons in I2 as [I2a I2b]. apply not_elem_of_cons in Hcb as [_ Hcb].
    apply NoDup_cons. split; [by rewrite not_elem_of_cons|by apply NoDup_cons].
  - intros m st Hin. subst rs'. apply elem_of_cons in Hin as [[= -> ->]|[[= -> ->]|Hin]%elem_of_cons].
    + exists nd. split; [done|]. cbn. rewrite Hbu. split_and!; try done.
      * intros x Hx. destruct (Hcs x) as [? ?]; [by right|]. split; [done|]. apply Hfr; [congruence|done].
      * intros x Hx Hxcs. destruct (decide (x = c)) as [->|]; [left; apply Hbusy; by left|].
        apply Hac, Hrest; [done|]. by rewrite not_elem_of_cons.
    + exists cd. split; [done|]. split; [|done]. intros Hs.
      destruct (S4 c cd Hcd Hs) as [?|[Hin|[[p Hin]|[? ?]]]]; try done;
        apply Hcb, elem_busy; eauto.
    + pose proof (rest_other _ _ _ _ _ _ _ Hinv Hin) as Hne.
      destruct (I3 m st) as (md & Hm & Hok); [by right|]. exists md. split; [done|].
      apply (stage_ok_mono rs _ g); [done|done|by rewrite Hbu|done| |auto|exact Hok].
      intros x Hx Hf. apply Hfr; [|done]. intros ->. apply Hne. by eapply (parent_of Hinv).
  - intros m md p Hm Hp'. rewrite Hbusy. intros [[->|?]|?]; [|apply (I4 m md p); auto..].
    unfold alive in *. simplify_eq. congruence.
  - intros m v Hv. apply (pending_ok_mono rs _ g); [done|done|done| | |by apply I5].
    + intros p [|Hin]%elem_of_cons; [done|by apply Hr'].
    + intros md x _ Hx Hni Hk. apply Hac, Hk. intros (sx & [[= -> ->]|Hin]%elem_of_cons & Hxi); apply Hni;
        (eapply iterating_in; [by left|done]) || (eapply iterating_in; [by apply Hr'|done]).
  - intros m [|[|Hin]%elem_of_cons]%elem_of_cons; try done. apply I6. by right.
  - intros m Hm. destruct (I7 m Hm) as [ds [[= -> ->]|Hin]%elem_of_cons]; [exists cs; by left|].
    exists ds. by apply Hr'.
  - intros md Hm. destruct (I8 md Hm); auto.
  - split_and!; try done. intros m md Hm Hsm. apply (placed_mono rs _ g); [done| | | |by eapply S4].
    + intros [|Hin]%elem_of_cons; [done|]. by apply placed_post, Hr'.
    + intros p [|Hin]%elem_of_cons; [done|]. by eapply placed_removing, Hr'.
    + rewrite Hbusy. naive_solver.
Qed.

(** ** Counting down and removal *)

Lemma bubblers_hd n rs : bubblers n (Bubbler n :: rs) = 1 + bubblers n rs.
Proof. rewrite bubblers_cons. by rewrite decide_True. Qed.

Lemma bubblers_other n m rs : m <> n -> bubblers m (Bubbler n :: rs) = bubblers m rs.
Proof. intros. rewrite bubblers_cons, decide_False by congruence. lia. Qed.

(** A node with children or bubblers left is not being removed or iterated. *)
Lemma bubbling_not_busy t0 n rest g :
  inv t0 (Bubbler n :: rest) g -> n ∉ busy rest.
Proof.
  intros Hinv [st Hst]%elem_busy. destruct (v_bubble _ _ _ Hinv n) as [v Hv]; [by left|].
  destruct (v_stage _ _ _ Hinv n st) as (nd & Hn & Hok); [by right|].
  pose proof (bubblers_nonneg n rest). pose proof (bubblers_hd n rest).
  destruct st as [| | | |cs|p]; cbn in Hok; destruct_and!; try (unfold has_pending in *; naive_solver); try lia.
  destruct (v_pending _ _ _ Hinv n 0) as (_ & nd' & _ & Hlen & _); [congruence|].
  pose proof (zlen_nonneg (children_ nd')). lia.
Qed.

(** [bubble] counts down the entry of [n]: to a value left, or to zero, when
    the task goes on to remove [n]. *)
Section count_step.
Context (t0 : Tracked M) (n : nat) (v : Z) (nd : TrackedNode M) (r : role) (rest : list role) (g : shared).
Hypothesis Hinv : inv t0 (Bubbler n :: rest) g.
Hypothesis Hv : g_pending g !! n = Some v.
Hypothesis Hn : alive g n nd.
Hypothesis Hr : v <> 1 /\ r = Idle \/ v = 1 /\ exists p, parent nd = Some p /\ r = Owner n (BubbleRm p).

Let g' := set_pending (<[n := v - 1]> (g_pending g)) g.

Lemma count_pending m : has_pending g' m <-> has_pending g m.
Proof using All.
  unfold has_pending. cbn. destruct (decide (m = n)) as [->|].
  - rewrite lookup_insert_eq, Hv. split; by eexists.
  - by rewrite lookup_insert_ne.
Qed.

Lemma count_bubblers m : bubblers m (r :: rest) = bubblers m rest.
Proof using All. rewrite bubblers_skip; [done|]. by destruct Hr as [[_ ->]|(_ & p & _ & ->)]. Qed.

Lemma count_busy m : m ∈ busy (r :: rest) -> m ∈ busy rest \/ m = n.
Proof using All.
  rewrite busy_cons. destruct Hr as [[_ ->]|(_ & p & _ & ->)]; cbn; [by left|].
  intros [->|?]%elem_of_cons; [by right|by left].
Qed.

Lemma count_active c : active (Bubbler n :: rest) g c -> active (r :: rest) g' c.
Proof using All.
  assert (forall m, m ∈ busy rest -> m ∈ busy (r :: rest)) as Hsub
    by (intros m Hm; rewrite busy_cons; destruct (owner r); [by right|done]).
  unfold active, failing. rewrite count_pending, !elem_of_cons. cbn. naive_solver.
Qed.

Lemma count_owner m st : Owner m st ∈ r :: rest ->
  Owner m st ∈ rest \/ m = n /\ v = 1 /\ exists p, parent nd = Some p /\ st = BubbleRm p.
Proof using All.
  intros [Hm|]%elem_of_cons; [|by left]. destruct Hr as [[_ ->]|(? & p & ? & ->)]; [done|].
  injection Hm as -> ->. right. eauto.
Qed.

Lemma count_stage m st : Owner m st ∈ r :: rest ->
  exists md, alive g' m md /\ stage_ok (r :: rest) g' m st md.
Proof using All.
  intros [Hin|(-> & -> & p & Hpar & ->)]%count_owner.
  - assert (m <> n) as Hne
      by (intros ->; apply (bubbling_not_busy _ _ _ _ Hinv), elem_busy; by exists st).
    destruct (v_stage _ _ _ Hinv m st) as (md & Hm & Hok); [by right|]. exists md. split; [done|].
    apply (stage_ok_mono (Bubbler n :: rest) _ g);
      [done|cbn; by rewrite lookup_insert_ne|by rewrite bubblers_other, count_bubblers|done| |
       intros; by apply count_active|exact Hok].
    intros c Hc [H1 H2]. split; [|by rewrite count_pending].
    intros [Hb| ->]%count_busy; [by apply H1|]. apply H2. by exists v.
  - exists nd. split; [done|]. cbn. by rewrite lookup_insert_eq.
Qed.

Lemma count_entry m x : g_pending g' !! m = Some x ->
  sent g' m /\ exists md, alive g' m md /\ x = zlen (children_ md) + bubblers m (r :: rest) /\
    (forall p, parent md = Some p -> x = 0 -> Owner m (BubbleRm p) ∈ r :: rest) /\
    (~ iterating (r :: rest) m -> forall c, c ∈ children_ md -> active (r :: rest) g' c).
Proof using All.
  assert (forall k, ~ iterating (r :: rest) k -> ~ iterating (Bubbler n :: rest) k) as Hit.
  { intros k Hni (sx & [|Hx]%elem_of_cons & Hxi); [done|]. apply Hni. exists sx. split; [by right|done]. }
  cbn. rewrite lookup_insert_Some. intros [[<- <-]|[Hne Hx]].
  - destruct (v_pending _ _ _ Hinv n v Hv) as (Hs & nd' & Hn' & Hlen & _ & Hk). split; [done|]. exists nd.
    assert (nd' = nd) as -> by (unfold alive in *; congruence). rewrite count_bubblers. rewrite bubblers_hd in Hlen.
    pose proof (bubblers_nonneg n rest). pose proof (zlen_nonneg (children_ nd)). split_and!; [done|lia| |].
    + intros p Hpar Hv0. destruct Hr as [[? _]|(_ & q & Hq & ->)]; [lia|].
      assert (q = p) as -> by congruence. by left.
    + intros Hni c Hc. apply count_active, Hk; [by apply Hit|done].
  - destruct (v_pending _ _ _ Hinv m x Hx) as (Hsm & md & Hm & Hlen & Hz & Hk). split; [done|]. exists md.
    rewrite count_bubblers. rewrite bubblers_other in Hlen by done. split_and!; [done|done| |].
    + intros p Hpar Hw0. pose proof (Hz p Hpar Hw0) as Hz2. apply elem_of_cons in Hz2 as [|]; [done|by right].
    + intros Hni c Hc. apply count_active, Hk; [by apply Hit|done].
Qed.

Lemma inv_count : inv t0 (r :: rest) g'.
Proof using All.
  pose proof (bubbling_not_busy _ _ _ _ Hinv) as Hnb.
  pose proof Hinv as [_ I2 _ I4 _ I6 I7 I8 (S1 & S2 & S3 & S4) I10 I11 I12].
  split; try done.
  - by destruct (v_scanned _ _ _ Hinv).
  - rewrite busy_cons. cbn in I2. destruct Hr as [[_ ->]|(_ & p & _ & ->)]; cbn; [done|by apply NoDup_cons].
  - exact count_stage.
  - intros m md p Hm Hpar. rewrite !count_pending. intros [Hb|Hb]; apply (I4 m md p); auto.
    destruct (count_busy m Hb) as [?| ->]; [by left|right; by exists v].
  - exact count_entry.
  - intros m [Hm|Hin]%elem_of_cons; [by destruct Hr as [[_ ->]|(_ & p & _ & ->)]|].
    apply count_pending, I6. by right.
  - intros m Hm. destruct (I7 m Hm) as [cs [|Hcs]%elem_of_cons]; [done|]. exists cs. by right.
  - intros md Hm. destruct (I8 md Hm) as [?|?]; [left; by apply count_active|by right].
  - split_and!; try done. intros m md Hm Hsm. unfold placed. rewrite count_pending.
    destruct (S4 m md Hm Hsm) as [?|[[|Hin]%elem_of_cons|[[p [|Hin]%elem_of_cons]|[-> Hb]]]]; auto; try done.
    + right. left. by right.
    + right. right. left. exists p. by right.
    + destruct (decide (n = 0%nat)) as [->|]; [left; by exists v|]. right. right. right. split; [done|].
      intros [?|?]%count_busy; [by apply Hb|congruence].
  - intros m x. cbn. rewrite lookup_insert_Some. intros [[<- <-]|[_ Hw]]; [|by eapply I12].
    specialize (I12 n _ Hv). lia.
Qed.
End count_step.

(** The entry of the root goes when its last child has been counted. *)
Lemma orphan_is_root t0 rs g n nd : inv t0 rs g -> alive g n nd -> parent nd = None -> n = 0%nat.
Proof.
  intros Hinv Hn Hpar. destruct (decide (n = 0%nat)) as [|Hn0]; [done|].
  destruct (v_scanned _ _ _ Hinv) as [Hwf _].
  destruct (wf_parent _ Hwf n nd Hn Hn0) as (p & _ & Hp & _). congruence.
Qed.

Lemma inv_count_root t0 n nd rest g :
  inv t0 (Bubbler n :: rest) g -> g_pending g !! n = Some 1 -> alive g n nd -> parent nd = None ->
  inv t0 (Idle :: rest) (set_pending (delete n (g_pending g)) g).
Proof.
  intros Hinv Hv Hn Hpar. set (g' := set_pending _ g).
  pose proof (bubbling_not_busy _ _ _ _ Hinv) as Hnb.
  pose proof Hinv as [I1 I2 I3 I4 I5 I6 I7 I8 (S1 & S2 & S3 & S4) I10 I11 I12].
  destruct (I5 n 1 Hv) as (Hsn & nd' & Hn' & Hlen & _ & _).
  assert (nd' = nd) as -> by (unfold alive in *; congruence).
  rewrite bubblers_hd in Hlen. pose proof (bubblers_nonneg n rest).
  pose proof (zlen_nonneg (children_ nd)). assert (children_ nd = []) as Hc by (apply zlen_0_nil; lia).
  assert (n = 0%nat) as -> by by eapply orphan_is_root.
  assert (forall m, has_pending g' m <-> m <> 0%nat /\ has_pending g m) as Hp'
    by (intros; by apply has_pending_delete).
  assert (forall m, m <> 0%nat -> bubblers m (Idle :: rest) = bubblers m (Bubbler 0 :: rest)) as Hbr
    by (intros; by rewrite bubblers_skip, bubblers_other).
  assert (forall c, c <> 0%nat -> active (Bubbler 0 :: rest) g c -> active (Idle :: rest) g' c) as Hac.
  { intros c Hc0. unfold active, failing. rewrite Hp', !elem_of_cons. cbn. naive_solver. }
  split; try done.
  - intros m st [|Hin]%elem_of_cons; [done|].
    assert (m <> 0%nat) as Hne by (intros ->; apply Hnb, elem_busy; by exists st).
    destruct (I3 m st) as (md & Hm & Hok); [by right|]. exists md. split; [done|].
    assert (forall c, c ∈ children_ md -> c <> 0%nat) as Hc0
      by (intros c Hcm; by destruct (child_alive Hinv _ _ _ Hm Hcm)).
    apply (stage_ok_mono (Bubbler 0 :: rest) _ g);
      [done|cbn; by rewrite lookup_delete_ne|by rewrite Hbr|done| |auto|exact Hok].
    intros c Hcm [H1 H2]. split; [done|]. rewrite Hp'. naive_solver.
  - intros m md p Hm Hmp Hb. change (alive g m md) in Hm. rewrite Hp'. split.
    + intros ->. destruct (listed_child Hinv m md 0 Hm Hmp) as (rd & Hrd & Hin).
      unfold alive in *. simplify_eq. rewrite Hc in Hin. by apply not_elem_of_nil in Hin.
    + apply (I4 m md p Hm Hmp). rewrite Hp' in Hb. cbn in *. naive_solver.
  - intros m w. cbn. rewrite lookup_delete_Some. intros [Hne Hw].
    apply (pending_ok_mono (Bubbler 0 :: rest) _ g); [done|done|by apply Hbr| | |by apply I5].
    + intros p [|]%elem_of_cons; [done|by right].
    + intros md c Hm Hcm Hni Hk'. apply Hac; [by destruct (child_alive Hinv _ _ _ Hm Hcm)|].
      apply Hk'. intros (sx & [|Hx]%elem_of_cons & Hxi); [done|].
      apply Hni. eapply iterating_in; [by right|done].
  - intros m [|Hin]%elem_of_cons; [done|]. apply Hp'. split; [|apply I6; by right].
    intros ->. apply bubblers_0 in Hin; [done|lia].
  - intros m Hm. destruct (I7 m Hm) as [cs [|Hcs]%elem_of_cons]; [done|]. exists cs. by right.
  - intros md Hm. change (alive g 0 md) in Hm. right. unfold alive in *. simplify_eq. done.
  - split_and!; try done. intros m md Hm Hsm.
    destruct (decide (m = 0%nat)) as [->|Hm0]; [right; right; right; by split|].
    apply (placed_mono (Bubbler 0 :: rest) _ g); [by rewrite Hp'| | |done|by eapply S4].
    + intros [|Hin]%elem_of_cons; [done|]. apply placed_post. by right.
    + intros p [|Hin]%elem_of_cons; [done|]. eapply placed_removing. by right.
  - intros m w. cbn. rewrite lookup_delete_Some. intros [_ Hw]. by eapply I12.
Qed.

Lemma filter_out_id (l : list nat) n : n ∉ l -> base.filter (fun c => c <> n) l = l.
Proof.
  induction l as [|c l IH]; intros Hn; [done|]. apply not_elem_of_cons in Hn as [Hc Hn].
  rewrite filter_cons_True by congruence. by rewrite IH.
Qed.

Lemma length_filter_out (l : list nat) n :
  NoDup l -> n ∈ l -> zlen (base.filter (fun c => c <> n) l) + 1 = zlen l.
Proof.
  induction l as [|c l IH]; intros Hnd Hin; [by apply not_elem_of_nil in Hin|].
  apply NoDup_cons in Hnd as [Hc Hnd]. rewrite filter_cons. apply elem_of_cons in Hin as [->|Hin].
  - rewrite decide_False, filter_out_id by auto. zl.
  - assert (c <> n) by congruence. rewrite decide_True by done. specialize (IH Hnd Hin). zl.
Qed.

(** [node->remove()] of a leaf whose owner goes on to the parent's counter. *)
Section removal_step.
Context (t0 : Tracked M) (n p : nat) (st : stage) (nd : TrackedNode M) (rest : list role) (g : shared).
Context (t' : Tracked M).
Hypothesis Hinv : inv t0 (Owner n st :: rest) g.
Hypothesis Hst : st = Removing p \/ st = BubbleRm p.
Hypothesis Hn : alive g n nd.
Hypothesis Hleaf : children_ nd = [].
Hypothesis Hpar : parent nd = Some p.
Hypothesis Hlock : p ∉ g_locks g.
Hypothesis Hrm : remove n (g_tree g) = Some t'.

Lemma removal_alive k kd :
  nodes t' !! k = Some kd <-> k <> n /\ exists kd0, alive g k kd0 /\ kd = detach n p k kd0.
Proof using All.
  destruct (v_scanned _ _ _ Hinv) as [Hwf _].
  destruct (remove_spec _ Hwf _ _ Hrm) as (nd' & p' & Hn' & Hp' & _ & _ & Hspec).
  unfold alive in *. assert (nd' = nd) as -> by congruence. assert (p' = p) as -> by congruence.
  rewrite Hspec. assert (desc (nodes (g_tree g)) n k <-> k = n) as ->; [|done].
  split; [|intros ->; apply desc_refl; by exists nd].
  intros Hd. inversion Hd as [|? nd' c ? Hn'' Hc]; subst; [done|].
  simplify_eq. rewrite Hleaf in Hc. by apply not_elem_of_nil in Hc.
Qed.

Lemma removal_parent : exists pd, alive g p pd /\ n ∈ children_ pd /\ p <> n /\ has_pending g p.
Proof using All.
  destruct (v_scanned _ _ _ Hinv) as [Hwf _].
  assert (n <> 0%nat) as Hn0.
  { intros ->. destruct (wf_root _ Hwf) as (rd & Hr & Hrp). unfold alive in *. congruence. }
  destruct (wf_parent _ Hwf n nd Hn Hn0) as (q & qd & Hq & Hqd & Hin & Hlt).
  assert (q = p) as -> by congruence. exists qd. split_and!; [done|done|lia|].
  apply (v_up _ _ _ Hinv n nd p Hn Hpar). left. by left.
Qed.

(** Nobody owns the parent of a node that is being removed. *)
Lemma removal_parent_idle : p ∉ busy rest.
Proof using All.
  intros [sp Hsp]%elem_busy. destruct removal_parent as (pd & Hpd & Hin & Hne & v & Hv).
  destruct (v_stage _ _ _ Hinv p sp) as (pd' & Hpd' & Hok); [by right|].
  assert (pd' = pd) as -> by (unfold alive in *; congruence).
  destruct sp; cbn in Hok; destruct_and!; try (unfold has_pending in *; naive_solver).
  - destruct (H2 n Hin) as [Hf _]. apply Hf. by left.
  - destruct (v_pending _ _ _ Hinv p 0) as (_ & pd' & Hpd'' & Hlen & _); [done|].
    assert (pd' = pd) as -> by (unfold alive in *; congruence).
    pose proof (bubblers_nonneg p (Owner n st :: rest)).
    assert (children_ pd = []) as E by (apply zlen_0_nil; lia). rewrite E in Hin.
    by apply not_elem_of_nil in Hin.
Qed.

Lemma removal_no_bubbler : Bubbler n ∉ rest.
Proof using All.
  intros Hb. destruct (v_stage _ _ _ Hinv n st) as (nd' & _ & Hok); [by left|].
  destruct Hst as [->| ->]; cbn in Hok.
  - destruct Hok as (_ & Hnp & _). apply Hnp, (v_bubble _ _ _ Hinv). by right.
  - destruct Hok as [Hok _]. destruct (v_pending _ _ _ Hinv n 0) as (_ & nd'' & _ & Hlen & _); [done|].
    pose proof (zlen_nonneg (children_ nd'')).
    assert (Bubbler n ∉ Owner n (BubbleRm p) :: rest) as Hnb.
    { apply bubblers_0. pose proof (bubblers_nonneg n (Owner n (BubbleRm p) :: rest)). lia. }
    apply Hnb. by right.
Qed.

Let g' := set_pending (delete n (g_pending g)) (set_tree t' g).
Let before := Owner n st :: rest.
Let after := Bubbler p :: rest.

Lemma removal_pending m : has_pending g' m <-> m <> n /\ has_pending g m.
Proof using All. by apply has_pending_delete. Qed.

Lemma removal_bubblers m : m <> p -> bubblers m after = bubblers m before.
Proof using All. intros. unfold after, before. by rewrite bubblers_other, bubblers_skip. Qed.

Lemma removal_active c : c <> n -> active before g c -> active after g' c.
Proof using All.
  intros Hc. unfold active, failing, after, before. rewrite removal_pending, !elem_of_cons. cbn. rewrite elem_of_cons. naive_solver.
Qed.

Lemma removal_owner m sx : Owner m sx ∈ after <-> Owner m sx ∈ rest.
Proof using All. unfold after. rewrite elem_of_cons. naive_solver. Qed.

Lemma removal_child m md c : alive g m md -> c ∈ children_ md -> m <> p -> c <> n.
Proof using All.
  destruct removal_parent as (pd & Hpd & Hin & _). intros Hm Hc Hmp ->. apply Hmp. by eapply (parent_of Hinv).
Qed.

Lemma removal_detach m (md : TrackedNode M) : m <> p -> detach n p m md = md.
Proof using All. intros. unfold detach. by rewrite decide_False. Qed.

Lemma removal_keeps m md : m <> n -> alive g m md -> alive g' m (detach n p m md).
Proof using All. intros Hmn Hm. apply removal_alive. split; [done|by exists md]. Qed.

Lemma removal_sent : sent g n.
Proof using All.
  destruct (v_stage _ _ _ Hinv n st) as (? & _ & Hok); [by left|]. destruct Hst as [->| ->]; cbn in Hok.
  - by destruct Hok.
  - destruct Hok as [Hok _]. by destruct (v_pending _ _ _ Hinv n 0 Hok).
Qed.

(** The clauses of the invariant that need more than the lemmas above. *)

Lemma removal_scanned : scanned t'.
Proof using All.
  destruct (v_scanned _ _ _ Hinv) as [Hwf Hgood]. split; [by eapply remove_wf|].
  intros m md' (Hmn & md & Hm & ->)%removal_alive. destruct (Hgood m md Hm) as [Hr Hk].
  unfold detach. case_decide; [|done]. split; [done|]. cbn.
  destruct Hk as [?|(? & ? & Hnil)]; [by left|]. right. by rewrite Hnil.
Qed.

Lemma removal_stage m sx : Owner m sx ∈ rest -> exists md, alive g' m md /\ stage_ok after g' m sx md.
Proof using All.
  intros Hin. pose proof (rest_other _ _ _ _ _ _ _ Hinv Hin) as Hmn.
  destruct (v_stage _ _ _ Hinv m sx) as (md & Hm & Hok); [by right|].
  assert (m <> p) as Hmp by (intros ->; apply removal_parent_idle, elem_busy; by exists sx).
  exists md. split; [rewrite <- (removal_detach m md Hmp); by apply removal_keeps|].
  apply (stage_ok_mono before _ g);
    [done|cbn; by rewrite lookup_delete_ne|by rewrite removal_bubblers|done| | |exact Hok].
  - intros c Hc [H1 H2]. cbn in H1. apply not_elem_of_cons in H1 as [_ H1]. split; [done|].
    rewrite removal_pending. naive_solver.
  - intros c Hc. apply removal_active. by eapply removal_child.
Qed.

Lemma removal_up m md q : m <> n -> alive g m md -> parent md = Some q ->
  m ∈ busy after \/ has_pending g' m -> has_pending g' q.
Proof using All.
  intros Hmn Hm Hq Hb. apply removal_pending. split.
  - intros ->. destruct (v_scanned _ _ _ Hinv) as [Hwf _]. assert (m <> 0%nat) as Hm0.
    { intros ->. destruct (wf_root _ Hwf) as (rd & Hr & Hrp). unfold alive in *. congruence. }
    destruct (wf_parent _ Hwf m md Hm Hm0) as (x & xd & Hx & Hxd & Hxin & _). unfold alive in *.
    assert (x = n) as -> by congruence. simplify_eq. rewrite Hleaf in Hxin. by apply not_elem_of_nil in Hxin.
  - apply (v_up _ _ _ Hinv m md q Hm Hq). rewrite removal_pending in Hb. cbn in Hb.
    destruct Hb as [Hb|[_ Hb]]; [left; by right|by right].
Qed.

(** The counter of the parent: one child fewer, one bubbler more. *)
Lemma removal_counter v pd :
  g_pending g !! p = Some v -> alive g p pd ->
  v = zlen (children_ (detach n p p pd)) + bubblers p after /\ 0 < v /\
  forall c, c ∈ children_ (detach n p p pd) -> active after g' c.
Proof using All.
  intros Hv Hpd. destruct (v_pending _ _ _ Hinv p v Hv) as (_ & md & Hm & Hl & _ & Hk).
  assert (md = pd) as -> by (unfold alive in *; congruence).
  destruct removal_parent as (pd' & Hpd' & Hin & Hpn & _).
  assert (pd' = pd) as -> by (unfold alive in *; congruence).
  destruct (v_scanned _ _ _ Hinv) as [Hwf _].
  pose proof (length_filter_out (children_ pd) n (wf_nodup _ Hwf _ _ Hpd) Hin) as Hlen.
  unfold detach. rewrite decide_True by done. cbn [children_ set_children]. unfold after.
  rewrite bubblers_hd. rewrite bubblers_skip in Hl by done. pose proof (bubblers_nonneg p rest).
  pose proof (zlen_nonneg (base.filter (fun c => c <> n) (children_ pd))). split_and!; [lia|lia|].
  intros c [Hc1 Hc2]%list_elem_of_filter. apply removal_active; [done|]. apply Hk; [|done].
  intros (sx & [[= ? ?]|Hx]%elem_of_cons & _); [done|]. apply removal_parent_idle, elem_busy. by exists sx.
Qed.

Lemma removal_entry m v : m <> n -> g_pending g !! m = Some v ->
  sent g m /\ exists md, alive g' m md /\ v = zlen (children_ md) + bubblers m after /\
    (forall q, parent md = Some q -> v = 0 -> Owner m (BubbleRm q) ∈ after) /\
    (~ iterating after m -> forall c, c ∈ children_ md -> active after g' c).
Proof using All.
  intros Hmn Hv. destruct (v_pending _ _ _ Hinv m v Hv) as (Hsm & md & Hm & Hl & Hz & Hk). split; [done|].
  exists (detach n p m md). split; [by apply removal_keeps|]. rewrite detach_parent.
  destruct (decide (m = p)) as [->|Hmp].
  - destruct (removal_counter v md Hv Hm) as (H1 & H2 & H3). split_and!; [done|lia|auto].
  - rewrite removal_detach, removal_bubblers by done. split_and!; [done| |].
    + intros q Hq Hv0. apply removal_owner. pose proof (Hz q Hq Hv0) as Hz'.
      apply elem_of_cons in Hz' as [[= ? ?]|]; done.
    + intros Hnit c Hc. apply removal_active; [by eapply removal_child|]. apply Hk; [|done].
      intros (sx & [[= ? ?]|Hx]%elem_of_cons & Hxi); [done|]. apply Hnit. exists sx. by rewrite removal_owner.
Qed.

Lemma inv_remove : inv t0 after g'.
Proof using All.
  pose proof Hinv as [_ I2 _ _ _ I6 I7 I8 (S1 & S2 & S3 & S4) I10 I11 I12].
  destruct removal_parent as (pd & _ & _ & Hpn & vp & Hvp). pose proof removal_no_bubbler as Hnb.
  split.
  - exact removal_scanned.
  - cbn in I2. by apply NoDup_cons in I2 as [_ I2].
  - intros m sx Hin%removal_owner. by apply removal_stage.
  - intros m md' q (Hmn & md & Hm & ->)%removal_alive. rewrite detach_parent. by apply removal_up.
  - intros m v. cbn. rewrite lookup_delete_Some. intros [Hmn Hv]. by apply removal_entry.
  - intros m [[= ->]|Hin]%elem_of_cons; apply removal_pending.
    + split; [done|]. by exists vp.
    + split; [congruence|]. apply I6. by right.
  - intros m Hm. destruct (I7 m Hm) as [cs [[= -> Heq]|Hcs]%elem_of_cons]; [by destruct Hst; subst|].
    exists cs. by apply removal_owner.
  - intros md' (H0n & md & Hm & ->)%removal_alive.
    destruct (I8 md Hm) as [?|[Hc Hs0]]; [left; by apply removal_active|right].
    split; [|done]. unfold detach. case_decide; [|done]. cbn. by rewrite Hc.
  - split_and!; try done.
    + intros m Hm. destruct (decide (m = n)) as [->|Hmn]; [right; exact removal_sent|].
      destruct (S3 m Hm) as [[md Hmd]|?]; [left|by right]. eexists. by apply removal_keeps.
    + intros m md' (Hmn & md & Hm & ->)%removal_alive Hsm. unfold placed. rewrite removal_pending. setoid_rewrite removal_owner.
      destruct (S4 m md Hm Hsm) as [?|[[[= ? ?]|?]%elem_of_cons|[[q [[= ? ?]|?]%elem_of_cons]|[-> Hb]]]]; eauto; try done.
      right. right. right. split; [done|]. cbn in Hb. by apply not_elem_of_cons in Hb as [_ Hb].
  - intros m md' (Hmn & md & Hm & ->)%removal_alive. rewrite detach_parent. by apply I10.
  - done.
  - intros m v. cbn. rewrite lookup_delete_Some. intros [_ Hv]. by eapply I12.
Qed.
End removal_step.
