(* ===== verification/SyncSafe.v ===== *)
(** * The parallel walk: safety, progress and completeness

    The theorems about [sync_with_remote]'s tasks in every interleaving, from
    the invariant of [SyncInv.v]. *)

From S2P Require Import Prelude Wire Tracked Meta Sync SyncInv.

Section Walk.
Context (t0 : Tracked M).
Hypothesis Hscanned : scanned t0.
Hypothesis Hsmall : Z.of_nat (next_id t0) < 2 ^ 64.

Definition good (ts : list task) (g : shared) : Prop :=
  inv t0 (map role_of ts) g /\ next_id (g_tree g) = next_id t0.

Lemma start_good : good (f_tasks (start t0)) (f_shared (start t0)).
Proof using Hscanned.
  split; [|done]. split; cbn; try done.
  - repeat constructor. apply not_elem_of_nil.
  - intros n st [[= -> ->]|Hin]%elem_of_cons; [|by apply not_elem_of_nil in Hin].
    destruct Hscanned as [Hwf _]. destruct (wf_root _ Hwf) as (rd & Hr & _). exists rd. split; [done|].
    split; [apply not_elem_of_nil|]. by intros [? Hv].
  - intros n nd p Hn Hp [[->|Hb]%elem_of_cons|[v Hv]]; [|by apply not_elem_of_nil in Hb|done].
    destruct Hscanned as [Hwf _]. destruct (wf_root _ Hwf) as (rd & Hr & Hrp).
    unfold alive in Hn. cbn in Hn. congruence.
  - intros n [|Hin]%elem_of_cons; [done|by apply not_elem_of_nil in Hin].
  - intros nd _. left. left. by left.
  - split_and!; [constructor| | |]; unfold sent; cbn.
    + intros n Hn. by apply not_elem_of_nil in Hn.
    + auto.
    + intros n nd _ Hn. by apply not_elem_of_nil in Hn.
  - intros n nd Hn. by exists nd.
  - intros l1 n l2 nd0 p Hl. by destruct l1.
Qed.

(** ** The steps one by one *)

Section one_step.
Context (tk : task) (rest : list task) (g : shared).
Hypothesis Hgood : good (tk :: rest) g.

Lemma owner_alive n st : role_of tk = Owner n st ->
  exists nd, alive g n nd /\ stage_ok (map role_of (tk :: rest)) g n st nd.
Proof using Hgood. intros Hr. destruct Hgood as [Hinv _]. apply (v_stage _ _ _ Hinv). rewrite <- Hr. by left. Qed.

Lemma with_alive n nd k : alive g n nd -> with_node n g k = k nd.
Proof. unfold with_node, alive. by intros ->. Qed.

(** The parent of the owned node [n] is alive. *)
Lemma parent_alive n nd p : alive g n nd -> parent nd = Some p -> exists pd, alive g p pd.
Proof using Hgood.
  intros Hn Hp. destruct Hgood as [Hinv _]. destruct (v_scanned _ _ _ Hinv) as [Hwf _].
  assert (n <> 0%nat) as Hn0.
  { intros ->. destruct (wf_root _ Hwf) as (rd & Hr & Hrp). unfold alive in *. congruence. }
  destruct (wf_parent _ Hwf n nd Hn Hn0) as (q & qd & Hq & Hqd & _). exists qd. unfold alive. congruence.
Qed.

Lemma remove_defined n nd p : alive g n nd -> parent nd = Some p ->
  exists t, remove n (g_tree g) = Some t /\ next_id t = next_id (g_tree g).
Proof using Hgood.
  intros Hn Hp. destruct (parent_alive _ _ _ Hn Hp) as [pd Hpd]. unfold remove, alive in *.
  rewrite Hn. cbn. rewrite Hp. cbn. rewrite Hpd. cbn. by eexists.
Qed.

(** What the removal steps do. *)
Lemma step_remove_cases n p st nd k :
  role_of tk = Owner n st -> alive g n nd -> parent nd = Some p ->
  step_remove n p g k = Wait /\ p ∈ g_locks g \/
  exists t, remove n (g_tree g) = Some t /\ next_id t = next_id (g_tree g) /\ p ∉ g_locks g /\
    step_remove n p g k = k t.
Proof using Hgood.
  intros Hr Hn Hp. destruct (parent_alive _ _ _ Hn Hp) as [pd Hpd].
  destruct (remove_defined _ _ _ Hn Hp) as (t & Ht & Hid).
  unfold step_remove. rewrite (with_alive _ _ _ Hn), (with_alive _ _ _ Hpd).
  case_bool_decide; [by left|right]. exists t. by rewrite Ht.
Qed.

Lemma bubblers_zlen n v nd : g_pending g !! n = Some v -> alive g n nd -> role_of tk = Bubbler n ->
  1 <= v < 2 ^ 64.
Proof using Hgood.
  intros Hv Hn Hr. destruct Hgood as [Hinv _]. pose proof (v_small _ _ _ Hinv n v Hv).
  destruct (v_pending _ _ _ Hinv n v Hv) as (_ & nd' & _ & Hlen & _).
  cbn in Hlen. rewrite Hr, bubblers_hd in Hlen. pose proof (bubblers_nonneg n (map role_of rest)).
  pose proof (zlen_nonneg (children_ nd')). lia.
Qed.

End one_step.

Definition safe (rest : list task) (e : effect) : Prop :=
  match e with
  | Crash _ => False
  | Wait => True
  | Go ts g' => good (ts ++ rest) g'
  end.

Lemma safe_switch n rest g : good (TSwitch n :: rest) g -> safe rest (step_switch n g).
Proof using Hsmall.
  intros Hgood. pose proof Hgood as [Hinv Hid]. pose proof (v_scanned _ _ _ Hinv) as [Hwf Hkind].
  destruct (owner_alive _ _ _ Hgood n Post eq_refl) as (nd & Hn & _ & Hnp).
  unfold step_switch. rewrite (with_alive _ _ _ _ Hn).
  assert (g_pending g !! n = None) as Hnone.
  { destruct (g_pending g !! n) eqn:E; [|done]. destruct Hnp. by exists z. }
  destruct (Hkind n nd Hn) as [_ [Hdir|(Hn0 & Hreg & Hleaf)]].
  - rewrite Hdir, Hnone.
    assert (children_ nd <> [] \/ parent nd = None ->
      good (TIterWait n :: rest) (set_pending (<[n := zlen (children_ nd)]> (g_pending g)) g)) as Hexp.
    { intros Hex. split; [|done]. apply inv_expand; [done|done|by rewrite Hid|done]. }
    destruct (children_ nd) as [|c cs] eqn:Ec; [|apply Hexp; by left].
    destruct (parent nd) as [p|] eqn:Ep; [|apply Hexp; by right].
    split; [|done]. by eapply inv_removing.
  - rewrite Hreg. destruct (wf_parent _ Hwf n nd Hn Hn0) as (p & _ & Hp & _). rewrite Hp.
    split; [|done]. by eapply inv_removing.
Qed.

Lemma safe_bubble n rest g : good (TBubble n :: rest) g -> safe rest (step_bubble n g).
Proof using Hsmall.
  intros Hgood. pose proof Hgood as [Hinv Hid]. unfold step_bubble.
  destruct (v_bubble _ _ _ Hinv n) as [v Hv]; [by left|]. rewrite Hv.
  destruct (v_pending _ _ _ Hinv n v Hv) as (_ & nd & Hn & _).
  pose proof (bubblers_zlen _ _ _ Hgood n v nd Hv Hn eq_refl) as Hvb.
  assert (u64 (v - 1) = v - 1) as -> by (apply wrap_small; unfold fits; lia).
  destruct (Z.eqb_spec (v - 1) 0) as [Hz|Hz].
  - assert (v = 1) as -> by lia. rewrite (with_alive _ _ _ _ Hn).
    destruct (parent nd) as [p|] eqn:Ep; (split; [|done]).
    + eapply (inv_count _ _ 1); [done|done|done|]. right. split; [done|]. by exists p.
    + by eapply inv_count_root.
  - split; [|done]. eapply inv_count; [done|done|done|]. left. split; [lia|done].
Qed.

Lemma safe_send n sq rest g ch : good (TSend n sq :: rest) g -> safe rest (step_send n sq ch g).
Proof.
  intros Hgood. pose proof Hgood as [Hinv Hid]. cbn in Hinv. pose proof (v_scanned _ _ _ Hinv) as [Hwf _].
  destruct (owner_alive _ _ _ Hgood n Pre eq_refl) as (nd & Hn & _). unfold step_send.
  destruct (count n (c_ticked ch) (g_tree g)) as [t|] eqn:Et.
  2:{ unfold count, alive in *. rewrite Hn in Et. done. }
  pose proof (count_shape _ _ _ _ Et) as Hsh. pose proof (count_wf _ _ _ _ Hwf Et) as Hwf'.
  pose proof (inv_shape _ _ _ _ Hwf' Hsh Hinv) as Hinv'.
  assert (next_id t = next_id t0) as Hid'.
  { rewrite <- Hid. unfold count, alive in *. rewrite Hn in Et. cbn in Et. by injection Et as <-. }
  destruct (c_sent ch); (split; [|done]); cbn.
  - by apply (inv_sent _ _ _ _ sq) in Hinv'.
  - eapply inv_stop; [by right| |exact Hinv']. right. by left.
Qed.

Lemma safe_remove n p rest g ch : good (TRemove n p :: rest) g -> safe rest (task_step (TRemove n p) ch g).
Proof.
  intros Hgood. pose proof Hgood as [Hinv Hid]. cbn in Hinv. cbn [task_step].
  destruct (owner_alive _ _ _ Hgood n (Removing p) eq_refl) as (nd & Hn & _ & Hnp & Hp & Hc).
  destruct (step_remove_cases _ _ _ Hgood n p (Removing p) nd (fun t => Go [TBubble p] (set_tree t g)))
    as [[-> _]|(t & Ht & Hidt & Hlk & ->)]; [done..|].
  split; [|cbn; congruence]. cbn.
  replace (set_tree t g) with (set_pending (delete n (g_pending g)) (set_tree t g)).
  - eapply inv_remove; [exact Hinv|by left|done..].
  - unfold set_pending, set_tree. cbn. rewrite delete_id; [done|].
    destruct (g_pending g !! n) eqn:E; [|done]. destruct Hnp. by exists z.
Qed.

Lemma safe_bubble_remove n p rest g ch :
  good (TBubbleRemove n p :: rest) g -> safe rest (task_step (TBubbleRemove n p) ch g).
Proof.
  intros Hgood. pose proof Hgood as [Hinv Hid]. cbn in Hinv. cbn [task_step].
  destruct (owner_alive _ _ _ Hgood n (BubbleRm p) eq_refl) as (nd & Hn & Hv & Hp).
  destruct (v_pending _ _ _ Hinv n 0 Hv) as (_ & nd' & Hn' & Hlen & _).
  assert (nd' = nd) as -> by (unfold alive in *; congruence).
  destruct (step_remove_cases _ _ _ Hgood n p (BubbleRm p) nd (fun t =>
    Go [TBubble p] (set_pending (delete n (g_pending g)) (set_tree t g))))
    as [[-> _]|(t & Ht & Hidt & Hlk & ->)]; [done..|].
  split; [|cbn; congruence]. cbn. eapply inv_remove; [exact Hinv|by right|done| |done..].
  apply zlen_0_nil. pose proof (bubblers_nonneg n (Owner n (BubbleRm p) :: map role_of rest)). lia.
Qed.

Lemma safe_step tk rest g ch : good (tk :: rest) g -> safe rest (task_step tk ch g).
Proof using Hsmall.
  intros Hgood. pose proof Hgood as [Hinv Hid]. cbn in Hinv.
  destruct tk as [n|n|n sq|n sq v|n sq| |n|n p|n|n cs|n|n p|]; try done.
  - cbn. destruct (g_ok g) eqn:Eok; cbn; (split; [|done]); [done|].
    eapply inv_stop; [by left| |exact Hinv]. by left.
  - split; [|done]. destruct Hinv. by split.
  - by apply safe_send.
  - split; [|done]. by apply inv_report.
  - by apply safe_switch.
  - by apply safe_remove.
  - destruct (owner_alive _ _ _ Hgood n IterWait eq_refl) as (nd & Hn & _).
    cbn [task_step]. rewrite (with_alive _ _ _ _ Hn). destruct (ready_ nd && _); [|done].
    split; [|done]. by apply inv_iter_start.
  - destruct (owner_alive _ _ _ Hgood n (Iter cs) eq_refl) as (nd & Hn & Hok).
    destruct cs as [|c cs]; cbn [task_step]; rewrite (with_alive _ _ _ _ Hn).
    + split; [|done]. by apply inv_iter_end.
    + destruct Hok as (_ & _ & _ & _ & Hcs & _). destruct (Hcs c) as [Hc _]; [by left|].
      destruct (child_alive Hinv _ _ _ Hn Hc) as (_ & _ & cd & Hcd & _).
      rewrite (with_alive _ _ _ _ Hcd). split; [|done]. by apply inv_spawn.
  - by apply safe_bubble.
  - by apply safe_bubble_remove.
Qed.

(** ** Reachable configurations *)

Lemma good_perm ts ts' g : ts ≡ₚ ts' -> good ts g -> good ts' g.
Proof. intros H [Hinv Hid]. split; [|done]. by rewrite <- H. Qed.

Lemma good_head l1 tk l2 g : good (l1 ++ tk :: l2) g <-> good (tk :: l1 ++ l2) g.
Proof. split; apply good_perm; by rewrite <- Permutation_middle. Qed.

Lemma step_good c c' : step c c' -> good (f_tasks c) (f_shared c) -> good (f_tasks c') (f_shared c').
Proof using Hsmall.
  intros [l1 tk l2 ch g ts g' Hgo] Hg. cbn in *. apply good_head in Hg.
  pose proof (safe_step _ _ _ ch Hg) as Hs. rewrite Hgo in Hs. cbn in Hs.
  eapply good_perm; [|exact Hs]. by rewrite !app_assoc, (Permutation_app_comm l1 ts).
Qed.

Lemma reachable_good c : reachable t0 c -> good (f_tasks c) (f_shared c).
Proof using Hscanned Hsmall.
  intros Hr. unfold reachable in Hr.
  assert (forall c c', rtc step c c' -> good (f_tasks c) (f_shared c) -> good (f_tasks c') (f_shared c')) as H.
  { clear Hr c. intros c c'. induction 1 as [|x y z Hxy _ IH]; [done|].
    intros Hg. apply IH. by eapply step_good. }
  eapply H; [exact Hr|apply start_good].
Qed.

Lemma in_good tk c : good (f_tasks c) (f_shared c) -> tk ∈ f_tasks c ->
  exists rest, good (tk :: rest) (f_shared c) /\ f_tasks c ≡ₚ tk :: rest.
Proof.
  intros Hg (l1 & l2 & E)%list_elem_of_split. rewrite E in Hg |- *. exists (l1 ++ l2).
  split; [by apply good_head|by rewrite <- Permutation_middle].
Qed.

(** ** The end of a run without errors *)

Section ended.
Context (c : config).
Hypothesis Hreach : reachable t0 c.
Hypothesis Hfin : finished c.
Hypothesis Hok : g_ok (f_shared c) = true.

Lemma ended_roles r : r ∈ map role_of (f_tasks c) -> r = Idle.
Proof using Hfin.
  intros (tk & -> & Hin)%list_elem_of_fmap. unfold finished in Hfin. rewrite Forall_forall in Hfin.
  by rewrite (Hfin tk Hin).
Qed.

Lemma ended_active n : active (map role_of (f_tasks c)) (f_shared c) n -> has_pending (f_shared c) n.
Proof using Hfin Hok.
  intros [[st Hst]%elem_busy|[?|[Hf|Hf]]]; [|done|congruence|]; [by apply ended_roles in Hst|by apply ended_roles in Hf].
Qed.

Lemma ended_bubblers n : bubblers n (map role_of (f_tasks c)) = 0.
Proof using Hfin. apply bubblers_0. intros Hb. by apply ended_roles in Hb. Qed.

(** An expanded directory at the end would have an expanded child, and so on. *)
Lemma ended_childless k n nd :
  (next_id (g_tree (f_shared c)) <= k + n)%nat ->
  alive (f_shared c) n nd -> has_pending (f_shared c) n -> children_ nd = [].
Proof using Hscanned Hsmall Hreach Hfin Hok.
  destruct (reachable_good c Hreach) as [Hinv _]. pose proof (v_scanned _ _ _ Hinv) as [Hwf _].
  revert n nd. induction k as [|k IH]; intros n nd Hk Hn [v Hv].
  { apply (wf_ids _ Hwf) in Hn. lia. }
  destruct (v_pending _ _ _ Hinv n v Hv) as (_ & nd' & Hn' & Hlen & Hz & Hkids).
  assert (nd' = nd) as -> by (unfold alive in *; congruence).
  destruct (children_ nd) as [|x xs] eqn:Ec; [done|].
  assert (x ∈ children_ nd) as Hx by (rewrite Ec; by left).
  destruct (child_alive Hinv _ _ _ Hn Hx) as (_ & _ & xd & Hxd & Hxp).
  assert (has_pending (f_shared c) x) as Hpx.
  { apply ended_active, Hkids; [|by rewrite Ec in Hx]. intros (st & Hst & _). by apply ended_roles in Hst. }
  pose proof (child_gt _ Hwf _ _ _ Hn Hx).
  assert (children_ xd = []) as Hleaf by (apply (IH x); [lia|done|done]).
  destruct Hpx as [w Hw]. destruct (v_pending _ _ _ Hinv x w Hw) as (_ & xd' & Hxd' & Hlen' & Hz' & _).
  assert (xd' = xd) as -> by (unfold alive in *; congruence).
  rewrite Hleaf, ended_bubblers in Hlen'. specialize (Hz' n Hxp Hlen'). by apply ended_roles in Hz'.
Qed.

Lemma ended_root : exists rd, alive (f_shared c) 0 rd /\ children_ rd = [] /\ sent (f_shared c) 0.
Proof using Hscanned Hsmall Hreach Hfin Hok.
  destruct (reachable_good c Hreach) as [Hinv _]. pose proof (v_scanned _ _ _ Hinv) as [Hwf _].
  destruct (wf_root _ Hwf) as (rd & Hr & _). exists rd. split; [done|].
  destruct (v_root _ _ _ Hinv rd Hr) as [Hp%ended_active|?]; [|done]. split.
  - apply (ended_childless (next_id (g_tree (f_shared c))) 0); [lia|done|done].
  - destruct Hp as [v Hv]. by apply (v_pending _ _ _ Hinv 0 v).
Qed.

Lemma ended_only_root n nd : alive (f_shared c) n nd -> n = 0%nat.
Proof using Hscanned Hsmall Hreach Hfin Hok.
  destruct (reachable_good c Hreach) as [Hinv _]. pose proof (v_scanned _ _ _ Hinv) as [Hwf _].
  destruct ended_root as (rd & Hr & Hleaf & _).
  revert nd. induction (lt_wf n) as [n _ IH]. intros nd Hn.
  destruct (decide (n = 0%nat)) as [|Hn0]; [done|].
  destruct (wf_parent _ Hwf n nd Hn Hn0) as (p & pd & Hp & Hpd & Hin & Hlt).
  assert (p = 0%nat) as -> by by eapply IH. unfold alive in *. simplify_eq.
  rewrite Hleaf in Hin. by apply not_elem_of_nil in Hin.
Qed.
End ended.

(** ** Progress *)

Lemma blocked_remove tk rest g n p st nd k :
  good (tk :: rest) g -> role_of tk = Owner n st -> alive g n nd -> parent nd = Some p ->
  (forall t, k t <> Wait) -> step_remove n p g k = Wait -> exists cs, TIter p cs ∈ rest.
Proof.
  intros Hgood Hr Hn Hp Hkw Hw.
  destruct (step_remove_cases _ _ _ Hgood n p st nd k Hr Hn Hp) as [[_ Hl]|(t & _ & _ & _ & Hk)].
  - destruct Hgood as [Hinv _]. destruct (v_locks _ _ _ Hinv p Hl) as [cs Hcs]. cbn in Hcs.
    exists cs. apply elem_of_cons in Hcs as [Heq|Hcs].
    + rewrite Hr in Heq. injection Heq as Hpn _. subst.
      destruct (v_scanned _ _ _ Hinv) as [Hwf _].
      assert (n <> 0%nat) as Hn0.
      { intros ->. destruct (wf_root _ Hwf) as (rd & Hrd & Hrp). unfold alive in *. congruence. }
      destruct (wf_parent _ Hwf n nd Hn Hn0) as (q & _ & Hq & _ & _ & Hlt).
      assert (q = n) by congruence. lia.
    + apply list_elem_of_fmap in Hcs as (tk' & Htk & Hin). destruct tk'; try done. by injection Htk as -> ->.
  - by destruct (Hkw t); rewrite <- Hk.
Qed.

Lemma iter_goes n cs rest g ch : good (TIter n cs :: rest) g ->
  exists ts g', task_step (TIter n cs) ch g = Go ts g'.
Proof using Hsmall.
  intros Hgood. pose proof (safe_step _ _ _ ch Hgood) as Hs.
  destruct (task_step (TIter n cs) ch g) as [| |ts g'] eqn:E; [done| |by eauto].
  exfalso. destruct Hgood as [Hinv _].
  destruct cs as [|x cs]; cbn [task_step] in E; unfold with_node in E; case_match; try done. by case_match.
Qed.

(** A task goes on, or waits for the mutex of an iteration. *)
Lemma goes_or_waits tk rest g ch : good (tk :: rest) g -> tk <> TDone ->
  (exists ts g', task_step tk ch g = Go ts g') \/ exists p cs, TIter p cs ∈ rest.
Proof using Hsmall.
  intros Hgood Hd. pose proof (safe_step _ _ _ ch Hgood) as Hs.
  destruct (task_step tk ch g) as [| |ts g'] eqn:E; [done| |by eauto].
  destruct tk as [n|n|n sq|n sq v|n sq| |n|n p|n|n cs|n|n p|]; cbn [task_step] in E; try done.
  - by destruct (g_ok g).
  - unfold step_send in E. repeat case_match; done.
  - unfold step_switch, with_node in E. repeat case_match; done.
  - destruct (owner_alive _ _ _ Hgood n (Removing p) eq_refl) as (nd & Hn & _ & _ & Hp & _).
    right. exists p. by eapply blocked_remove; [exact Hgood|reflexivity|exact Hn|exact Hp| |exact E].
  - destruct (owner_alive _ _ _ Hgood n IterWait eq_refl) as (nd & Hn & _).
    rewrite (with_alive _ _ _ _ Hn) in E. destruct Hgood as [Hinv _].
    destruct (v_scanned _ _ _ Hinv) as [_ Hkind]. destruct (Hkind n nd Hn) as [Hr _]. rewrite Hr in E. cbn in E.
    rewrite bool_decide_eq_true_2 in E; [done|]. intros Hl.
    destruct (v_locks _ _ _ Hinv n Hl) as [cs Hcs]. by apply (head_unique _ _ _ _ _ _ Hinv) in Hcs.
  - destruct (iter_goes _ _ _ _ ch Hgood) as (ts & g' & Hgo). cbn in Hgo. congruence.
  - unfold step_bubble, with_node in E. repeat case_match; done.
  - destruct (owner_alive _ _ _ Hgood n (BubbleRm p) eq_refl) as (nd & Hn & _ & Hp).
    right. exists p. by eapply blocked_remove; [exact Hgood|reflexivity|exact Hn|exact Hp| |exact E].
Qed.

Lemma step_in tk c ch ts g' :
  tk ∈ f_tasks c -> task_step tk ch (f_shared c) = Go ts g' -> exists c', step c c'.
Proof.
  destruct c as [tasks g]. cbn. intros (l1 & l2 & ->)%list_elem_of_split Hgo. eexists. by eapply step_task.
Qed.

Lemma reachable_goes c : reachable t0 c -> finished c \/ exists c', step c c'.
Proof using Hscanned Hsmall.
  intros Hr. pose proof (reachable_good c Hr) as Hg.
  destruct (decide (Forall (fun tk => tk = TDone) (f_tasks c))) as [|Hnf]; [by left|right].
  apply not_Forall_Exists in Hnf; [|apply _]. apply Exists_exists in Hnf as (tk & Hin & Hd).
  destruct (in_good _ _ Hg Hin) as (rest & Hg1 & Hperm).
  destruct (goes_or_waits _ _ _ (mkChoice true 0) Hg1 Hd) as [(ts & g' & Hgo)|(p & cs & Hit)].
  - by eapply step_in.
  - assert (TIter p cs ∈ f_tasks c) as Hin2 by (rewrite Hperm; by right).
    destruct (in_good _ _ Hg Hin2) as (rest2 & Hg2 & _).
    destruct (iter_goes _ _ _ _ (mkChoice true 0) Hg2) as (ts & g' & Hgo). by eapply step_in.
Qed.

(** ** Properties *)

Lemma reachable_no_crash c tk ch what : reachable t0 c -> tk ∈ f_tasks c -> task_step tk ch (f_shared c) <> Crash what.
Proof using Hscanned Hsmall.
  intros Hr Hin Hcr. destruct (in_good _ _ (reachable_good c Hr) Hin) as [rest [Hg _]].
  pose proof (safe_step _ _ _ ch Hg) as Hs. by rewrite Hcr in Hs.
Qed.

(** C9. No interleaving of the tasks uses a destroyed node, misses an entry of
    [pending] or reaches the [fatal("impossible")]: removal from the tree by
    the last child's task is safe for every other task. *)
Theorem sync_memory_safe c : reachable t0 c -> ~ crashes c.
Proof using Hscanned Hsmall. intros Hr (tk & ch & what & Hin & Hcr). by eapply reachable_no_crash. Qed.

Lemma ended_all_sent c :
  reachable t0 c -> finished c -> g_ok (f_shared c) = true ->
  NoDup (g_sent (f_shared c)).*1 /\
  (forall n, n ∈ (g_sent (f_shared c)).*1 <-> is_Some (nodes t0 !! n)) /\
  (forall l1 n l2 nd p, (g_sent (f_shared c)).*1 = l1 ++ n :: l2 -> nodes t0 !! n = Some nd ->
     parent nd = Some p -> p ∈ l1) /\
  (forall n, is_Some (nodes (g_tree (f_shared c)) !! n) -> n = 0%nat).
Proof using Hscanned Hsmall.
  intros Hr Hf Ho. destruct (reachable_good c Hr) as [Hinv _].
  destruct (v_sent _ _ _ Hinv) as (S1 & S2 & S3 & _).
  destruct (ended_root c Hr Hf Ho) as (rd & _ & _ & Hs0).
  split_and!; [done| |apply (v_order _ _ _ Hinv)|].
  - intros n. split; [apply S2|]. intros Hn. destruct (S3 n Hn) as [[nd Hnd]|?]; [|done].
    by rewrite (ended_only_root c Hr Hf Ho n nd Hnd).
  - intros n [nd Hnd]. by eapply ended_only_root.
Qed.

(** C10. Everything is sent, once, parents first: when all tasks are done and
    no error was seen, the nodes sent are exactly the nodes of the scanned
    tree, each once, a directory before what it contains, and of the tree only
    the root is left. *)
Theorem sync_sends_everything c :
  reachable t0 c -> finished c -> g_ok (f_shared c) = true ->
  NoDup (g_sent (f_shared c)).*1 /\
  (forall n, n ∈ (g_sent (f_shared c)).*1 <-> is_Some (nodes t0 !! n)) /\
  (forall l1 n l2 nd p, (g_sent (f_shared c)).*1 = l1 ++ n :: l2 -> nodes t0 !! n = Some nd ->
     parent nd = Some p -> p ∈ l1) /\
  (forall n, is_Some (nodes (g_tree (f_shared c)) !! n) -> n = 0%nat).
Proof using Hscanned Hsmall. apply ended_all_sent. Qed.
End Walk.

(** ** Schedules

    A schedule picks, at each step, a task by its index and an outcome of
    [send_datamsg]; [run_schedule] executes it. *)

Fixpoint run_schedule (s : list (nat * choice)) (c : config) : option config :=
  match s with
  | [] => Some c
  | (i, ch) :: s' =>
      tk ← f_tasks c !! i;
      match task_step tk ch (f_shared c) with
      | Go ts g => run_schedule s' (mkConfig (take i (f_tasks c) ++ ts ++ drop (S i) (f_tasks c)) g)
      | _ => None
      end
  end.

Lemma run_schedule_steps s c c' : run_schedule s c = Some c' -> rtc step c c'.
Proof.
  revert c. induction s as [|[i ch] s IH]; intros [ts g]; cbn; [by intros [= <-]|].
  destruct (ts !! i) as [tk|] eqn:E; [|done]. cbn.
  destruct (task_step tk ch g) as [| |ts' g'] eqn:Et; try done. intros Hr%IH.
  eapply rtc_l; [|exact Hr]. rewrite <- (take_drop_middle _ _ _ E) at 1. by apply (step_task _ _ _ ch).
Qed.

Module SyncDemo.
(** A directory with two files of one byte. *)
Definition dir : M := mkM "d" 493 directory 0.
Definition file (name : string) : M := mkM name 420 regular 1.
Definition tree : Tracked M := mkTracked
  (list_to_map [(0%nat, mkNode true [1%nat; 2%nat] 0 0 None dir);
                (1%nat, mkNode true [] 0 1 (Some 0%nat) (file "a"));
                (2%nat, mkNode true [] 0 1 (Some 0%nat) (file "b"))]) 3 (mkRoot 0 0 0 0 2 false).
Definition ok : choice := mkChoice true 1.
Definition at_ (i k : nat) : list (nat * choice) := replicate k (i, ok).

(** The root, its children spawned, then one file after the other. *)
Definition in_turn : list (nat * choice) := at_ 0 10 ++ at_ 2 8 ++ at_ 1 8.
(** Both files load [g_seq] before either stores it. *)
Definition racing : list (nat * choice) :=
  at_ 0 10 ++ [(1, ok); (1, ok); (2, ok); (2, ok)]%nat ++ at_ 1 6 ++ at_ 2 6.

Lemma tree_scanned : scanned tree.
Proof.
  assert (forall n nd, nodes tree !! n = Some nd ->
    (n = 0 /\ nd = mkNode true [1; 2] 0 0 None dir \/
     n = 1 /\ nd = mkNode true [] 0 1 (Some 0) (file "a") \/
     n = 2 /\ nd = mkNode true [] 0 1 (Some 0) (file "b"))%nat) as Hcases.
  { intros n nd Hn%elem_of_list_to_map_2. set_solver. }
  split; [split|].
  - by eexists.
  - intros n nd Hn. destruct (Hcases n nd Hn) as [[-> _]|[[-> _]|[-> _]]]; cbn; lia.
  - intros n nd Hn Hn0. destruct (Hcases n nd Hn) as [[-> _]|[[-> ->]|[-> ->]]]; [done|..];
      eexists 0%nat, _; (split; [done|]); (split; [reflexivity|]); split; [set_solver|lia|set_solver|lia].
  - intros n nd c Hn Hc. destruct (Hcases n nd Hn) as [[-> ->]|[[-> ->]|[-> ->]]]; cbn in Hc.
    2,3: by apply not_elem_of_nil in Hc.
    apply elem_of_cons in Hc as [->|[->|Hc]%elem_of_cons]; [by eexists|by eexists|].
    by apply not_elem_of_nil in Hc.
  - intros n nd Hn. destruct (Hcases n nd Hn) as [[-> ->]|[[-> ->]|[-> ->]]]; cbn;
      repeat constructor; set_solver.
  - intros n nd Hn. destruct (Hcases n nd Hn) as [[-> ->]|[[-> ->]|[-> ->]]]; cbn;
      (split; [done|]); [by left|right|right]; done.
Qed.
End SyncDemo.

Lemma demo_end_reachable s c :
  run_schedule s (start SyncDemo.tree) = Some c -> reachable SyncDemo.tree c.
Proof. apply run_schedule_steps. Qed.

Lemma sync_memory_safe_witness :
  exists c, run_schedule SyncDemo.racing (start SyncDemo.tree) = Some c /\ ~ crashes c.
Proof.
  destruct (run_schedule SyncDemo.racing (start SyncDemo.tree)) as [c|] eqn:E; [|vm_compute in E; discriminate E].
  exists c. split; [reflexivity|].
  apply (sync_memory_safe SyncDemo.tree).
  - exact SyncDemo.tree_scanned.
  - reflexivity.
  - by eapply demo_end_reachable.
Defined.

Lemma sync_sends_everything_witness :
  exists c, run_schedule SyncDemo.in_turn (start SyncDemo.tree) = Some c /\
    (forall n, n ∈ (g_sent (f_shared c)).*1 <-> is_Some (nodes SyncDemo.tree !! n)).
Proof.
  assert (exists c, run_schedule SyncDemo.in_turn (start SyncDemo.tree) = Some c /\
    finished c /\ g_ok (f_shared c) = true) as (c & Hc & Hf & Ho)
    by (eexists; split; [vm_compute; reflexivity|]; split; [repeat constructor|reflexivity]).
  exists c. split; [exact Hc|].
  apply (sync_sends_everything SyncDemo.tree).
  - exact SyncDemo.tree_scanned.
  - reflexivity.
  - by eapply demo_end_reachable.
  - exact Hf.
  - exact Ho.
Defined.

(** The sequence number is not atomic: [g_seq] is loaded, loaded again
    and stored in three accesses, and two tasks that interleave send different
    nodes under the same number. *)
Theorem sync_seq_race :
  exists c n1 n2 sq, reachable SyncDemo.tree c /\ finished c /\ n1 <> n2 /\
    (n1, sq) ∈ g_sent (f_shared c) /\ (n2, sq) ∈ g_sent (f_shared c).
Proof.
  destruct (run_schedule SyncDemo.racing (start SyncDemo.tree)) as [c|] eqn:E; [|vm_compute in E; discriminate E].
  exists c, 1%nat, 2%nat, 1. split; [by eapply demo_end_reachable|].
  vm_compute in E. injection E as <-. split; [repeat constructor|]. cbn. set_solver.
Qed.

(** ** Sockets and ports *)

Lemma t_sock_zero (l : list nat) (m : gmap nat Z) :
  map_Forall (fun _ sock => sock = 0) m ->
  map_Forall (fun _ sock => sock = 0) (foldl (fun m th => (t_sock_local m th).2) m l).
Proof.
  revert m. induction l as [|th l IH]; intros m Hm; cbn; [done|]. apply IH.
  unfold t_sock_local. destruct (m !! th); [done|]. by apply map_Forall_insert_2.
Qed.

(** No worker ever connects: whichever threads have asked for their
    socket before, the element a thread gets is 0, never -1, so the call of
    [connect_to_daemon] is dead and the frames go to descriptor 0. *)
Theorem workers_never_connect threads th :
  task_sock (foldl (fun m x => (t_sock_local m x).2) ∅ threads) th = (0, false).
Proof.
  pose proof (t_sock_zero threads ∅ (map_Forall_empty _)) as Hz.
  unfold task_sock, t_sock_local. destruct (_ !! th) as [sock|] eqn:E; [|done].
  by rewrite (Hz th sock E).
Qed.

(** [random_port] stays in the dynamic range 49152 to 65535, for any
    value of [rand()]; but the message asks for no connection at all, because
    [t_sock] is still empty when it is built. *)
Theorem init_message_ports rand :
  0 <= rand ->
  49152 <= base_port (init_message rand ∅) <= 65535 /\ n_conns (init_message rand ∅) = 0.
Proof.
  intros Hr. split; [|done]. cbn. unfold random_port, u16.
  rewrite Z.rem_mod_nonneg by lia. pose proof (Z.mod_pos_bound rand (65535 - 49152 + 1) ltac:(lia)).
  rewrite wrap_small; unfold fits; lia.
Qed.

Lemma init_message_ports_witness :
  49152 <= base_port (init_message 2147483647 ∅) <= 65535 /\ n_conns (init_message 2147483647 ∅) = 0.
Proof. apply init_message_ports. lia. Defined.
