(* ===== verification/SyncLive.v ===== *)
(** * The parallel walk ends

    Every schedule of the tasks of [sync_with_remote] is finite, whatever
    [send_datamsg] answers: a step lowers the weight of the tasks in flight
    plus three for every node still in the tree. Together with the absence of
    deadlocks every run can only end with all tasks done. *)

From S2P Require Import Prelude Wire Tracked Meta Sync SyncInv SyncSafe.

Open Scope nat_scope.

Section Termination.
Context (t0 : Tracked M).
Hypothesis Hscanned : scanned t0.
Hypothesis Hsmall : (Z.of_nat (next_id t0) < 2 ^ 64)%Z.

Definition children0 (n : nat) : list nat :=
  match nodes t0 !! n with Some nd => children_ nd | None => [] end.

(** The steps left below a node: each child costs nine and what is below
    it. [fuel] bounds the depth, since identities grow downwards. *)
Fixpoint below (fuel n : nat) : nat :=
  match fuel with
  | O => 0
  | S fuel' => sum_list_with (fun c => 9 + below fuel' c) (children0 n)
  end.

Definition under (n : nat) : nat := below (next_id t0 - n) n.

Definition weight (tk : task) : nat :=
  match tk with
  | TCheck n => 8 + under n
  | TSeqLoad n => 7 + under n
  | TSeqIncr n _ => 6 + under n
  | TSeqStore n _ _ => 5 + under n
  | TSend n _ => 4 + under n
  | TSwitch n => 3 + under n
  | TIterWait n => 2 + under n
  | TIter n cs => 1 + sum_list_with (fun c => 9 + under c) cs
  | TBubble _ => 2
  | TRemove _ _ | TBubbleRemove _ _ | TReport => 1
  | TDone => 0
  end.

Definition potential (c : config) : nat :=
  sum_list_with weight (f_tasks c) + 3 * size (nodes (g_tree (f_shared c))).

(** ** The weights *)

Lemma sum_with_mono {A} (f g : A -> nat) l : (forall x, x ∈ l -> f x <= g x)%nat ->
  (sum_list_with f l <= sum_list_with g l)%nat.
Proof.
  induction l as [|x l IH]; intros H; cbn; [done|].
  specialize (H x ltac:(apply list_elem_of_here)) as Hx.
  specialize (IH ltac:(intros; apply H; by apply list_elem_of_further)). lia.
Qed.

Lemma sum_with_submseteq {A} (f : A -> nat) l k : l ⊆+ k -> (sum_list_with f l <= sum_list_with f k)%nat.
Proof. induction 1; cbn; lia. Qed.

Lemma below_mono fuel fuel' n : (fuel <= fuel')%nat -> (below fuel n <= below fuel' n)%nat.
Proof.
  revert fuel' n. induction fuel as [|fuel IH]; intros [|fuel'] n H; cbn; [lia..|].
  apply sum_with_mono. intros c _. specialize (IH fuel' c ltac:(lia)). lia.
Qed.

Lemma child0_later n c : c ∈ children0 n -> (n < c < next_id t0)%nat.
Proof using Hscanned.
  destruct Hscanned as [Hwf _]. unfold children0. destruct (nodes t0 !! n) as [nd|] eqn:Hn; [|by rewrite elem_of_nil].
  intros Hc. destruct (wf_child _ Hwf _ _ _ Hn Hc) as (cd & Hcd & Hp).
  pose proof (wf_ids _ Hwf _ _ Hcd). destruct (decide (c = 0%nat)) as [->|Hc0].
  - destruct (wf_root _ Hwf) as (rd & ? & ?). congruence.
  - destruct (wf_parent _ Hwf _ _ Hcd Hc0) as (q & qd & Hq & _ & _ & Hlt). simplify_eq. lia.
Qed.

Lemma under_children n : (sum_list_with (fun c => 9 + under c) (children0 n) <= under n)%nat.
Proof using Hscanned.
  unfold under at 2. destruct (children0 n) as [|c0 l] eqn:E.
  { cbn. lia. }
  assert (n < next_id t0)%nat as Hn.
  { pose proof (child0_later n c0) as H. rewrite E in H. specialize (H ltac:(apply list_elem_of_here)). lia. }
  destruct (next_id t0 - n)%nat as [|d] eqn:Ed; [lia|]. cbn [below]. rewrite <- E.
  apply sum_with_mono. intros c Hc%child0_later. unfold under.
  pose proof (below_mono (next_id t0 - c) d c ltac:(lia)). lia.
Qed.

(** The children a node still has are among those it had. *)
Lemma children_among rs g n nd :
  inv t0 rs g -> alive g n nd -> children_ nd ⊆+ children0 n.
Proof using Hscanned.
  intros Hinv Hn. destruct (v_scanned _ _ _ Hinv) as [Hwf _]. destruct Hscanned as [Hwf0 _].
  apply NoDup_submseteq; [exact (wf_nodup _ Hwf _ _ Hn)|]. intros c Hc.
  destruct (wf_child _ Hwf _ _ _ Hn Hc) as (cd & Hcd & Hp).
  destruct (v_origin _ _ _ Hinv c cd Hcd) as (cd0 & Hcd0 & Hp0).
  assert (c <> 0%nat) as Hc0.
  { intros ->. destruct (wf_root _ Hwf) as (rd & Hr & Hrp). congruence. }
  destruct (wf_parent _ Hwf0 _ _ Hcd0 Hc0) as (q & qd & Hq & Hqd & Hin & _).
  unfold children0. assert (q = n) as -> by congruence. by rewrite Hqd.
Qed.

(** ** The tree shrinks *)

Lemma count_size n d (t t' : Tracked M) : count n d t = Some t' -> size (nodes t') = size (nodes t).
Proof.
  intros H%count_shape. rewrite <- !size_dom. f_equal. apply set_eq. intros k. rewrite !elem_of_dom.
  split; intros [kd Hk].
  - by destruct (shape_alive _ _ _ _ H Hk) as (? & ? & _).
  - by destruct (shape_alive_r _ _ _ _ H Hk) as (? & ? & _).
Qed.

Lemma remove_size n (t t' : Tracked M) : tree_wf t -> remove n t = Some t' -> (size (nodes t') < size (nodes t))%nat.
Proof.
  intros Hwf Hr. destruct (remove_spec _ Hwf _ _ Hr) as (nd & p & Hn & _ & _ & _ & Hspec).
  rewrite <- !size_dom. apply subset_size. split.
  - intros k. rewrite !elem_of_dom. intros [kd Hk]. apply Hspec in Hk as (_ & kd0 & Hk & _). by exists kd0.
  - intros Hsub. assert (n ∈ dom (nodes t')) as [kd Hk]%elem_of_dom.
    { apply Hsub, elem_of_dom. by exists nd. }
    apply Hspec in Hk as [Hd _]. apply Hd, desc_refl. by exists nd.
Qed.

(** ** Every step lowers the potential *)

Definition load (ts : list task) (g : shared) : nat := sum_list_with weight ts + 3 * size (nodes (g_tree g)).

Lemma step_remove_lowers rs g n p k ts g' (f : Tracked M -> shared) :
  inv t0 rs g -> (forall t, k t = Go [TBubble p] (f t)) -> (forall t, g_tree (f t) = t) ->
  step_remove n p g k = Go ts g' -> load ts g' < 1 + 3 * size (nodes (g_tree g)).
Proof.
  intros Hinv Hk Hf. destruct (v_scanned _ _ _ Hinv) as [Hwf _]. unfold step_remove, with_node.
  destruct (nodes (g_tree g) !! n) as [nd|]; [|done]. destruct (nodes (g_tree g) !! p) as [pd|]; [|done].
  case_bool_decide; [done|]. destruct (remove n (g_tree g)) as [t|] eqn:Hr; [|done].
  rewrite Hk. intros [= <- <-]. unfold load. rewrite Hf. apply remove_size in Hr; [|done]. cbn. lia.
Qed.

Lemma step_switch_lowers n g ts g' :
  step_switch n g = Go ts g' -> load ts g' < load [TSwitch n] g.
Proof.
  unfold step_switch, with_node, load. destruct (nodes (g_tree g) !! n) as [nd|]; [|done].
  destruct (m_ftype (meta nd)); try done; destruct (parent nd); try destruct (children_ nd); try done;
    intros [= <- <-]; cbn; lia.
Qed.

Lemma step_bubble_lowers n g ts g' :
  step_bubble n g = Go ts g' -> load ts g' < load [TBubble n] g.
Proof.
  unfold step_bubble, with_node, load. destruct (g_pending g !! n); [|done].
  destruct (_ =? 0)%Z; [destruct (nodes (g_tree g) !! n) as [nd|]; [destruct (parent nd)|done]|];
    intros [= <- <-]; cbn; lia.
Qed.

Lemma task_step_lowers tk rest g ch ts g' :
  good t0 (tk :: rest) g -> task_step tk ch g = Go ts g' -> load ts g' < load [tk] g.
Proof using Hscanned.
  intros [Hinv _]. cbn [map] in Hinv.
  destruct tk as [n|n|n sq|n sq v|n sq| |n|n p|n|n [|c cs]|n|n p|]; cbn [task_step].
  - destruct (g_ok g); intros [= <- <-]; unfold load; cbn; lia.
  - intros [= <- <-]; unfold load; cbn; lia.
  - intros [= <- <-]; unfold load; cbn; lia.
  - intros [= <- <-]; unfold load; cbn; lia.
  - unfold step_send. destruct (count _ _ _) as [t|] eqn:Et; [|done]. apply count_size in Et.
    destruct (c_sent ch); intros [= <- <-]; unfold load; cbn; lia.
  - intros [= <- <-]; unfold load; cbn; lia.
  - apply step_switch_lowers.
  - intros H. eapply (step_remove_lowers _ _ _ _ _ _ _ (fun t => set_tree t g)) in H; [|done..].
    unfold load at 2. cbn. lia.
  - unfold with_node. destruct (nodes (g_tree g) !! n) as [nd|] eqn:Hn; [|done].
    destruct (_ && _); [|done]. intros [= <- <-]. unfold load. cbn.
    pose proof (sum_with_submseteq (fun c => 9 + under c) _ _ (children_among _ _ _ _ Hinv Hn)).
    pose proof (under_children n). cbn in *. lia.
  - unfold with_node. destruct (nodes (g_tree g) !! n); [|done]. intros [= <- <-]; unfold load; cbn; lia.
  - unfold with_node. destruct (nodes (g_tree g) !! n); [|done]. destruct (nodes (g_tree g) !! c); [|done].
    intros [= <- <-]; unfold load; cbn; lia.
  - apply step_bubble_lowers.
  - intros H. eapply (step_remove_lowers _ _ _ _ _ _ _
      (fun t => set_pending (delete n (g_pending g)) (set_tree t g))) in H; [|done..].
    unfold load at 2. cbn. lia.
  - done.
Qed.

Lemma step_lowers c c' :
  good t0 (f_tasks c) (f_shared c) -> step c c' -> potential c' < potential c.
Proof using Hscanned.
  intros Hg Hs. destruct Hs as [l1 tk l2 ch g ts g' Hgo]. cbn in Hg. apply good_head in Hg.
  pose proof (task_step_lowers _ _ _ _ _ _ Hg Hgo) as H. unfold potential, load in *. cbn [f_tasks f_shared] in *.
  rewrite !sum_list_with_app. cbn [sum_list_with] in *. lia.
Qed.

Lemma nsteps_potential k c c' :
  nsteps step k c c' -> good t0 (f_tasks c) (f_shared c) -> k + potential c' <= potential c.
Proof using Hscanned Hsmall.
  induction 1 as [|k x y z Hxy _ IH]; intros Hg; [done|].
  pose proof (step_lowers _ _ Hg Hxy). specialize (IH (step_good _ Hsmall _ _ Hxy Hg)). lia.
Qed.

Lemma run_finishes c : reachable t0 c -> exists c', rtc step c c' /\ finished c'.
Proof using Hscanned Hsmall.
  intros Hr. remember (potential c) as k eqn:Hk. revert c Hr Hk.
  induction (lt_wf k) as [k _ IH]. intros c Hr ->.
  destruct (reachable_goes t0 Hscanned Hsmall c Hr) as [Hf|[c1 Hs]]; [by exists c|].
  pose proof (step_lowers _ _ (reachable_good _ Hscanned Hsmall _ Hr) Hs) as Hlt.
  assert (reachable t0 c1) as Hr1 by (by eapply rtc_r).
  destruct (IH _ Hlt c1 Hr1 eq_refl) as (c' & Hc' & Hf). exists c'. split; [by eapply rtc_l|done].
Qed.

(** C11. Termination of the walk: no schedule of the tasks is longer than the
    potential of the start, whatever [send_datamsg] answers, and every partial
    run can be continued until all tasks are done. *)
Theorem sync_terminates :
  (forall k c, nsteps step k (start t0) c -> k <= potential (start t0)) /\
  (forall c, reachable t0 c -> exists c', rtc step c c' /\ finished c').
Proof using Hscanned Hsmall.
  split; [|exact run_finishes]. intros k c Hk.
  pose proof (nsteps_potential _ _ _ Hk (start_good _ Hscanned)). lia.
Qed.
End Termination.

Lemma sync_terminates_witness :
  potential SyncDemo.tree (start SyncDemo.tree) = 35 /\
  forall k c, nsteps step k (start SyncDemo.tree) c -> k <= 35.
Proof.
  split; [by vm_compute|]. intros k c.
  exact (proj1 (sync_terminates SyncDemo.tree SyncDemo.tree_scanned eq_refl) k c).
Defined.
