(* ===== verification/Scanned.v ===== *)
(** * From [scan_dir] to [sync_with_remote]

    The tree the scan hands to the synchronisation: it meets the precondition
    [scanned] of the parallel walk, its nodes stand for the paths of the
    directory one to one, and the path of a node is the one [recurse] computes
    with [path / child->meta.name] on the way down from the root. *)

From S2P Require Import Prelude Sys Wire Tracked Meta Scan Sync SyncInv.

(** The variable [path] of [recurse] at node [n]; a parent is older than its
    child, so [n] bounds the depth. *)
Fixpoint path_up (fuel : nat) (t : Tracked M) (root : path) (n : nat) : option path :=
  match fuel with
  | O => None
  | S fuel' =>
      nd ← nodes t !! n;
      match parent nd with
      | None => Some root
      | Some p => pp ← path_up fuel' t root p; Some (pp ++ [m_name (meta nd)])
      end
  end.

Definition node_path (t : Tracked M) (root : path) (n : nat) : option path := path_up (S n) t root n.

(** ** Growing trees *)

Definition grows (t t' : Tracked M) : Prop :=
  tree_wf t -> tree_wf t' /\ metas_kept t t' /\ sum_done t' = sum_done t.

#[global] Instance grows_pre : PreOrder grows.
Proof.
  split; [by intros t H; split_and!; [|intros c cd Hc; exists cd|]|].
  intros t1 t2 t3 H1 H2 H. destruct (H1 H) as (Hw2 & Hm2 & Hs2). destruct (H2 Hw2) as (Hw3 & Hm3 & Hs3). split_and!; [done| |congruence].
  intros c cd Hc. destruct (Hm2 c cd Hc) as (cd2 & Hc2 & <-). by apply Hm3.
Qed.

Lemma add_child_grows n m t c t' : add_child n m t = Some (c, t') -> grows t t'.
Proof.
  intros H Hwf. split; [by eapply add_child_wf|]. unfold add_child in H.
  destruct (nodes t !! n) as [nd|] eqn:Hn; [|done]. injection H as <- <-. split; [|done]. intros k kd Hk. cbn.
  pose proof (wf_ids _ Hwf k kd Hk). rewrite lookup_insert_ne by lia.
  destruct (decide (n = k)) as [->|]; [rewrite lookup_insert_eq|rewrite lookup_insert_ne by done];
    simplify_eq; by eexists.
Qed.

Lemma replaced_meta (t t' : Tracked M) n nd nd' :
  nodes t !! n = Some nd -> nodes t' = <[n := nd']> (nodes t) -> meta nd' = meta nd -> metas_kept t t'.
Proof.
  intros Hn Hns Hm k kd Hk. rewrite Hns. destruct (decide (n = k)) as [->|].
  - rewrite lookup_insert_eq. simplify_eq. by eexists.
  - rewrite lookup_insert_ne by done. by exists kd.
Qed.

Lemma shift_total_grows n d t t' : shift_total n d t = Some t' -> grows t t'.
Proof.
  intros H Hwf. split; [by eapply shift_total_wf|]. unfold shift_total in H.
  destruct (nodes t !! n) as [nd|] eqn:Hn; [|done]. injection H as <-. split; [by eapply replaced_meta|done].
Qed.

Lemma unlock_grows n t t' : unlock n t = Some t' -> grows t t'.
Proof.
  intros H Hwf. split; [by eapply unlock_wf|]. unfold unlock in H.
  destruct (nodes t !! n) as [nd|] eqn:Hn; [|done]. injection H as <-. split; [by eapply replaced_meta|done].
Qed.

Lemma add_entry_grows p n m k k' : add_entry p n m k = Some k' -> grows (k_tree k) (k_tree k').
Proof.
  unfold add_entry. destruct (m_ftype m); try by intros [= <-].
  - intros ([c t] & E1 & (t2 & E2 & (t3 & E3 & [= <-])%bind_Some)%bind_Some)%bind_Some. cbn in *.
    apply add_child_grows in E1. apply shift_total_grows in E2. apply unlock_grows in E3.
    etrans; [exact E1|]. by etrans.
  - intros ([c t] & E1 & [= <-])%bind_Some. by apply add_child_grows in E1.
Qed.

Section scan.
Context (v : fsview) (sort : list M -> list M) (sort_ok : StdSort sort).

Lemma scan_step_grows p n k k' : scan_step v sort p n k = Ret k' -> grows (k_tree k) (k_tree k').
Proof.
  unfold scan_step. destruct (strict_weak _); [|done]. destruct (_ ≫= _) as [k2|] eqn:E; [|done].
  intros [= ->]. revert E. intros (k1 & E1 & (t & E2%unlock_grows & [= <-])%bind_Some)%bind_Some. cbn. etrans; [|exact E2]. clear E2.
  revert k E1. induction (sort (entries v p)) as [|m ms IH]; intros k; cbn; [by intros [= <-]|].
  intros (k2 & E%add_entry_grows & H%IH)%bind_Some. by etrans.
Qed.

(** A walk that ends: the invariant without a stack. *)
Lemma scan_loop_end fuel paths k k' :
  scan_inv v sort paths None k -> scan_loop v sort fuel k = Ret k' ->
  exists paths', paths `prefix_of` paths' /\ scan_inv v sort paths' None k' /\ k_stack k' = [] /\
    grows (k_tree k) (k_tree k').
Proof using sort_ok.
  revert paths k. induction fuel as [|fuel IH]; intros paths [[|[p n] rest] t ig] Hinv; cbn; try done.
  1,2: intros [= <-]; by exists paths.
  destruct (scan_step v sort p n (mkWalk rest t ig)) as [k1| | | |] eqn:E; try done. intros H.
  assert (strict_weak (entries v p) = true) as Hsw by (unfold scan_step in E; by destruct (strict_weak _)).
  destruct (scan_step_ok v sort sort_ok _ _ _ _ _ _ Hinv Hsw) as (k2 & paths2 & E2 & Hp2 & Hi2 & _).
  rewrite E in E2. injection E2 as <-. destruct (IH _ _ Hi2 H) as (paths3 & Hp3 & Hi3 & Hs3 & Hg). exists paths3.
  split_and!; [by etrans|done|done|]. apply scan_step_grows in E. cbn in E. by etrans.
Qed.
End scan.

(** ** The tree of a directory *)

(** The directory as the scan sees it: the paths of the regular files and
    directories at and below [root]. *)
Inductive listed (v : fsview) (root : path) : path -> Prop :=
  | listed_root : listed v root root
  | listed_entry p names x : listed v root p -> (v_status v p).2 = directory -> v_entries v p = Some names ->
      x ∈ names -> kept (M_of v (p ++ [x])) = true -> listed v root (p ++ [x]).

Section result.
Context (v : fsview) (sort : list M -> list M) (sort_ok : StdSort sort).
Context (root : path) (now : Z) (fuel : nat) (k : walk).
Hypothesis Hscan : scan_dir v sort fuel root (new_root (M_of v root) now) = Ret k.
Hypothesis Hroot : (v_status v root).2 = directory.
Hypothesis Hentries : forall p names, v_entries v p = Some names -> NoDup names /\ Forall entry_name names.

Let t := k_tree k.

Record scan_result (paths : list path) : Prop := mkScanResult {
  sr_root : paths !! 0%nat = Some root;
  sr_inv : scan_inv v sort paths None k;
  sr_stack : k_stack k = [];
  sr_wf : tree_wf t;
  sr_done : sum_done t = 0;
  sr_meta : forall nd, nodes t !! 0%nat = Some nd -> meta nd = M_of v root
}.

Lemma scan_has_result : exists paths, scan_result paths.
Proof using Hscan sort_ok.
  destruct (scan_loop_end v sort sort_ok fuel [root] _ _ (scan_start_inv v sort sort_ok root (M_of v root) now) Hscan)
    as (paths & Hp & Hi & Hs & Hg).
  destruct (Hg (new_root_wf _ _)) as (Hwf & Hm & Hsum). exists paths. split; try done.
  - by apply (prefix_lookup_Some [root]).
  - intros nd Hn. destruct (Hm 0%nat (mkNode false [] 0 0 None (M_of v root))) as (nd' & Hn' & Hmeta).
    + cbn. by rewrite lookup_singleton_eq.
    + fold t in Hn'. rewrite Hn in Hn'. injection Hn' as <-. exact Hmeta.
Qed.

Section with_paths.
Context (paths : list path) (HR : scan_result paths).

Lemma node_facts i nd :
  nodes t !! i = Some nd ->
  exists p, paths !! i = Some p /\ meta nd = M_of v p /\ kept (meta nd) = true /\ ready_ nd = true /\
    done_ nd = 0 /\
    kids t (children_ nd) (listing v sort p (bool_decide (m_ftype (meta nd) = directory))) /\
    (bool_decide (m_ftype (meta nd) = directory) = true -> strict_weak (entries v p) = true) /\
    (i <> 0%nat -> exists pi (pp : path), parent nd = Some pi /\ paths !! pi = Some pp /\ p = pp ++ [m_name (meta nd)]).
Proof using HR Hroot.
  intros Hn. destruct (si_node _ _ _ _ _ (sr_inv _ HR) i nd Hn) as (p & [H1 H2 H3 H4] & Hch).
  unfold children_ok in Hch. rewrite (sr_stack _ HR), bool_decide_eq_false_2 in Hch by apply not_elem_of_nil.
  destruct Hch as (Hr & Hk & Hsw). exists p. unfold is_dir in Hk, Hsw. destruct (Nat.eqb_spec i 0) as [->|Hi].
  - rewrite (sr_root _ HR) in H1. injection H1 as <-. pose proof (sr_meta _ HR nd Hn) as Hm. rewrite Hm in Hk |- *.
    cbn in *. unfold kept. cbn. rewrite Hroot. rewrite bool_decide_eq_true_2 by done.
    by split_and!; [apply (sr_root _ HR)|..].
  - destruct (H2 Hi) as (Hm & Hkt & Hpar). by split_and!.
Qed.

Lemma scan_scanned : scanned t.
Proof using HR Hroot.
  split; [apply (sr_wf _ HR)|]. intros n nd Hn.
  destruct (node_facts n nd Hn) as (p & _ & Hm & Hk & Hr & _ & Hkids & _ & _). split; [done|].
  case_bool_decide as Hd; [by left|]. right. unfold kept in Hk. destruct (m_ftype (meta nd)) eqn:E; try done.
  split_and!; [|done|by apply Forall2_nil_inv_r in Hkids].
  intros ->. rewrite (sr_meta _ HR nd Hn) in E. cbn in E. congruence.
Qed.

Lemma path_up_paths fuel' n :
  (n < fuel')%nat -> is_Some (nodes t !! n) -> path_up fuel' t root n = paths !! n.
Proof using HR Hroot.
  revert n. induction fuel' as [|f IH]; intros n Hf [nd Hn]; [lia|]. cbn. rewrite Hn. cbn.
  destruct (node_facts n nd Hn) as (p & Hp & _ & _ & _ & _ & _ & _ & Hpar). rewrite Hp.
  destruct (decide (n = 0%nat)) as [->|Hn0].
  - destruct (wf_root _ (sr_wf _ HR)) as (rd & Hrd & Hrp). rewrite Hn in Hrd. injection Hrd as <-.
    rewrite Hrp. by rewrite (sr_root _ HR) in Hp.
  - destruct (Hpar Hn0) as (pi & pp & Hpi & Hpp & ->).
    destruct (wf_parent _ (sr_wf _ HR) n nd Hn Hn0) as (q & qd & Hq & Hqd & _ & Hlt).
    rewrite Hpi in Hq |- *. injection Hq as <-. rewrite (IH pi) by (lia || by eexists). by rewrite Hpp.
Qed.

Lemma node_path_paths n : is_Some (nodes t !! n) -> node_path t root n = paths !! n.
Proof using HR Hroot. intros Hn. apply path_up_paths; [lia|done]. Qed.

(** The names of the children of a node are entries of its directory. *)
Lemma listing_names p b :
  (b = true -> strict_weak (entries v p) = true) ->
  NoDup (map m_name (listing v sort p b)) /\
  forall m, m ∈ listing v sort p b -> m = M_of v (p ++ [m_name m]) /\ kept m = true /\
    exists names, v_entries v p = Some names /\ m_name m ∈ names.
Proof using sort_ok Hentries.
  unfold listing. destruct b; [|split; [constructor|by intros m ?%not_elem_of_nil]]. intros Hsw. specialize (Hsw eq_refl).
  assert (map m_name (entries v p) = default [] (v_entries v p)) as Hnames.
  { unfold entries. destruct (v_entries v p) as [names|]; [|done]. cbn. rewrite map_map.
    induction names as [|x names IH]; [done|]. cbn [map]. f_equal; [apply filename_snoc|exact IH]. }
  split.
  - assert (base.filter (fun m => kept m = true) (sort (entries v p)) ≡ₚ
      base.filter (fun m => kept m = true) (entries v p)) as -> by by rewrite sort_permutes.
    assert (NoDup (map m_name (entries v p))) as Hnd; [|eapply sublist_NoDup; [exact Hnd|]; apply fmap_sublist, sublist_filter].
    rewrite Hnames. destruct (v_entries v p) as [names|] eqn:E; [by eapply Hentries|constructor].
  - intros m [Hk Hm]%list_elem_of_filter. rewrite sort_permutes in Hm by done. unfold entries in Hm.
    destruct (v_entries v p) as [names|]; [|by apply not_elem_of_nil in Hm].
    apply list_elem_of_fmap in Hm as (x & -> & Hx). cbn. rewrite filename_snoc. split_and!; [done|done|].
    by exists names.
Qed.

(** The path of a node is [root] followed by the names on the way. *)
Lemma path_below n (p : path) :
  is_Some (nodes t !! n) -> paths !! n = Some p ->
  exists q, p = root ++ q /\ Forall entry_name q /\ (q = [] <-> n = 0%nat).
Proof using sort_ok Hroot Hentries HR.
  revert p. induction (lt_wf n) as [n _ IH]. intros p [nd Hn] Hp.
  destruct (decide (n = 0%nat)) as [->|Hn0].
  { rewrite (sr_root _ HR) in Hp. injection Hp as <-. exists []. by rewrite app_nil_r. }
  destruct (node_facts n nd Hn) as (p' & Hp' & Hm & _ & _ & _ & _ & _ & Hpar). rewrite Hp in Hp'. injection Hp' as <-.
  destruct (Hpar Hn0) as (i & pp & Hpi & Hpp & ->).
  destruct (wf_parent _ (sr_wf _ HR) n nd Hn Hn0) as (i' & id & Hi & Hid & Hin & Hlt).
  rewrite Hpi in Hi. injection Hi as <-.
  destruct (IH i Hlt pp (ex_intro _ id Hid) Hpp) as (q & -> & Hq & _). exists (q ++ [m_name (meta nd)]).
  rewrite app_assoc. split_and!; [done| |split; [by intros [_ ?]%app_nil|done]].
  apply Forall_app. split; [done|]. apply Forall_singleton.
  destruct (node_facts i id Hid) as (p' & Hp' & _ & _ & _ & _ & Hkids & Hsw & _). rewrite Hpp in Hp'. injection Hp' as <-.
  apply list_elem_of_lookup in Hin as [j Hj]. destruct (Forall2_lookup_l _ _ _ _ _ Hkids Hj) as (m & Hjm & cd & Hcd & <-).
  rewrite Hn in Hcd. injection Hcd as <-. apply list_elem_of_lookup_2, (listing_names _ _ Hsw) in Hjm as (_ & _ & names & E' & Hx).
  destruct (Hentries _ _ E') as [_ Hnm]. rewrite Forall_forall in Hnm. by apply Hnm.
Qed.

(** Two nodes have two paths. *)
Lemma paths_inj n n' (p : path) :
  is_Some (nodes t !! n) -> is_Some (nodes t !! n') -> paths !! n = Some p -> paths !! n' = Some p -> n = n'.
Proof using sort_ok Hroot Hentries HR.
  revert n' p. induction (lt_wf n) as [n _ IH]. intros n' p [nd Hn] [nd' Hn'] Hp Hp'.
  destruct (path_below n p) as (q & -> & _ & Hq); [by eexists|done|].
  destruct (path_below n' (root ++ q)) as (q' & Eq & _ & Hq'); [by eexists|done|].
  apply app_inv_head in Eq as <-. destruct (decide (n = 0%nat)) as [->|Hn0].
  { symmetry. apply Hq'. by apply Hq. }
  assert (n' <> 0%nat) as Hn0' by (rewrite <- Hq', Hq; done).
  destruct (node_facts n nd Hn) as (r & Hr & _ & _ & _ & _ & _ & _ & Hpar). rewrite Hp in Hr. injection Hr as <-.
  destruct (node_facts n' nd' Hn') as (r & Hr & _ & _ & _ & _ & _ & _ & Hpar'). rewrite Hp' in Hr. injection Hr as <-.
  destruct (Hpar Hn0) as (i & pp & Hi & Hpp & E), (Hpar' Hn0') as (i' & pp' & Hi' & Hpp' & E').
  rewrite E in E'. apply app_inj_2 in E' as [<- [= Hname]]; [|done].
  destruct (wf_parent _ (sr_wf _ HR) n nd Hn Hn0) as (j & jd & Hj & Hjd & Hin & Hlt).
  destruct (wf_parent _ (sr_wf _ HR) n' nd' Hn' Hn0') as (j' & jd' & Hj' & Hjd' & Hin' & _).
  rewrite Hi in Hj. injection Hj as <-. rewrite Hi' in Hj'. injection Hj' as <-.
  assert (i = i') as <- by (eapply IH; [done|by eexists|by eexists|done|done]).
  rewrite Hjd in Hjd'. injection Hjd' as <-.
  destruct (node_facts i jd Hjd) as (r & _ & _ & _ & _ & _ & Hkids & Hsw & _).
  apply list_elem_of_lookup in Hin as [a Ha]. apply list_elem_of_lookup in Hin' as [b Hb].
  destruct (Forall2_lookup_l _ _ _ _ _ Hkids Ha) as (m & Ham & cd & Hcd & Em).
  destruct (Forall2_lookup_l _ _ _ _ _ Hkids Hb) as (m' & Hbm & cd' & Hcd' & Em').
  assert (a = b) as <-; [|congruence].
  destruct (listing_names r (bool_decide (m_ftype (meta jd) = directory)) Hsw) as [Hnd _].
  eapply (NoDup_lookup _ _ _ (m_name m) Hnd); rewrite list_lookup_fmap; [by rewrite Ham|].
  rewrite Hbm. cbn. congruence.
Qed.

(** Every listed path has its node. *)
Lemma listed_node p : listed v root p -> exists n nd, nodes t !! n = Some nd /\ paths !! n = Some p.
Proof using sort_ok Hroot Hentries HR.
  induction 1 as [|p names x Hp (n & nd & Hn & Hnp) Hd Hnames Hx Hk].
  - destruct (wf_root _ (sr_wf _ HR)) as (rd & Hrd & _). exists 0%nat, rd. split; [done|apply (sr_root _ HR)].
  - destruct (node_facts n nd Hn) as (r & Hr & Hm & _ & _ & _ & Hkids & Hsw & _). rewrite Hnp in Hr. injection Hr as <-.
    rewrite bool_decide_eq_true_2 in Hkids by by rewrite Hm.
    assert (M_of v (p ++ [x]) ∈ listing v sort p true) as [j Hj]%list_elem_of_lookup.
    { unfold listing. apply list_elem_of_filter. split; [done|]. rewrite sort_permutes by by apply Hsw, bool_decide_eq_true_2; rewrite Hm. unfold entries. rewrite Hnames.
      by apply (list_elem_of_fmap_2 (fun name => M_of v (p ++ [name]))). }
    destruct (Forall2_lookup_r _ _ _ _ _ Hkids Hj) as (c & Hc & cd & Hcd & Hcm). exists c, cd. split; [done|].
    apply list_elem_of_lookup_2 in Hc. destruct (wf_child _ (sr_wf _ HR) n nd c Hn Hc) as (cd' & Hcd' & Hcp).
    fold t in Hcd. rewrite Hcd in Hcd'. injection Hcd' as <-.
    pose proof (child_gt _ (sr_wf _ HR) _ _ _ Hn Hc). destruct (node_facts c cd Hcd) as (r & Hr & _ & _ & _ & _ & _ & _ & Hpar).
    destruct Hpar as (pi & pp & Hpi & Hpp & ->); [lia|]. rewrite Hcp in Hpi. injection Hpi as <-.
    rewrite Hnp in Hpp. injection Hpp as <-. rewrite Hr, Hcm. cbn. by rewrite filename_snoc.
Qed.

(** Every node stands for a listed path. *)
Lemma node_listed n nd p : nodes t !! n = Some nd -> paths !! n = Some p -> listed v root p.
Proof using sort_ok Hroot Hentries HR.
  revert nd p. induction (lt_wf n) as [n _ IH]. intros nd p Hn Hp.
  destruct (decide (n = 0%nat)) as [->|Hn0].
  { rewrite (sr_root _ HR) in Hp. injection Hp as <-. constructor. }
  destruct (node_facts n nd Hn) as (p' & Hp' & Hm & Hk & _ & _ & _ & _ & Hpar). rewrite Hp in Hp'. injection Hp' as <-.
  destruct (Hpar Hn0) as (i & pp & Hpi & Hpp & ->).
  destruct (wf_parent _ (sr_wf _ HR) n nd Hn Hn0) as (i' & id & Hi & Hid & Hin & Hlt).
  rewrite Hpi in Hi. injection Hi as <-.
  destruct (node_facts i id Hid) as (p' & Hp' & Hmi & _ & _ & _ & Hkids & Hsw & _). rewrite Hpp in Hp'. injection Hp' as <-.
  apply list_elem_of_lookup in Hin as [j Hj]. destruct (Forall2_lookup_l _ _ _ _ _ Hkids Hj) as (m & Hjm & cd & Hcd & <-).
  fold t in Hcd. rewrite Hn in Hcd. injection Hcd as <-. case_bool_decide as Hd; [|done].
  apply list_elem_of_lookup_2, (listing_names _ _ Hsw) in Hjm as (_ & _ & names & E' & Hx).
  eapply listed_entry; [by eapply IH| |exact E'|done|by rewrite <- Hm]. by rewrite Hmi in Hd.
Qed.
End with_paths.
End result.
