(* ===== verification/Send.v ===== *)
(** * [enu/main.cpp], [send_datamsg]: one node of the tree onto a socket

    The header, the relative path and, for a regular file, its mapped contents
    in chunks, each of which advances the progress tree. [ok] and the root's
    mutex are shared with other threads: their values are answers of the
    environment, like the kernel's. *)

From S2P Require Import Prelude Sys Net Wire Frames Tracked Meta.

Definition CHUNK_SIZE : Z := 16 * 1024.

(** The bytes seen through [mmap(nullptr, len, PROT_READ, MAP_PRIVATE, fd, 0)]
    of the file at [p]: its contents, and zeros after its end. *)
Definition mapped (p : path) (len : Z) : Sys (list byte) := fun w =>
  match w_fs w !! native p with
  | Some (File content) => (Ret (resize len content), w)
  | _ => (Blocked, w)
  end.

Section Send.
Context (weakly_canonical : path -> option path) (render_fn_ : RenderFn M).
Context (pad : byte * list byte).

(** [node->tick(delta)] with the outcome of [try_lock] and the clock taken
    from the environment. *)
Definition tick_node (n : nat) (delta : Z) (t : Tracked M) : Sys (Tracked M) :=
  locked ← sys_int TryLockRoot;
  let locked := match locked with inl v => negb (v =? 0) | inr _ => false end in
  now ← (if locked then sys_or_pfatal Now "steady_clock" else mret 0);
  match tick render_fn_ n delta locked now t with
  | Some (_, Some (_, Throws)) => pfatal "terminating due to uncaught exception"
  | Some (_, Some (_, Waits)) => stop Blocked
  | Some (t', _) => mret t'
  | None => undef "tick of a destroyed node"
  end.

(** [!r || r.n_bytes == 0 || !ok], evaluated from the left. *)
Definition chunk_failed (r : IOResult) : Sys bool :=
  if negb (io_ok r) || (n_bytes r =? 0) then mret true
  else ok ← sys_or_pfatal LoadOk "ok"; mret (ok =? 0).

(** One iteration of the loop of [write_file_contents]. *)
Definition contents_body (sock out_fd n_size : Z) (map : list byte) (n : nat)
    (st : Z * Tracked M) : Sys (Z * Tracked M + bool * Tracked M) :=
  let n_sent := st.1 in
  let t := st.2 in
  if n_sent <? n_size then
    let chunk := Z.min CHUNK_SIZE (n_size - n_sent) in
    r ← write_partial sock (ztake chunk (zdrop n_sent map));
    failed ← chunk_failed r;
    if (failed : bool) then
      _ ← sys_ignore (Close out_fd);
      mret (inr (false, t))
    else
      t' ← tick_node n (n_bytes r) t;
      mret (inl (n_sent + n_bytes r, t'))
  else
    _ ← sys_ignore (Close out_fd);
    mret (inr (true, t)).

Definition write_file_contents (sock : Z) (p : path) (meta : M) (n : nat) (t : Tracked M) :
    Sys (bool * Tracked M) :=
  out_fd ← sys_or_pfatal (Open (native p)) "open({})";
  _ ← sys_or_pfatal (Mmap out_fd (m_fsize meta)) "mmap({})";
  map ← mapped p (m_fsize meta);
  loop (contents_body sock out_fd (m_fsize meta) map n) (0, t).

Definition hdr_of (meta : M) (seq rel_path_len : Z) : DataMessage :=
  mkDataMessage seq (m_perms meta) (m_ftype meta) (u16 rel_path_len) (m_fsize meta).

(** The part after the relative path is known. *)
Definition send_rel (sock seq : Z) (p : path) (rel : string) (meta : M) (n : nat) (t : Tracked M) :
    Sys (bool * Tracked M) :=
  let rel_path_len := zlen (bytes_of rel) in
  if 2 ^ 16 - 1 <? rel_path_len then
    _ ← log warn "path of length {} is too long";
    mret (false, t)
  else
    r ← write_exact sock (encode_hdr pad (hdr_of meta seq rel_path_len));
    if negb (io_ok r) then mret (false, t) else
    r ← write_exact sock (bytes_of rel);
    if negb (io_ok r) then mret (false, t) else
    if bool_decide (m_ftype meta = regular) && (0 <? m_fsize meta)
    then write_file_contents sock p meta n t
    else mret (true, t).

Definition send_datamsg (sock seq : Z) (base p : path) (n : nat) (t : Tracked M) :
    Sys (bool * Tracked M) :=
  match nodes t !! n with
  | None => undef "node was destroyed"
  | Some node =>
      match relative weakly_canonical p base with
      | None => pfatal "{}: {}"
      | Some rel => send_rel sock seq p (rel_native rel) (meta node) n t
      end
  end.

(** ** The frame a node is sent as *)

Definition contents (meta : M) (content : list byte) : list byte :=
  if bool_decide (m_ftype meta = regular) && (0 <? m_fsize meta)
  then resize (m_fsize meta) content else [].

Definition node_frame (seq : Z) (rel : string) (meta : M) (content : list byte) : frame :=
  mkFrame (encode_hdr pad (hdr_of meta seq (zlen (bytes_of rel)))) (bytes_of rel)
    (contents meta content).

Definition M_wf (m : M) : Prop :=
  fits 32 (m_perms m) /\ file_type_wf (m_ftype m) /\ fits 64 (m_fsize m).

Lemma node_frame_wf seq rel meta content :
  zlen (pad.2) = 4 -> fits 32 seq -> M_wf meta -> zlen (bytes_of rel) < 2 ^ 16 ->
  frame_wf (node_frame seq rel meta content) /\
  fr_msg (node_frame seq rel meta content) = hdr_of meta seq (zlen (bytes_of rel)).
Proof.
  intros Hpad Hseq (Hp & Ht & Hs) Hrel.
  assert (fits 16 (zlen (bytes_of rel))) as Hl by (split; [apply zlen_nonneg|done]).
  assert (fr_msg (node_frame seq rel meta content) = hdr_of meta seq (zlen (bytes_of rel))) as Hm.
  { unfold fr_msg. cbn. rewrite <- (app_nil_r (encode_hdr _ _)). apply decode_encode_hdr; [done|].
    unfold hdr_of. split_and!; cbn; try done. by apply wrap_fits. }
  split; [|done]. unfold frame_wf. rewrite Hm. split_and!; cbn.
  - by apply zlen_encode_hdr.
  - unfold u16. by rewrite wrap_small.
  - unfold contents, data_len. cbn. case_bool_decide; [|done]. cbn.
    destruct (Z.ltb_spec 0 (m_fsize meta)); [apply zlen_resize; lia|]. destruct Hs. zl.
Qed.

(** ** What a step of the sender does to the socket and to the tree *)

Definition sends (sock : Z) (bs : list byte) (w w' : World) : Prop :=
  exists t, w_trace w' = w_trace w ++ t /\ w_fs w' = w_fs w /\ written sock t = bs.

Lemma sends_refl sock w : sends sock [] w w.
Proof. exists []. by rewrite app_nil_r. Qed.

Lemma sends_trans sock b1 b2 w1 w2 w3 :
  sends sock b1 w1 w2 -> sends sock b2 w2 w3 -> sends sock (b1 ++ b2) w1 w3.
Proof.
  intros (t1 & E1 & F1 & W1) (t2 & E2 & F2 & W2). exists (t1 ++ t2).
  rewrite E2, E1, app_assoc, F2, F1, written_app, W1, W2. done.
Qed.

Lemma sends_quiet sock b c r rest w w' :
  sends sock b w w' -> sent_on sock (Called c r) = [] ->
  fs_effect c r (w_fs w') (w_open w') = w_fs w' -> sends sock b w (kernel c r rest w').
Proof.
  intros (t & E & F & W) Hs Hf. exists (t ++ [Called c r]). cbn.
  by rewrite E, app_assoc, Hf, F, written_snoc, W, Hs, app_nil_r.
Qed.

(** A prefix of [bs] went out. *)
Definition sent_prefix (sock : Z) (bs : list byte) (w0 w : World) : Prop :=
  exists b, sends sock b w0 w /\ b `prefix_of` bs.

Lemma sends_prefix sock b bs w0 w : sends sock b w0 w -> b `prefix_of` bs -> sent_prefix sock bs w0 w.
Proof. intros. by exists b. Qed.

Lemma sent_prefix_after sock b bs w0 w1 w2 :
  sends sock b w0 w1 -> sent_prefix sock bs w1 w2 -> sent_prefix sock (b ++ bs) w0 w2.
Proof.
  intros H (b' & H' & Hp). exists (b ++ b'). split; [by eapply sends_trans|by apply prefix_app].
Qed.

Lemma wp_write_exact sock buf w0 (R : World -> Prop) (Q : IOResult -> World -> Prop) :
  (forall w, sent_prefix sock buf w0 w -> R w) ->
  (forall r w, sent_prefix sock buf w0 w -> (io_ok r = true -> sends sock buf w0 w) -> Q r w) ->
  wp (write_exact sock buf) (on_ret R Q) w0.
Proof.
  intros HR HQ. pose proof (write_partial_wp sock buf w0) as Hp. unfold wp in *.
  assert (forall w, write_prefix sock buf w0 w -> R w) as HR'.
  { intros w (t & [Ht Hf _] & Hpre & _). apply HR. exists (written sock t). split; [by exists t|done]. }
  destruct (write_exact sock buf w0) as [o w] eqn:E. cbn.
  destruct o as [r| | | |]; cbn.
  1: { apply write_exact_post in E as (t & [Ht Hf _] & Hw & _ & _ & Hiff). apply HQ.
       - exists (written sock t). split; [by exists t|]. rewrite Hw. apply ztake_prefix.
       - intros Hok. exists t. by rewrite (proj1 Hiff Hok). }
  all: unfold write_exact, mbind, sys_bind in E; destruct (write_partial sock buf w0) as [[] ?];
    cbn in *; simplify_eq; auto.
Qed.

(** The tree after the ticks of [d] bytes of node [n]. *)
Definition ticked_by (n : nat) (d : Z) (t0 t : Tracked M) : Prop :=
  exists nd, nodes t0 !! n = Some nd /\
    nodes t = <[n := mkNode (ready_ nd) (children_ nd) (u64 (done_ nd + d)) (total_ nd)
                      (parent nd) (meta nd)]> (nodes t0) /\
    sum_done t = u64 (sum_done t0 + d) /\ sum_total t = sum_total t0 /\ next_id t = next_id t0.

Lemma tick_effect n delta locked now t nd :
  nodes t !! n = Some nd ->
  exists t' x, tick render_fn_ n delta locked now t = Some (t', x) /\ ticked_by n delta t t'.
Proof.
  intros Hn. destruct (tick render_fn_ n delta locked now t) as [[t' x]|] eqn:E.
  - exists t', x. split; [done|]. apply tick_count in E as (t1 & r & Hc & -> & Hd & Ht).
    unfold count in Hc. rewrite Hn in Hc. injection Hc as <-. exists nd. by rewrite Hd, Ht.
  - unfold tick, count in E. by rewrite Hn in E.
Qed.

Lemma ticked_by_trans n d1 d2 t0 t1 t2 :
  ticked_by n d1 t0 t1 -> ticked_by n d2 t1 t2 -> ticked_by n (d1 + d2) t0 t2.
Proof.
  intros (nd & H0 & H1 & Hs & Ht & Hi) (nd1 & H1' & H2 & Hs' & Ht' & Hi').
  rewrite H1, lookup_insert_eq in H1'. injection H1' as <-. exists nd.
  rewrite H2, H1, insert_insert_eq, Hs', Hs, Ht', Ht, Hi', Hi. cbn.
  rewrite !u64_add, !Z.add_assoc. done.
Qed.

Lemma ticked_by_0 n t nd :
  nodes t !! n = Some nd -> fits 64 (done_ nd) -> fits 64 (sum_done t) -> ticked_by n 0 t t.
Proof.
  intros Hn Hd Hs. exists nd. rewrite !Z.add_0_r. unfold u64. rewrite !wrap_small by done.
  split_and!; try done. symmetry. apply insert_id. rewrite Hn. by destruct nd.
Qed.

(** An environment call of the sender touches neither the socket nor a file. *)
Definition quiet (c : syscall) : bool :=
  match c with
  | LoadOk | TryLockRoot | Now | Open _ | Mmap _ _ | Close _ => true
  | _ => false
  end.

Lemma sends_quiet_call sock b c r rest w w' :
  quiet c = true -> sends sock b w w' -> sends sock b w (kernel c r rest w').
Proof. intros Hc H. apply sends_quiet; [done|by destruct c|by destruct c]. Qed.

(** A call of the environment that must succeed. *)
Lemma wp_env sock b c fmt w0 w (R : World -> Prop) (Q : Z -> World -> Prop) :
  quiet c = true -> sends sock b w0 w -> (forall w', sends sock b w0 w' -> R w') ->
  (forall v w', sends sock b w0 w' -> Q v w') -> wp (sys_or_pfatal c fmt) (on_ret R Q) w.
Proof.
  intros Hc Hs HR HQ. apply wp_bind, wp_sys_int; [auto|]. intros r rest _ _. cbn zeta.
  set (w1 := kernel _ _ _ _). assert (sends sock b w0 w1) by by apply sends_quiet_call.
  destruct (clip c r); auto.
  - by apply wp_ret, HQ.
  - apply wp_stop. cbn. auto.
Qed.

Lemma wp_tick_node sock b n delta t nd w0 w (R : World -> Prop) (Q : Tracked M -> World -> Prop) :
  sends sock b w0 w -> nodes t !! n = Some nd ->
  (forall w', sends sock b w0 w' -> R w') ->
  (forall t' w', sends sock b w0 w' -> ticked_by n delta t t' -> Q t' w') ->
  wp (tick_node n delta t) (on_ret R Q) w.
Proof.
  intros Hs Hn HR HQ. unfold tick_node.
  assert (forall locked now w', sends sock b w0 w' ->
    wp (match tick render_fn_ n delta locked now t with
        | Some (_, Some (_, Throws)) => pfatal "terminating due to uncaught exception"
        | Some (_, Some (_, Waits)) => stop Blocked
        | Some (t', _) => mret t'
        | None => undef "tick of a destroyed node" end) (on_ret R Q) w') as Hend.
  { intros locked now w' Hw'. destruct (tick_effect n delta locked now t nd Hn) as (t' & x & -> & Ht').
    destruct x as [[? []]|]; [by apply wp_ret, HQ|apply wp_stop; cbn; auto..|by apply wp_ret, HQ]. }
  apply wp_bind, wp_sys_int; [auto|]. intros r rest _ _. cbn zeta.
  set (w1 := kernel _ _ _ _). assert (sends sock b w0 w1) by by apply sends_quiet_call.
  destruct (clip TryLockRoot r) as [v| | | |]; auto.
  - apply wp_bind. destruct (negb (v =? 0)); [|by apply wp_ret, Hend].
    eapply wp_env; [done|done|done|]. intros. by apply Hend.
  - apply wp_bind, wp_ret. by apply Hend.
Qed.

(** ** The loop over the contents *)

Lemma write_partial_ans fd buf w r w' :
  write_partial fd buf w = (Ret r, w') -> (length (w_ans w') <= length (w_ans w))%nat.
Proof.
  apply loop_ans. clear. intros off w r w'. unfold write_body. case_ifs.
  - intros (x & w1 & E%sys_int_ans & H)%bind_Ret. destruct x; case_ifs;
      unfold mret, sys_ret in H; simplify_eq; lia.
  - unfold mret, sys_ret. intros. simplify_eq. lia.
Qed.

Lemma tick_node_ans n d t w t' w' :
  tick_node n d t w = (Ret t', w') -> (length (w_ans w') < length (w_ans w))%nat.
Proof.
  intros (x & w1 & E%sys_int_ans & H)%bind_Ret.
  apply bind_Ret in H as (now & w2 & E2 & H).
  assert (w2 = w') as ->.
  { destruct (tick _ _ _ _ _ _) as [[? [[? []]|]]|]; unfold mret, sys_ret, undef, pfatal, stop in H; by simplify_eq. }
  case_ifs; [apply sys_or_pfatal_ans in E2; lia|].
  unfold mret, sys_ret in E2. simplify_eq. lia.
Qed.

Lemma contents_body_consuming sock out_fd size map n :
  consuming (contents_body sock out_fd size map n).
Proof.
  intros [n_sent t] w s' w'. unfold contents_body. cbn. case_ifs.
  - intros (r & w1 & E1%write_partial_ans & H)%bind_Ret.
    apply bind_Ret in H as (f & w2 & E2 & H).
    assert (length (w_ans w2) <= length (w_ans w1))%nat.
    { unfold chunk_failed in E2. destruct (_ || _); [unfold mret, sys_ret in E2; simplify_eq; lia|].
      apply bind_Ret in E2 as (o & w3 & E2%sys_or_pfatal_ans & E3).
      unfold mret, sys_ret in E3. simplify_eq. lia. }
    destruct f.
    + apply bind_Ret in H as (? & ? & _ & H). unfold mret, sys_ret in H. simplify_eq.
    + apply bind_Ret in H as (t' & w3 & E3%tick_node_ans & H).
      unfold mret, sys_ret in H. simplify_eq. lia.
  - intros (? & ? & _ & H)%bind_Ret. unfold mret, sys_ret in H. simplify_eq.
Qed.

(** [n_sent] bytes of the contents are on the wire and on the progress bar. *)
Definition contents_inv (sock size : Z) (map : list byte) (n : nat) (t0 : Tracked M) (w0 : World)
    (st : Z * Tracked M) (w : World) : Prop :=
  0 <= st.1 <= size /\ sends sock (ztake st.1 map) w0 w /\ ticked_by n st.1 t0 st.2.

(** The end of a transfer: all of it with [true], a prefix with [false]; the
    progress never claims more than was sent. *)
Definition contents_post (sock : Z) (map : list byte) (n : nat) (t0 : Tracked M) (w0 : World)
    (r : bool * Tracked M) (w : World) : Prop :=
  exists b d, sends sock b w0 w /\ b `prefix_of` map /\ ticked_by n d t0 r.2 /\ 0 <= d <= zlen b /\
    (r.1 = true -> b = map /\ d = zlen map).

Lemma wp_close sock b out_fd {A} (a : A) w0 w (R : World -> Prop) (Q : A -> World -> Prop) :
  sends sock b w0 w -> (forall w', sends sock b w0 w' -> R w') ->
  (forall w', sends sock b w0 w' -> Q a w') ->
  wp (_ ← sys_ignore (Close out_fd); mret a) (on_ret R Q) w.
Proof.
  intros Hs HR HQ. apply wp_bind. unfold sys_ignore. apply wp_bind, wp_sys; [auto|].
  intros r rest _ _. apply wp_ret. by apply wp_ret, HQ, sends_quiet_call.
Qed.

(** The state of the loop after [k] more bytes, before the progress knows. *)
Lemma contents_failed sock size map n t0 w0 n_sent k t w :
  zlen map = size -> 0 <= n_sent -> 0 <= k -> n_sent + k <= size ->
  sends sock (ztake (n_sent + k) map) w0 w -> ticked_by n n_sent t0 t ->
  contents_post sock map n t0 w0 (false, t) w.
Proof.
  intros Hmap Hn Hk Hle Hs Ht. exists (ztake (n_sent + k) map), n_sent. cbn.
  split_and!; try done; try apply ztake_prefix. zl.
Qed.

Lemma contents_rest sock out_fd size map n t0 w0 n_sent k t (failed : bool) w :
  zlen map = size -> 0 <= n_sent -> 0 <= k -> n_sent + k <= size ->
  sends sock (ztake (n_sent + k) map) w0 w -> ticked_by n n_sent t0 t ->
  wp (if failed then _ ← sys_ignore (Close out_fd); mret (inr (false, t))
      else t' ← tick_node n k t; mret (inl (n_sent + k, t')))
    (on_ret (sent_prefix sock map w0) (fun r w' =>
      match r with
      | inl st' => contents_inv sock size map n t0 w0 st' w'
      | inr a => contents_post sock map n t0 w0 a w'
      end)) w.
Proof.
  intros Hmap Hn Hk Hle Hs Ht.
  assert (forall w', sends sock (ztake (n_sent + k) map) w0 w' -> sent_prefix sock map w0 w') as HR
    by (intros; eexists; split; [done|apply ztake_prefix]).
  destruct failed.
  - eapply wp_close; [done|auto|]. intros. by apply (contents_failed _ size _ _ _ _ n_sent k).
  - apply wp_bind. destruct Ht as (nd & Hnd & Hns & Ht).
    eapply wp_tick_node with (w0 := w0) (sock := sock); [done|by rewrite Hns, lookup_insert_eq|auto|].
    intros t' w' Hw' Ht'. apply wp_ret. split_and!; cbn; [lia|lia|done|].
    eapply ticked_by_trans; [|done]. by exists nd.
Qed.

Lemma contents_body_inv sock out_fd size map n t0 w0 st w :
  zlen map = size ->
  contents_inv sock size map n t0 w0 st w ->
  wp (contents_body sock out_fd size map n st) (on_ret (sent_prefix sock map w0) (fun r w' =>
    match r with
    | inl st' => contents_inv sock size map n t0 w0 st' w'
    | inr a => contents_post sock map n t0 w0 a w'
    end)) w.
Proof.
  intros Hmap. destruct st as [n_sent t]. intros (Hn & Hs & Ht). cbn in Hn, Hs, Ht.
  unfold contents_body. cbn [fst snd].
  destruct (Z.ltb_spec n_sent size).
  2:{ assert (n_sent = size) as -> by lia. rewrite ztake_all in Hs by lia.
      apply (wp_close sock map _ _ w0); [done|intros w' H'; by exists map|].
      intros w' H'. exists map, size. cbn. split_and!; (done || lia). }
  set (d := ztake (Z.min CHUNK_SIZE (size - n_sent)) (zdrop n_sent map)).
  assert (zlen d <= size - n_sent) as Hdl by (subst d; unfold CHUNK_SIZE; zl).
  assert (forall k, 0 <= k <= zlen d -> ztake n_sent map ++ ztake k d = ztake (n_sent + k) map) as Hd.
  { intros k Hk. rewrite ztake_add by lia. f_equal. subst d. rewrite ztake_ztake. f_equal.
    unfold CHUNK_SIZE in *. zl. }
  apply wp_bind. eapply wp_mono; [|apply write_partial_wp].
  intros [r| | | |] w1; cbn; try done.
  2-4: intros (tr & [Htr Hf _] & Hp & _); exists (ztake n_sent map ++ written sock tr);
    (split; [eapply sends_trans; [done|by exists tr]|]);
    rewrite <- (ztake_zdrop n_sent map) at 2; apply prefix_app; etrans; [done|apply ztake_prefix].
  intros (tr & [Htr Hf _] & Hw & Hr & _ & _).
  assert (sends sock (ztake (n_sent + n_bytes r) map) w0 w1) as Hs1.
  { rewrite <- Hd by done. eapply sends_trans; [done|by exists tr]. }
  apply wp_bind. unfold chunk_failed. destruct (_ || _).
  - apply wp_ret. apply (contents_rest sock out_fd size map n t0 w0 n_sent (n_bytes r) t true); (done || lia).
  - apply wp_bind. eapply wp_env; [done|done| |].
    + intros w' Hw'. eexists. split; [done|apply ztake_prefix].
    + intros v w2 Hw2. apply wp_ret. 
      apply (contents_rest sock out_fd size map n t0 w0 n_sent (n_bytes r) t (v =? 0)); (done || lia).
Qed.

Lemma wp_contents sock out_fd size map n t0 nd w0 :
  zlen map = size -> 0 <= size -> nodes t0 !! n = Some nd ->
  fits 64 (done_ nd) -> fits 64 (sum_done t0) ->
  wp (loop (contents_body sock out_fd size map n) (0, t0))
    (on_ret (sent_prefix sock map w0) (contents_post sock map n t0 w0)) w0.
Proof.
  intros Hmap Hsize Hn Hd Hs.
  apply (wp_loop _ (contents_body_consuming sock out_fd size map n)) with
    (I := contents_inv sock size map n t0 w0).
  - intros st w. by apply contents_body_inv.
  - split_and!; cbn; [lia|lia|rewrite ztake_le_0 by lia; apply sends_refl|by eapply ticked_by_0].
Qed.

Lemma sends_fs sock b w w' : sends sock b w w' -> w_fs w' = w_fs w.
Proof. by intros (t & _ & -> & _). Qed.

Lemma contents_post_after sock b map n t0 w0 w1 r w :
  sends sock b w0 w1 -> contents_post sock map n t0 w1 r w ->
  exists b' d, sends sock b' w0 w /\ b' `prefix_of` b ++ map /\ ticked_by n d t0 r.2 /\
    0 <= d <= Z.max 0 (zlen b' - zlen b) /\ (r.1 = true -> b' = b ++ map /\ d = zlen map).
Proof.
  intros H (b1 & d & H1 & Hp & Ht & Hd & Hok). exists (b ++ b1), d. split_and!; try lia; try done.
  - by eapply sends_trans.
  - by apply prefix_app.
  - zl.
  - intros Hr. destruct (Hok Hr) as [-> ->]. done.
Qed.

Lemma wp_write_file_contents sock p meta n t0 nd content b w0 w (R : World -> Prop)
    (Q : bool * Tracked M -> World -> Prop) :
  sends sock b w0 w -> w_fs w !! native p = Some (File content) ->
  0 <= m_fsize meta -> nodes t0 !! n = Some nd -> fits 64 (done_ nd) -> fits 64 (sum_done t0) ->
  let data := resize (m_fsize meta) content in
  (forall w', sent_prefix sock (b ++ data) w0 w' -> R w') ->
  (forall r w' b' d, sends sock b' w0 w' -> b' `prefix_of` b ++ data -> ticked_by n d t0 r.2 ->
     0 <= d <= Z.max 0 (zlen b' - zlen b) -> (r.1 = true -> b' = b ++ data /\ d = zlen data) -> Q r w') ->
  wp (write_file_contents sock p meta n t0) (on_ret R Q) w.
Proof.
  intros Hs Hfile Hsize Hn Hd Hsum data HR HQ.
  assert (forall w', sends sock b w0 w' -> R w') as HR'.
  { intros w' H. apply HR. exists b. split; [done|]. by apply prefix_app_r. }
  assert (w_fs w = w_fs w0) as Hfs by by eapply sends_fs.
  unfold write_file_contents. apply wp_bind. eapply wp_env; [done|done|done|]. intros out_fd w1 H1.
  apply wp_bind. eapply wp_env; [done|done|done|]. intros v w2 H2.
  apply wp_bind. unfold wp, mapped. rewrite (sends_fs _ _ _ _ H2), <- Hfs, Hfile. cbn. fold data.
  eapply wp_mono; [|apply (wp_contents _ out_fd _ data _ _ nd); [by apply zlen_resize|done..]].
  intros [r| | | |] w3; cbn; try done.
  1: { intros Hp. eapply contents_post_after in Hp as (b' & d & ?); [|done].
       destruct_and!. by eapply HQ. }
  all: intros Hp; apply HR; by eapply sent_prefix_after.
Qed.

(** [send_rel] after the length test. The result [true] means the whole frame
    is on the wire; otherwise a prefix of it is. *)
Definition sent_frame (sock : Z) (f : frame) (n : nat) (t0 : Tracked M) (w0 : World)
    (r : bool * Tracked M) (w : World) : Prop :=
  exists b d, sends sock b w0 w /\ b `prefix_of` frame_bytes f /\ ticked_by n d t0 r.2 /\
    0 <= d <= Z.max 0 (zlen b - zlen (fr_hdr f ++ fr_path f)) /\
    (r.1 = true -> b = frame_bytes f /\ d = zlen (fr_data f)).

Lemma sent_frame_failed sock f n t0 nd b w0 w :
  nodes t0 !! n = Some nd -> fits 64 (done_ nd) -> fits 64 (sum_done t0) ->
  sends sock b w0 w -> b `prefix_of` frame_bytes f -> sent_frame sock f n t0 w0 (false, t0) w.
Proof.
  intros. exists b, 0. cbn. split_and!; try done; try lia. by eapply ticked_by_0.
Qed.

Lemma wp_send_rel sock seq p rel meta n t0 nd content w0 :
  zlen (bytes_of rel) < 2 ^ 16 -> 0 <= m_fsize meta ->
  w_fs w0 !! native p = Some (File content) \/ m_ftype meta <> regular ->
  nodes t0 !! n = Some nd -> fits 64 (done_ nd) -> fits 64 (sum_done t0) ->
  let f := node_frame seq rel meta content in
  wp (send_rel sock seq p rel meta n t0)
    (on_ret (sent_prefix sock (frame_bytes f) w0) (sent_frame sock f n t0 w0)) w0.
Proof.
  intros Hrel Hsize Hfile Hn Hd Hsum f. unfold send_rel.
  change (encode_hdr _ _) with (fr_hdr f).
  assert (fr_path f = bytes_of rel) as Hpath by done. rewrite <- Hpath in Hrel |- *.
  assert (fr_data f = contents meta content) as Hdata by done.
  clearbody f. destruct (Z.ltb_spec (2 ^ 16 - 1) (zlen (fr_path f))); [lia|].
  assert (forall b w, sent_prefix sock (fr_hdr f) w0 w -> sent_prefix sock (fr_hdr f ++ b) w0 w) as Hpre.
  { intros b w (b' & Hb & Hp). exists b'. split; [done|by apply prefix_app_r]. }
  apply wp_bind, wp_write_exact; [intros; by apply Hpre|]. intros r1 w1 Hp1 Hs1.
  destruct (io_ok r1); cbn.
  2:{ apply Hpre with (b := fr_path f ++ fr_data f) in Hp1 as (b & Hb & Hp).
      by eapply sent_frame_failed. }
  specialize (Hs1 eq_refl).
  apply wp_bind, wp_write_exact.
  { intros w Hw. unfold frame_bytes. eapply sent_prefix_after; [done|].
    destruct Hw as (b' & Hb & Hp). exists b'. split; [done|by apply prefix_app_r]. }
  intros r2 w2 Hp2 Hs2. eapply sent_prefix_after in Hp2; [|exact Hs1].
  destruct (io_ok r2); cbn.
  2:{ destruct Hp2 as (b & Hb & Hp). eapply sent_frame_failed; [done..|].
      unfold frame_bytes. rewrite app_assoc. by apply prefix_app_r. }
  specialize (Hs2 eq_refl). eapply sends_trans in Hs2; [|exact Hs1].
  unfold contents in Hdata. unfold sent_frame, frame_bytes. rewrite !app_assoc, !Hdata.
  destruct (bool_decide (m_ftype meta = regular) && (0 <? m_fsize meta)) eqn:E.
  - apply andb_true_iff in E as [Hreg _]. apply bool_decide_eq_true_1 in Hreg.
    destruct Hfile as [Hfile|]; [|done].
    eapply wp_write_file_contents with (content := content); [done| |done..| |].
    + by rewrite (sends_fs _ _ _ _ Hs2).
    + done.
    + intros r w' b' d **. exists b', d. done.
  - apply wp_ret. exists (fr_hdr f ++ fr_path f), 0. cbn. rewrite app_nil_r.
    split_and!; try done; try lia. by eapply ticked_by_0.
Qed.

(** ** Progress: a kernel that takes what it is given lets the sender finish *)

Lemma io_ok_Ok n : io_ok (mkIO Ok n) = true.
Proof. done. Qed.

Lemma write_one fd buf v rest w :
  w_ans w = ROk v :: rest -> 0 < zlen buf <= MAX_RW_SIZE -> zlen buf <= v ->
  write_partial fd buf w =
    (Ret (mkIO Ok (zlen buf)), kernel (Write fd buf) (ROk (zlen buf)) rest w).
Proof.
  intros Hans Hlen Hv. unfold write_partial.
  rewrite (loop_inl _ (write_body_consuming fd buf) _ _ (zlen buf)
    (kernel (Write fd buf) (ROk (zlen buf)) rest w)).
  - apply loop_inr; [apply write_body_consuming|]. unfold write_body. by rewrite Z.ltb_irrefl.
  - unfold write_body. destruct (Z.ltb_spec 0 (zlen buf)); [|lia].
    rewrite Z.sub_0_r, Z.min_r, zdrop_le_0, ztake_all by lia. sys_go. rewrite Hans. cbn.
    replace (Z.max 0 (Z.min v (zlen buf))) with (zlen buf) by lia.
    destruct (Z.eqb_spec (zlen buf) 0); [lia|done].
Qed.

Lemma write_exact_one fd buf v rest w :
  w_ans w = ROk v :: rest -> 0 < zlen buf <= MAX_RW_SIZE -> zlen buf <= v ->
  write_exact fd buf w =
    (Ret (mkIO Ok (zlen buf)), kernel (Write fd buf) (ROk (zlen buf)) rest w).
Proof.
  intros. unfold write_exact. erewrite bind_of_Ret by by eapply write_one. cbn. by rewrite Z.eqb_refl.
Qed.

(** One chunk: write(2) takes it, [ok] is still set, another thread draws. *)
Definition chunk_script : list sysret := [ROk CHUNK_SIZE; ROk 1; ROk 0].

Lemma contents_chunk sock out_fd size map n n_sent t nd rest w :
  zlen map = size -> 0 <= n_sent < size -> nodes t !! n = Some nd ->
  w_ans w = chunk_script ++ rest ->
  exists t' w', contents_body sock out_fd size map n (n_sent, t) w =
      (Ret (inl (n_sent + Z.min CHUNK_SIZE (size - n_sent), t')), w') /\
    (exists nd', nodes t' !! n = Some nd') /\ w_ans w' = rest.
Proof.
  intros Hmap Hn Hnd Hans. unfold contents_body. cbn [fst snd].
  destruct (Z.ltb_spec n_sent size); [|lia].
  set (d := ztake _ _). assert (zlen d = Z.min CHUNK_SIZE (size - n_sent)) as Hd
    by (subst d; unfold CHUNK_SIZE; zl).
  assert (0 < zlen d <= CHUNK_SIZE) as Hd' by (unfold CHUNK_SIZE in *; lia).
  erewrite bind_of_Ret by (eapply write_one; [exact Hans|unfold MAX_RW_SIZE, CHUNK_SIZE in *; lia|lia]).
  destruct (tick_effect n (zlen d) false 0 t nd Hnd) as (t' & x & Ht & nd0 & _ & Hns & _).
  assert (x = None) as -> by (unfold tick in Ht; destruct (Tracked.count _ _ _); [by injection Ht|done]).
  unfold chunk_failed. cbn [n_bytes]. rewrite io_ok_Ok.
  destruct (Z.eqb_spec (zlen d) 0); [lia|]. cbn [negb orb].
  unfold tick_node. sys_go. rewrite Ht. rewrite <- Hd. eexists _, _. split; [done|].
  split; [|done]. rewrite Hns, lookup_insert_eq. by eexists.
Qed.

Lemma contents_live sock out_fd size map n k n_sent t nd rest w :
  zlen map = size -> 0 <= n_sent <= size -> nodes t !! n = Some nd ->
  w_ans w = concat (replicate k chunk_script) ++ ROk 0 :: rest ->
  (Z.of_nat k - 1) * CHUNK_SIZE < size - n_sent <= Z.of_nat k * CHUNK_SIZE ->
  exists t' w', loop (contents_body sock out_fd size map n) (n_sent, t) w = (Ret (true, t'), w').
Proof.
  revert n_sent t nd w. induction k as [|k IH]; intros n_sent t nd w Hmap Hn Hnd Hans Hk.
  - assert (n_sent = size) as -> by (unfold CHUNK_SIZE in *; lia). eexists _, _.
    apply loop_inr; [apply contents_body_consuming|]. unfold contents_body. cbn [fst snd].
    rewrite Z.ltb_irrefl. sys_go. rewrite Hans. done.
  - assert (n_sent < size) by (unfold CHUNK_SIZE in *; lia).
    cbn [replicate concat] in Hans. rewrite <- app_assoc in Hans.
    destruct (contents_chunk sock out_fd size map n n_sent t nd _ w Hmap ltac:(lia) Hnd Hans)
      as (t1 & w1 & E & [nd1 Hnd1] & Hans1).
    rewrite (loop_inl _ (contents_body_consuming sock out_fd size map n) _ _ _ _ E).
    apply (IH _ _ nd1); [done|unfold CHUNK_SIZE in *; lia|done|done|].
    unfold CHUNK_SIZE in *. lia.
Qed.

(** The number of chunks of a file. *)
Definition n_chunks (size : Z) : nat := Z.to_nat ((size + CHUNK_SIZE - 1) / CHUNK_SIZE).

Lemma n_chunks_spec size :
  0 < size -> (Z.of_nat (n_chunks size) - 1) * CHUNK_SIZE < size <= Z.of_nat (n_chunks size) * CHUNK_SIZE.
Proof.
  intros H. unfold n_chunks, CHUNK_SIZE.
  pose proof (Z.div_mod (size + 16 * 1024 - 1) (16 * 1024) ltac:(lia)).
  pose proof (Z.mod_pos_bound (size + 16 * 1024 - 1) (16 * 1024) ltac:(lia)).
  assert (0 <= (size + 16 * 1024 - 1) / (16 * 1024)) by (apply Z.div_pos; lia).
  rewrite Z2Nat.id by done. lia.
Qed.

(** Header, path and contents accepted in full; descriptor 30 for the file. *)
Definition full_script (meta : M) : list sysret :=
  [ROk MAX_RW_SIZE; ROk MAX_RW_SIZE] ++
  (if bool_decide (m_ftype meta = regular) && (0 <? m_fsize meta)
   then [ROk 30; ROk 4096] ++ concat (replicate (n_chunks (m_fsize meta)) chunk_script) ++ [ROk 0]
   else []).

Lemma send_rel_live sock seq p rel meta n t0 nd content rest w0 :
  zlen (pad.2) = 4 -> 0 < zlen (bytes_of rel) < 2 ^ 16 ->
  w_fs w0 !! native p = Some (File content) \/ m_ftype meta <> regular ->
  nodes t0 !! n = Some nd -> w_ans w0 = full_script meta ++ rest ->
  exists t' w', send_rel sock seq p rel meta n t0 w0 = (Ret (true, t'), w').
Proof.
  intros Hpad Hrel Hfile Hn Hans. unfold send_rel.
  destruct (Z.ltb_spec (2 ^ 16 - 1) (zlen (bytes_of rel))); [lia|].
  set (hdr := encode_hdr _ _). assert (zlen hdr = 24) as Hh by by apply zlen_encode_hdr.
  unfold full_script in Hans. rewrite <- app_assoc in Hans.
  erewrite bind_of_Ret by (eapply write_exact_one; [exact Hans|unfold MAX_RW_SIZE; lia..]).
  rewrite io_ok_Ok. cbn [negb].
  erewrite bind_of_Ret by (eapply write_exact_one; [reflexivity|unfold MAX_RW_SIZE; lia..]).
  rewrite io_ok_Ok. cbn [negb].
  destruct (bool_decide (m_ftype meta = regular) && (0 <? m_fsize meta)) eqn:E; [|by eexists _, _].
  apply andb_true_iff in E as [Hreg Hsz]. apply bool_decide_eq_true_1 in Hreg. zbool.
  destruct Hfile as [Hfile|]; [|done].
  unfold write_file_contents. do 2 (erewrite bind_of_Ret by (sys_go; reflexivity)).
  erewrite bind_of_Ret by (unfold mapped; cbn; rewrite Hfile; reflexivity).
  eapply (contents_live sock 30 (m_fsize meta) _ n (n_chunks (m_fsize meta)) 0 t0 nd);
    [apply zlen_resize; lia|lia|done| |rewrite Z.sub_0_r; by apply n_chunks_spec].
  cbn. by rewrite <- app_assoc.
Qed.

(** ** Properties *)

(** C13. What [send_datamsg] puts on the wire, for a node of the tree and a
    path of at most 65535 bytes: however it ends, a prefix of the node's frame
    (header, relative path, mapped contents) and nothing else; with [true], the
    whole frame, and the progress of the node and of the root grew by exactly
    the size of the contents; with [false], the progress never exceeds the
    contents sent. A destroyed node is never touched. *)
Theorem send_datamsg_sends_frame sock seq base p n t nd rel content w :
  nodes t !! n = Some nd -> fits 64 (done_ nd) -> fits 64 (sum_done t) ->
  0 <= m_fsize (meta nd) -> relative weakly_canonical p base = Some rel ->
  zlen (bytes_of (rel_native rel)) < 2 ^ 16 ->
  w_fs w !! native p = Some (File content) \/ m_ftype (meta nd) <> regular ->
  let f := node_frame seq (rel_native rel) (meta nd) content in
  wp (send_datamsg sock seq base p n t)
    (on_ret (sent_prefix sock (frame_bytes f) w) (sent_frame sock f n t w)) w.
Proof.
  intros Hn Hd Hs Hsz Hrel Hlen Hfile f. unfold send_datamsg. rewrite Hn, Hrel.
  by eapply wp_send_rel.
Qed.

(** C14. The sender finishes: when the kernel takes the bytes it is given and
    no other thread has failed, [send_datamsg] returns [true], for a file of
    any size. *)
Theorem send_datamsg_completes sock seq base p n t nd rel content rest w :
  zlen (pad.2) = 4 -> nodes t !! n = Some nd ->
  relative weakly_canonical p base = Some rel ->
  0 < zlen (bytes_of (rel_native rel)) < 2 ^ 16 ->
  w_fs w !! native p = Some (File content) \/ m_ftype (meta nd) <> regular ->
  w_ans w = full_script (meta nd) ++ rest ->
  exists t' w', send_datamsg sock seq base p n t w = (Ret (true, t'), w').
Proof.
  intros Hpad Hn Hrel Hlen Hfile Hans. unfold send_datamsg. rewrite Hn, Hrel.
  by eapply send_rel_live.
Qed.

(** A relative path that does not fit the 16-bit length is refused
    before anything is written: the stream stays at a frame boundary. *)
Theorem send_datamsg_long_path sock seq base p n t nd rel w :
  nodes t !! n = Some nd -> relative weakly_canonical p base = Some rel ->
  2 ^ 16 <= zlen (bytes_of (rel_native rel)) ->
  exists w', send_datamsg sock seq base p n t w = (Ret (false, t), w') /\ sends sock [] w w'.
Proof.
  intros Hn Hrel Hlen. unfold send_datamsg. rewrite Hn, Hrel. unfold send_rel.
  destruct (Z.ltb_spec (2 ^ 16 - 1) (zlen (bytes_of (rel_native rel)))); [|lia].
  sys_go. eexists. split; [done|]. by eexists.
Qed.
End Send.

(** ** A file to instantiate the theorems with *)

Module SendDemo.
Definition wc (p : path) : option path := Some p.
Definition render : RenderFn M := fun t elapsed => Rows 2.
Definition pad : byte * list byte := (Byte.x00, replicate 4 Byte.x00).
Definition root : path := ["home"; "d"]%string.
Definition file : path := ["home"; "d"; "f"]%string.
Definition body : list byte := bytes_of "contents".
Definition m : M := mkM "f" 420 regular 8.
Definition tree : Tracked M := mkTracked {[0%nat := mkNode true [] 0 8 None m]} 1 (mkRoot 0 0 0 0 8 false).
Definition world : World :=
  mkWorld (full_script m) [] {[native file := File body]} ∅.
Definition send : outcome (bool * Tracked M) * World :=
  send_datamsg wc render pad 7 3 ["home"]%string file 0 tree world.
Definition frame := node_frame pad 3 "d/f" m body.
End SendDemo.

Lemma send_datamsg_sends_frame_witness :
  wp (send_datamsg SendDemo.wc SendDemo.render SendDemo.pad 7 3 ["home"%string] SendDemo.file 0 SendDemo.tree)
    (on_ret (sent_prefix 7 (frame_bytes SendDemo.frame) SendDemo.world)
      (sent_frame 7 SendDemo.frame 0 SendDemo.tree SendDemo.world)) SendDemo.world.
Proof.
  apply (send_datamsg_sends_frame SendDemo.wc SendDemo.render SendDemo.pad 7 3 ["home"%string]
    SendDemo.file 0 SendDemo.tree (mkNode true [] 0 8 None SendDemo.m) ["d"; "f"]%string SendDemo.body).
  - reflexivity.
  - by split.
  - by split.
  - cbn. lia.
  - reflexivity.
  - reflexivity.
  - left. reflexivity.
Defined.

Lemma send_datamsg_completes_witness :
  exists t' w', SendDemo.send = (Ret (true, t'), w').
Proof.
  apply (send_datamsg_completes SendDemo.wc SendDemo.render SendDemo.pad 7 3 ["home"%string]
    SendDemo.file 0 SendDemo.tree (mkNode true [] 0 8 None SendDemo.m) ["d"; "f"]%string
    SendDemo.body []).
  - reflexivity.
  - reflexivity.
  - reflexivity.
  - by split.
  - left. reflexivity.
  - reflexivity.
Defined.

Lemma send_datamsg_long_path_witness :
  let long : path := ["home"; "d"; string_of (replicate 65536 Byte.x61)]%string in
  exists w', send_datamsg SendDemo.wc SendDemo.render SendDemo.pad 7 3 ["home"%string] long 0
      SendDemo.tree SendDemo.world = (Ret (false, SendDemo.tree), w') /\
    sends 7 [] SendDemo.world w'.
Proof.
  apply (send_datamsg_long_path SendDemo.wc SendDemo.render SendDemo.pad 7 3 ["home"%string] _ 0
    SendDemo.tree (mkNode true [] 0 8 None SendDemo.m) ["d"; string_of (replicate 65536 Byte.x61)]%string).
  - reflexivity.
  - reflexivity.
  - vm_compute. discriminate.
Defined.
