(* ===== verification/EndToEnd.v ===== *)
(** * From the sender's tree to the daemon's file system

    One worker of the client sends nodes over its socket ([send_all], the
    calls of [send_datamsg] a worker makes); one connection of the daemon
    receives that stream ([serve]). When the stream is delivered in full, the
    daemon's file system holds each node under its relative path. *)

From S2P Require Import Prelude Sys Net Wire Frames Daemon Conn Tracked Meta Send.

(** [seq], the path and the node of a call of [send_datamsg]. *)
Record job := mkJob { j_seq : Z; j_path : path; j_node : nat }.

Section EndToEnd.
Context (weakly_canonical : path -> option path) (render_fn_ : RenderFn M).
Context (pad : byte * list byte) (base : path).

Fixpoint send_all (sock : Z) (jobs : list job) (t : Tracked M) : Sys (bool * Tracked M) :=
  match jobs with
  | [] => mret (true, t)
  | j :: jobs' =>
      r ← send_datamsg weakly_canonical render_fn_ pad sock (j_seq j) base (j_path j) (j_node j) t;
      if (r.1 : bool) then send_all sock jobs' r.2 else mret (false, r.2)
  end.

(** What a job stands for in a tree and a file system: the metadata of the
    node, its path relative to [base] and the contents of the file. *)
Record job_view := mkJobView { v_rel : string; v_meta : M; v_content : list byte }.

Definition view_of (fs : gmap string fnode) (t : Tracked M) (j : job) (v : job_view) : Prop :=
  (exists nd, nodes t !! j_node j = Some nd /\ meta nd = v_meta v /\ fits 64 (done_ nd)) /\
  (exists rel, relative weakly_canonical (j_path j) base = Some rel /\ rel_native rel = v_rel v) /\
  zlen (bytes_of (v_rel v)) < 2 ^ 16 /\ M_wf (v_meta v) /\ fits 32 (j_seq j) /\
  (fs !! native (j_path j) = Some (File (v_content v)) \/ m_ftype (v_meta v) <> regular).

Definition job_frame (jv : job * job_view) : frame :=
  node_frame pad (j_seq jv.1) (v_rel jv.2) (v_meta jv.2) (v_content jv.2).

(** Ticks change no metadata and keep the counters in range. *)
Lemma view_of_ticked fs t t' n d j v :
  ticked_by n d t t' -> view_of fs t j v -> view_of fs t' j v.
Proof.
  intros (nd & Hn & Hns & _) ((jd & Hj & Hm & Hf) & Hrest). split; [|done].
  rewrite Hns. destruct (decide (n = j_node j)) as [->|].
  - rewrite lookup_insert_eq. simplify_eq. eexists. split; [done|]. split; [done|]. by apply wrap_fits.
  - rewrite lookup_insert_ne by done. by exists jd.
Qed.

Lemma view_frame_wf fs t j v : zlen (pad.2) = 4 -> view_of fs t j v -> frame_wf (job_frame (j, v)).
Proof. intros Hp (_ & _ & Hl & Hm & Hs & _). by apply node_frame_wf. Qed.

Definition data_total (l : list (job * job_view)) : Z :=
  foldr (fun jv z => zlen (fr_data (job_frame jv)) + z) 0 l.

Lemma send_all_frames sock jobs views t w t' w' :
  Forall2 (view_of (w_fs w) t) jobs views -> fits 64 (sum_done t) ->
  send_all sock jobs t w = (Ret (true, t'), w') ->
  sends sock (concat (map frame_bytes (map job_frame (zip jobs views)))) w w' /\
  sum_done t' = u64 (sum_done t + data_total (zip jobs views)).
Proof.
  revert views t w. induction jobs as [|j jobs IH]; intros views t w Hv Hs Hrun.
  - inversion Hv; subst. cbn in Hrun. unfold mret, sys_ret in Hrun. simplify_eq. cbn.
    rewrite Z.add_0_r. split; [apply sends_refl|]. symmetry. by apply wrap_small.
  - inversion Hv as [|? v ? vs Hj Hvs]; subst. cbn in Hrun.
    apply bind_Ret in Hrun as ([ok t1] & w1 & E & Hrun). cbn in Hrun.
    destruct ok; [|unfold mret, sys_ret in Hrun; by simplify_eq].
    pose proof Hj as ((nd & Hn & Hm & Hd) & (rel & Hrel & Hnat) & Hl & (Hp & Hft & Hsz) & Hseq & Hfile).
    rewrite <- Hnat in Hl. rewrite <- Hm in Hfile, Hsz.
    assert (wp _ _ w) as Hsend
      by (apply (wp_send_rel render_fn_ pad sock (j_seq j) (j_path j) (rel_native rel) (meta nd)
            (j_node j) t nd (v_content v)); [done|apply Hsz|done..]).
    unfold send_datamsg in E. rewrite Hn, Hrel in E.
    apply (wp_Ret _ _ _ _ _ _ Hsend) in E as (b & d & Hb & _ & Ht & _ & Hok).
    destruct (Hok eq_refl) as [-> ->]. cbn in Ht.
    apply (IH vs) in Hrun as [Hrest Hsum].
    2:{ eapply Forall2_impl; [exact Hvs|]. intros j' v' Hv'. rewrite (sends_fs _ _ _ _ Hb).
        by eapply view_of_ticked. }
    2:{ destruct Ht as (? & _ & _ & -> & _). by apply wrap_fits. }
    destruct Ht as (? & _ & _ & Hsd & _).
    assert (job_frame (j, v) = node_frame pad (j_seq j) (rel_native rel) (meta nd) (v_content v)) as Hjf
      by (unfold job_frame; cbn; by rewrite Hm, Hnat).
    cbn [zip zip_with map concat]. unfold data_total. cbn [foldr]. rewrite Hsum, Hsd, u64_add, Hjf.
    rewrite Z.add_assoc. split; [by eapply sends_trans|done].
Qed.

(** ** The frames of the jobs *)

Lemma frame_target fs t jobs views j v :
  zlen (pad.2) = 4 -> Forall2 (view_of fs t) jobs views -> (j, v) ∈ zip jobs views ->
  frame_wf (job_frame (j, v)) /\ target_name (job_frame (j, v)) = c_str (v_rel v) /\
  target_node (job_frame (j, v)) =
    if bool_decide (m_ftype (v_meta v) = regular) then File (contents (v_meta v) (v_content v)) else Dir.
Proof.
  intros Hpad Hv (i & Hi)%list_elem_of_lookup. rewrite lookup_zip_with_Some in Hi.
  destruct Hi as (j' & v' & Hjv & Hj & Hv'). injection Hjv as <- <-.
  pose proof (Forall2_lookup_lr _ _ _ _ _ _ Hv Hj Hv') as (_ & _ & Hl & Hm & Hs & _).
  destruct (node_frame_wf pad (j_seq j) (v_rel v) (v_meta v) (v_content v)) as [Hwf Hmsg]; try done.
  split_and!; [done| |].
  - unfold target_name. cbn [fr_path job_frame node_frame]. by rewrite string_of_bytes_of.
  - unfold target_node, job_frame. cbn [fst snd]. by rewrite Hmsg.
Qed.

Lemma frames_names jobs views :
  length jobs = length views ->
  map target_name (map job_frame (zip jobs views)) = map (fun v => c_str (v_rel v)) views.
Proof.
  intros Hl. revert views Hl. induction jobs as [|j jobs IH]; intros [|v views] Hl; try done.
  cbn [map zip zip_with length] in *. f_equal; [|apply IH; lia].
  unfold target_name. cbn [fr_path job_frame node_frame]. by rewrite string_of_bytes_of.
Qed.

Lemma frames_wf fs t jobs views :
  zlen (pad.2) = 4 -> Forall2 (view_of fs t) jobs views ->
  Forall frame_wf (map job_frame (zip jobs views)).
Proof.
  intros Hpad Hv. apply Forall_fmap, Forall_forall. intros [j v] Hin.
  by eapply frame_target in Hin as (? & _).
Qed.

Lemma contents_all m c : m_ftype m = regular -> m_fsize m = zlen c -> contents m c = c.
Proof.
  intros Ht Hs. unfold contents. rewrite Ht, Hs, bool_decide_eq_true_2 by done. cbn.
  destruct (Z.ltb_spec 0 (zlen c)); [apply resize_same|]. symmetry. by apply zlen_0_nil.
Qed.

(** ** The receiving side *)

Lemma pending_nil_base x w : pending x.2 w = [] -> conn_inv x w -> base_fs x.2 w = w_fs w.
Proof.
  intros Hp [_ Hk]. unfold pending, base_fs, kind_inv in *. destruct (cs_kind x.2); try done.
  destruct Hk as (_ & _ & Hb & _). apply app_eq_nil in Hp as [Hp _]. rewrite Hp in Hb.
  pose proof (path_len_decode []). change DataMessage_size with 24 in Hb. zl.
Qed.

Lemma serve_stream k fd x w x' w' l t :
  conn_inv x w -> cs_kind x.2 = Connected -> serve k fd x w = (Ret (inl x'), w') ->
  w_trace w' = w_trace w ++ t -> received fd t = concat (map frame_bytes l) ->
  Forall frame_wf l -> w_fs w' = apply_frames (w_fs w) l.
Proof.
  intros Hi Hk Hrun Ht Hrec Hl.
  destruct (serve_parses k fd x w x' w') as (t' & Ht' & Hi' & _ & Hp & Hb & _); [done|by left|done|].
  assert (t' = t) as -> by (apply (inj (app (w_trace w))); congruence).
  unfold pending at 1 in Hp. unfold pending, base_fs at 2 in Hb. rewrite Hk in Hp, Hb.
  cbn [app] in Hp, Hb. rewrite Hrec in Hp, Hb.
  rewrite <- (app_nil_r (concat _)), parse_frames in Hp, Hb by (done || by left).
  rewrite <- (pending_nil_base x' w'); done.
Qed.

(** ** Properties *)

(** Delivery, end to end: a worker sends any number of nodes and every
    [send_datamsg] succeeds; a fresh connection of the daemon receives the
    bytes that were written, in any fragmentation. Then the daemon's file
    system is the old one with every directory created and every regular file
    holding the bytes of the sender's file, under its path relative to the
    parent of the synchronised root; other names are untouched. *)
Theorem delivery sock jobs views t w1 t' w1' tr1 k fd a client lsock w2 x' w2' tr2 :
  zlen (pad.2) = 4 ->
  Forall2 (view_of (w_fs w1) t) jobs views -> fits 64 (sum_done t) ->
  send_all sock jobs t w1 = (Ret (true, t'), w1') -> w_trace w1' = w_trace w1 ++ tr1 ->
  anon_inv a w2 -> serve k fd (a, set_fds client lsock new_conn) w2 = (Ret (inl x'), w2') ->
  w_trace w2' = w_trace w2 ++ tr2 -> received fd tr2 = written sock tr1 ->
  NoDup (map (fun v => c_str (v_rel v)) views) ->
  (forall j v, (j, v) ∈ zip jobs views -> m_ftype (v_meta v) = regular -> m_fsize (v_meta v) = zlen (v_content v) ->
     w_fs w2' !! c_str (v_rel v) = Some (File (v_content v))) /\
  (forall j v, (j, v) ∈ zip jobs views -> m_ftype (v_meta v) = directory ->
     w_fs w2' !! c_str (v_rel v) = Some Dir) /\
  (forall n, n ∉ map (fun v => c_str (v_rel v)) views -> w_fs w2' !! n = w_fs w2 !! n).
Proof.
  intros Hpad Hv Hs Hsend Ht1 Ha Hserve Ht2 Hrec Hnd.
  destruct (send_all_frames _ _ _ _ _ _ _ Hv Hs Hsend) as [(tr & Htr & _ & Hw) _].
  assert (tr = tr1) as -> by (apply (inj (app (w_trace w1))); congruence).
  set (l := map job_frame (zip jobs views)) in *.
  assert (Forall frame_wf l) as Hl by by eapply frames_wf.
  rewrite Hw in Hrec.
  rewrite (serve_stream k fd (a, set_fds client lsock new_conn) w2 x' w2' l tr2) by (done || by split).
  rewrite <- (frames_names jobs views) in Hnd |- * by by eapply Forall2_length. fold l in Hnd |- *.
  assert (forall j v, (j, v) ∈ zip jobs views -> apply_frames (w_fs w2) l !! c_str (v_rel v) =
    Some (if bool_decide (m_ftype (v_meta v) = regular)
          then File (contents (v_meta v) (v_content v)) else Dir)) as Hlook.
  { intros j v Hin. destruct (frame_target _ _ _ _ _ _ Hpad Hv Hin) as (_ & <- & <-).
    apply apply_frames_lookup; [done|]. subst l. by apply list_elem_of_fmap_2. }
  split_and!.
  - intros j v Hin Hty Hsz. rewrite (Hlook j v Hin), bool_decide_eq_true_2, contents_all; done.
  - intros j v Hin Hty. by rewrite (Hlook j v Hin), Hty.
  - intros n Hn. by apply apply_frames_other.
Qed.
End EndToEnd.

(** ** A directory and a file, sent and received *)

Module DeliveryDemo.
Definition meta_d : M := mkM "d" 493 directory 0.
Definition meta_f : M := mkM "f" 493 regular 2.
Definition tree : Tracked M :=
  mkTracked {[0%nat := mkNode true [1%nat] 0 0 None meta_d; 1%nat := mkNode true [] 0 2 (Some 0%nat) meta_f]}
    2 (mkRoot 0 0 0 0 2 false).
Definition jobs : list job := [mkJob 0 ["home"; "d"]%string 0; mkJob 0 ["home"; "d"; "f"]%string 1].
Definition views : list job_view := [mkJobView "d" meta_d []; mkJobView "d/f" meta_f (bytes_of "hi")].
Definition world : World :=
  mkWorld (full_script meta_d ++ full_script meta_f) [] {["/home/d/f"%string := File (bytes_of "hi")]} ∅.
Definition send : outcome (bool * Tracked M) * World :=
  send_all SendDemo.wc SendDemo.render SendDemo.pad ["home"%string] 7 jobs tree world.
Definition sent_tree : Tracked M := match send with (Ret (_, t), _) => t | _ => tree end.

Lemma views_ok : Forall2 (view_of SendDemo.wc ["home"%string] (w_fs world) tree) jobs views.
Proof.
  constructor; [|constructor; [|constructor]]; split_and!; try (by split); try (by eexists).
  - by right.
  - left. reflexivity.
Qed.
End DeliveryDemo.

Lemma delivery_witness :
  w_fs Demo.final.2 !! "d/f"%string = Some (File (bytes_of "hi")) /\
  w_fs Demo.final.2 !! "d"%string = Some Dir.
Proof.
  destruct (delivery SendDemo.wc SendDemo.render SendDemo.pad ["home"%string] 7 DeliveryDemo.jobs
    DeliveryDemo.views DeliveryDemo.tree DeliveryDemo.world DeliveryDemo.sent_tree
    DeliveryDemo.send.2 (w_trace DeliveryDemo.send.2) 3 9 no_anon 9 4 Demo.world Demo.final.1 Demo.final.2
    (w_trace Demo.final.2)) as (Hfile & Hdir & _).
  - reflexivity.
  - exact DeliveryDemo.views_ok.
  - by split.
  - vm_compute. reflexivity.
  - symmetry. apply app_nil_l.
  - intros n Hn. by apply elem_of_empty in Hn.
  - exact Demo.run.
  - symmetry. apply app_nil_l.
  - vm_compute. reflexivity.
  - refine (bool_decide_eq_true_1 _ _). vm_compute. reflexivity.
  - split.
    + apply (Hfile (mkJob 0 ["home"; "d"; "f"]%string 1) (mkJobView "d/f" DeliveryDemo.meta_f (bytes_of "hi")));
        [by right; left|reflexivity|reflexivity].
    + apply (Hdir (mkJob 0 ["home"; "d"]%string 0) (mkJobView "d" DeliveryDemo.meta_d []));
        [by left|reflexivity].
Defined.
