(* ===== verification/Workers.v ===== *)
(** * A tree sent by many workers

    The tasks of [sync_with_remote] run on several threads, each of which
    sends its nodes over a socket of its own; the daemon serves the
    connections in the order in which poll(2) reports them. This file composes
    the sender of [EndToEnd.v] with the connections of [Multi.v]: whatever the
    distribution of the nodes over the workers and the interleaving of the
    connections, the daemon has the tree at the end. The workers share the
    progress tree, of which a worker reads the metadata and only the counters
    change ([view_of_ticked]). *)

From S2P Require Import Prelude Sys Net Wire Frames Daemon Conn Multi Tracked Meta Send EndToEnd.

(** ** Frames by connection *)

Lemma of_conn_cons_same {A} fd f (l : list (Z * A)) : of_conn fd ((fd, f) :: l) = f :: of_conn fd l.
Proof. unfold of_conn. by rewrite filter_cons_True. Qed.

Lemma of_conn_cons_other {A} fd fd' f (l : list (Z * A)) : fd' <> fd -> of_conn fd ((fd', f) :: l) = of_conn fd l.
Proof. intros H. unfold of_conn. by rewrite filter_cons_False. Qed.

Lemma of_conn_skip {A} fd f (l : list (Z * A)) fds :
  fd ∉ fds -> map (fun k => of_conn k ((fd, f) :: l)) fds = map (fun k => of_conn k l) fds.
Proof.
  intros Hn. apply map_ext_in. intros k Hk. apply of_conn_cons_other. intros ->.
  apply Hn. by apply list_elem_of_In.
Qed.

(** Sorting the frames by their connection permutes them. *)
Lemma of_conn_perm {A} fds (l : list (Z * A)) :
  NoDup fds -> Forall (fun x => x.1 ∈ fds) l -> l.*2 ≡ₚ concat (map (fun fd => of_conn fd l) fds).
Proof.
  intros Hnd. induction 1 as [|[fd f] l Hfd _ IH].
  - cbn [fmap list_fmap]. induction fds as [|k fds IH]; [done|]. cbn. apply IH. by inversion Hnd.
  - cbn in Hfd. apply list_elem_of_split in Hfd as (k1 & k2 & ->).
    apply NoDup_app in Hnd as (_ & Hn1 & [Hn2 _]%NoDup_cons).
    assert (fd ∉ k1) as Hn by (intros H; apply (Hn1 fd H); by left).
    rewrite fmap_cons, IH. rewrite !map_app, !concat_app. cbn [map concat snd].
    rewrite of_conn_cons_same, !of_conn_skip by done. cbn [app]. by rewrite Permutation_middle.
Qed.

Lemma apply_frames_perm fs l l' :
  l ≡ₚ l' -> NoDup (map target_name l) -> apply_frames fs l = apply_frames fs l'.
Proof.
  intros Hp Hnd. apply map_eq. intros n. destruct (decide (n ∈ map target_name l)) as [Hin|Hin].
  - apply list_elem_of_fmap in Hin as (f & -> & Hf).
    rewrite !apply_frames_lookup; [done|by rewrite <- Hp|by rewrite <- Hp|done|done].
  - rewrite !apply_frames_other; [done| |done]. by rewrite <- Hp.
Qed.

(** ** Connections between two messages *)

Lemma pending_nil_own a c w : kind_inv a c w -> pending c w = [] -> own c = ∅.
Proof.
  unfold pending, own, kind_inv. destruct (cs_kind c); try done. intros (_ & _ & Hb & _) Hp.
  apply app_eq_nil in Hp as [Hp _]. rewrite Hp in Hb.
  pose proof (path_len_decode []). change DataMessage_size with 24 in Hb. zl.
Qed.

Lemma visible_idle d w :
  clients_inv d w -> (forall fd c, d_states d !! fd = Some c -> pending c w = []) -> visible d w = w_fs w.
Proof.
  intros Hi Hp. apply map_eq. intros n. rewrite lookup_visible. case_decide as Hn; [|done].
  apply elem_temps in Hn as (fd & c & Hc & Hn). destruct (ci_conn _ _ Hi fd c Hc) as [Hk _].
  by rewrite (pending_nil_own _ _ _ Hk (Hp fd c Hc)) in Hn.
Qed.

(** ** Connections that receive whole frames *)

Section served.
Context (temporary : string -> Prop) (ws : list (Z * list frame)).
Context (fds : list Z) (d : Daemon) (w : World) (d' : Daemon) (w' : World) (tr : list event).

(** Connection [fd] is fresh and receives the frames [l]. *)
Definition receives (fd : Z) (l : list frame) : Prop :=
  (exists lsock, d_states d !! fd = Some (set_fds fd lsock new_conn)) /\
  Forall frame_wf l /\ received fd tr = concat (map frame_bytes l).

Definition all_frames : list frame := concat ws.*2.

Hypothesis Hconn : Forall (fun x => receives x.1 x.2) ws.
Hypothesis Hfds : NoDup ws.*1.
Hypothesis Hdom : forall fd, is_Some (d_states d !! fd) -> fd ∈ ws.*1.

Lemma conn_stream fd l c : (fd, l) ∈ ws -> d_states d !! fd = Some c -> stream fd c w tr = (l, []).
Proof using Hconn.
  intros Hin Hc. rewrite Forall_forall in Hconn. apply Hconn in Hin as ([lsock Hd] & Hl & Hr). cbn in *.
  simplify_eq. unfold stream. cbn [pending]. rewrite Hr, app_nil_l, <- (app_nil_r (concat _)).
  apply parse_frames; [done|by left].
Qed.

Lemma elem_all_frames fd l f : (fd, l) ∈ ws -> f ∈ l -> f ∈ all_frames.
Proof.
  intros Hl Hf. apply list_elem_of_In, in_concat. exists l.
  split; apply list_elem_of_In; [by apply (list_elem_of_fmap_2 snd) in Hl|done].
Qed.

Lemma stream_of fd c : d_states d !! fd = Some c -> exists l, (fd, l) ∈ ws.
Proof using Hdom.
  intros Hc. assert (fd ∈ ws.*1) as ([k1 l] & -> & Hin)%list_elem_of_fmap by (apply Hdom; by exists c).
  by exists l.
Qed.

Lemma sorted_frames l :
  Forall (fun x => is_Some (d_states d !! x.1)) l ->
  (forall fd c, d_states d !! fd = Some c -> of_conn fd l = (stream fd c w tr).1) ->
  l.*2 ≡ₚ all_frames.
Proof using All.
  intros Hl Hof. rewrite (of_conn_perm ws.*1); [|done|eapply Forall_impl; [exact Hl|]; intros x; apply Hdom].
  apply reflexive_eq. unfold all_frames. rewrite <- list_fmap_compose. f_equal. apply map_ext_in.
  intros [fd k] Hx%list_elem_of_In. cbn. pose proof Hconn as Hc. rewrite Forall_forall in Hc.
  destruct (Hc _ Hx) as ([lsock Hd] & _). cbn in Hd. by rewrite (Hof _ _ Hd), (conn_stream fd k).
Qed.

(** At the end no connection is in the middle of a frame, and the files are
    the frames of all the connections in any order. *)
Lemma served_frames :
  clients_inv d w -> names_ok temporary d w -> Forall (fun fd => is_Some (d_states d !! fd)) fds ->
  serve_clients fds d w = (Ret (inl d'), w') -> w_trace w' = w_trace w ++ tr ->
  NoDup (map target_name all_frames) -> Forall (fun n => ~ temporary n) (map target_name all_frames) ->
  w_fs w' = apply_frames (w_fs w) all_frames.
Proof using All.
  intros Hi Hn Hall Hrun Ht Hnd Htmp.
  destruct (serve_interleaved temporary fds d w d' w' tr) as (Hi' & Hd & Hp & l & Hv & Hl & Hof); try done.
  - intros fd c f Hc Hf. destruct (stream_of fd c Hc) as [k Hk]. rewrite (conn_stream fd k c Hk Hc) in Hf.
    rewrite Forall_fmap, Forall_forall in Htmp. apply Htmp. by eapply elem_all_frames.
  - rewrite <- (visible_idle d w Hi), <- (visible_idle d' w' Hi'), Hv.
    + pose proof (sorted_frames l Hl Hof) as Hs. apply apply_frames_perm; [done|]. by rewrite Hs.
    + intros fd c' Hc'. destruct (proj1 (elem_of_dom (d_states d) fd)) as [c Hc].
      { rewrite <- Hd. by apply elem_of_dom_2 in Hc'. }
      destruct (stream_of fd c Hc) as [k Hk], (Hp fd c Hc) as (c1 & Hc1 & Hc1p).
      rewrite (conn_stream fd k c Hk Hc) in Hc1p. by simplify_eq.
    + intros fd c Hc. destruct (stream_of fd c Hc) as [k Hk]. pose proof Hconn as Hk'.
      rewrite Forall_forall in Hk'. destruct (Hk' _ Hk) as ([lsock Hc'] & _). cbn in Hc'. by simplify_eq.
Qed.
End served.

Section Workers.
Context (weakly_canonical : path -> option path) (render_fn_ : RenderFn M).
Context (pad : byte * list byte) (base : path).
Hypothesis Hpad : zlen (pad.2) = 4.

(** What a worker sends, the run in which it does and the trace of that. *)
Record worker := mkWorker {
  k_sock : Z; k_jobs : list job; k_views : list job_view;
  k_tree : Tracked M; k_world : World; k_trace : list event
}.

Definition worker_ok (k : worker) : Prop :=
  Forall2 (view_of weakly_canonical base (w_fs (k_world k)) (k_tree k)) (k_jobs k) (k_views k) /\
  fits 64 (sum_done (k_tree k)) /\
  exists t' w', send_all weakly_canonical render_fn_ pad base (k_sock k) (k_jobs k) (k_tree k) (k_world k)
      = (Ret (true, t'), w') /\
    w_trace w' = w_trace (k_world k) ++ k_trace k.

Definition names (k : worker) : list string := map (fun v => c_str (v_rel v)) (k_views k).
Definition frames (k : worker) : list frame := map (job_frame pad) (zip (k_jobs k) (k_views k)).

Lemma worker_stream k :
  worker_ok k -> Forall frame_wf (frames k) /\ map target_name (frames k) = names k /\
    written (k_sock k) (k_trace k) = concat (map frame_bytes (frames k)).
Proof using Hpad.
  intros (Hv & Hs & t' & w' & Hsend & Ht).
  destruct (send_all_frames _ _ _ _ _ _ _ _ _ _ _ Hv Hs Hsend) as [(tr & Htr & _ & Hw) _].
  assert (tr = k_trace k) as -> by (apply (inj (app (w_trace (k_world k)))); congruence).
  split_and!; [by eapply frames_wf|apply frames_names; by eapply Forall2_length|done].
Qed.

(** ** The daemon's side *)

Section delivered.
Context (temporary : string -> Prop) (ws : list (Z * worker)).
Context (fds : list Z) (d : Daemon) (w : World) (d' : Daemon) (w' : World) (tr : list event).

(** Connection [fd] is fresh and receives what worker [k] wrote. *)
Definition connected (fd : Z) (k : worker) : Prop :=
  (exists lsock, d_states d !! fd = Some (set_fds fd lsock new_conn)) /\
  worker_ok k /\ received fd tr = written (k_sock k) (k_trace k).

Definition all_names : list string := concat (map (fun x => names x.2) ws).

Hypothesis Hconn : Forall (fun x => connected x.1 x.2) ws.
Hypothesis Hfds : NoDup ws.*1.
Hypothesis Hdom : forall fd, is_Some (d_states d !! fd) -> fd ∈ ws.*1.

Let streams : list (Z * list frame) := map (fun x => (x.1, frames x.2)) ws.

Lemma workers_receive : Forall (fun x => receives d tr x.1 x.2) streams.
Proof using Hconn Hpad.
  apply Forall_fmap, (Forall_impl _ _ _ Hconn). intros [fd k] (Hd & Hk & Hr). cbn in *.
  destruct (worker_stream k Hk) as (Hwf & _ & Hw). split_and!; [done|done|congruence].
Qed.

Lemma workers_names : map target_name (all_frames streams) = all_names.
Proof using Hconn Hpad.
  unfold all_frames, all_names, streams. rewrite concat_map, <- list_fmap_compose, map_map. f_equal.
  apply map_ext_in. intros x Hx%list_elem_of_In. rewrite Forall_forall in Hconn.
  apply Hconn in Hx as (_ & Hk & _). by apply worker_stream.
Qed.

End delivered.
End Workers.

(** ** Two workers: a directory on one socket, a file on the other *)

Module WorkersDemo.
Definition meta_f : M := mkM "f" 493 regular 2.
Definition tree : Tracked M :=
  mkTracked {[0%nat := mkNode true [] 0 0 None DeliveryDemo.meta_d; 1%nat := mkNode true [] 0 2 None meta_f]}
    2 (mkRoot 0 0 0 0 2 false).
Definition base : path := ["home"%string].
Definition fs : gmap string fnode := {["/home/f"%string := File (bytes_of "hi")]}.

Definition job_d : job := mkJob 0 ["home"; "d"]%string 0.
Definition view_d : job_view := mkJobView "d" DeliveryDemo.meta_d [].
Definition job_f : job := mkJob 0 ["home"; "f"]%string 1.
Definition view_f : job_view := mkJobView "f" meta_f (bytes_of "hi").

Definition start (m : M) : World := mkWorld (full_script m) [] fs ∅.
Definition sent (j : job) (m : M) : outcome (bool * Tracked M) * World :=
  send_all SendDemo.wc SendDemo.render SendDemo.pad base 7 [j] tree (start m).
Definition worker_for (j : job) (v : job_view) : worker :=
  mkWorker 7 [j] [v] tree (start (v_meta v)) (w_trace (sent j (v_meta v)).2).
Definition workers : list (Z * worker) := [(9, worker_for job_d view_d); (10, worker_for job_f view_f)].

Lemma run_ok j m : match (sent j m).1 with Ret (b, _) => b | _ => false end = true ->
  exists t' w', sent j m = (Ret (true, t'), w') /\ w_trace w' = w_trace (start m) ++ w_trace (sent j m).2.
Proof.
  destruct (sent j m) as [o w']. cbn. destruct o as [[b t']| | | |]; try done. intros ->. by exists t', w'.
Qed.

Lemma view_d_ok : view_of SendDemo.wc base fs tree job_d view_d.
Proof. split_and!; try (by split); try (by eexists). by right. Qed.

Lemma view_f_ok : view_of SendDemo.wc base fs tree job_f view_f.
Proof. split_and!; try (by split); try (by eexists). left. reflexivity. Qed.

Definition tr : list event := w_trace MultiDemo.run.2.

Lemma conn_ok fd lsock j v :
  d_states MultiDemo.daemon !! fd = Some (set_fds fd lsock new_conn) -> view_of SendDemo.wc base fs tree j v ->
  match (sent j (v_meta v)).1 with Ret (b, _) => b | _ => false end = true ->
  bool_decide (received fd tr = written 7 (w_trace (sent j (v_meta v)).2)) = true ->
  connected SendDemo.wc SendDemo.render SendDemo.pad base MultiDemo.daemon tr fd (worker_for j v).
Proof.
  intros Hd Hv Hs Hr. split; [by exists lsock|]. split.
  - split; [apply Forall2_cons; split; [exact Hv|apply Forall2_nil_2]|]. split; [by split|]. by apply run_ok.
  - exact (bool_decide_eq_true_1 _ Hr).
Qed.

Lemma connected_ok :
  Forall (fun x => connected SendDemo.wc SendDemo.render SendDemo.pad base MultiDemo.daemon tr x.1 x.2) workers.
Proof.
  apply Forall_cons; split; [|apply Forall_cons; split; [|apply Forall_nil_2]].
  - apply (conn_ok 9 3); [reflexivity|exact view_d_ok|vm_compute; reflexivity|vm_compute; reflexivity].
  - apply (conn_ok 10 4); [reflexivity|exact view_f_ok|vm_compute; reflexivity|vm_compute; reflexivity].
Qed.
End WorkersDemo.

