(* ===== verification/Walk.v ===== *)
(** * The frames of a scanned tree

    What links the tasks of [Sync.v], the runs of [send_datamsg] of [Send.v]
    and the scan of [Scan.v]: the metadata, counters and sequence numbers
    along the tasks' steps, the frame each node is sent as, and what the
    frames of all the nodes of a scanned directory make of a file system. *)

From S2P Require Import Prelude Sys Net Wire Frames Daemon Conn Multi Tracked Meta Scan Sync SyncInv SyncSafe Send EndToEnd Workers Scanned.

(** Trees that differ at most in the times and rows of the last drawing, which
    no task reads. *)
Definition tree_like (t t' : Tracked M) : Prop :=
  nodes t = nodes t' /\ next_id t = next_id t' /\ sum_done t = sum_done t' /\ sum_total t = sum_total t'.

#[global] Instance tree_like_equiv : Equivalence tree_like.
Proof.
  split; [by intros t|by intros t t' (? & ? & ? & ?)|].
  intros t1 t2 t3 (? & ? & ? & ?) (? & ? & ? & ?). split_and!; congruence.
Qed.

Section Walk.
Context (wc : path -> option path) (render_fn_ : RenderFn M) (pad : byte * list byte).
Context (root : path) (t0 : Tracked M) (fs : gmap string fnode).

(** ** What the steps do to the tree, the sequence number and the flag *)

Lemma step_tree tk ch g ts g' :
  task_step tk ch g = Go ts g' ->
  g_tree g' = g_tree g \/ (exists n, remove n (g_tree g) = Some (g_tree g')) \/
  exists n d, count n d (g_tree g) = Some (g_tree g').
Proof using.
  assert (forall n p k, (forall t, exists ts g', k t = Go ts g' /\ g_tree g' = t) -> step_remove n p g k = Go ts g' ->
    exists n, remove n (g_tree g) = Some (g_tree g')) as Hrm.
  { intros n p k Hk. unfold step_remove, with_node. destruct (nodes _ !! n); [|done].
    destruct (nodes _ !! p); [|done]. case_bool_decide; [done|].
    destruct (remove n (g_tree g)) as [t'|] eqn:Hr; [|done]. intros Hgo.
    destruct (Hk t') as (ts1 & g1 & E & Ht). rewrite E in Hgo. injection Hgo as <- <-. exists n. by rewrite Ht. }
  destruct tk; cbn; try by (intros [= <- <-]; left).
  - destruct (g_ok g); intros [= <- <-]; by left.
  - unfold step_send. destruct (count _ _ _) as [t|] eqn:E; [|done].
    intros Hgo. right. right. exists n, (c_ticked ch). destruct (c_sent ch); by injection Hgo as <- <-.
  - unfold step_switch, with_node. repeat case_match; try done; intros [= <- <-]; by left.
  - intros H. right. left. eapply Hrm; [|exact H]. intros t. by do 2 eexists.
  - unfold with_node. repeat case_match; try done; intros [= <- <-]; by left.
  - destruct cs; unfold with_node; repeat case_match; try done; intros [= <- <-]; by left.
  - unfold step_bubble, with_node. repeat case_match; try done; intros [= <- <-]; by left.
  - intros H. right. left. eapply Hrm; [|exact H]. intros t. by do 2 eexists.
Qed.

(** Metadata is that of the scan; the counters are in range. *)
Definition tree_ok (t : Tracked M) : Prop :=
  fits 64 (sum_done t) /\
  forall n nd, nodes t !! n = Some nd -> fits 64 (done_ nd) /\
    exists nd0, nodes t0 !! n = Some nd0 /\ meta nd0 = meta nd.

Lemma tree_ok_like t t' : tree_like t t' -> tree_ok t -> tree_ok t'.
Proof using. intros (Hn & _ & Hs & _). unfold tree_ok. by rewrite Hn, Hs. Qed.

Lemma tree_ok_count n d t t' : count n d t = Some t' -> tree_ok t -> tree_ok t'.
Proof using.
  unfold count. destruct (nodes t !! n) as [nd|] eqn:Hn; [|done]. intros [= <-] [Hs Ht].
  split; [by apply wrap_fits|]. cbn. intros k kd [[<- <-]|[_ Hk]]%lookup_insert_Some; [|by apply Ht].
  split; [by apply wrap_fits|]. cbn. by apply (Ht n nd).
Qed.

Lemma tree_ok_remove n t t' : remove n t = Some t' -> tree_ok t -> tree_ok t'.
Proof using.
  intros (nd & _ & (p & _ & (pd & Hp & [= <-])%bind_Some)%bind_Some)%bind_Some [Hs Ht]. split; [done|]. cbn.
  intros k kd [Hk _]%map_lookup_filter_Some. apply lookup_insert_Some in Hk as [[<- <-]|[_ Hk]]; [|by apply Ht].
  by apply (Ht p pd).
Qed.

Lemma tree_ok_step tk ch g ts g' : task_step tk ch g = Go ts g' -> tree_ok (g_tree g) -> tree_ok (g_tree g').
Proof using.
  intros [->|[[n H]|(n & d & H)]]%step_tree; [done|by eapply tree_ok_remove|by eapply tree_ok_count].
Qed.

Definition seq_ok (tk : task) : Prop :=
  match tk with
  | TSeqIncr _ seq | TSend _ seq => fits 32 seq
  | TSeqStore _ seq v => fits 32 seq /\ fits 32 v
  | _ => True
  end.

Lemma next_seq_fits v : fits 32 (next_seq v).
Proof using. unfold next_seq, fits. pose proof (Z.mod_pos_bound (u32 (v + 1)) (2 ^ 32 - 1) ltac:(lia)). lia. Qed.

(** The numbers a step and its tasks carry. *)
Lemma step_fields tk ch g ts g' :
  task_step tk ch g = Go ts g' -> seq_ok tk -> fits 32 (g_seq g) -> fits 32 (g_seq g') /\ Forall seq_ok ts.
Proof using.
  clear. destruct tk; cbn; unfold step_send, step_switch, step_bubble, step_remove, with_node; intros H Hs Hg;
    repeat case_match; simplify_eq; cbn; split_and!; intros;
    rewrite ?Forall_cons, ?Forall_nil; auto using next_seq_fits; naive_solver.
Qed.

(** Only a send adds to what was sent; only a report clears [ok]. *)
Lemma step_flags tk ch g ts g' :
  task_step tk ch g = Go ts g' ->
  (g_ok g = false \/ tk = TReport -> g_ok g' = false) /\ ((forall n seq, tk <> TSend n seq) -> g_sent g' = g_sent g).
Proof using.
  clear. destruct tk; cbn; unfold step_send, step_switch, step_bubble, step_remove, with_node; intros H;
    repeat case_match; simplify_eq; cbn; split; intros; naive_solver.
Qed.

(** The numbers, counters and metadata along the steps of [Sync.v]. *)
Record cfg_inv (c : config) : Prop := mkCfgInv {
  ci_tree : tree_ok (g_tree (f_shared c));
  ci_seq : fits 32 (g_seq (f_shared c));
  ci_tasks : Forall seq_ok (f_tasks c)
}.

Lemma cfg_inv_step c c' : step c c' -> cfg_inv c -> cfg_inv c'.
Proof using.
  intros [l1 tk l2 ch g ts g' Hgo] [Ht Hs Hk]. cbn in *. rewrite Forall_app, Forall_cons in Hk.
  destruct Hk as (Hk1 & Hk2 & Hk3). destruct (step_fields _ _ _ _ _ Hgo Hk2 Hs) as (Hs' & Hts).
  split; cbn; [by eapply tree_ok_step|done|by rewrite !Forall_app].
Qed.

Lemma cfg_inv_start : tree_ok t0 -> cfg_inv (start t0).
Proof using. intros Ht. split; cbn; [done|by split|by repeat constructor]. Qed.

(** ** The frames of the nodes *)

Definition path_of (n : nat) : path := default [] (node_path t0 root n).
Definition rel_of (n : nat) : string := rel_native (default [] (relative wc (path_of n) (parent_path root))).
Definition meta_of (n : nat) : M := from_option meta (mkM "" 0 ft_none 0) (nodes t0 !! n).
Definition content_of (n : nat) : list byte :=
  match fs !! native (path_of n) with Some (File c) => c | _ => [] end.

(** The frame of a node and the sequence number it was sent with. *)
Definition frame_of (s : nat * Z) : frame := node_frame pad s.2 (rel_of s.1) (meta_of s.1) (content_of s.1).

(** The daemon reads the frame as that of the node. *)
Definition frame_ok (s : nat * Z) : Prop :=
  frame_wf (frame_of s) /\ ftype (fr_msg (frame_of s)) = m_ftype (meta_of s.1).

Hypothesis Hpad : zlen (pad.2) = 4.
Hypothesis Hmeta : forall n nd, nodes t0 !! n = Some nd -> M_wf (meta nd).
Hypothesis Hfile : forall n nd p, nodes t0 !! n = Some nd -> node_path t0 root n = Some p ->
  (exists c, fs !! native p = Some (File c)) \/ m_ftype (meta nd) <> regular.

(** A send: however it ends it is defined; one that returned has ticked the
    node and left the files alone, and with [true] the whole frame is out. *)
Lemma wp_send sk n seq p t w :
  tree_ok t -> is_Some (nodes t !! n) -> fits 32 seq -> w_fs w = fs -> node_path t0 root n = Some p ->
  wp (send_datamsg wc render_fn_ pad sk seq (parent_path root) p n t) (on_ret (fun _ => True) (fun r w' =>
    w_fs w' = fs /\ (exists d, ticked_by n d t r.2) /\
    (r.1 = true -> frame_ok (n, seq) /\ sends sk (frame_bytes (frame_of (n, seq))) w w'))) w.
Proof using Hpad Hmeta Hfile.
  intros [Hs Ht] [nd Hn] Hseq Hfs Hp. unfold send_datamsg. rewrite Hn.
  destruct (Ht n nd Hn) as (Hd & nd0 & Hn0 & Hm). pose proof (Hmeta n nd0 Hn0) as Hwf.
  destruct (relative wc p (parent_path root)) as [rel|] eqn:Hrel; [|done].
  assert (rel_of n = rel_native rel) as Er by (unfold rel_of, path_of; rewrite Hp; cbn; by rewrite Hrel).
  assert (meta_of n = meta nd) as Em by (unfold meta_of; rewrite Hn0; cbn; done).
  assert (fs !! native p = Some (File (content_of n)) \/ m_ftype (meta nd) <> regular) as Hc.
  { rewrite <- Hm. destruct (Hfile n nd0 p Hn0 Hp) as [[c Hc]|]; [left|by right].
    unfold content_of, path_of. rewrite Hp. cbn. by rewrite Hc. }
  destruct (Z.lt_ge_cases (zlen (bytes_of (rel_native rel))) (2 ^ 16)) as [Hl|Hl].
  - rewrite Hm in Hwf.
    eapply wp_mono; [|apply (wp_send_rel render_fn_ pad sk seq p (rel_native rel) (meta nd) n t nd
      (content_of n)); [done|apply Hwf|by rewrite Hfs|done..]].
    intros [[ok t']| | | |] w'; try done. intros (b & d & Hb & _ & Htick & _ & Hok). cbn in *.
    split_and!; [by rewrite (sends_fs _ _ _ _ Hb)|by exists d|].
    intros Hk. unfold frame_ok, frame_of. cbn [fst snd]. rewrite Er, Em.
    destruct (node_frame_wf pad seq (rel_native rel) (meta nd) (content_of n)) as [Hf Hmsg]; [done..|].
    rewrite Hmsg. split; [done|]. by destruct (Hok Hk) as [-> _].
  - unfold send_rel. destruct (Z.ltb_spec (2 ^ 16 - 1) (zlen (bytes_of (rel_native rel)))); [|lia].
    split_and!; [done| |done]. exists 0. by eapply ticked_by_0.
Qed.

(** ** The invariant of a synchronisation *)

(** An error was seen, or is about to be recorded. *)
Definition doomed (c : config) : Prop := g_ok (f_shared c) = false \/ TReport ∈ f_tasks c.

Lemma doomed_step c c' : step c c' -> doomed c -> doomed c'.
Proof using.
  intros [l1 tk l2 ch g ts g' H]. unfold doomed. cbn.
  destruct (step_flags _ _ _ _ _ H) as [Hk _].
  intros [Hg|[Hin|[<-|Hin]%elem_of_cons]%elem_of_app]; [left; auto|right|left; auto|right].
  - apply elem_of_app. by left.
  - rewrite !elem_of_app. auto.
Qed.

End Walk.

(** ** Names *)

Lemma c_str_id s : no_char Ascii.zero s = true -> c_str s = s.
Proof.
  induction s as [|c s IH]; [done|]. cbn. intros [Hc Hs]%andb_prop. apply negb_true_iff in Hc.
  by rewrite Hc, IH.
Qed.

Lemma no_char_app c s s' : no_char c (s +:+ s') = no_char c s && no_char c s'.
Proof.
  induction s as [|d s IH]; [done|]. change (String d s +:+ s') with (String d (s +:+ s')). cbn.
  by rewrite IH, andb_assoc.
Qed.

Lemma rel_native_c_str p : Forall entry_name p -> c_str (rel_native p) = rel_native p.
Proof.
  intros Hp. apply c_str_id. unfold rel_native. induction Hp as [|x p (_ & _ & Hx) Hp IH]; [done|].
  destruct p as [|y p]; [done|].
  change (String.concat "/" (x :: y :: p)) with (x +:+ ("/" +:+ String.concat "/" (y :: p))).
  by rewrite !no_char_app, Hx, IH.
Qed.

(** ** From the client's directory to the daemon's *)

(** The client's file system: what the scan is told of the directory [x] of
    [base] is true of [fs], and no listed path goes through a symbolic link. *)
Record sees (wc : path -> option path) (v : fsview) (base : path) (x : string) (fs : gmap string fnode) : Prop := mkSees {
  sees_name : entry_name x;
  sees_root : (v_status v (base ++ [x])).2 = directory;
  sees_entries : forall p names, v_entries v p = Some names -> NoDup names /\ Forall entry_name names;
  sees_base : wc base = Some base;
  sees_listed : forall p, listed v (base ++ [x]) p -> wc p = Some p /\ fits 32 (v_status v p).1 /\
    ((v_status v p).2 = regular -> exists content, fs !! native p = Some (File content) /\
       v_file_size v p = Some (zlen content) /\ zlen content < 2 ^ 64)
}.

Section synchronised.
Context (wc : path -> option path) (pad : byte * list byte).
Context (v : fsview) (sort : list M -> list M) (base : path) (x : string) (k : walk) (fs : gmap string fnode).

Let root : path := base ++ [x].
Let t0 : Tracked M := Scan.k_tree k.

(** The name of a path on the other side: [relative(path, root.parent_path())]. *)
Definition remote (p : path) : string := rel_native (drop (length base) p).

Hypothesis sort_ok : StdSort sort.
Hypothesis Hsees : sees wc v base x fs.
Let Hroot := sees_root _ _ _ _ _ Hsees.
Let Hentries := sees_entries _ _ _ _ _ Hsees.
Let Hlisted := sees_listed _ _ _ _ _ Hsees.
Context (paths : list path) (HR : scan_result v sort root k paths).

Lemma node_remote n nd :
  nodes t0 !! n = Some nd -> exists p, paths !! n = Some p /\ path_of root t0 n = p /\ listed v root p /\
    meta nd = M_of v p /\ kept (meta nd) = true /\ done_ nd = 0 /\
    exists q, drop (length base) p = x :: q /\ Forall entry_name (x :: q) /\ p = base ++ x :: q /\
      relative wc p base = Some (x :: q).
Proof using sort_ok Hsees HR.
  intros Hn. destruct (node_facts v sort root k Hroot paths HR n nd Hn) as (p & Hp & Hm & Hk & _ & Hd & _).
  exists p. assert (listed v root p) as Hl by by eapply node_listed.
  split_and!; try done.
  { unfold path_of, t0. rewrite (node_path_paths v sort root k Hroot paths HR) by by eexists. by rewrite Hp. }
  destruct (path_below v sort sort_ok root k Hroot Hentries paths HR n p) as (q & -> & Hq & _); [by eexists|done|].
  exists q. unfold root in *. rewrite <- app_assoc in *. cbn in *. rewrite drop_app_length.
  split_and!; [done|constructor; [by apply (sees_name _ _ _ _ _ Hsees)|done]|done|]. apply relative_below; [by apply Hlisted|by apply (sees_base _ _ _ _ _ Hsees)|by apply (sees_name _ _ _ _ _ Hsees)].
Qed.

Lemma node_meta_wf n nd : nodes t0 !! n = Some nd -> M_wf (meta nd).
Proof using sort_ok Hsees HR.
  intros Hn. destruct (node_remote n nd Hn) as (p & _ & _ & Hl & -> & Hk & _).
  destruct (Hlisted p Hl) as (_ & Hp & Hreg). unfold M_wf, kept in *. cbn in *.
  destruct (v_status v p).2; try done; split_and!; try done.
  destruct (Hreg eq_refl) as (content & _ & -> & Hlen). split; [apply zlen_nonneg|done].
Qed.

Lemma node_file n nd p : nodes t0 !! n = Some nd -> node_path t0 root n = Some p ->
  (exists content, fs !! native p = Some (File content)) \/ m_ftype (meta nd) <> regular.
Proof using sort_ok Hsees HR.
  intros Hn Hp. destruct (node_remote n nd Hn) as (p' & _ & Hp' & Hl & -> & _).
  unfold path_of in Hp'. rewrite Hp in Hp'. cbn in Hp'. subst p'. cbn.
  destruct (decide ((v_status v p).2 = regular)) as [Hreg|]; [left|by right].
  destruct (Hlisted p Hl) as (_ & _ & Hf). destruct (Hf Hreg) as (content & Hc & _). by exists content.
Qed.

Lemma scan_tree_ok : tree_ok t0 t0.
Proof using sort_ok Hsees HR.
  split; [unfold t0; rewrite (sr_done _ _ _ _ _ HR); by split|]. intros n nd Hn.
  destruct (node_remote n nd Hn) as (p & _ & _ & _ & _ & _ & -> & _). split; [by split|]. by exists nd.
Qed.

(** The name and the contents of a node's frame. *)
Lemma node_target n nd p seq :
  nodes t0 !! n = Some nd -> paths !! n = Some p ->
  target_name (frame_of wc pad root t0 fs (n, seq)) = remote p /\
  (frame_ok wc pad root t0 fs (n, seq) ->
   ((v_status v p).2 = directory -> target_node (frame_of wc pad root t0 fs (n, seq)) = Dir) /\
   (forall content, (v_status v p).2 = regular -> fs !! native p = Some (File content) ->
      target_node (frame_of wc pad root t0 fs (n, seq)) = File content)).
Proof using sort_ok Hsees HR.
  intros Hn Hp. destruct (node_remote n nd Hn) as (p' & Hp' & Hpo & Hl & Hm & _ & _ & q & Hdrop & Hq & Heq & Hrel).
  rewrite Hp in Hp'. injection Hp' as <-.
  assert (meta_of t0 n = M_of v p) as Em by (unfold meta_of; by rewrite Hn).
  split.
  - unfold target_name, frame_of. cbn [fr_path node_frame fst]. rewrite string_of_bytes_of.
    unfold rel_of, remote. rewrite Hpo, Hdrop. unfold root. rewrite parent_path_snoc, Hrel. by apply rel_native_c_str.
  - intros [_ Hty]. cbn [fst] in Hty. unfold target_node. rewrite Hty, Em. cbn [m_ftype M_of].
    split; [by intros ->|]. intros content Hreg Hc. rewrite bool_decide_eq_true_2 by done. f_equal.
    unfold frame_of. cbn [fst snd node_frame fr_data]. rewrite Em. unfold content_of. rewrite Hpo, Hc.
    apply contents_all; [done|]. cbn. rewrite Hreg.
    destruct (Hlisted p Hl) as (_ & _ & Hf). destruct (Hf Hreg) as (content' & Hc' & -> & _). cbn. congruence.
Qed.

Lemma remote_inj n n' nd nd' p p' :
  nodes t0 !! n = Some nd -> nodes t0 !! n' = Some nd' -> paths !! n = Some p -> paths !! n' = Some p' ->
  remote p = remote p' -> n = n'.
Proof using sort_ok Hsees HR.
  intros Hn Hn' Hp Hp' E.
  destruct (node_remote n nd Hn) as (r & Hr & _ & _ & _ & _ & _ & q & Hd & Hq & Heq & _).
  destruct (node_remote n' nd' Hn') as (r' & Hr' & _ & _ & _ & _ & _ & q' & Hd' & Hq' & Heq' & _).
  rewrite Hp in Hr. injection Hr as <-. rewrite Hp' in Hr'. injection Hr' as <-.
  unfold remote in E. rewrite Hd, Hd' in E. apply rel_native_inj in E; [|done..].
  assert (p = p') as <- by congruence.
  eapply (paths_inj v sort sort_ok root k Hroot Hentries paths HR n n' p); [by eexists|by eexists|done|done].
Qed.

(** The frame of a listed path. *)
Lemma listed_sent l p :
  (forall n, n ∈ l.*1 <-> is_Some (nodes t0 !! n)) -> listed v root p ->
  exists s, s ∈ l /\ target_name (frame_of wc pad root t0 fs s) = remote p /\
    (frame_ok wc pad root t0 fs s ->
     ((v_status v p).2 = directory -> target_node (frame_of wc pad root t0 fs s) = Dir) /\
     (forall content, (v_status v p).2 = regular -> fs !! native p = Some (File content) ->
        target_node (frame_of wc pad root t0 fs s) = File content)).
Proof using sort_ok Hsees HR.
  intros Hall Hl. destruct (listed_node v sort sort_ok root k Hroot Hentries paths HR p Hl) as (n & nd & Hn & Hp).
  assert (n ∈ l.*1) as ([n' seq] & -> & Hin)%list_elem_of_fmap by (apply Hall; by exists nd). cbn in *.
  exists (n', seq). split; [done|]. by apply (node_target n' nd p seq).
Qed.

(** The frames of all the nodes, each once. *)
Lemma sent_names l :
  NoDup l.*1 -> (forall n, n ∈ l.*1 <-> is_Some (nodes t0 !! n)) ->
  NoDup (map (fun s => target_name (frame_of wc pad root t0 fs s)) l) /\
  forall m, m ∈ map (fun s => target_name (frame_of wc pad root t0 fs s)) l <->
    exists p, listed v root p /\ m = remote p.
Proof using sort_ok Hsees HR.
  intros Hnd Hall.
  assert (forall s, s ∈ l -> exists nd p, nodes t0 !! s.1 = Some nd /\ paths !! s.1 = Some p /\ listed v root p /\
    target_name (frame_of wc pad root t0 fs s) = remote p) as Hs.
  { intros [n seq] Hin. assert (is_Some (nodes t0 !! n)) as [nd Hn] by (apply Hall; by apply (list_elem_of_fmap_2 fst) in Hin).
    destruct (node_remote n nd Hn) as (p & Hp & _ & Hl & _). exists nd, p. split_and!; try done.
    by apply (node_target n nd p seq). }
  split.
  - apply NoDup_fmap_2_strong; [|by eapply NoDup_fmap_1].
    intros s s' Hin Hin' E. destruct (Hs s Hin) as (nd & p & Hn & Hp & _ & E1).
    destruct (Hs s' Hin') as (nd' & p' & Hn' & Hp' & _ & E2). rewrite E1, E2 in E.
    pose proof (remote_inj _ _ _ _ _ _ Hn Hn' Hp Hp' E) as Efst.
    apply list_elem_of_lookup in Hin as [i Hi]. apply list_elem_of_lookup in Hin' as [j Hj].
    assert (i = j) as <-; [|congruence].
    eapply (NoDup_lookup _ _ _ s.1 Hnd); rewrite list_lookup_fmap; [by rewrite Hi|]. rewrite Hj. cbn. congruence.
  - intros m. split.
    + intros (s & -> & Hin)%list_elem_of_fmap. destruct (Hs s Hin) as (nd & p & _ & _ & Hl & ->). by exists p.
    + intros (p & Hl & ->).
      destruct (listed_sent l p Hall Hl) as (s & Hin & <- & _).
      by apply (list_elem_of_fmap_2 (fun s => target_name (frame_of wc pad root t0 fs s))).
Qed.

(** The files the frames of all the nodes leave, in any order. *)
Lemma frames_apply fs1 frames l :
  frames ≡ₚ map (frame_of wc pad root t0 fs) l -> NoDup l.*1 -> (forall n, n ∈ l.*1 <-> is_Some (nodes t0 !! n)) ->
  Forall (frame_ok wc pad root t0 fs) l ->
  NoDup (map target_name frames) /\
  (forall m, m ∈ map target_name frames <-> exists p, listed v root p /\ m = remote p) /\
  (forall p, listed v root p ->
     ((v_status v p).2 = directory -> apply_frames fs1 frames !! remote p = Some Dir) /\
     (forall content, (v_status v p).2 = regular -> fs !! native p = Some (File content) ->
        apply_frames fs1 frames !! remote p = Some (File content))) /\
  (forall m, (forall p, listed v root p -> m <> remote p) -> apply_frames fs1 frames !! m = fs1 !! m).
Proof using sort_ok Hsees HR.
  intros Hperm Hnd Hall Hfok. destruct (sent_names l Hnd Hall) as [Hnames Hmem].
  assert (map (fun s => target_name (frame_of wc pad root t0 fs s)) l ≡ₚ map target_name frames) as Hpn
    by by rewrite Hperm, map_map.
  assert (NoDup (map target_name frames)) as Hnd2 by by rewrite <- Hpn.
  split_and!; [done|intros m; by rewrite <- Hmem, Hpn| |].
  - intros p Hl. destruct (listed_sent l p Hall Hl) as (s & Hs & Hname & Hnode).
    assert (frame_of wc pad root t0 fs s ∈ frames) as Hf by (rewrite Hperm; by apply list_elem_of_fmap_2).
    rewrite Forall_forall in Hfok. destruct (Hnode (Hfok s Hs)) as [Hdir Hreg].
    rewrite <- Hname, apply_frames_lookup by done.
    split; [by intros ->%Hdir|by intros content Hr Hc; rewrite (Hreg content)].
  - intros m Hm. apply apply_frames_other. rewrite <- Hpn. intros (p & Hl & ->)%Hmem. by apply (Hm p).
Qed.
End synchronised.

(** ** A directory with two files *)

Module WalkDemo.
Definition root : path := ["home"; "d"]%string.
Definition file (x : string) : path := ["home"; "d"; x]%string.
Definition view : fsview := mkView
  (fun p => if bool_decide (p = root) then (493, directory)
            else if bool_decide (p = file "f") || bool_decide (p = file "g") then (420, regular) else (0, not_found))
  (fun p => Some (if bool_decide (p = file "f") then 2 else 3))
  (fun p => if bool_decide (p = root) then Some ["g"; "f"]%string else None).
Definition fs : gmap string fnode :=
  <["/home/d/f"%string := File (bytes_of "hi")]> {["/home/d/g"%string := File (bytes_of "abc")]}.

Definition scan : outcome walk := scan_dir view insertion_sort 5 root (new_root (M_of view root) 0).
Definition k : walk := match scan with Ret k => k | _ => mkWalk [] (new_root (M_of view root) 0) [] end.

Lemma entries_ok p names : v_entries view p = Some names -> NoDup names /\ Forall entry_name names.
Proof.
  cbn. case_bool_decide; [|done]. intros [= <-]. split; [apply (bool_decide_eq_true_1 _); reflexivity|].
  by repeat constructor.
Qed.

Lemma listed_cases p : listed view root p -> p = root \/ p = file "f" \/ p = file "g".
Proof.
  induction 1 as [|p names y _ IH _ Hn Hy]; [by left|]. cbn in Hn. case_bool_decide; [|done]. subst p.
  injection Hn as <-. rewrite !elem_of_cons, elem_of_nil in Hy. destruct Hy as [->|[->|[]]]; auto.
Qed.

Lemma listed_file x : x = "f"%string \/ x = "g"%string -> listed view root (file x).
Proof.
  intros [->| ->]; (eapply (listed_entry view root root ["g"; "f"]%string); [constructor|done|done| |done]);
    rewrite !elem_of_cons; auto.
Qed.

Lemma view_ok : sees SendDemo.wc view ["home"%string] "d" fs.
Proof.
  split; [by split|reflexivity|exact entries_ok|reflexivity|].
  intros p [->|[->| ->]]%listed_cases; (split; [done|]); (split; [by split|]); [done|..]; intros _;
    [by exists (bytes_of "hi")|by exists (bytes_of "abc")].
Qed.

Lemma scanned_ok : scan = Ret k.
Proof. vm_compute. reflexivity. Qed.
End WalkDemo.
