(* ===== verification/Live.v ===== *)
(** * The daemon makes progress on a connection

    The refinement of [Conn.v] speaks of calls that return. Here: on a kernel
    that delivers a frame and lets the file operations succeed, the handler
    does return, back in [Connected], in a single call. *)

From S2P Require Import Prelude Sys Net Wire Frames Daemon Conn EndToEnd.

Lemma read_one fd len bs rest w :
  w_ans w = RBytes bs :: rest -> zlen bs = len -> 0 < len <= MAX_RW_SIZE ->
  read_partial fd len w = (Ret (mkIO Ok len, bs), kernel (Read fd len) (RBytes bs) rest w).
Proof.
  intros Hans Hbs Hlen. unfold read_partial.
  rewrite (loop_inl _ (read_body_consuming fd len) _ _ (len, bs)
    (kernel (Read fd len) (RBytes bs) rest w)).
  - apply loop_inr; [apply read_body_consuming|]. unfold read_body. by rewrite Z.ltb_irrefl.
  - unfold read_body. destruct (Z.ltb_spec 0 len); [|lia].
    rewrite Z.sub_0_r, Z.min_r by lia. sys_go. rewrite Hans. cbn.
    rewrite ztake_all, Hbs by lia. destruct (Z.eqb_spec len 0); [lia|done].
Qed.

Lemma read_none fd w : read_partial fd 0 w = (Ret (mkIO Ok 0, []), w).
Proof. unfold read_partial. by apply loop_inr; [apply read_body_consuming|]. Qed.

Lemma store_target_nonempty tg off bs c :
  0 < zlen bs ->
  store_target tg off bs c =
    match tg with
    | TBuf =>
        match store_at (cs_buf c) off bs with
        | Some b => mret (set_buf b c)
        | None => undef "store outside buf"
        end
    | TAnon =>
        match cs_anon_buf c with
        | Some m => _ ← store_file m off bs; mret c
        | None => undef "store through a null pointer"
        end
    end.
Proof. by destruct bs. Qed.

(** [advance] when the rest of the goal arrives at once. *)
Lemma advance_buf_one fd c bs rest w :
  w_ans w = RBytes bs :: rest -> 0 < zlen bs <= MAX_RW_SIZE -> 0 <= cs_progress c ->
  cs_goal c = cs_progress c + zlen bs -> zlen (cs_buf c) = cs_goal c -> fits 64 (cs_goal c) ->
  advance fd TBuf c w =
    (Ret (Done, set_progress (cs_goal c) (set_buf (ztake (cs_progress c) (cs_buf c) ++ bs) c)),
     kernel (Read fd (zlen bs)) (RBytes bs) rest w).
Proof.
  intros Hans Hbs Hp Hg Hb Hf. destruct Hf as [Hf1 Hf2]. unfold advance.
  replace (cs_goal c - cs_progress c) with (zlen bs) by lia.
  rewrite u64_small by (unfold MAX_RW_SIZE in *; lia).
  erewrite bind_of_Ret by by eapply read_one.
  cbn beta iota. rewrite store_target_nonempty by lia. rewrite store_at_Some by lia. rewrite zdrop_all, app_nil_r by lia.
  sys_go. rewrite <- Hg, u64_small, Z.eqb_refl by (change (2 ^ 64) with 18446744073709551616 in *; lia).
  done.
Qed.

Lemma advance_anon_one fd c bs n content rest w :
  w_ans w = RBytes bs :: rest -> 0 < zlen bs <= MAX_RW_SIZE -> cs_progress c = 0 ->
  cs_goal c = zlen bs -> cs_anon_buf c = Some n -> w_fs w !! n = Some (File content) ->
  zlen content = zlen bs ->
  exists fs, advance fd TAnon c w =
    (Ret (Done, set_progress (cs_goal c) c),
     mkWorld rest (w_trace w ++ [Called (Read fd (zlen bs)) (RBytes bs)]) fs (w_open w)).
Proof.
  intros Hans Hbs Hp Hg Hm Hfs Hc. unfold advance. rewrite Hp, Hg, Z.sub_0_r.
  rewrite u64_small by (unfold MAX_RW_SIZE in *; lia).
  erewrite bind_of_Ret by by eapply read_one.
  cbn beta iota. rewrite store_target_nonempty by lia. rewrite Hm. unfold store_file. sys_go. rewrite Hfs, store_at_Some by lia.
  rewrite Hp, Z.add_0_l, u64_small, Hg, Z.eqb_refl by (unfold MAX_RW_SIZE in *; lia).
  by eexists.
Qed.

Lemma advance_anon_none fd c w :
  cs_progress c = 0 -> cs_goal c = 0 -> advance fd TAnon c w = (Ret (Done, set_progress 0 c), w).
Proof.
  intros Hp Hg. unfold advance. rewrite Hp, Hg. change (u64 (0 - 0)) with 0.
  rewrite (bind_of_Ret _ _ _ _ _ (read_none fd w)). sys_go. by rewrite Hp, Hg.
Qed.

(** ** A call of the handler on a whole frame *)

(** The answers after the header and the path: the temporary file [name] at
    descriptor [tfd], and the contents. *)
Definition frame_script (tfd : Z) (name : string) (f : frame) : list sysret :=
  [RBytes (fr_hdr f); RBytes (fr_path f)] ++
  (if bool_decide (ftype (fr_msg f) = regular) then
     [RFile tfd name; ROk 0] ++
     (if 0 <? fsize (fr_msg f) then [ROk 4096; RBytes (fr_data f)] else []) ++
     [ROk 0; ROk 0; ROk 0]
   else [ROk 0; ROk 0]).

(** The frame can be served by one read(2) per part, and its names are free. *)
Definition servable (tfd : Z) (name : string) (f : frame) (w : World) : Prop :=
  frame_wf f /\ 0 < path_len (fr_msg f) /\ fsize (fr_msg f) <= MAX_RW_SIZE /\
  (if bool_decide (ftype (fr_msg f) = regular) then
     w_fs w !! name = None /\ c_str name = name /\ 0 <= tfd /\ w_open w !! tfd = None
   else w_fs w !! target_name f = None).

(** A connection between two messages. *)
Definition idle (c : ConnectionState) : Prop :=
  cs_kind c = Connected /\ cs_progress c = 0 /\ cs_buf c = [].

(** The state after the header, and after the path. *)
Definition after_hdr (c : ConnectionState) (f : frame) : ConnectionState :=
  mkConn HeaderP2 (cs_seq c) (cs_perms c) (cs_path c) DataMessage_size
    (DataMessage_size + path_len (fr_msg f)) (cs_anon_path c) (cs_anon_fd c) (cs_anon_buf c)
    (resize (DataMessage_size + path_len (fr_msg f)) (fr_hdr f)) (cs_client_fd c) (cs_sock_fd c).

Definition after_path (c : ConnectionState) (f : frame) : ConnectionState :=
  set_buf (fr_hdr f ++ fr_path f) (set_progress (DataMessage_size + path_len (fr_msg f)) (after_hdr c f)).

Lemma hdr_served fd a c f rest w :
  idle c -> frame_wf f -> w_ans w = RBytes (fr_hdr f) :: rest ->
  on_header_p1 fd (a, on_connected c) w =
    (Ret (inl (a, after_hdr c f)), kernel (Read fd DataMessage_size) (RBytes (fr_hdr f)) rest w).
Proof.
  destruct c as [k sq pm pt pr gl ap af ab bf cf sf]. unfold idle. cbn [cs_kind cs_progress cs_buf].
  intros (-> & -> & ->) (Hh & _ & _) Hans.
  pose proof (path_len_decode (fr_hdr f)) as Hpb.
  unfold on_header_p1. cbn [on_connected cs_kind set_goal set_kind set_buf cs_buf].
  rewrite <- Hh. erewrite bind_of_Ret
    by (apply advance_buf_one; [exact Hans|..]; cbn [cs_progress cs_goal cs_buf];
        rewrite ?Hh, ?zlen_resize; change DataMessage_size with 24; unfold MAX_RW_SIZE; (done || lia)).
  cbn -[resize u64 DataMessage_size ztake]. rewrite ztake_le_0 by lia. cbn [app].
  unfold after_hdr, fr_msg. cbn -[resize u64 DataMessage_size].
  rewrite Hh, u64_small by (change DataMessage_size with 24; lia). done.
Qed.

Lemma path_served fd a c f rest w :
  frame_wf f -> 0 < path_len (fr_msg f) -> w_ans w = RBytes (fr_path f) :: rest ->
  on_header_p2 fd (a, after_hdr c f) w =
    on_message a (after_path c f) (kernel (Read fd (path_len (fr_msg f))) (RBytes (fr_path f)) rest w).
Proof.
  intros (Hh & Hp & _) Hpl Hans. pose proof (path_len_decode (fr_hdr f)) as Hpb.
  fold (fr_msg f) in Hpb. unfold on_header_p2. cbn [cs_kind after_hdr]. fold (after_hdr c f).
  erewrite bind_of_Ret
    by (apply (advance_buf_one fd (after_hdr c f)); [exact Hans|..]; unfold after_hdr;
        cbn [cs_progress cs_goal cs_buf]; rewrite ?Hp, ?zlen_resize; change DataMessage_size with 24;
        unfold MAX_RW_SIZE; (done || lia || (unfold fits; lia))).
  cbn beta iota. rewrite Hp. f_equal. unfold after_path, after_hdr. cbn [cs_progress cs_goal cs_buf].
  rewrite resize_grow, ztake_app_l, ztake_all by (rewrite Hh; lia). done.
Qed.

(** ** The file operations *)

Lemma message_served_dir a c f rest w :
  frame_wf f -> ftype (fr_msg f) <> regular -> w_fs w !! target_name f = None ->
  w_ans w = ROk 0 :: ROk 0 :: rest ->
  exists c' w', on_message a (after_path c f) w = (Ret (inl (a, c')), w') /\ idle c' /\
    w_trace w' = w_trace w ++ [Called (Mkdir (target_name f) (cs_perms c)) (ROk 0);
                               Called (Close (cs_anon_fd c)) (ROk 0)].
Proof.
  intros (Hh & Hp & _) Hty Hfree Hans. unfold on_message.
  cbn -[resize u64 DataMessage_size ztake zdrop string_of].
  rewrite decode_hdr_app by lia. fold (fr_msg f). rewrite bool_decide_eq_false_2 by done.
  rewrite zdrop_app_r, Hh, Z.sub_diag, zdrop_le_0, <- Hp, ztake_all by lia.
  fold (target_name f). sys_go. rewrite Hans. cbn. rewrite bool_decide_eq_true_2 by done. cbn.
  unfold reset. sys_go. eexists _, _. split; [done|]. split; [done|]. cbn. by rewrite <- app_assoc.
Qed.

(** The state of a regular file's transfer before its first byte. *)
Definition receiving (c : ConnectionState) (f : frame) (tfd : Z) (name : string) : ConnectionState :=
  let c := set_meta (seq (fr_msg f)) (cs_perms c) (string_of (fr_path f)) (after_path c f) in
  let c := set_goal (fsize (fr_msg f)) (set_progress 0 (set_anon tfd name c)) in
  set_kind Receiving (if 0 <? fsize (fr_msg f) then set_anon_buf name c else c).

Lemma message_served_file a c f tfd name rest w :
  frame_wf f -> ftype (fr_msg f) = regular -> fsize (fr_msg f) <= MAX_RW_SIZE ->
  w_fs w !! name = None -> c_str name = name -> 0 <= tfd -> w_open w !! tfd = None ->
  w_ans w = [RFile tfd name; ROk 0] ++ (if 0 <? fsize (fr_msg f) then [ROk 4096] else []) ++ rest ->
  exists a' w' t, on_message a (after_path c f) w = (Ret (inl (a', receiving c f tfd name)), w') /\
    w_trace w' = w_trace w ++ t /\ (forall fd, received fd t = []) /\ w_ans w' = rest /\
    exists content, w_fs w' !! name = Some (File content) /\ zlen content = fsize (fr_msg f).
Proof.
  intros (Hh & Hp & _) Hty Hsz Hfree Hname Htfd Hopen Hans.
  pose proof (fsize_decode (fr_hdr f)) as Hfs. fold (fr_msg f) in Hfs.
  unfold on_message, receiving. cbn -[resize u64 DataMessage_size ztake zdrop string_of].
  rewrite decode_hdr_app by lia. fold (fr_msg f). rewrite bool_decide_eq_true_2 by done.
  rewrite zdrop_app_r, Hh, Z.sub_diag, zdrop_le_0, <- Hp, ztake_all by lia.
  assert (i64 (fsize (fr_msg f)) = fsize (fr_msg f)) as Hi.
  { unfold i64. rewrite Z.mod_small; unfold MAX_RW_SIZE in *; lia. }
  unfold create_anonfile. rewrite Hi. sys_go. rewrite Hans. cbn.
  rewrite !bool_decide_eq_true_2 by done. cbn.
  destruct (Z.ltb_spec (fsize (fr_msg f)) 0); [lia|]. cbn.
  assert (zlen (resize (fsize (fr_msg f)) []) = fsize (fr_msg f)) as Hz by (apply zlen_resize; lia).
  destruct (0 <? fsize (fr_msg f)); cbn; eexists _, _, _; (split; [done|]); cbn;
    (split; [by rewrite <- !app_assoc|]); (split; [done|]); (split; [done|]);
    exists (resize (fsize (fr_msg f)) []); by rewrite !lookup_insert_eq.
Qed.

Lemma file_served fd a c f tfd name content rest w :
  frame_wf f -> ftype (fr_msg f) = regular -> fsize (fr_msg f) <= MAX_RW_SIZE ->
  w_fs w !! name = Some (File content) -> zlen content = fsize (fr_msg f) ->
  w_ans w = (if 0 <? fsize (fr_msg f) then [RBytes (fr_data f)] else []) ++ [ROk 0; ROk 0; ROk 0] ++ rest ->
  exists a' c' w' t, on_receiving fd (a, receiving c f tfd name) w = (Ret (inl (a', c')), w') /\ idle c' /\
    w_trace w' = w_trace w ++ t /\ received fd t = fr_data f.
Proof.
  intros (_ & _ & Hd) Hty Hsz Hname Hc Hans.
  pose proof (fsize_decode (fr_hdr f)) as Hfs. fold (fr_msg f) in Hfs.
  unfold data_len in Hd. rewrite bool_decide_eq_true_2 in Hd by done.
  unfold on_receiving. unfold receiving at 1. cbn [cs_kind set_kind].
  assert (cs_progress (receiving c f tfd name) = 0 /\
    cs_goal (receiving c f tfd name) = fsize (fr_msg f) /\
    cs_anon_path (receiving c f tfd name) = Some name) as (Hpr & Hgl & Hap)
    by (unfold receiving; by destruct (0 <? fsize (fr_msg f))).
  destruct (Z.ltb_spec 0 (fsize (fr_msg f))) as [Hpos|Hz]; cbn [app] in Hans.
  - destruct (advance_anon_one fd (receiving c f tfd name) (fr_data f) name content
      (ROk 0 :: ROk 0 :: ROk 0 :: rest) w) as [fs Hadv]; [done|lia|done|lia| |done|lia|].
    { unfold receiving. by destruct (Z.ltb_spec 0 (fsize (fr_msg f))); [|lia]. }
    rewrite (bind_of_Ret _ _ _ _ _ Hadv). unfold commit, move_anonfile, reset.
    cbn [cs_anon_path set_progress]. rewrite Hap. sys_go.
    eexists _, _, _, _. split; [done|]. split; [done|]. split; [cbn; by rewrite <- !app_assoc|].
    cbn. by rewrite bool_decide_eq_true_2, app_nil_r.
  - rewrite (bind_of_Ret _ _ _ _ _ (advance_anon_none fd (receiving c f tfd name) w ltac:(lia) ltac:(lia))).
    unfold commit, move_anonfile, reset. cbn [cs_anon_path set_progress]. rewrite Hap. sys_go. rewrite Hans.
    eexists _, _, _, _. split; [done|]. split; [done|]. split; [cbn; by rewrite <- !app_assoc|].
    cbn. symmetry. apply zlen_0_nil. lia.
Qed.

Lemma frame_runs fd a c f tfd name rest w :
  idle c -> servable tfd name f w -> w_ans w = frame_script tfd name f ++ rest ->
  exists a' c' w' t, on_readable fd (a, c) w = (Ret (inl (a', c')), w') /\ idle c' /\
    w_trace w' = w_trace w ++ t /\ received fd t = frame_bytes f.
Proof.
  intros Hidle (Hwf & Hpl & Hsz & Hnames) Hans. unfold frame_script in Hans.
  rewrite <- app_assoc in Hans. cbn [app] in Hans.
  unfold on_readable, then_. cbn [fst snd]. rewrite bind_assoc.
  rewrite (bind_of_Ret _ _ _ _ _ (hdr_served fd a c f _ w Hidle Hwf Hans)). cbn beta iota.
  set (w1 := kernel _ _ _ w). set (rest1 := (if bool_decide _ then _ else _) ++ rest) in *.
  assert (w_ans w1 = RBytes (fr_path f) :: rest1) as Hans1 by done.
  unfold mbind at 1, sys_bind at 1. rewrite (path_served fd a c f _ w1 Hwf Hpl Hans1).
  set (w2 := kernel _ _ _ w1).
  assert (w_trace w2 = w_trace w ++ [Called (Read fd DataMessage_size) (RBytes (fr_hdr f));
    Called (Read fd (path_len (fr_msg f))) (RBytes (fr_path f))]) as Ht2
    by (subst w1 w2; cbn; by rewrite <- app_assoc).
  assert (forall r t, received fd t = r -> received fd ([Called (Read fd DataMessage_size) (RBytes (fr_hdr f));
    Called (Read fd (path_len (fr_msg f))) (RBytes (fr_path f))] ++ t) = fr_hdr f ++ fr_path f ++ r) as Hrec.
  { intros r t <-. rewrite received_app. cbn. by rewrite !bool_decide_eq_true_2, app_nil_r, <- app_assoc. }
  assert (w_ans w2 = rest1) as Hans2 by done. subst rest1.
  case_bool_decide as Hty.
  - destruct Hnames as (N1 & N2 & N3 & N4).
    destruct (message_served_file a c f tfd name
      ((if 0 <? fsize (fr_msg f) then [RBytes (fr_data f)] else []) ++ [ROk 0; ROk 0; ROk 0] ++ rest) w2)
      as (a1 & w3 & t3 & E3 & Ht3 & Hr3 & Hans3 & content & Hc1 & Hc2); try done.
    { rewrite Hans2. by destruct (0 <? fsize (fr_msg f)). }
    rewrite E3. cbn beta iota.
    destruct (file_served fd a1 c f tfd name content rest w3) as (a4 & c4 & w4 & t4 & E4 & Hi4 & Ht4 & Hr4);
      try done.
    rewrite E4. eexists _, _, _, _. split; [done|]. split; [done|].
    split; [rewrite Ht4, Ht3, Ht2, <- !app_assoc; reflexivity|].
    change (?x :: ?y :: ?l ++ ?k) with ([x; y] ++ (l ++ k)).
    apply Hrec. by rewrite received_app, Hr3, Hr4.
  - destruct (message_served_dir a c f rest w2) as (c3 & w3 & E3 & Hi3 & Ht3); try done.
    rewrite E3. cbn beta iota. destruct Hi3 as (Hk3 & Hi3).
    unfold on_receiving. rewrite Hk3. eexists _, _, _, _. split; [done|]. split; [done|].
    split; [rewrite Ht3, Ht2, <- !app_assoc; reflexivity|].
    destruct Hwf as (_ & _ & Hd). unfold data_len in Hd. rewrite bool_decide_eq_false_2 in Hd by done.
    unfold frame_bytes. rewrite (zlen_0_nil (fr_data f)) by lia. by apply Hrec.
Qed.

(** ** Properties *)

(** C15. Progress: when a whole frame is readable and the file operations
    succeed, one call of the handler returns with the connection idle again
    and the frame in the file system: a directory is made, a regular file has
    its contents under its final name. *)
Theorem frame_is_served fd a c f tfd name rest w :
  anon_inv a w -> idle c -> servable tfd name f w -> w_ans w = frame_script tfd name f ++ rest ->
  exists a' c' w', on_readable fd (a, c) w = (Ret (inl (a', c')), w') /\ idle c' /\
    w_fs w' = apply_frame (w_fs w) f.
Proof.
  intros Ha Hidle (Hwf & Hpl & Hsz & Hnames) Hans.
  assert (exists a' c' w' t, on_readable fd (a, c) w = (Ret (inl (a', c')), w') /\ idle c' /\
    w_trace w' = w_trace w ++ t /\ received fd t = frame_bytes f) as (a' & c' & w' & t & Hrun & Hi & Ht & Hr)
    by by eapply frame_runs.
  exists a', c', w'. split_and!; [done|done|]. destruct Hidle as (Hk & Hp & Hb).
  change (apply_frame (w_fs w) f) with (apply_frames (w_fs w) [f]).
  apply (serve_stream 1 fd (a, c) w (a', c') w' [f] t); try done.
  - split; [done|]. unfold kind_inv. cbn. by rewrite Hk.
  - cbn [serve]. unfold then_. by rewrite (bind_of_Ret _ _ _ _ _ Hrun).
  - cbn. by rewrite Hr, app_nil_r.
  - by constructor.
Qed.

Lemma frame_is_served_witness :
  exists a' c' w', on_readable 9 (no_anon, new_conn)
      (mkWorld (frame_script 11 "/tmp/enu.a1b2c3" Demo.file_frame) [] ∅ ∅) = (Ret (inl (a', c')), w') /\
    idle c' /\ w_fs w' = apply_frame ∅ Demo.file_frame.
Proof.
  apply (frame_is_served 9 no_anon new_conn Demo.file_frame 11 "/tmp/enu.a1b2c3" []
    (mkWorld (frame_script 11 "/tmp/enu.a1b2c3" Demo.file_frame) [] ∅ ∅)).
  - intros n Hn. by apply elem_of_empty in Hn.
  - by split.
  - by vm_compute.
  - reflexivity.
Defined.
