(* ===== verification/Poll.v ===== *)
(** * The daemon's poll loop

    Facts about [daemon_main] as a whole: a pass over the descriptors ends,
    which ports are bound, what a hang-up closes, how the loop can end, and
    what the accept branch does at its bound. *)

From S2P Require Import Prelude Sys Net Wire Daemon Conn.

(** ** A pass ends *)

(** An element with events may append one without events. *)
Definition weight (p : pollfd) : nat := if pf_revents p =? 0 then 1 else 2.
Definition pass_measure (idx : nat) (d : Daemon) : nat := sum_list_with weight (drop idx (d_fds d)).

Lemma weight_pos p : (1 <= weight p <= 2)%nat.
Proof. unfold weight. case_ifs; lia. Qed.

Lemma measure_next idx d p :
  d_fds d !! idx = Some p -> pass_measure idx d = (weight p + pass_measure (S idx) d)%nat.
Proof. intros H. unfold pass_measure. by rewrite (drop_S _ _ _ H). Qed.

Lemma measure_delete idx d p :
  d_fds d !! idx = Some p ->
  pass_measure idx d = (weight p + pass_measure idx (set_pollfds (delete idx (d_fds d)) d))%nat.
Proof.
  intros H. rewrite (measure_next _ _ _ H). unfold pass_measure. cbn. do 2 f_equal.
  rewrite delete_take_drop, drop_app_ge by (rewrite length_take; lia).
  rewrite length_take, drop_drop. apply lookup_lt_Some in H. f_equal. lia.
Qed.

Lemma erase_state_fds fd d w d' w' : erase_state fd d w = (Ret d', w') -> d_fds d' = d_fds d.
Proof.
  unfold erase_state. destruct (d_states d !! fd).
  - intros (? & ? & _ & H)%bind_Ret. unfold mret, sys_ret in H. by simplify_eq.
  - unfold mret, sys_ret. intros. by simplify_eq.
Qed.

Lemma on_listening_fds p d w d' w' :
  on_listening p d w = (Ret d', w') -> exists fd, d_fds d' = d_fds d ++ [mkPollfd fd 0].
Proof.
  unfold on_listening. destruct (_ <? _); [done|].
  intros (fd & w1 & _ & H)%bind_Ret. destruct (_ <? _); [done|].
  unfold mret, sys_ret in H. simplify_eq. by exists fd.
Qed.

Lemma on_client_fds p d w d' w' : on_client p d w = (Ret (inl d'), w') -> d_fds d' = d_fds d.
Proof.
  intros (r & w1 & _ & H)%bind_Ret. destruct r; unfold mret, sys_ret in H; by simplify_eq.
Qed.

Lemma poll_pass_ends n idx d w w' :
  (pass_measure idx d < n)%nat -> poll_pass n idx d w <> (Ret None, w').
Proof.
  revert idx d w. induction n as [|n IH]; intros idx d w Hn; [lia|].
  cbn [poll_pass]. destruct (d_fds d !! idx) as [p|] eqn:E; [|done].
  pose proof (weight_pos p) as Hpos. pose proof (measure_next _ _ _ E) as Hnext.
  destruct (negb _) eqn:Ehup.
  - intros (d1 & w1 & H1%erase_state_fds & H)%bind_Ret. revert H. apply IH.
    pose proof (measure_delete idx d1 p) as Hd. rewrite H1 in Hd. specialize (Hd E).
    replace (pass_measure idx d1) with (pass_measure idx d) in Hd by (unfold pass_measure; by rewrite H1).
    rewrite H1. lia.
  - destruct (Z.land (pf_revents p) POLLIN =? 0) eqn:Ein.
    { intros (u & w1 & _ & H)%bind_Ret. revert H. apply IH. lia. }
    assert (weight p = 2%nat) as Hw.
    { unfold weight. destruct (Z.eqb_spec (pf_revents p) 0) as [H0|]; [|done]. by rewrite H0 in Ein. }
    destruct (bool_decide _).
    + intros (d1 & w1 & [fd H1]%on_listening_fds & H)%bind_Ret. revert H. apply IH.
      assert (pass_measure (S idx) d1 = pass_measure (S idx) d + 1)%nat as Hm1; [|lia].
      unfold pass_measure. rewrite H1, drop_app_le by (apply lookup_lt_Some in E; lia).
      by rewrite sum_list_with_app.
    + intros ([d1|d1] & w1 & H1 & H)%bind_Ret; [|done]. revert H. apply IH.
      apply on_client_fds in H1. unfold pass_measure in *. rewrite H1. lia.
Qed.

Lemma pass_fuel_enough d : (pass_measure 0 d < pass_fuel d)%nat.
Proof.
  unfold pass_measure, pass_fuel. rewrite drop_0. induction (d_fds d) as [|p l IH]; cbn; [lia|].
  pose proof (weight_pos p). cbn in IH. lia.
Qed.

(** ** How the loop ends *)

Lemma daemon_round_ret d w b w' : daemon_round d w = (Ret (inr b), w') -> b.1 = false.
Proof.
  intros (r & w1 & _ & H)%bind_Ret. destruct r; try done.
  - destruct (bool_decide _); [|done]. apply bind_Ret in H as ([[d1|d1]|] & w2 & _ & H); try done.
    apply bind_Ret in H as (? & ? & _ & H). by injection H as <- <-.
  - destruct (bool_decide _); [|done]. unfold mret, sys_ret in H. by simplify_eq.
Qed.

Lemma iter_fuel_ret {S A} (P : A -> Prop) (body : S -> Sys (S + A)) n s w a w' :
  (forall s w a w', body s w = (Ret (inr a), w') -> P a) ->
  iter_fuel n body s w = (Ret a, w') -> P a.
Proof.
  intros Hb. revert s w. induction n as [|n IH]; intros s w; cbn; [done|].
  intros ([s1|a1] & w1 & E & H)%bind_Ret; [by eapply IH|].
  unfold mret, sys_ret in H. simplify_eq. by eapply Hb.
Qed.

(** ** Ports *)

Definition bound_port (e : event) : list Z :=
  match e with Called (Bind _ port) (ROk _) => [port] | _ => [] end.

Definition ports (t : list event) : list Z := t ≫= bound_port.

Lemma bind_daemon_ports port w fd w' :
  bind_daemon port w = (Ret fd, w') -> exists t, w_trace w' = w_trace w ++ t /\ ports t = [port].
Proof.
  intros H. unfold bind_daemon, set_nonblocking in H.
  repeat match type of H with
  | (_ ≫= _) _ = _ => apply bind_Ret in H as (? & ? & ?E & H)
  end.
  apply bind_Ret in E3 as (flags & w5 & E3 & E4).
  apply bind_Ret in E4 as (r & w6 & E4 & E5).
  apply sys_or_pfatal_trace in E, E0, E1, E2, E3. apply sys_int_trace in E4.
  assert (exists t, w_trace w' = w_trace w6 ++ t /\ ports t = []) as (t & Ht & Hp).
  { unfold mret, sys_ret in H. simplify_eq. destruct r; unfold mret, sys_ret, log, emit in E5; simplify_eq.
    - exists []. by rewrite app_nil_r.
    - by eexists. }
  eexists. split; [rewrite Ht, E4, E3, E2, E1, E0, E, <- !app_assoc; reflexivity|].
  unfold ports in *. rewrite !bind_app, Hp. by destruct r.
Qed.

Lemma bind_ports_ports k c d w d' w' :
  bind_ports k c d w = (Ret d', w') ->
  exists t, w_trace w' = w_trace w ++ t /\
    ports t = map (fun i => u16 (base_port (d_msg d) + (c + Z.of_nat i))) (List.seq 0 k).
Proof.
  revert c d w. induction k as [|k IH]; intros c d w; cbn [bind_ports].
  - unfold mret, sys_ret. intros. simplify_eq. exists []. by rewrite app_nil_r.
  - intros (fd & w1 & (t1 & E1 & P1)%bind_daemon_ports & H)%bind_Ret.
    apply IH in H as (t2 & E2 & P2). exists (t1 ++ t2). split; [by rewrite E2, E1, app_assoc|].
    unfold ports in *. rewrite bind_app, P1, P2. cbn [List.seq map app]. rewrite Z.add_0_r.
    f_equal. rewrite <- seq_shift, map_map. apply map_ext. intros i. cbn beta. f_equal. cbn [d_msg]. lia.
Qed.

(** ** Properties *)

(** C19. A pass over the descriptors ends, whatever is accepted or dropped on
    the way: within [pass_fuel] iterations, two for each descriptor there is at
    the start and one more, it has visited the last one, has left
    [daemon_main], or is in a call that has not returned. *)
Theorem poll_pass_terminates d n w w' :
  (pass_fuel d <= n)%nat -> poll_pass n 0 d w <> (Ret None, w').
Proof. intros Hn. pose proof (pass_fuel_enough d). apply poll_pass_ends. lia. Qed.

Lemma poll_pass_terminates_witness :
  let d := mkDaemon (mkDaemonInitMessage 50000 1) [mkPollfd 4 1; mkPollfd 9 16] 2 {[4]} ∅ no_anon in
  poll_pass (pass_fuel d) 0 d (mkWorld [ROk 9] [] ∅ ∅) <> (Ret None, mkWorld [] [] ∅ ∅).
Proof. cbv zeta. apply poll_pass_terminates. apply Nat.leb_le. reflexivity. Defined.

(** The ports: when the loop that binds them ends, it has bound exactly
    [n_conns] ports, [base_port] to [base_port + n_conns - 1] in order, modulo
    the 16 bits of a port. *)
Theorem daemon_binds_ports m w d w' :
  bind_ports (Z.to_nat (n_conns m)) 0 (initial_daemon m) w = (Ret d, w') ->
  exists t, w_trace w' = w_trace w ++ t /\
    ports t = map (fun i => u16 (base_port m + Z.of_nat i)) (List.seq 0 (Z.to_nat (n_conns m))).
Proof. intros (t & Ht & Hp)%bind_ports_ports. by exists t. Qed.

Lemma daemon_main_false w b w' : daemon_main w = (Ret b, w') -> b.1 = false.
Proof.
  intros ([r got] & w1 & _ & H)%bind_Ret. destruct (io_ok r).
  - apply bind_Ret in H as (d & w2 & _ & H). unfold loop in H.
    eapply (iter_fuel_ret (fun b => b.1 = false)); [|exact H]. intros. by eapply daemon_round_ret.
  - unfold mret, sys_ret in H. by simplify_eq.
Qed.

(** [connect_to_daemon] never connects: the [pfatal] after socket(2) is
    unconditional, so no port or address makes it return a descriptor. *)
Theorem connect_to_daemon_never_returns port addr w fd w' :
  connect_to_daemon port addr w <> (Ret fd, w').
Proof.
  intros (r & w1 & _ & H)%bind_Ret. by cbn in H.
Qed.

(** ** Runs *)

Module PollDemo.
(** The descriptors 0 (stdin) and 4 (the listening socket of one port). *)
Definition init : list sysret := [RBytes (encode_init (mkDaemonInitMessage 50000 1))].
Definition bind_script (sock : Z) : list sysret := [ROk sock; ROk 0; ROk 0; ROk 0; ROk 2; ROk 0].
Definition two_clients : list sysret :=
  init ++ bind_script 4 ++ [RInts [POLLIN]; ROk 9; RInts [POLLIN; 0]; ROk 10].
Definition read_error : list sysret :=
  init ++ bind_script 4 ++ [RInts [POLLIN]; ROk 9; RInts [0; POLLIN]; RErr (EOTHER 104)].
End PollDemo.

Lemma daemon_binds_ports_witness :
  exists t, w_trace (bind_ports 2 0 (initial_daemon (mkDaemonInitMessage 65535 2))
      (mkWorld (PollDemo.bind_script 4 ++ PollDemo.bind_script 5) [] ∅ ∅)).2 = [] ++ t /\
    ports t = [65535; 0].
Proof.
  eapply (daemon_binds_ports (mkDaemonInitMessage 65535 2)
    (mkWorld (PollDemo.bind_script 4 ++ PollDemo.bind_script 5) [] ∅ ∅)).
  vm_compute. reflexivity.
Defined.

(** The bound on connections is off by one: with one expected connection
    a second client is accepted instead of refused, the vector [fds] outgrows
    what was reserved, and the next line reads through the dangling reference
    [pfd]. *)
Theorem second_client_is_undefined :
  exists w', daemon_main (mkWorld PollDemo.two_clients [] ∅ ∅) =
    (Undef "pfd.fd after fds was reallocated", w').
Proof. eexists. vm_compute. reflexivity. Qed.

(** C37. The accept branch around its bound: below [2 * n_conns] descriptors
    an accepted client gets a fresh connection and nothing else changes; at the
    bound the client is still accepted, and the vector outgrows what was
    reserved; only above it the daemon stops with a fatal error. *)
Theorem on_listening_in_bounds pfd d w fd rest :
  d_cap d = n_conns (d_msg d) * 2 -> w_ans w = ROk fd :: rest ->
  d_states d !! fd = None ->
  let w1 := kernel (Accept (pf_fd pfd)) (ROk fd) rest w in
  on_listening pfd d w =
    match zlen (d_fds d) ?= n_conns (d_msg d) * 2 with
    | Lt => (Ret (set_states (<[fd := set_fds fd (pf_fd pfd) new_conn]> (d_states d))
               (set_pollfds (d_fds d ++ [mkPollfd fd 0]) d)), w1)
    | Eq => (Undef "pfd.fd after fds was reallocated", w1)
    | Gt => (Fatal "one too many connections accepted", w)
    end.
Proof.
  intros Hcap Hans Hnew w1. unfold on_listening.
  destruct (Z.compare_spec (zlen (d_fds d)) (n_conns (d_msg d) * 2)) as [Hlen|Hlen|Hlen];
    destruct (Z.ltb_spec (n_conns (d_msg d) * 2) (zlen (d_fds d))); try lia; [| |done].
  all: sys_go; rewrite Hans, Hcap; cbn.
  all: destruct (Z.ltb_spec (n_conns (d_msg d) * 2) (zlen (d_fds d) + 1)); try lia; by rewrite ?Hnew.
Qed.

Lemma on_listening_in_bounds_witness :
  let d := mkDaemon (mkDaemonInitMessage 50000 1) [mkPollfd 4 1; mkPollfd 8 0] 2 {[4]} ∅ no_anon in
  on_listening (mkPollfd 4 1) d (mkWorld [ROk 9] [] ∅ ∅) =
    (Undef "pfd.fd after fds was reallocated", kernel (Accept 4) (ROk 9) [] (mkWorld [ROk 9] [] ∅ ∅)).
Proof.
  apply (on_listening_in_bounds (mkPollfd 4 1)
    (mkDaemon (mkDaemonInitMessage 50000 1) [mkPollfd 4 1; mkPollfd 8 0] 2 {[4]} ∅ no_anon)
    (mkWorld [ROk 9] [] ∅ ∅) 9 []); reflexivity.
Defined.

(** ** Connections and the sockets they were accepted on *)

(** A connection that was accepted knows its descriptor and a listening
    socket; one that was not knows neither. *)
Definition accepted (socks : gset Z) (fd : Z) (c : ConnectionState) : Prop :=
  cs_client_fd c = -1 /\ cs_sock_fd c = -1 \/ cs_client_fd c = fd /\ cs_sock_fd c ∈ socks.

Definition linked (d : Daemon) : Prop := map_Forall (accepted (d_socket_fds d)) (d_states d).

Definition same_fds (c c' : ConnectionState) : Prop :=
  cs_client_fd c' = cs_client_fd c /\ cs_sock_fd c' = cs_sock_fd c.

Lemma advance_fds fd tg c w p c' w' : advance fd tg c w = (Ret (p, c'), w') -> same_fds c c'.
Proof.
  intros ([r got] & w1 & _ & H)%bind_Ret. apply bind_Ret in H as (c1 & w2 & E & H).
  assert (same_fds c c1) as [H1 H2].
  { unfold store_target in E. destruct got; [by injection E as <- <-|]. destruct tg.
    - destruct (store_at _ _ _); [by injection E as <- <-|done].
    - destruct (cs_anon_buf c); [|done]. apply bind_Ret in E as (? & ? & _ & E). by injection E as <- <-. }
  destruct (io_ok r); injection H as <- <- <-; by split.
Qed.

Lemma reset_fds c w c' w' : reset c w = (Ret c', w') -> same_fds c c'.
Proof. intros (? & ? & _ & H)%bind_Ret. by injection H as <- <-. Qed.

Lemma on_header_p1_fds fd a c w r w' :
  on_header_p1 fd (a, c) w = (Ret r, w') -> same_fds c (match r with inl x | inr x => x.2 end).
Proof.
  unfold on_header_p1. destruct (cs_kind c); try (by intros [= <- <-]).
  intros ([p c1] & w1 & E%advance_fds & H)%bind_Ret. destruct p; by injection H as <- <-.
Qed.

Lemma on_message_fds a c w r w' :
  on_message a c w = (Ret r, w') -> same_fds c (match r with inl x | inr x => x.2 end).
Proof.
  unfold on_message. destruct (bool_decide _).
  - intros ([[afd ap] a1] & w1 & _ & H)%bind_Ret. apply bind_Ret in H as (c1 & w2 & E & H).
    assert (same_fds c c1) as Hc; [|by injection H as <- <-].
    destruct (0 <? _); [|by injection E as <- <-]. apply bind_Ret in E as (? & ? & _ & E). by injection E as <- <-.
  - intros (? & w1 & _ & H)%bind_Ret. apply bind_Ret in H as (c1 & w2 & E%reset_fds & H).
    injection H as <- <-. exact E.
Qed.

Lemma same_fds_trans c1 c2 c3 : same_fds c1 c2 -> same_fds c2 c3 -> same_fds c1 c3.
Proof. intros [] []. split; congruence. Qed.

Lemma on_header_p2_fds fd a c w r w' :
  on_header_p2 fd (a, c) w = (Ret r, w') -> same_fds c (match r with inl x | inr x => x.2 end).
Proof.
  unfold on_header_p2. destruct (cs_kind c); try (by intros [= <- <-]).
  intros ([p c1] & w1 & E%advance_fds & H)%bind_Ret. destruct p; try by injection H as <- <-.
  apply on_message_fds in H. by eapply same_fds_trans.
Qed.

Lemma on_receiving_fds fd a c w r w' :
  on_receiving fd (a, c) w = (Ret r, w') -> same_fds c (match r with inl x | inr x => x.2 end).
Proof.
  unfold on_receiving. destruct (cs_kind c); try (by intros [= <- <-]).
  intros ([p c1] & w1 & E%advance_fds & H)%bind_Ret. destruct p; try by injection H as <- <-.
  apply bind_Ret in H as (? & w2 & _ & H). destruct (cs_anon_path c1); [|done].
  apply bind_Ret in H as (a2 & w3 & _ & H). apply bind_Ret in H as (c2 & w4 & E2%reset_fds & H).
  injection H as <- <-. by eapply same_fds_trans.
Qed.

Lemma on_readable_fds fd a c w r w' :
  on_readable fd (a, c) w = (Ret r, w') -> same_fds c (match r with inl x | inr x => x.2 end).
Proof.
  intros (r1 & w1 & H1 & H)%bind_Ret. apply bind_Ret in H1 as (r0 & w0 & H0 & H1).
  apply on_header_p1_fds in H0. assert (same_fds c (on_connected c)) as Hc by (unfold on_connected; by destruct (cs_kind c)).
  eapply same_fds_trans in H0; [|exact Hc]. destruct r0 as [[a0 c0]|x0]; cbn in H0.
  - apply on_header_p2_fds in H1. eapply same_fds_trans in H1; [|exact H0].
    destruct r1 as [[a1 c1]|x1]; cbn in H1; [|by injection H as <- <-].
    apply on_receiving_fds in H. by eapply same_fds_trans.
  - injection H1 as <- <-. by injection H as <- <-.
Qed.

Lemma linked_listening p d w d' w' :
  linked d -> pf_fd p ∈ d_socket_fds d -> on_listening p d w = (Ret d', w') -> linked d'.
Proof.
  intros Hd Hp. unfold on_listening. destruct (_ <? _); [done|]. intros (fd & w1 & _ & H)%bind_Ret.
  destruct (_ <? _); [done|]. injection H as <- <-. apply map_Forall_insert_2; [by right|exact Hd].
Qed.

Lemma linked_client p d w r w' :
  linked d -> on_client p d w = (Ret r, w') -> linked (match r with inl d' | inr d' => d' end).
Proof.
  intros Hd (r1 & w1 & E%on_readable_fds & H)%bind_Ret. injection H as <- <-.
  assert (accepted (d_socket_fds d) (pf_fd p) (default new_conn (d_states d !! pf_fd p))) as Ha.
  { destruct (d_states d !! pf_fd p) as [c|] eqn:Ec; [by apply (Hd _ _ Ec)|by left]. }
  destruct r1 as [[a c]|[a c]]; cbn in E; destruct E as [E1 E2];
    (apply map_Forall_insert_2; [unfold accepted in *; cbn; by rewrite E1, E2|exact Hd]).
Qed.

Lemma linked_erase fd d w d' w' : linked d -> erase_state fd d w = (Ret d', w') -> linked d'.
Proof.
  intros Hd. unfold erase_state. destruct (d_states d !! fd); [|by intros [= <- <-]].
  intros (? & ? & _ & H)%bind_Ret. injection H as <- <-. by apply map_Forall_delete.
Qed.

Lemma linked_pass fuel idx d w r w' :
  linked d -> poll_pass fuel idx d w = (Ret (Some r), w') -> linked (match r with inl d' | inr d' => d' end).
Proof.
  revert idx d w. induction fuel as [|fuel IH]; intros idx d w Hd; cbn [poll_pass]; [done|].
  destruct (d_fds d !! idx) as [p|]; [|by intros [= <- <-]].
  destruct (negb _).
  { intros (d1 & w1 & E & H)%bind_Ret. apply IH in H; [done|]. by eapply linked_erase in E. }
  destruct (_ =? 0).
  { intros (u & w1 & E & H)%bind_Ret. by apply IH in H. }
  case_bool_decide as Hin; intros (r1 & w1 & E & H)%bind_Ret.
  - apply IH in H; [done|]. by eapply linked_listening.
  - eapply linked_client in E; [|done]. destruct r1 as [d1|d1]; [by apply IH in H|by injection H as <- <-].
Qed.

Lemma linked_round d w d' w' : linked d -> daemon_round d w = (Ret (inl d'), w') -> linked d'.
Proof.
  intros Hd (x & w1 & _ & H)%bind_Ret. destruct x; try done.
  - case_bool_decide; [|done]. apply bind_Ret in H as ([[d1|d1]|] & w2 & E & H); [|by apply bind_Ret in H as (? & ? & _ & ?)|done].
    injection H as <- <-. by apply linked_pass in E.
  - case_bool_decide; [|done]. by injection H as <- <-.
Qed.

Lemma linked_bind_ports k c d w d' w' :
  d_states d = ∅ -> bind_ports k c d w = (Ret d', w') -> linked d'.
Proof.
  revert c d w. induction k as [|k IH]; intros c d w Hd; cbn; [intros [= <- <-]; unfold linked; rewrite Hd; apply map_Forall_empty|].
  intros (fd & w1 & _ & H)%bind_Ret. by apply IH in H.
Qed.

Definition closed_fd (e : event) : list Z := match e with Called (Close fd) _ => [fd] | _ => [] end.
Definition closes (t : list event) : list Z := t ≫= closed_fd.

Lemma sys_close fd w :
  w_ans w <> [] -> exists w1 t, sys_ignore (Close fd) w = (Ret tt, w1) /\ w_trace w1 = w_trace w ++ t /\ closes t = [fd] /\
    length (w_ans w) = S (length (w_ans w1)).
Proof.
  intros H. sys_go. destruct (w_ans w) as [|r rest]; [done|]. by eexists _, _.
Qed.

Lemma destroy_closes c w :
  cs_client_fd c <> -1 -> cs_sock_fd c <> -1 -> (3 <= length (w_ans w))%nat ->
  exists w1 t, destroy c w = (Ret tt, w1) /\ w_trace w1 = w_trace w ++ t /\
    closes t = (if cs_anon_fd c =? -1 then [] else [cs_anon_fd c]) ++ [cs_client_fd c; cs_sock_fd c].
Proof.
  intros Hc Hs Hans. unfold destroy. rewrite !(proj2 (Z.eqb_neq _ (-1))) by done.
  assert (exists w1 t, (if cs_anon_fd c =? -1 then mret tt else sys_ignore (Close (cs_anon_fd c))) w = (Ret tt, w1) /\
    w_trace w1 = w_trace w ++ t /\ closes t = (if cs_anon_fd c =? -1 then [] else [cs_anon_fd c]) /\
    (2 <= length (w_ans w1))%nat) as (w1 & t1 & E1 & T1 & C1 & L1).
  { destruct (cs_anon_fd c =? -1); [exists w, []; rewrite app_nil_r; split_and!; try done; lia|].
    destruct (sys_close (cs_anon_fd c) w) as (w1 & t & E & T & C & L); [by intros E; rewrite E in Hans; cbn in Hans; lia|].
    exists w1, t. split_and!; try done. lia. }
  destruct (sys_close (cs_client_fd c) w1) as (w2 & t2 & E2 & T2 & C2 & L2); [by intros E; rewrite E in L1; cbn in L1; lia|].
  destruct (sys_close (cs_sock_fd c) w2) as (w3 & t3 & E3 & T3 & C3 & _); [intros E; rewrite E in L2; cbn in L2; lia|].
  exists w3, (t1 ++ t2 ++ t3). rewrite (bind_of_Ret _ _ _ _ _ E1), (bind_of_Ret _ _ _ _ _ E2), E3.
  split; [done|]. split; [by rewrite T3, T2, T1, <- !app_assoc|].
  unfold closes in *. by rewrite !bind_app, C1, C2, C3.
Qed.


(** One idle client; its port is 50000. *)
Module HangupDemo.
Definition daemon : Daemon :=
  mkDaemon (mkDaemonInitMessage 50000 1) [mkPollfd 4 0; mkPollfd 9 POLLHUP] 2 {[4]}
    {[9 := set_fds 9 4 new_conn]} no_anon.
Definition world : World := mkWorld [ROk 0; ROk 0; ROk 0] [] ∅ ∅.
End HangupDemo.

