(* ===== verification/Cleanup.v ===== *)
(** * The temporary files of the daemon

    Every name mkstemp(3) gave is in [ANON_FILES] until it has been renamed:
    [tidy], an invariant of the whole program [daemon_main] and of each of its
    returns, so that the handler [register_tempfile_cleanup] gives to
    atexit(3) finds the files of the transfers that were not completed.
    [temporary] is any predicate that holds of the names mkstemp(3) gives and
    of no name a connection creates ([clean]). *)

From S2P Require Import Prelude Sys Net Wire Daemon Multi.

Section cleanup.
Context (temporary : string -> Prop).

Definition clean (e : event) : Prop :=
  match e with
  | Called (Mkstemp _) (RFile _ n) => temporary n
  | Called (Rename _ dst) (ROk _) => ~ temporary dst
  | Called (Mkdir path _) (ROk _) => ~ temporary path
  | _ => True
  end.

Definition tidy (a : AnonFiles) (w : World) : Prop :=
  (forall n, n ∈ ANON_FILES a -> c_str n = n) /\
  (Forall clean (w_trace w) -> forall n, temporary n -> is_Some (w_fs w !! n) ->
     n ∈ ANON_FILES a /\ registered a = true).

(** ** What leaves [ANON_FILES] alone *)

Definition keeps_tidy (w w' : World) : Prop := forall a, tidy a w -> tidy a w'.

#[global] Instance keeps_tidy_pre : PreOrder keeps_tidy.
Proof. split; [by intros w a|]. intros w1 w2 w3 H1 H2 a H. by apply H2, H1. Qed.

Lemma tidy_extend a w w' t :
  w_trace w' = w_trace w ++ t ->
  (Forall clean t -> forall n, temporary n -> is_Some (w_fs w' !! n) -> is_Some (w_fs w !! n)) ->
  tidy a w -> tidy a w'.
Proof.
  intros Ht Hk [Hc H]. split; [done|]. rewrite Ht. intros [H1 H2]%Forall_app n Hn Hfs. by apply H; auto.
Qed.

Lemma fs_effect_temporary c r fs opened n :
  (forall tm, c <> Mkstemp tm) -> clean (Called c r) -> temporary n ->
  is_Some (fs_effect c r fs opened !! n) -> is_Some (fs !! n).
Proof.
  intros Hc Hcl Hn. destruct c, r; cbn in *; try done; try by destruct (Hc template).
  - destruct (opened !! fd) as [m|]; [|done]. destruct (fs !! m) as [[bs|]|] eqn:E; try done.
    rewrite lookup_insert_is_Some'. intros [<-|]; [by eexists|done].
  - destruct (fs !! src) as [x|]; [|done]. rewrite lookup_insert_is_Some'. intros [<-|H]; [done|].
    by apply lookup_delete_is_Some in H as [_ ?].
  - rewrite lookup_insert_is_Some'. intros [<-|]; done.
  - by intros [_ ?]%lookup_delete_is_Some.
Qed.

Lemma tidy_sys c : (forall tm, c <> Mkstemp tm) -> within keeps_tidy (sys c).
Proof.
  intros Hc w r w'. unfold sys. destruct (w_ans w) as [|x rest]; [done|]. case_ifs; [|done].
  intros [= <- <-] a. eapply tidy_extend; [done|]. intros [Hcl _]%Forall_cons n Hn.
  by apply (fs_effect_temporary c (clip c x) _ (w_open w)).
Qed.

Lemma tidy_store name off bs : within keeps_tidy (store_file name off bs).
Proof.
  intros w u w'. unfold store_file. destruct (w_fs w !! name) as [[content|]|] eqn:E; [|done|done].
  destruct (store_at content off bs); [|done]. intros [= <- <-] a.
  eapply (tidy_extend _ _ _ []); [by rewrite app_nil_r|]. cbn. intros _ n _.
  rewrite lookup_insert_is_Some'. intros [<-|]; [by eexists|done].
Qed.

Lemma tidy_emit e : clean e -> within keeps_tidy (emit e).
Proof. intros He w u w' [= <- <-] a. by eapply tidy_extend. Qed.

Ltac tidy_by leaf :=
  within_by ltac:(first [leaf | apply tidy_store | apply tidy_sys; done | apply tidy_emit; done]).

Lemma tidy_advance fd tg c : within keeps_tidy (advance fd tg c).
Proof. unfold advance, store_target, read_partial, read_body. tidy_by fail. Qed.

Lemma tidy_reset c : within keeps_tidy (reset c).
Proof. unfold reset. tidy_by fail. Qed.

Lemma tidy_destroy c : within keeps_tidy (destroy c).
Proof. unfold destroy. tidy_by fail. Qed.

Lemma tidy_bind_daemon port : within keeps_tidy (bind_daemon port).
Proof. unfold bind_daemon, set_nonblocking, log. tidy_by fail. Qed.

(** ** What changes it *)

Lemma tidy_create fsize mode a w fd n a' w' :
  create_anonfile fsize mode a w = (Ret (fd, n, a'), w') -> tidy a w -> tidy a' w' /\ c_str n = n.
Proof.
  intros (r & w1 & E & H)%bind_Ret [Hc Ha]. unfold sys in E. destruct (w_ans w) as [|x rest]; [done|].
  destruct (legal _ _ _) eqn:Hl; [|done]. injection E as <- <-. destruct x as [|? | |f m|]; try done. cbn in H.
  apply bind_Ret in H as (? & w2 & E & H). injection H as -> <- <- <-.
  assert (c_str m = m) as Hm by (cbn in Hl; case_bool_decide; case_bool_decide; done). split; [|done].
  pose proof (within_sys_or_pfatal keeps_tidy _ _ (tidy_sys (Ftruncate fd (i64 fsize)) ltac:(done)) _ _ _ E) as Hk.
  apply Hk. unfold register_tempfile_cleanup. split.
  - intros k. destruct (registered a); cbn; set_solver.
  - cbn. intros [Hcl _]%Forall_app k Hk1. rewrite lookup_insert_is_Some'. intros [<-|Hs].
    + split; [set_solver|]. by destruct (registered a) eqn:E2; cbn.
    + destruct (Ha Hcl k Hk1 Hs) as [H1 H2]. rewrite H2. cbn. split; [set_solver|done].
Qed.

Lemma tidy_move n p a w a' w' :
  move_anonfile n p a w = (Ret a', w') -> c_str n = n -> tidy a w -> tidy a' w'.
Proof.
  intros (v & w1 & E & H)%bind_Ret Hn [Hc Ha]. injection H as <- <-.
  unfold sys_or_pfatal, sys_int in E. apply bind_Ret in E as (z & w2 & E & H).
  apply bind_Ret in E as (r & w3 & E & H'). destruct z; [|done]. injection H as <- <-.
  unfold sys in E. destruct (w_ans w) as [|x rest]; [done|]. cbn in E. injection E as <- <-.
  destruct x; try done. injection H' as <- <-. split; [set_solver|].
  cbn. intros [Hcl [Hd _]%Forall_cons]%Forall_app k Hk. cbn in Hd. rewrite Hn.
  assert (forall fs : gmap string fnode, (is_Some (fs !! k) -> is_Some (w_fs w !! k) /\ k <> n) ->
    is_Some (fs !! k) -> k ∈ ANON_FILES a ∖ {[n]} /\ registered a = true) as Hfs.
  { intros fs H [H1 H2]%H. destruct (Ha Hcl k Hk H1). set_solver. }
  apply Hfs. destruct (w_fs w !! n) as [x|] eqn:E.
  - rewrite lookup_insert_is_Some', lookup_delete_is_Some. intros [<-|[? ?]]; [done|]. by split.
  - intros Hs. split; [done|]. intros ->. rewrite E in Hs. by destruct Hs.
Qed.

(** ** The handler of a connection *)

Definition named (c : ConnectionState) : Prop := forall n, cs_anon_path c = Some n -> c_str n = n.
Definition conn_tidy (x : conn) (w : World) : Prop := tidy x.1 w /\ named x.2.

(** The state a part of the handler leaves, however it goes on. *)
Definition left_by {A} (r : flow A) : A := match r with inl x | inr x => x end.

Lemma named_advance fd tg c w p c' w' : named c -> advance fd tg c w = (Ret (p, c'), w') -> named c'.
Proof. intros Hc E%advance_path n. rewrite E. apply Hc. Qed.

Lemma conn_tidy_advance fd tg a c w p c' w' :
  conn_tidy (a, c) w -> advance fd tg c w = (Ret (p, c'), w') -> conn_tidy (a, c') w'.
Proof. intros [Ha Hc] E. split; [by apply (tidy_advance _ _ _ _ _ _ E)|by eapply named_advance]. Qed.

Lemma conn_tidy_reset a c w c' w' : conn_tidy (a, c) w -> reset c w = (Ret c', w') -> conn_tidy (a, c') w'.
Proof.
  intros [Ha Hc] E. split; [by apply (tidy_reset _ _ _ _ E)|]. intros n. cbn.
  rewrite (reset_path _ _ _ _ E). apply Hc.
Qed.

Lemma conn_tidy_header_p1 fd x w r w' :
  conn_tidy x w -> on_header_p1 fd x w = (Ret r, w') -> conn_tidy (left_by r) w'.
Proof.
  destruct x as [a c]. unfold on_header_p1. intros Hx. destruct (cs_kind c); try by intros [= <- <-].
  intros ([p c1] & w1 & E & H)%bind_Ret. apply (conn_tidy_advance _ _ _ _ _ _ _ _ Hx) in E.
  destruct p; injection H as <- <-; exact E.
Qed.

Lemma conn_tidy_message a c w r w' :
  conn_tidy (a, c) w -> on_message a c w = (Ret r, w') -> conn_tidy (left_by r) w'.
Proof.
  intros [Ha Hc]. unfold on_message. case_bool_decide.
  - intros ([[fd n] a'] & w1 & E & H2)%bind_Ret. apply tidy_create in E as [Ha' Hn]; [|done].
    apply bind_Ret in H2 as (c1 & w2 & E & H3). injection H3 as <- <-.
    assert (tidy a' w2 /\ cs_anon_path c1 = Some n) as [Ha2 Hc1].
    { destruct (0 <? _); [|by injection E as <- <-].
      apply bind_Ret in E as (? & w3 & E & H4). injection H4 as <- <-. split; [|done].
      by eapply (within_sys_or_pfatal keeps_tidy _ _ (tidy_sys (Mmap _ _) ltac:(done)) _ _ _ E). }
    split; [done|]. intros m. cbn. rewrite Hc1. by intros [= <-].
  - intros (? & w1 & E & H2)%bind_Ret. apply bind_Ret in H2 as (c1 & w2 & E2 & H2). injection H2 as <- <-.
    apply (conn_tidy_reset a) in E2; [exact E2|]. split; [|exact Hc].
    by eapply (within_sys_or_pfatal keeps_tidy _ _ (tidy_sys (Mkdir _ _) ltac:(done)) _ _ _ E).
Qed.

Lemma conn_tidy_header_p2 fd x w r w' :
  conn_tidy x w -> on_header_p2 fd x w = (Ret r, w') -> conn_tidy (left_by r) w'.
Proof.
  destruct x as [a c]. unfold on_header_p2. intros Hx. destruct (cs_kind c); try by intros [= <- <-].
  intros ([p c1] & w1 & E & H)%bind_Ret. apply (conn_tidy_advance _ _ _ _ _ _ _ _ Hx) in E.
  destruct p; [by injection H as <- <-..|by eapply conn_tidy_message].
Qed.

Lemma conn_tidy_receiving fd x w r w' :
  conn_tidy x w -> on_receiving fd x w = (Ret r, w') -> conn_tidy (left_by r) w'.
Proof.
  destruct x as [a c]. unfold on_receiving. intros Hx. destruct (cs_kind c); try by intros [= <- <-].
  intros ([p c1] & w1 & E & H)%bind_Ret. apply (conn_tidy_advance _ _ _ _ _ _ _ _ Hx) in E.
  destruct p; [by injection H as <- <-..|]. unfold commit in H.
  apply bind_Ret in H as (? & w2 & Ef & H). destruct (cs_anon_path c1) as [n|] eqn:En; [|done].
  apply bind_Ret in H as (a' & w3 & Em & H). apply bind_Ret in H as (c2 & w4 & Er & H). injection H as <- <-.
  destruct E as [Ha Hc]. apply (conn_tidy_reset a') in Er; [exact Er|]. split; [|exact Hc].
  eapply tidy_move; [exact Em|by apply Hc|].
  by eapply (within_sys_ignore keeps_tidy _ (tidy_sys (Fsync _) ltac:(done)) _ _ _ Ef).
Qed.

Lemma conn_tidy_then m k w r w' :
  (forall r1 w1, m w = (Ret r1, w1) -> conn_tidy (left_by r1) w1) ->
  (forall x w1 r w', conn_tidy x w1 -> k x w1 = (Ret r, w') -> conn_tidy (left_by r) w') ->
  then_ m k w = (Ret r, w') -> conn_tidy (left_by r) w'.
Proof.
  intros Hm Hk (r1 & w1 & E%Hm & H)%bind_Ret. destruct r1 as [x|x]; [by eapply Hk|]. by injection H as <- <-.
Qed.

Lemma conn_tidy_readable fd x w r w' :
  conn_tidy x w -> on_readable fd x w = (Ret r, w') -> conn_tidy (left_by r) w'.
Proof.
  intros [Ha Hc]. apply conn_tidy_then; [|intros; by eapply conn_tidy_receiving].
  intros r1 w1. apply conn_tidy_then; [|intros; by eapply conn_tidy_header_p2].
  intros r2 w2. apply conn_tidy_header_p1. split; [done|]. cbn. unfold on_connected. by destruct (cs_kind x.2).
Qed.

(** ** The daemon *)

Definition daemon_tidy (d : Daemon) (w : World) : Prop :=
  tidy (d_anon d) w /\ map_Forall (fun _ => named) (d_states d).

Lemma daemon_tidy_weaken d d' w w' :
  keeps_tidy w w' -> d_anon d' = d_anon d -> d_states d' ⊆ d_states d -> daemon_tidy d w -> daemon_tidy d' w'.
Proof.
  intros Hk Ha Hs [H1 H2]. split; [rewrite Ha; by apply Hk|].
  intros k c Hc. apply (H2 k). by eapply lookup_weaken.
Qed.

Lemma daemon_tidy_client p d w r w' :
  daemon_tidy d w -> on_client p d w = (Ret r, w') -> daemon_tidy (left_by r) w'.
Proof.
  intros [Ha Hs] (x & w1 & E & H)%bind_Ret. apply conn_tidy_readable in E as [Ha' Hc'].
  - destruct x as [x|x]; injection H as <- <-; (split; [exact Ha'|]); cbn; by apply map_Forall_insert_2.
  - split; [done|]. cbn. destruct (d_states d !! pf_fd p) as [c|] eqn:Ec; [by eapply Hs|by intros n].
Qed.

Lemma daemon_tidy_listening p d w d' w' :
  daemon_tidy d w -> on_listening p d w = (Ret d', w') -> daemon_tidy d' w'.
Proof.
  intros [Ha Hs]. unfold on_listening. destruct (_ <? _); [done|]. intros (fd & w1 & E & H)%bind_Ret.
  destruct (_ <? _); [done|]. injection H as <- <-. split; cbn.
  - by eapply (within_sys_or_pfatal keeps_tidy _ _ (tidy_sys (Accept _) ltac:(done)) _ _ _ E).
  - apply map_Forall_insert_2; [|done]. destruct (d_states d !! fd) as [c|] eqn:Ec; [by apply (Hs fd c)|by intros n].
Qed.

Lemma daemon_tidy_erase fd d w d' w' : daemon_tidy d w -> erase_state fd d w = (Ret d', w') -> daemon_tidy d' w'.
Proof.
  intros Hd. unfold erase_state. destruct (d_states d !! fd) as [c|]; [|by intros [= <- <-]].
  intros (? & w1 & E & H)%bind_Ret. injection H as <- <-.
  eapply (daemon_tidy_weaken d); [exact (tidy_destroy _ _ _ _ E)|done|cbn; apply delete_subseteq|done].
Qed.

Lemma daemon_tidy_pass fuel idx d w r w' :
  daemon_tidy d w -> poll_pass fuel idx d w = (Ret (Some r), w') -> daemon_tidy (left_by r) w'.
Proof.
  revert idx d w. induction fuel as [|fuel IH]; intros idx d w Hd; cbn [poll_pass]; [done|].
  destruct (d_fds d !! idx) as [p|]; [|by intros [= <- <-]]. case_ifs.
  - intros (d1 & w1 & E & H)%bind_Ret. apply IH in H; [done|]. by eapply daemon_tidy_erase in E.
  - intros (u & w1 & E & H)%bind_Ret. apply IH in H; [done|].
    eapply (daemon_tidy_weaken d); [exact (tidy_emit (Logged _ _) I _ _ _ E)|done..].
  - intros (d1 & w1 & E & H)%bind_Ret. apply IH in H; [done|]. by eapply daemon_tidy_listening.
  - intros (r1 & w1 & E & H)%bind_Ret. apply daemon_tidy_client in E; [|done].
    destruct r1 as [d1|d1]; [by eapply IH|by injection H as <- <-].
Qed.

Lemma tidy_destroy_states d : within keeps_tidy (destroy_states d).
Proof.
  unfold destroy_states. generalize (map_to_list (d_states d)).*2. intros l.
  induction l as [|c l IH]; cbn; [apply within_ret, _|]. by apply within_bind; [apply _|apply tidy_destroy|].
Qed.

Lemma daemon_tidy_round d w r w' :
  daemon_tidy d w -> daemon_round d w = (Ret r, w') ->
  match r with inl d' => daemon_tidy d' w' | inr (_, a) => tidy a w' end.
Proof.
  intros Hd (x & w1 & E & H)%bind_Ret.
  assert (daemon_tidy d w1) as Hd1 by (eapply (daemon_tidy_weaken d); [exact (tidy_sys (Poll _) ltac:(done) _ _ _ E)|done..]).
  destruct x; try done.
  - case_bool_decide; [|done]. apply bind_Ret in H as ([r1|] & w2 & E2 & H); [|done].
    apply daemon_tidy_pass in E2; [|by eapply daemon_tidy_weaken]. destruct r1 as [d1|d1].
    + by injection H as <- <-.
    + apply bind_Ret in H as (u & w3 & E3 & H). injection H as <- <-. apply (tidy_destroy_states _ _ _ _ E3), E2.
  - case_bool_decide; [|done]. by injection H as <- <-.
Qed.

Lemma daemon_tidy_loop n d w b a w' :
  daemon_tidy d w -> iter_fuel n daemon_round d w = (Ret (b, a), w') -> tidy a w'.
Proof.
  revert d w. induction n as [|n IH]; intros d w Hd; cbn; [done|].
  intros (r & w1 & E & H)%bind_Ret. apply daemon_tidy_round in E; [|done].
  destruct r as [d1|[b1 a1]]; [by eapply IH|by injection H as <- <- <-].
Qed.

Lemma tidy_bind_ports k c d w d' w' : daemon_tidy d w -> bind_ports k c d w = (Ret d', w') -> daemon_tidy d' w'.
Proof.
  revert c d w. induction k as [|k IH]; intros c d w Hd; cbn; [by intros [= <- <-]|].
  intros (fd & w1 & E & H)%bind_Ret. apply IH in H; [done|].
  eapply (daemon_tidy_weaken d); [exact (tidy_bind_daemon _ _ _ _ E)|done..].
Qed.

Lemma daemon_main_tidy w b a w' : tidy no_anon w -> daemon_main w = (Ret (b, a), w') -> tidy a w'.
Proof.
  intros Hw ([r got] & w1 & E & H)%bind_Ret.
  assert (within keeps_tidy (read_exact STDIN_FILENO DaemonInitMessage_size)) as Hr.
  { unfold read_exact, read_partial, read_body.
    within_by ltac:(first [apply tidy_store | apply tidy_sys; done]). }
  apply (Hr _ _ _ E) in Hw. destruct (io_ok r); [|by injection H as <- <- <-].
  apply bind_Ret in H as (d & w2 & E2 & H). apply (daemon_tidy_loop _ _ _ _ _ _) in H; [done|].
  eapply tidy_bind_ports; [|exact E2]. split; [done|]. by apply map_Forall_empty.
Qed.

(** ** The handler of exit(3) *)

Definition unlinked (e : event) : Prop :=
  match e with Called (Unlink _) r => exists v, r = ROk v | _ => True end.

Lemma cleanup_run l w u w' :
  foldr (fun path k => sys_ignore (Unlink (c_str path)) ≫= fun _ => k) (mret tt) l w = (Ret u, w') ->
  exists t, w_trace w' = w_trace w ++ t /\ Forall clean t /\
    (Forall unlinked t -> forall n, is_Some (w_fs w' !! n) -> is_Some (w_fs w !! n) /\ n ∉ map c_str l).
Proof.
  revert w. induction l as [|p l IH]; intros w; cbn [foldr].
  - intros [= <- <-]. exists []. rewrite app_nil_r. split_and!; [done..|]. intros _ n Hn. split; [done|].
    apply not_elem_of_nil.
  - intros (v & w1 & E & (t & Ht & Hc & H)%IH)%bind_Ret. apply bind_Ret in E as (r & w2 & E & Hv).
    injection Hv as <- <-. unfold sys in E. destruct (w_ans w) as [|x rest]; [done|]. cbn in E.
    injection E as <- <-. exists (Called (Unlink (c_str p)) x :: t). split_and!.
    + rewrite Ht. cbn. by rewrite <- app_assoc.
    + by constructor.
    + intros [[v' ->] Hu]%Forall_cons n [H1 H2]%H; [|done]. cbn in H1.
      apply lookup_delete_is_Some in H1 as [H1 H3]. split; [done|]. cbn. set_solver.
Qed.

Lemma atexit_removes a w u w' :
  tidy a w -> run_atexit a w = (Ret u, w') -> Forall clean (w_trace w') -> Forall unlinked (w_trace w') ->
  forall n, temporary n -> w_fs w' !! n = None.
Proof.
  unfold run_atexit. intros [Hc Ha] H Hcl Hu n Hn. apply eq_None_not_Some. intros Hs.
  destruct (registered a) eqn:Er.
  - apply cleanup_run in H as (t & Ht & _ & H). rewrite Ht, Forall_app in Hcl, Hu.
    destruct Hcl as [Hcl _], Hu as [_ Hu]. destruct (H Hu n Hs) as [Hs1 Hs2].
    destruct (Ha Hcl n Hn Hs1) as [Hin _]. apply Hs2.
    rewrite list_elem_of_fmap. exists n. split; [symmetry; by apply Hc|by apply elem_of_elements].
  - injection H as <- <-. by destruct (Ha Hcl n Hn Hs) as [_ ?].
Qed.
End cleanup.
