(* ===== verification/Display.v ===== *)
(** * The progress display of [enu/main.cpp]

    A [double] is an IEEE binary64 value of the standard library's [SpecFloat],
    with its correctly rounded operations; [std::format]'s fixed notation
    rounds the exact value to the nearest decimal, ties to even. Texts are byte
    strings in UTF-8. A frame is drawn from one state of the tree: [None] when
    a node is not there, when its children are not ready (the call waits) or
    when the length of the bar's gap is negative, which as a [size_t] makes the
    constructor of [std::string] throw. *)

From Stdlib Require Import SpecFloat.
From stdpp Require Import pretty.
From S2P Require Import Prelude Sys Wire Tracked Meta.

Definition double : Type := spec_float.
Definition of_size (n : Z) : double := binary_normalize 53 1024 n 0 false.
Definition fdiv (x y : double) : double := SFdiv 53 1024 x y.
Definition fmul (x y : double) : double := SFmul 53 1024 x y.

(** The bytes of an escape sequence. *)
Definition ESC (s : string) : string := String (Ascii.ascii_of_nat 27) s.
Definition newline : string := String (Ascii.ascii_of_nat 10) EmptyString.

Definition SYNC_ON : string := ESC "[?2026h".
Definition SYNC_OFF : string := ESC "[?2026l".
Definition ERASE_TO_END : string := ESC "[J".

Fixpoint spaces (n : nat) : string :=
  match n with O => EmptyString | S n' => String (Ascii.ascii_of_nat 32) (spaces n') end.
Fixpoint bars (n : nat) : string :=
  match n with O => EmptyString | S n' => String (Ascii.ascii_of_nat 61) (bars n') end.

(** ** Numbers *)

Definition div_half_even (num den : Z) : Z :=
  let q := num / den in
  match 2 * (num mod den) ?= den with
  | Lt => q
  | Gt => q + 1
  | Eq => if Z.even q then q else q + 1
  end.

(** [{:.df}]. *)
Definition fixed (d : nat) (x : double) : string :=
  let sign (s : bool) := if s then "-" else EmptyString in
  let digits (n : Z) :=
    match d with
    | O => pretty n
    | _ =>
        let f := pretty (n mod 10 ^ Z.of_nat d) in
        pretty (n / 10 ^ Z.of_nat d) +:+ "." +:+
          (String.substring 0 (d - String.length f) "0000000000") +:+ f
    end in
  match x with
  | S754_zero s => sign s +:+ digits 0
  | S754_infinity s => sign s +:+ "inf"
  | S754_nan => "nan"
  | S754_finite s m e =>
      sign s +:+ digits (if 0 <=? e then Z.pos m * 10 ^ Z.of_nat d * 2 ^ e
                         else div_half_even (Z.pos m * 10 ^ Z.of_nat d) (2 ^ (- e)))
  end.

Definition pad_left (w : nat) (s : string) : string := spaces (w - String.length s) +:+ s.
Definition pad_right (w : nat) (s : string) : string := s +:+ spaces (w - String.length s).

(** [static_cast<size_t>]. *)
Definition trunc (x : double) : Z :=
  match x with
  | S754_finite false m e => if 0 <=? e then Z.pos m * 2 ^ e else Z.pos m / 2 ^ (- e)
  | _ => 0
  end.

(** [ws] is the row count of a successful [TIOCGWINSZ]. *)
Definition term_height (ws : option Z) : Z :=
  match ws with
  | Some ws_row => if ws_row =? 0 then 23 else ws_row - 1
  | None => 23
  end.

(** An array of five views: the fifth is the empty default. *)
Definition UNITS : list string := ["B"; "KiB"; "MiB"; "GiB"; ""].

(** The loop of [scale]; [n] bounds its iterations, which end at the last
    unit. *)
Fixpoint scale_loop (n : nat) (bytes : double) (idx : nat) : double * nat :=
  match n with
  | O => (bytes, idx)
  | S n' =>
      if SFleb (of_size 1024) bytes && Nat.ltb (idx + 1) (length UNITS)
      then scale_loop n' (fdiv bytes (of_size 1024)) (S idx)
      else (bytes, idx)
  end.

Definition scale (bytes : double) : double * string :=
  let '(b, idx) := scale_loop (length UNITS) bytes 0 in (b, nth idx UNITS "").

(** ** The frame *)

Definition COL_START : Z := 58.
Definition BAR_WIDTH : Z := 40.
Definition SPINNER : list string := ["⠋"; "⠙"; "⠹"; "⠸"; "⠼"; "⠴"; "⠦"; "⠧"; "⠇"; "⠏"].

Definition total_stats (elapsed_s : double) (done total : Z) : option string :=
  let ratio := if total =? 0 then of_size 1 else fdiv (of_size done) (of_size total) in
  let filled := trunc (fmul ratio (of_size BAR_WIDTH)) in
  let '(done_val, done_unit) := scale (of_size done) in
  let '(speed_val, speed_unit) :=
    scale (if SFltb (S754_zero false) elapsed_s then fdiv (of_size done) elapsed_s else S754_zero false) in
  let selector := trunc (fmul elapsed_s (of_size 8)) in
  let sym := nth (Z.to_nat (selector mod 10)) SPINNER "" in
  let pct := fmul ratio (of_size 100) in
  let pct := if SFltb pct (of_size 100) then pct else of_size 100 in
  if BAR_WIDTH <? filled then None
  else Some ("[" +:+ bars (Z.to_nat filled) +:+ spaces (Z.to_nat (BAR_WIDTH - filled)) +:+ "] ["
    +:+ pad_left 5 (fixed 1 pct) +:+ "% " +:+ pad_left 5 (fixed 1 done_val) +:+ " " +:+ done_unit +:+ " "
    +:+ pad_left 5 (fixed 1 speed_val) +:+ " " +:+ speed_unit +:+ "/s ] " +:+ sym +:+ newline).

Definition node_stats (done total : Z) : string :=
  if total =? 0 then newline
  else
    let PCT := fdiv (fmul (of_size 100) (of_size done)) (of_size total) in
    let '(done_val, done_unit) := scale (of_size done) in
    "[" +:+ pad_left 5 (fixed 1 PCT) +:+ "% "
      +:+ pad_left 5 (fixed (if done <? 1024 then 0 else 1) done_val) +:+ pad_right 3 done_unit +:+ "]" +:+ newline.

Definition row_prefix (last : bool) : string := if last then "└─ " else "├─ ".
Definition sub_prefix (last : bool) : string := if last then "   " else "│  ".

(** The text of one row up to the numbers, from the prefix [p]. *)
Definition row_name (p_len : Z) (text : string) : string :=
  let n := p_len + zlen (bytes_of text) in
  text +:+ (if COL_START <=? n then spaces 1 else spaces (Z.to_nat (COL_START - n))).

Section frame.
Context (t : @Tracked.Tracked M) (max_rows : Z).

(** [visit]: the frame so far and its number of rows. Identities grow from
    parent to child, so [next_id] bounds the depth. *)
Fixpoint visit (fuel : nat) (node : nat) (p : string) (p_len : Z) (last : bool) (st : string * Z)
    {struct fuel} : option (string * Z) :=
  match fuel with
  | O => None
  | S fuel' =>
      let '(out, line_count) := st in
      if line_count + 1 =? max_rows then Some st
      else
        nd ← nodes t !! node;
        root ← is_root node t;
        let '(out, p, p_len) :=
          if (root : bool) then (out, p, p_len)
          else (out +:+ p +:+ row_prefix last, p +:+ sub_prefix last, p_len + 3) in
        let out := out +:+ row_name p_len (m_name (meta nd)) +:+ node_stats (done_ nd) (total_ nd) in
        let line_count := line_count + 1 in
        children ← iter_children node t;
        match children with
        | inr _ => None
        | inl cs =>
            r ← foldl (fun acc c =>
                  '(idx, st) ← acc;
                  count ← child_count node t;
                  st' ← visit fuel' c p p_len (idx + 1 =? count) st;
                  Some (idx + 1, st')) (Some (0, (out, line_count))) cs;
            Some (snd r)
        end
  end.

(** The frame and its row count; the arguments of the first call are in the
    order of the source, so the root starts at column 1 and is not last. *)
Definition frame_text (elapsed_s : double) : option (string * Z) :=
  '(out, line_count) ← visit (S (next_id t)) 0 "" 1 false ("", 0);
  stats ← total_stats elapsed_s (sum_done t) (sum_total t);
  Some (out +:+ stats, line_count + 1).
End frame.

(** What [display_progress] writes to standard output, and its result. *)
Definition display_progress (t : @Tracked.Tracked M) (ws : option Z) (elapsed_s : double) : option (string * Z) :=
  '(out, line_count) ← frame_text t (term_height ws) elapsed_s;
  Some (SYNC_ON +:+ ERASE_TO_END +:+ out +:+
        (if 0 <? line_count then ESC "[" +:+ pretty line_count +:+ "A" else EmptyString) +:+ SYNC_OFF, line_count).

Definition clear_progress : Sys unit :=
  _ ← sys_ignore (Write 1 (bytes_of SYNC_ON));
  _ ← sys_ignore (Write 1 (bytes_of ERASE_TO_END));
  sys_ignore (Write 1 (bytes_of SYNC_OFF)).

(** ** Counting rows *)

Fixpoint newlines (s : string) : Z :=
  match s with
  | EmptyString => 0
  | String c s' => (if bool_decide (c = Ascii.ascii_of_nat 10) then 1 else 0) + newlines s'
  end.

Create Rewrite HintDb newlines.

Lemma newlines_app s1 s2 : newlines (s1 +:+ s2) = newlines s1 + newlines s2.
Proof.
  induction s1 as [|c s IH]; [done|].
  change (String c s +:+ s2) with (String c (s +:+ s2)). cbn [newlines]. rewrite IH. lia.
Qed.

Lemma newlines_spaces n : newlines (spaces n) = 0.
Proof. induction n as [|n IH]; [done|]. cbn [newlines spaces]. rewrite IH. by vm_compute. Qed.

Lemma newlines_bars n : newlines (bars n) = 0.
Proof. induction n as [|n IH]; [done|]. cbn [newlines bars]. rewrite IH. by vm_compute. Qed.

Lemma newlines_pretty_N_go x s : newlines (pretty_N_go x s) = newlines s.
Proof.
  revert s. induction (N.lt_wf_0 x) as [x _ IH]; intros s.
  destruct (decide (x = 0)%N) as [->|Hx]; [by rewrite pretty_N_go_0|].
  rewrite pretty_N_go_step by lia. rewrite IH by (apply N.div_lt; lia). cbn [newlines].
  assert (pretty_N_char (x `mod` 10) <> Ascii.ascii_of_nat 10) as Hc.
  { pose proof (N.mod_lt x 10 ltac:(lia)). generalize dependent (x `mod` 10)%N. intros y Hy.
    assert (y = 0 \/ y = 1 \/ y = 2 \/ y = 3 \/ y = 4 \/ y = 5 \/ y = 6 \/ y = 7 \/ y = 8 \/ y = 9)%N by lia.
    destruct_or!; subst; by vm_compute. }
  by rewrite bool_decide_eq_false_2.
Qed.

Lemma newlines_pretty_N (n : N) : newlines (pretty n) = 0.
Proof. unfold pretty, pretty_N. case_decide; [by vm_compute|]. apply newlines_pretty_N_go. Qed.

Lemma newlines_pretty (z : Z) : newlines (pretty z) = 0.
Proof.
  destruct z as [|p|p]; [by vm_compute|exact (newlines_pretty_N (N.pos p))|].
  change (pretty (Z.neg p)) with ("-" +:+ pretty (N.pos p)). by rewrite newlines_app, newlines_pretty_N.
Qed.

Lemma newlines_substring k s : newlines s = 0 -> newlines (String.substring 0 k s) = 0.
Proof.
  revert k. induction s as [|c s IH]; intros [|k] H; try done. cbn [newlines] in *.
  assert (forall x, 0 <= newlines x) as Hn.
  { clear. induction x as [|c x IH]; cbn [newlines]; [lia|]. case_bool_decide; lia. }
  specialize (Hn s). change (newlines (String c (String.substring 0 k s)) = 0). cbn [newlines].
  case_bool_decide; [lia|]. rewrite IH by lia. lia.
Qed.
#[export] Hint Rewrite newlines_app newlines_spaces newlines_bars newlines_pretty : newlines.

Lemma newlines_fixed d x : newlines (fixed d x) = 0.
Proof.
  assert (forall (b : bool), newlines (if b then "-" else EmptyString) = 0) as Hs by by intros [].
  destruct x, d; cbn -[newlines pretty String.append String.substring Z.pow Z.mul Z.div]; autorewrite with newlines;
    rewrite ?Hs, ?newlines_substring by done; done.
Qed.

Lemma newlines_scale b : newlines (scale b).2 = 0.
Proof.
  unfold scale. destruct (scale_loop _ _ _) as [x idx]. cbn.
  do 6 (destruct idx as [|idx]; [done|]). done.
Qed.
#[export] Hint Rewrite newlines_fixed : newlines.

Lemma newlines_pad_left w s : newlines (pad_left w s) = newlines s.
Proof. unfold pad_left. autorewrite with newlines. lia. Qed.

Lemma newlines_pad_right w s : newlines (pad_right w s) = newlines s.
Proof. unfold pad_right. autorewrite with newlines. lia. Qed.
#[export] Hint Rewrite newlines_pad_left newlines_pad_right : newlines.

Lemma newlines_node_stats done total : newlines (node_stats done total) = 1.
Proof.
  unfold node_stats. destruct (total =? 0); [done|]. pose proof (newlines_scale (of_size done)) as Hs.
  destruct (scale (of_size done)) as [v u]. cbn [snd] in Hs.
  autorewrite with newlines. by rewrite Hs.
Qed.

Lemma newlines_total_stats e done total s : total_stats e done total = Some s -> newlines s = 1.
Proof.
  unfold total_stats. set (sp := if SFltb _ e then _ else _).
  pose proof (newlines_scale (of_size done)) as H1. pose proof (newlines_scale sp) as H2.
  destruct (scale (of_size done)) as [v1 u1], (scale sp) as [v2 u2]. cbn [snd] in *.
  destruct (BAR_WIDTH <? _); [done|]. intros H%(inj Some). rewrite <- H. autorewrite with newlines. rewrite H1, H2.
  assert (forall k, newlines (nth k SPINNER "") = 0) as Hk.
  { intros k. do 11 (destruct k as [|k]; [by vm_compute|]). done. }
  by rewrite Hk.
Qed.

Lemma newlines_row_prefix b : newlines (row_prefix b) = 0.
Proof. by destruct b. Qed.
Lemma newlines_sub_prefix b : newlines (sub_prefix b) = 0.
Proof. by destruct b. Qed.
Lemma newlines_row_name l text : newlines (row_name l text) = newlines text.
Proof. unfold row_name. destruct (_ <=? _); autorewrite with newlines; lia. Qed.
#[export] Hint Rewrite newlines_row_prefix newlines_sub_prefix newlines_row_name newlines_node_stats : newlines.

Section rows.
Context (t : @Tracked.Tracked M) (max_rows : Z).

Definition single_line (t : @Tracked.Tracked M) : Prop :=
  forall n nd, nodes t !! n = Some nd -> newlines (m_name (meta nd)) = 0.

(** What a call of [visit] does to the frame and its row count. *)
Definition rows_grow (st st' : string * Z) : Prop :=
  st.2 <= st'.2 /\ (st.2 < max_rows -> st'.2 < max_rows) /\ newlines st'.1 - st'.2 = newlines st.1 - st.2.

#[global] Instance rows_grow_pre : PreOrder rows_grow.
Proof. split; [intros []; by split_and!|]. intros [] [] [] (?&?&?) (?&?&?). unfold rows_grow in *. cbn in *. lia. Qed.

(** The loop over the children, for any relation the calls respect. *)
Lemma children_related (R : relation (string * Z)) `{!PreOrder R} (f : nat -> Z -> string * Z -> option (string * Z))
    (cs : list nat) i st r :
  (forall c i st st', c ∈ cs -> f c i st = Some st' -> R st st') ->
  foldl (fun acc c => '(idx, st) ← acc; st' ← f c idx st; Some (idx + 1, st')) (Some (i, st)) cs = Some r ->
  R st (snd r).
Proof.
  revert i st. induction cs as [|c cs IH]; intros i st Hf H; cbn in H; [by simplify_eq|].
  destruct (f c i st) as [st'|] eqn:E; cbn in H.
  - trans st'; [eapply Hf; [apply list_elem_of_here|done]|].
    eapply IH; [|done]. intros. eapply Hf; [by apply list_elem_of_further|done].
  - exfalso. clear -H. induction cs as [|c cs IH]; cbn in H; auto. done.
Qed.

(** [visit] of a node with room for its row. *)
Definition visit_row (fuel : nat) (node : nat) (nd : TrackedNode M) (p : string) (p_len : Z) (last : bool)
    (st : string * Z) : option (string * Z) :=
  let root := bool_decide (parent nd = None) in
  let p' := if root then p else p +:+ sub_prefix last in
  let p_len' := if root then p_len else p_len + 3 in
  let out := (if root then st.1 else st.1 +:+ p +:+ row_prefix last)
    +:+ row_name p_len' (m_name (meta nd)) +:+ node_stats (done_ nd) (total_ nd) in
  if ready_ nd then
    r ← foldl (fun acc c => '(idx, st) ← acc;
          st' ← visit t max_rows fuel c p' p_len' (idx + 1 =? zlen (children_ nd)) st;
          Some (idx + 1, st')) (Some (0, (out, st.2 + 1))) (children_ nd);
    Some (snd r)
  else None.

Lemma visit_eq fuel node p p_len last st nd :
  nodes t !! node = Some nd -> st.2 + 1 <> max_rows ->
  visit t max_rows (S fuel) node p p_len last st = visit_row fuel node nd p p_len last st.
Proof.
  intros Hn Hm. destruct st as [out lc]. cbn [snd] in Hm. cbn [visit].
  rewrite (proj2 (Z.eqb_neq _ _)) by done.
  unfold is_root, iter_children, child_count, visit_row. rewrite Hn. cbn [mbind option_bind mret option_ret fst snd].
  by case_bool_decide; destruct (ready_ nd).
Qed.

(** A relation that every row respects holds of the whole call. [ok] is what
    the prefixes of the rows have in common. *)
Section related.
Context (R : relation (string * Z)) `{!PreOrder R} (ok : string -> Prop).
Hypothesis ok_sub : forall p last, ok p -> ok (p +:+ sub_prefix last).
Hypothesis row : forall n nd p p_len last (root : bool) st,
  nodes t !! n = Some nd -> ok p -> st.2 + 1 <> max_rows ->
  R st ((if root then st.1 else st.1 +:+ p +:+ row_prefix last)
    +:+ row_name p_len (m_name (meta nd)) +:+ node_stats (done_ nd) (total_ nd), st.2 + 1).

Lemma visit_related fuel node p p_len last st st' :
  ok p -> visit t max_rows fuel node p p_len last st = Some st' -> R st st'.
Proof using All.
  revert node p p_len last st st'. induction fuel as [|fuel IH]; intros node p p_len last [out lc] st' Hp H; [done|].
  destruct (decide (lc + 1 = max_rows)) as [Hm|Hm].
  { cbn [visit] in H. rewrite (proj2 (Z.eqb_eq _ _) Hm) in H. by simplify_eq. }
  destruct (nodes t !! node) as [nd|] eqn:Hn.
  2:{ cbn [visit] in H. by rewrite (proj2 (Z.eqb_neq _ _) Hm), Hn in H. }
  rewrite (visit_eq _ _ _ _ _ _ nd) in H by done. unfold visit_row in H. destruct (ready_ nd); [|done].
  apply bind_Some in H as (r & H & [= <-]). etrans; [by apply (row node nd p)|].
  eapply children_related; [apply _| |exact H]. intros c i st0 st1 Hc. apply IH. case_bool_decide; auto.
Qed.
End related.

Lemma visit_grows fuel node p p_len last st st' :
  single_line t -> newlines p = 0 -> visit t max_rows fuel node p p_len last st = Some st' -> rows_grow st st'.
Proof.
  intros Hs. apply (visit_related rows_grow (fun p => newlines p = 0)).
  - intros q b Hq. autorewrite with newlines. lia.
  - intros n nd q l b root [out lc] Hn Hq Hm. specialize (Hs _ _ Hn). unfold rows_grow. cbn [fst snd] in *.
    split_and!; [lia|lia|]. destruct root; autorewrite with newlines; lia.
Qed.

(** The bound on the rows needs nothing of the names. *)
Definition rows_bound (st st' : string * Z) : Prop := st.2 <= st'.2 /\ (st.2 < max_rows -> st'.2 < max_rows).

#[global] Instance rows_bound_pre : PreOrder rows_bound.
Proof. split; [by intros []|]. intros [] [] [] [] []. unfold rows_bound in *. cbn in *. lia. Qed.

Lemma visit_bounded fuel node p p_len last st st' :
  visit t max_rows fuel node p p_len last st = Some st' -> rows_bound st st'.
Proof.
  apply (visit_related rows_bound (fun _ => True)); [done| |done].
  intros n nd q l b root [out lc] _ _ Hm. unfold rows_bound. cbn [fst snd] in *. lia.
Qed.

(** With every directory scanned the frame is drawn. *)
Definition all_ready : Prop := forall n nd, nodes t !! n = Some nd -> ready_ nd = true.

Lemma children_total (f : nat -> Z -> string * Z -> option (string * Z)) (cs : list nat) i st :
  (forall c i st, c ∈ cs -> is_Some (f c i st)) ->
  is_Some (foldl (fun acc c => '(idx, st) ← acc; st' ← f c idx st; Some (idx + 1, st')) (Some (i, st)) cs).
Proof.
  revert i st. induction cs as [|c cs IH]; intros i st Hf; cbn; [by eexists|].
  destruct (Hf c i st) as [st' ->]; [apply list_elem_of_here|]. cbn. apply IH.
  intros. apply Hf. by apply list_elem_of_further.
Qed.

Lemma visit_total fuel node p p_len last st :
  tree_wf t -> all_ready -> is_Some (nodes t !! node) -> (next_id t - node < fuel)%nat ->
  is_Some (visit t max_rows fuel node p p_len last st).
Proof.
  intros Hwf Hr. revert node p p_len last st.
  induction fuel as [|fuel IH]; intros node p p_len last st [nd Hn] Hf; [lia|].
  destruct (decide (st.2 + 1 = max_rows)) as [Hm|Hm].
  { destruct st. cbn [visit snd] in *. rewrite (proj2 (Z.eqb_eq _ _) Hm). by eexists. }
  rewrite (visit_eq _ _ _ _ _ _ nd) by done. unfold visit_row. rewrite (Hr _ _ Hn).
  edestruct (children_total (fun c idx st => visit t max_rows fuel c
    (if bool_decide (parent nd = None) then p else p +:+ sub_prefix last)
    (if bool_decide (parent nd = None) then p_len else p_len + 3) (idx + 1 =? zlen (children_ nd)) st)
    (children_ nd)) as [r ->]; [|by eexists].
  intros c i s Hc. destruct (wf_child _ Hwf _ _ _ Hn Hc) as (cd & Hcd & Hp).
  pose proof (wf_ids _ Hwf _ _ Hn). pose proof (wf_ids _ Hwf _ _ Hcd).
  apply IH; [by eexists|]. destruct (decide (c = 0%nat)) as [->|Hc0].
  - destruct (wf_root _ Hwf) as (rd & Hrn & Hrd). congruence.
  - destruct (wf_parent _ Hwf _ _ Hcd Hc0) as (q & qd & Hq & _ & _ & Hlt). simplify_eq. lia.
Qed.
End rows.

(** C26. A frame fits the terminal and ends where it began: on a terminal of
    at least two rows a frame of a scanned tree is drawn, with at least one
    row and at most one less than the terminal has, it contains exactly as many
    line feeds as rows, and the cursor then moves up by that number. Names
    are assumed to have no line feed, and the bar not to be overfull. *)
Theorem display_progress_fits t ws_row elapsed_s stats :
  tree_wf t -> all_ready t -> single_line t -> 2 <= ws_row ->
  total_stats elapsed_s (sum_done t) (sum_total t) = Some stats ->
  exists out rows,
    display_progress t (Some ws_row) elapsed_s
      = Some (SYNC_ON +:+ ERASE_TO_END +:+ out +:+ (ESC "[" +:+ pretty rows +:+ "A") +:+ SYNC_OFF, rows) /\
    1 <= rows <= ws_row - 1 /\ newlines out = rows.
Proof.
  intros Hwf Hr Hs Hws Hst. destruct (wf_root _ Hwf) as (nd & Hn & _).
  assert (term_height (Some ws_row) = ws_row - 1) as Hh.
  { cbn. by rewrite (proj2 (Z.eqb_neq _ _)) by lia. }
  destruct (visit_total t (ws_row - 1) (S (next_id t)) 0 "" 1 false ("", 0)) as [[out lc] Hv]; [done|done|by eexists|lia|].
  pose proof (visit_grows t _ _ _ "" _ _ _ _ Hs eq_refl Hv) as (H1 & H2 & H3). cbn [fst snd] in *.
  pose proof (newlines_total_stats _ _ _ _ Hst) as H4.
  exists (out +:+ stats), (lc + 1). unfold display_progress, frame_text. rewrite Hh, Hv. cbn [mbind option_bind].
  rewrite Hst. cbn [mbind option_bind]. rewrite (proj2 (Z.ltb_lt 0 _)) by lia.
  split_and!; [done|lia|lia|]. rewrite newlines_app, H4. change (newlines "") with 0 in H3. lia.
Qed.

Module DisplayDemo.
Definition m (s : string) : M := mkM s 420 regular 10.
Definition t : @Tracked.Tracked M :=
  mkTracked (<[0%nat := mkNode true [1%nat; 2%nat] 0 0 None (m "src")]>
    (<[1%nat := mkNode true [] 5 10 (Some 0%nat) (m "a.c")]>
    (<[2%nat := mkNode true [] 2048 4096 (Some 0%nat) (m "b.c")]> ∅))) 3 (mkRoot 0 0 0 2053 4106 false).

Lemma lookup n nd : nodes t !! n = Some nd ->
  (n, nd) ∈ [(0%nat, mkNode true [1%nat; 2%nat] 0 0 None (m "src"));
             (1%nat, mkNode true [] 5 10 (Some 0%nat) (m "a.c"));
             (2%nat, mkNode true [] 2048 4096 (Some 0%nat) (m "b.c"))].
Proof.
  cbn [nodes t]. intros H. apply lookup_insert_Some in H as [[<- <-]|[? H]]; [set_solver|].
  apply lookup_insert_Some in H as [[<- <-]|[? H]]; [set_solver|].
  apply lookup_insert_Some in H as [[<- <-]|[? H]]; [set_solver|]. by rewrite lookup_empty in H.
Qed.

Lemma wf : tree_wf t.
Proof.
  split.
  - by eexists.
  - intros n nd H%lookup. rewrite !elem_of_cons in H. destruct_or!; simplify_eq; cbn; try lia. by apply not_elem_of_nil in H.
  - intros n nd H%lookup Hn. rewrite !elem_of_cons in H. destruct_or!; simplify_eq; try done;
      try by apply not_elem_of_nil in H.
    all: do 2 eexists; split_and!; [reflexivity|reflexivity|cbn; set_solver|lia].
  - intros n nd c H%lookup Hc. rewrite !elem_of_cons in H. destruct_or!; simplify_eq; cbn in Hc;
      try by apply not_elem_of_nil in H.
    all: rewrite ?elem_of_cons in Hc; destruct_or?; subst; try by apply not_elem_of_nil in Hc.
    all: by eexists.
  - intros n nd H%lookup. rewrite !elem_of_cons in H. destruct_or!; simplify_eq; cbn;
      try (by apply not_elem_of_nil in H); apply (bool_decide_unpack _); by vm_compute.
Qed.
End DisplayDemo.

Lemma display_progress_fits_witness :
  exists out rows, display_progress DisplayDemo.t (Some 3) (of_size 1)
      = Some (SYNC_ON +:+ ERASE_TO_END +:+ out +:+ (ESC "[" +:+ pretty rows +:+ "A") +:+ SYNC_OFF, rows) /\
    1 <= rows <= 2 /\ newlines out = rows.
Proof.
  refine (display_progress_fits DisplayDemo.t 3 (of_size 1) _ DisplayDemo.wf _ _ _ eq_refl); [| |lia].
  - intros n nd H%DisplayDemo.lookup. rewrite !elem_of_cons in H. destruct_or!; simplify_eq; try done.
    by apply not_elem_of_nil in H.
  - intros n nd H%DisplayDemo.lookup. rewrite !elem_of_cons in H. destruct_or!; simplify_eq; try done.
    by apply not_elem_of_nil in H.
Defined.

(** ** The display as the drawing function of the tree *)

(** [duration<double>(...).count()] of a time in nanoseconds. *)
Definition seconds (ns : Z) : double := fdiv (of_size ns) (of_size (10 ^ 9)).

(** How a frame ends that [display_progress] does not finish: the bar is only
    made when [visit] has returned. *)
Definition undrawn (t : @Tracked.Tracked M) (ws : option Z) : drawn :=
  match visit t (term_height ws) (S (next_id t)) 0 "" 1 false ("", 0) with
  | Some _ => Throws
  | None => Waits
  end.

(** [ws] is what [TIOCGWINSZ] answers at a time since the start: the terminal
    may be resized between frames. *)
Definition render_fn_ (ws : Z -> option Z) : RenderFn M := fun t elapsed =>
  match display_progress t (ws elapsed) (seconds elapsed) with
  | Some (_, rows) => Rows rows
  | None => undrawn t (ws elapsed)
  end.

(** No terminal of one row: its [max_rows] is 0. *)
Definition roomy (ws : Z -> option Z) : Prop := forall e r, ws e = Some r -> 0 <= r /\ r <> 1.

#[global] Instance display_renderer ws :
  roomy ws -> Renderer (render_fn_ ws) (fun e => term_height (ws e)).
Proof.
  intros Hws t e k _. unfold render_fn_, display_progress, frame_text.
  assert (1 <= term_height (ws e)) as Hh.
  { specialize (Hws e). unfold term_height. destruct (ws e) as [r|]; [|lia].
    destruct (Hws r eq_refl). destruct (Z.eqb_spec r 0); lia. }
  destruct (visit _ _ _ _ _ _ _ _) as [[out lc]|] eqn:E.
  2:{ cbn. unfold undrawn. by rewrite E. }
  cbn [mbind option_bind]. destruct (total_stats _ _ _); cbn [mbind option_bind].
  2:{ unfold undrawn. by rewrite E. }
  intros [= <-]. apply visit_bounded in E as [H1 H2]. cbn [snd] in *. lia.
Qed.

(** C27. The progress tree drawn by [display_progress]: through any
    operations, the number of rows the tree keeps of the last frame is that of
    a frame which was drawn, and at most what the terminal had room for when
    it was drawn; 0 if no frame was. The terminal may be resized between
    frames, but never to one row. *)
Theorem drawn_rows_fit ws m now os t :
  roomy ws -> run (render_fn_ ws) os (new_root m now) = Some t ->
  let calls := frames (render_fn_ ws) os (new_root m now) in
  drawn_rows t = 0 /\ (forall at_ k, (at_, Rows k) ∉ calls) \/
  exists at_, (at_, Rows (drawn_rows t)) ∈ calls /\
    1 <= drawn_rows t <= term_height (ws (at_ - now)).
Proof.
  intros Hws Hr. pose proof (display_renderer ws Hws) as Hd.
  exact (run_rows _ _ os (new_root m now) t (new_root_wf _ _) Hr).
Qed.

(** Two frames; the terminal is made smaller before the second. *)
Module ResizeDemo.
Definition ws (e : Z) : option Z := Some (if e <? 150 * 10 ^ 6 then 24 else 3).
Definition now : Z := 1000 * 10 ^ 6.
Definition ops : list (op (M := M)) :=
  [OpAddChild 0 (DisplayDemo.m "a.c"); OpShiftTotal 1 700; OpUnlock 1; OpUnlock 0;
   OpTick 1 300 true (1090 * 10 ^ 6); OpTick 1 400 true (1200 * 10 ^ 6); OpRemove 1].
End ResizeDemo.

Lemma drawn_rows_fit_witness :
  exists t, run (render_fn_ ResizeDemo.ws) ResizeDemo.ops (new_root (DisplayDemo.m "src") ResizeDemo.now) = Some t /\
    frames (render_fn_ ResizeDemo.ws) ResizeDemo.ops (new_root (DisplayDemo.m "src") ResizeDemo.now)
      = [(1090 * 10 ^ 6, Rows 3); (1200 * 10 ^ 6, Rows 2)] /\
    (drawn_rows t = 0 /\ (forall at_ k, (at_, Rows k) ∉ frames (render_fn_ ResizeDemo.ws) ResizeDemo.ops
        (new_root (DisplayDemo.m "src") ResizeDemo.now)) \/
     exists at_, (at_, Rows (drawn_rows t)) ∈ frames (render_fn_ ResizeDemo.ws) ResizeDemo.ops
         (new_root (DisplayDemo.m "src") ResizeDemo.now) /\
       1 <= drawn_rows t <= term_height (ResizeDemo.ws (at_ - ResizeDemo.now))).
Proof.
  destruct (run (render_fn_ ResizeDemo.ws) ResizeDemo.ops (new_root (DisplayDemo.m "src") ResizeDemo.now)) as [t|] eqn:E;
    [|vm_compute in E; discriminate E].
  exists t. split; [reflexivity|]. split; [vm_compute; reflexivity|].
  refine (drawn_rows_fit ResizeDemo.ws (DisplayDemo.m "src") ResizeDemo.now ResizeDemo.ops t _ E).
  intros e r [= <-]. destruct (e <? _); lia.
Defined.

(** A terminal of one row gives [max_rows = 0], which the test of [visit]
    never meets: the frame is as long as the tree. *)
Lemma one_row_terminal_overflows :
  term_height (Some 1) = 0 /\ snd <$> display_progress DisplayDemo.t (Some 1) (of_size 1) = Some 4.
Proof. split; by vm_compute. Qed.

(** From 2^40 bytes on the value has no unit: the array has room for five
    names and holds four. *)
Lemma no_unit_for_terabytes :
  scale (of_size (2 ^ 40 - 1)) <> scale (of_size (2 ^ 40)) /\
  (scale (of_size (2 ^ 40))).2 = "" /\ fixed 1 (scale (of_size (2 ^ 40))).1 = "1.0" /\
  (scale (of_size (2 ^ 40 - 2 ^ 20))).2 = "GiB".
Proof. vm_compute. split_and!; congruence. Qed.

(** More bytes done than expected make the gap of the bar negative. *)
Lemma overfull_bar_throws : total_stats (of_size 1) 4200 4096 = None.
Proof. by vm_compute. Qed.
