(* ===== verification/Watcher.v ===== *)
(** * [enu/watcher.h], [enu/fsevent.cpp]: file-system notifications on macOS

    CoreServices is not part of the sources: an item of a batch is what its
    accessors yield for one index (the decoded path, [None] when the decoding
    fails; the size [CFStringGetMaximumSizeForEncoding] asks for; the inode;
    the flags, whose bits are those of <CoreServices/FSEvents.h>). The calls of
    the stream's life are recorded as a list. *)

From S2P Require Import Prelude Sys.

Inductive FsEventKind := created | deleted | modify | meta | moved | sync | unrecoverable.

#[global] Instance FsEventKind_eq_dec : EqDecision FsEventKind.
Proof. solve_decision. Defined.

Record FsEvent := mkEvent { fe_kind : FsEventKind; fe_path : string; fe_dest : string }.

Definition MustScanSubDirs : Z := 0x1.
Definition UserDropped : Z := 0x2.
Definition RootChanged : Z := 0x20.
Definition Mount : Z := 0x40.
Definition Unmount : Z := 0x80.
Definition ItemCreated : Z := 0x100.
Definition ItemRemoved : Z := 0x200.
Definition ItemInodeMetaMod : Z := 0x400.
Definition ItemRenamed : Z := 0x800.
Definition ItemModified : Z := 0x1000.
Definition ItemChangeOwner : Z := 0x4000.

Record item := mkItem { it_path : option string; it_max : Z; it_inode : Z; it_flags : Z }.

Definition has (flags mask : Z) : bool := negb (Z.land flags mask =? 0).

(** [std::string path(max_path_size, '\0')] after [CFStringGetCString]. *)
Definition path_buffer (max_path_size : Z) (s : string) : string :=
  string_of (resize max_path_size (bytes_of s)).

(** The iteration of one item: the events it pushes and the new [chained];
    [inl] is the fatal error. *)
Definition event_step (it : item) (chained : gmap Z string) : string + list FsEvent * gmap Z string :=
  match it_path it with
  | None => inl "CFStringGetCString failed on decoding event path"
  | Some s =>
      let path := path_buffer (it_max it + 1) s in
      let fl := it_flags it in
      if has fl (Z.lor RootChanged (Z.lor Mount Unmount)) then inr ([mkEvent unrecoverable "" ""], chained)
      else if has fl (Z.lor UserDropped MustScanSubDirs) then inr ([mkEvent sync "" ""], chained)
      else
        let e1 := if has fl ItemCreated then [mkEvent created path ""] else [] in
        let '(e2, chained) :=
          if has fl ItemRenamed then
            match chained !! it_inode it with
            | Some src => ([mkEvent moved src path], <[it_inode it := path]> (delete (it_inode it) chained))
            | None => ([], <[it_inode it := path]> chained)
            end
          else ([], chained) in
        let e3 := if has fl (Z.lor ItemChangeOwner ItemInodeMetaMod) then [mkEvent meta path ""] else [] in
        let e4 := if has fl ItemRemoved then [mkEvent deleted path ""] else [] in
        inr (e1 ++ e2 ++ e3 ++ e4, chained)
  end.

Fixpoint event_loop (its : list item) (events : list FsEvent) (chained : gmap Z string)
    : string + list FsEvent :=
  match its with
  | [] => inr events
  | it :: its' =>
      match event_step it chained with
      | inl e => inl e
      | inr (es, chained') => event_loop its' (events ++ es) chained'
      end
  end.

(** [event_callback]: the events handed to the handler, in order. *)
Definition event_callback (its : list item) : string + list FsEvent := event_loop its [] ∅.

(** ** The handler of [watch_dir] and the life of the stream *)

Definition kind_name (k : FsEventKind) : string :=
  match k with
  | created => "created"
  | deleted => "deleted"
  | modify => "modify"
  | meta => "meta"
  | moved => "moved"
  | sync => "sync"
  | unrecoverable => "unrecoverable"
  end.

Section stream.
Context {double : Type}.

Inductive cf_call :=
  | QueueCreate | StreamCreate (latency : double) | SetQueue | StreamStart
  | StreamStop | StreamInvalidate | StreamRelease | QueueRelease.

(** [class Watcher]: its constructor, [run_in_thread] and its destructor, as
    the calls they make or the message they die with. *)
Record Watcher := mkWatcher {
  wt_new : double -> string + list cf_call;
  wt_run_in_thread : string + list cf_call;
  wt_delete : list cf_call
}.

Definition create_stream (stream_ok : bool) (latency : double) : string + list cf_call :=
  if stream_ok then inr [StreamCreate latency]
  else inl "FSEventStreamCreate shouldn't fail, old version of MacOS?".

Definition new_watcher (stream_ok : bool) (latency : double) : string + list cf_call :=
  match create_stream stream_ok latency with
  | inl e => inl e
  | inr cs => inr ([QueueCreate] ++ cs ++ [SetQueue])
  end.

Definition run_in_thread (start_ok : bool) : string + list cf_call :=
  if start_ok then inr [StreamStart]
  else inl "FSEventStreamStart shouldn't fail, old version of MacOS?".

Definition delete_watcher : list cf_call := [StreamStop; StreamInvalidate; StreamRelease; QueueRelease].

(** The implementations: [fsevent.cpp], with the answers of CoreServices, and
    [inotify.cpp], whose functions are empty. *)
Definition fsevent (stream_ok start_ok : bool) : Watcher :=
  mkWatcher (new_watcher stream_ok) (run_in_thread start_ok) delete_watcher.
Definition inotify : Watcher := mkWatcher (fun _ => inr []) (inr []) [].

(** [watch_dir]: the watcher is a local, destroyed when the function
    returns. *)
Definition watch_dir (watcher : Watcher) (latency : double) : string + list cf_call :=
  match wt_new watcher latency with
  | inl e => inl e
  | inr cs =>
      match wt_run_in_thread watcher with
      | inl e => inl e
      | inr cs' => inr (cs ++ cs' ++ wt_delete watcher)
      end
  end.

(** The stream delivers while it is started and not stopped. *)
Fixpoint delivering (cs : list cf_call) (on : bool) : bool :=
  match cs with
  | [] => on
  | StreamStart :: cs' => delivering cs' true
  | StreamStop :: cs' => delivering cs' false
  | _ :: cs' => delivering cs' on
  end.
End stream.
Arguments cf_call : clear implicits.
Arguments Watcher : clear implicits.

(** ** What a batch means *)

(** The renames of one inode in a batch, oldest first. *)
Definition rename_item (it : item) : bool :=
  match it_path it with
  | None => false
  | Some _ =>
      negb (has (it_flags it) (Z.lor RootChanged (Z.lor Mount Unmount))) &&
      negb (has (it_flags it) (Z.lor UserDropped MustScanSubDirs)) && has (it_flags it) ItemRenamed
  end.

Definition path_of (it : item) : string := path_buffer (it_max it + 1) (default "" (it_path it)).

Fixpoint renames_of (inode : Z) (its : list item) : list string :=
  match its with
  | [] => []
  | it :: its' =>
      if rename_item it && (it_inode it =? inode) then path_of it :: renames_of inode its'
      else renames_of inode its'
  end.

(** Consecutive pairs: the moves a list of names of one file describes. *)
Fixpoint moves (ps : list string) : list (string * string) :=
  match ps with
  | a :: (b :: _) as ps' => (a, b) :: moves ps'
  | _ => []
  end.

(** The moves a list of events reports. *)
Definition moved_pairs (es : list FsEvent) : list (string * string) :=
  es ≫= fun e => if bool_decide (fe_kind e = moved) then [(fe_path e, fe_dest e)] else [].

Lemma moved_pairs_app es1 es2 : moved_pairs (es1 ++ es2) = moved_pairs es1 ++ moved_pairs es2.
Proof. apply bind_app. Qed.

Lemma event_loop_prefix its events chained :
  event_loop its events chained =
  match event_loop its [] chained with inl e => inl e | inr es => inr (events ++ es) end.
Proof.
  revert events chained. induction its as [|it its IH]; intros events chained; cbn; [by rewrite app_nil_r|].
  destruct (event_step it chained) as [?|[es c]]; [done|]. rewrite IH, (IH ([] ++ es)).
  destruct (event_loop its [] c); [done|]. by rewrite app_assoc.
Qed.

(** What one item adds to the moves, and how it changes [chained]. *)
Lemma event_step_moves it c es c' :
  event_step it c = inr (es, c') ->
  if rename_item it
  then moved_pairs es = moves (option_list (c !! it_inode it) ++ [path_of it]) /\ c' = <[it_inode it := path_of it]> c
  else moved_pairs es = [] /\ c' = c.
Proof.
  unfold event_step, rename_item, path_of. destruct (it_path it) as [s|]; [|done]. cbn [default].
  destruct (has _ (Z.lor RootChanged _)); [by intros [= <- <-]|].
  destruct (has _ (Z.lor UserDropped _)); [by intros [= <- <-]|]. cbn [negb andb].
  destruct (has (it_flags it) ItemRenamed); [destruct (c !! it_inode it) as [src|] eqn:E|];
    intros [= <- <-]; cbn [option_list moves app]; (split; [|by rewrite ?insert_delete_eq]);
    rewrite !moved_pairs_app; by repeat case_match.
Qed.

Lemma moves_cons_path a ps b : moves (option_list a ++ b :: ps) = moves (option_list a ++ [b]) ++ moves (b :: ps).
Proof. by destruct a. Qed.

Lemma event_loop_moves its c es (inodes : list Z) :
  event_loop its [] c = inr es -> NoDup inodes -> Forall (fun it => it_inode it ∈ inodes) its ->
  moved_pairs es ≡ₚ inodes ≫= fun i => moves (option_list (c !! i) ++ renames_of i its).
Proof.
  revert c es. induction its as [|it its IH]; intros c es H Hnd Hin; cbn in H.
  - injection H as <-. induction inodes as [|i l IHl]; [done|]. cbn. apply NoDup_cons in Hnd as [_ Hnd].
    rewrite <- IHl by (try done; by apply Forall_nil). by destruct (c !! i).
  - destruct (event_step it c) as [?|[es1 c1]] eqn:E; [done|]. rewrite event_loop_prefix in H.
    destruct (event_loop its [] c1) as [?|es2] eqn:E2; [done|]. injection H as <-.
    apply Forall_cons in Hin as [Hi Hin]. rewrite moved_pairs_app.
    specialize (IH _ _ E2 Hnd Hin). apply event_step_moves in E. cbn [renames_of app].
    destruct (rename_item it); cbn [andb]; destruct E as [E ->].
    + rewrite E. apply list_elem_of_split in Hi as (l1 & l2 & Hl).
      assert (inodes ≡ₚ it_inode it :: l1 ++ l2) as Hp by (rewrite Hl; by rewrite Permutation_middle).
      rewrite Hp in Hnd. apply NoDup_cons in Hnd as [Hni Hnd]. rewrite IH, Hp. cbn.
      rewrite Z.eqb_refl, lookup_insert_eq, (moves_cons_path (c !! it_inode it) (renames_of (it_inode it) its)), <- app_assoc.
      cbn [option_list app]. do 2 apply Permutation_app_head.
      assert (forall i, i ∈ l1 ++ l2 -> i <> it_inode it) as Hne by (intros ?? ->; done).
      revert Hne. generalize (l1 ++ l2). clear. intros l Hne. induction l as [|i l IH]; [done|]. cbn.
      specialize (Hne i ltac:(apply list_elem_of_here)) as Hi.
      rewrite lookup_insert_ne, (proj2 (Z.eqb_neq (it_inode it) i)) by congruence. apply Permutation_app_head.
      apply IH. intros. apply Hne. by apply list_elem_of_further.
    + by rewrite E.
Qed.

(** C28. Rename chains: the moves a batch reports are exactly those between
    consecutive names of each inode, over all the inodes of the batch. *)
Theorem batch_reports_moves its es (inodes : list Z) :
  event_callback its = inr es -> NoDup inodes -> Forall (fun it => it_inode it ∈ inodes) its ->
  moved_pairs es ≡ₚ inodes ≫= fun i => moves (renames_of i its).
Proof.
  intros H Hnd Hin. rewrite (event_loop_moves its ∅ es inodes H Hnd Hin). clear.
  induction inodes as [|i l IH]; [done|]. cbn. by rewrite lookup_empty, IH.
Qed.

Definition demo_batch : list item :=
  [mkItem (Some "a") 3 7 ItemRenamed; mkItem (Some "x") 3 9 (Z.lor ItemRenamed ItemCreated);
   mkItem (Some "b") 3 7 ItemRenamed; mkItem (Some "c") 3 7 (Z.lor ItemRenamed ItemModified)].

Lemma batch_reports_moves_witness :
  exists es, event_callback demo_batch = inr es /\
    moved_pairs es ≡ₚ [7; 9] ≫= fun i => moves (renames_of i demo_batch).
Proof.
  destruct (event_callback demo_batch) as [?|es] eqn:E; [by vm_compute in E|]. exists es. split; [done|].
  apply (batch_reports_moves demo_batch es [7; 9] E).
  - apply (bool_decide_unpack _). by vm_compute.
  - repeat constructor; cbn; set_solver.
Defined.

Lemma event_step_kinds it c es c' e : event_step it c = inr (es, c') -> e ∈ es -> fe_kind e <> modify.
Proof.
  unfold event_step. destruct (it_path it); [|done].
  destruct (has _ (Z.lor RootChanged _)); [intros [= <- <-] ->%list_elem_of_singleton; done|].
  destruct (has _ (Z.lor UserDropped _)); [intros [= <- <-] ->%list_elem_of_singleton; done|].
  destruct (has _ ItemRenamed); [destruct (c !! it_inode it)|]; intros [= <- <-];
    rewrite !elem_of_app; intros H; destruct_or!; repeat case_match; set_solver.
Qed.

Lemma event_loop_kinds its c es e : event_loop its [] c = inr es -> e ∈ es -> fe_kind e <> modify.
Proof.
  revert c es. induction its as [|it its IH]; intros c es; cbn; [intros [= <-]; by rewrite elem_of_nil|].
  destruct (event_step it c) as [?|[es1 c1]] eqn:E; [done|]. rewrite event_loop_prefix.
  destruct (event_loop its [] c1) as [?|es2] eqn:E2; [done|].
  intros [= <-] [H|H]%elem_of_app; [by eapply event_step_kinds|by eapply IH].
Qed.

(** What the watcher cannot deliver: no batch gives a [modify] event,
    whatever its flags, and when [watch_dir] returns nothing is being watched,
    on macOS because the stream it starts is stopped again, on Linux because
    none is made. *)
Theorem watcher_never_modifies {double} its es e stream_ok start_ok (latency : double) cs :
  event_callback its = inr es -> e ∈ es -> watch_dir (fsevent stream_ok start_ok) latency = inr cs ->
  fe_kind e <> modify /\ StreamStart ∈ cs /\ delivering cs false = false /\ watch_dir inotify latency = inr [].
Proof.
  intros H He Hw. split; [by eapply event_loop_kinds|].
  destruct stream_ok, start_ok; cbn in Hw; simplify_eq. split; [set_solver|done].
Qed.

Lemma watcher_never_modifies_witness :
  exists es e cs, event_callback demo_batch = inr es /\ e ∈ es /\ watch_dir (fsevent true true) "0.5" = inr cs /\
    fe_kind e <> modify /\ StreamStart ∈ cs /\ delivering cs false = false /\ watch_dir inotify "0.5" = inr [].
Proof.
  destruct (event_callback demo_batch) as [?|es] eqn:E; [by vm_compute in E|].
  destruct es as [|e es']; [by vm_compute in E|].
  destruct (watch_dir (fsevent true true) "0.5") as [?|cs] eqn:Ew; [done|].
  exists (e :: es'), e, cs. split; [done|]. split; [apply list_elem_of_here|]. split; [done|].
  apply (watcher_never_modifies demo_batch (e :: es') e true true "0.5" cs E (list_elem_of_here _ _) Ew).
Defined.

(** The path of an event is the whole buffer: the decoded name and the zeros
    behind it, so it compares unequal to the name. *)
Lemma event_path_is_padded :
  let it := mkItem (Some "a") 3 7 ItemCreated in
  exists p, event_callback [it] = inr [mkEvent created p ""] /\ zlen (bytes_of p) = 4 /\ c_str p = "a" /\ p <> "a".
Proof. eexists. split_and!; [reflexivity|by vm_compute|by vm_compute|by vm_compute]. Qed.
