(* ===== verification/Remote.v ===== *)
(** * [enu/log.cpp] and the remote process in [enu/main.cpp]: diagnostics, the
    remote's errors and the end of a synchronisation *)

From S2P Require Import Prelude Sys Net Wire Daemon Spawn Tracked Meta Send Display.

(** ** [log::print] *)

Record Loc := mkLoc { fpath : string; line : Z; func : string }.

Definition level_target (level : Level) : stream :=
  match level with info => stdout | warn | error | fatal => stderr end.

Definition level_color (level : Level) : string :=
  match level with
  | info => ""
  | warn => ESC "[1;38;5;3m"
  | error | fatal => ESC "[1;38;5;1m"
  end.

(** [fs::path{s}.filename()]: what follows the last slash. *)
Fixpoint basename_from (acc s : string) : string :=
  match s with
  | EmptyString => acc
  | String c s' =>
      if bool_decide (c = Ascii.ascii_of_nat 47) then basename_from EmptyString s'
      else basename_from (acc +:+ String c EmptyString) s'
  end.
Definition basename (s : string) : string := basename_from EmptyString s.

(** The line of a message; [time] is the text of the clock's reading. *)
Definition log_line (level : Level) (loc : Loc) (time args : string) : string :=
  time +:+ " [" +:+ basename (fpath loc) +:+ ":" +:+ pretty.pretty (line loc) +:+ "] enu::" +:+ func loc
    +:+ level_color level +:+ " " +:+ args +:+ " " +:+ ESC "[0m" +:+ newline.

Definition log_print (level : Level) (loc : Loc) (time args : string) : Sys unit :=
  print (level_target level) (log_line level loc time args).

(** ** The remote's standard error *)

Definition RULE : string := "=================================================================".

Definition report_body (fd : Z) (header_printed : bool) : Sys (bool + bool) :=
  '(r, buf) ← read_partial fd CHUNK_SIZE;
  if n_bytes r =? 0 then mret (inr header_printed)
  else
    _ ← (if header_printed then mret tt
         else
           _ ← print stdout ERASE_TO_END;
           _ ← print stderr RULE;
           print stderr "REMOTE ERROR:");
    if io_ok r then
      _ ← write_exact STDERR_FILENO buf;
      mret (inl true)
    else
      _ ← print stderr "connection closed prematurely (any possible errors lost)";
      mret (inr true).

Definition report_stderr_remote (proc : Process) : Sys unit :=
  header_printed ← loop (report_body (err_rd proc)) false;
  if (header_printed : bool) then print stderr RULE else mret tt.

(** ** The end of [sync_with_remote] *)

Definition SSH_ARGS : list string :=
  ["-o"; "ExitOnForwardFailure=yes"; "-o"; "ControlMaster=auto"; "-o"; "ControlPath=~/.ssh/%h";
   "nicolas@localhost"; "exec /Users/nicolas/Projects/enuwatch/build/enu/enu --daemon"].

Definition spawn_daemon (strerror : errno -> string) : Sys Process := spawn strerror "/usr/bin/ssh" SSH_ARGS.

(** After [recurse]; [ok] is the flag the tasks left. The destructor of
    [daemon] runs at both returns. *)
Definition finish_sync (ok : bool) (daemon : Process) : Sys bool :=
  '(exit_code, daemon) ← terminate daemon;
  if negb (exit_code =? 0) then
    _ ← report_stderr_remote daemon;
    _ ← terminate daemon;
    mret false
  else
    _ ← terminate daemon;
    mret ok.

(** ** Forwarding the remote's errors *)

Lemma read_partial_ans fd len w r w' :
  0 < len -> read_partial fd len w = (Ret r, w') -> (length (w_ans w') < length (w_ans w))%nat.
Proof.
  intros Hlen. unfold read_partial. rewrite loop_unfold by apply read_body_consuming.
  intros (x & w1 & E & H)%bind_Ret.
  assert (forall st w x w', read_body fd len st w = (Ret x, w') -> (length (w_ans w') <= length (w_ans w))%nat) as Hb.
  { intros [off got] w0 x0 w0'. unfold read_body. case_ifs; [|by intros [= <- <-]].
    intros (y & w2 & Hy%sys_ans & Hr)%bind_Ret. destruct y; case_ifs; cbn in Hr; simplify_eq;
      unfold mret, sys_ret, stop in Hr; simplify_eq; lia. }
  assert (length (w_ans w1) < length (w_ans w))%nat as H1.
  { unfold read_body in E. rewrite (proj2 (Z.ltb_lt 0 len)) in E by done.
    apply bind_Ret in E as (y & w2 & Hy%sys_ans & Hr). destruct y; case_ifs; cbn in Hr; simplify_eq;
      unfold mret, sys_ret, stop in Hr; simplify_eq; lia. }
  destruct x as [st|a].
  - apply loop_ans in H; [lia|]. apply Hb.
  - unfold mret, sys_ret in H. simplify_eq. lia.
Qed.

Lemma write_exact_ans fd buf w r w' :
  write_exact fd buf w = (Ret r, w') -> (length (w_ans w') <= length (w_ans w))%nat.
Proof.
  intros (r0 & w1 & H & Hr)%bind_Ret. unfold mret, sys_ret in Hr. injection Hr as _ <-.
  apply loop_ans in H; [done|]. clear. intros off w x w'. unfold write_body. case_ifs; [|by intros [= <- <-]].
  intros (y & w2 & Hy%sys_int_ans & Hr)%bind_Ret. destruct y; case_ifs; cbn in Hr; simplify_eq;
    unfold mret, sys_ret in Hr; simplify_eq; lia.
Qed.

Lemma print_ans s text w u w' : print s text w = (Ret u, w') -> w_ans w' = w_ans w.
Proof. by intros [= <- <-]. Qed.

Lemma report_body_consuming fd : consuming (report_body fd).
Proof.
  intros h w h' w' ([r buf] & w1 & E & H)%bind_Ret.
  apply read_partial_ans in E; [|done]. destruct (n_bytes r =? 0); [done|].
  apply bind_Ret in H as (u & w2 & Hh & H).
  assert (w_ans w2 = w_ans w1) as E2.
  { destruct h; [by injection Hh as <- <-|]. apply bind_Ret in Hh as (? & ? & <-%print_ans & Hh).
    apply bind_Ret in Hh as (? & ? & <-%print_ans & Hh). by apply print_ans in Hh. }
  destruct (io_ok r).
  - apply bind_Ret in H as (? & w3 & Hw%write_exact_ans & H). injection H as <- <-. rewrite E2 in Hw. lia.
  - by apply bind_Ret in H as (? & w3 & _ & H).
Qed.

(** Transfers that make progress, without errors. *)
Definition flowing (e : event) : Prop :=
  match e with
  | Called (Write _ _) r => write_progress r
  | Called (Read _ _) (RErr e) => retryable e = true
  | _ => True
  end.

Lemma flowing_last t e : Forall flowing t -> last t = Some e -> flowing e.
Proof. intros H Hl. apply last_Some in Hl as [t' ->]. by apply Forall_app in H as [_ H%Forall_cons]; destruct H. Qed.

Lemma write_exact_flows fd buf w r w' :
  write_exact fd buf w = (Ret r, w') ->
  exists t, io_step w w' t /\ Forall (write_call fd) t /\ (Forall flowing t -> written fd t = buf).
Proof.
  intros (r0 & w1 & H & Hr)%bind_Ret. unfold mret, sys_ret in Hr. injection Hr as _ <-.
  apply write_partial_post in H as (t & Ht & Hw & Hn & Hc & He). exists t. split_and!; [done|done|].
  intros Hf. unfold write_end in He. destruct (kind r0).
  - destruct He as [He|(_ & d & Hl)]; [rewrite Hw, He; apply ztake_all; lia|].
    apply (flowing_last _ _ Hf) in Hl. cbn in Hl. lia.
  - destruct He as (_ & d & e & Hl & Hr). apply (flowing_last _ _ Hf) in Hl. cbn in Hl. congruence.
Qed.

Lemma write_call_reads fd fd' t : Forall (write_call fd) t -> received fd' t = [].
Proof. induction 1 as [|e t (d & r & -> & _) _ IH]; [done|]. unfold received in *. cbn. apply IH. Qed.

Lemma read_call_writes fd fd' t : Forall (read_call fd) t -> written fd' t = [].
Proof. induction 1 as [|e t (n & r & -> & _) _ IH]; [done|]. unfold written in *. cbn. apply IH. Qed.

(** The run so far: what was read was written, up to [buf], still owed. *)
Definition owing (fd : Z) (w0 : World) (buf : list byte) (w : World) : Prop :=
  exists t, io_step w0 w t /\ (Forall flowing t -> written STDERR_FILENO t ++ buf = received fd t).

Notation any := (fun _ : World => True).

(** What is known of the run itself may be added to a postcondition. *)
Lemma wp_strengthen {A} (R : World -> Prop) (P : A -> World -> Prop) (m : Sys A) (R' : World -> Prop)
    (Q : A -> World -> Prop) w :
  (forall w', R w' -> R' w') -> wp m (on_ret R P) w -> (forall a w', m w = (Ret a, w') -> P a w' -> Q a w') ->
  wp m (on_ret R' Q) w.
Proof. unfold wp. destruct (m w) as [[] w'] eqn:E; cbn; auto. Qed.

Section forwarding.
Context (fd : Z) (w0 : World).

Lemma owing_extend buf buf' w w' t :
  owing fd w0 buf w -> io_step w w' t ->
  (Forall flowing t -> buf ++ received fd t = written STDERR_FILENO t ++ buf') -> owing fd w0 buf' w'.
Proof.
  intros (t0 & H0 & Hf0) Ht Hb. exists (t0 ++ t). split; [by eapply io_step_trans|].
  rewrite Forall_app, written_app, received_app. intros [Hf Hg].
  by rewrite <- Hf0, <- !app_assoc, Hb by done.
Qed.

Lemma wp_print buf s text w (Q : unit -> World -> Prop) :
  owing fd w0 buf w -> (forall w', owing fd w0 buf w' -> Q tt w') -> wp (print s text) (on_ret any Q) w.
Proof.
  intros Hw HQ. apply HQ. eapply (owing_extend _ _ _ _ [Printed s text]); [done|by split|].
  intros _. cbn. by rewrite app_nil_r.
Qed.

Lemma wp_header (h : bool) buf w (Q : unit -> World -> Prop) :
  owing fd w0 buf w -> (forall w', owing fd w0 buf w' -> Q tt w') ->
  wp (if h then mret tt
      else
        _ ← print stdout ERASE_TO_END;
        _ ← print stderr RULE;
        print stderr "REMOTE ERROR:") (on_ret any Q) w.
Proof.
  intros Hw HQ. destruct h; [by apply wp_ret, HQ|].
  apply wp_bind, (wp_print buf); [done|]. intros w1 H1.
  apply wp_bind, (wp_print buf); [done|]. intros w2 H2. by apply (wp_print buf).
Qed.

Lemma write_exact_owing buf w r w' :
  fd <> STDERR_FILENO -> owing fd w0 buf w -> write_exact STDERR_FILENO buf w = (Ret r, w') -> owing fd w0 [] w'.
Proof.
  intros Hfd Hw (t & Ht & Hc & Hf)%write_exact_flows. eapply (owing_extend buf); [done|done|].
  intros Hfl. by rewrite (write_call_reads STDERR_FILENO), Hf, app_nil_r.
Qed.

(** After the read, the bytes are owed, unless it failed. *)
Lemma read_owing r buf w w' :
  owing fd w0 [] w -> read_partial fd CHUNK_SIZE w = (Ret (r, buf), w') ->
  owing fd w0 (if io_ok r then buf else []) w'.
Proof.
  intros Hw (t & Ht & Hg & _ & _ & Hc & He)%read_partial_post.
  eapply (owing_extend []); [done|done|]. intros Hf. rewrite (read_call_writes fd), Hg by done.
  unfold io_ok, read_end in *. case_bool_decide as Hk; [done|]. destruct (kind r); [done|].
  destruct He as (_ & n & e & Hl & Hr). apply (flowing_last _ _ Hf) in Hl. cbn in Hl. congruence.
Qed.

Lemma report_body_forwards h w :
  fd <> STDERR_FILENO -> owing fd w0 [] w -> wp (report_body fd h) (on_ret any
    (fun r w' => match r with inl _ => owing fd w0 [] w' | inr _ => owing fd w0 [] w' end)) w.
Proof.
  intros Hfd Hw. unfold report_body.
  apply wp_bind, (wp_strengthen (read_some fd w) (read_post fd CHUNK_SIZE w)); [done|apply read_partial_wp|].
  intros [r buf] w1 E Hpost. pose proof (read_owing _ _ _ _ Hw E) as Hw1.
  destruct (Z.eqb_spec (n_bytes r) 0) as [Hz|Hz].
  { apply wp_ret. destruct Hpost as (t & _ & _ & Hn & _).
    assert (buf = []) as -> by (apply zlen_0_nil; lia). by destruct (io_ok r). }
  apply wp_bind, (wp_header h (if io_ok r then buf else [])); [done|]. intros w2 Hw2. destruct (io_ok r).
  - apply wp_bind, (wp_strengthen any (fun _ _ => True)); [done|by apply wp_write_exact|].
    intros r' w3 E3 _. apply wp_ret. by eapply write_exact_owing.
  - by apply wp_bind, (wp_print []).
Qed.
End forwarding.

(** C29. The remote's standard error reaches the user: when the pipe is read
    without errors and standard error takes what it is given, the bytes
    written are exactly the bytes read from the pipe up to its end. *)
Theorem remote_stderr_is_forwarded proc w w' t :
  report_stderr_remote proc w = (Ret tt, w') -> w_trace w' = w_trace w ++ t -> err_rd proc <> STDERR_FILENO ->
  Forall flowing t -> written STDERR_FILENO t = received (err_rd proc) t.
Proof.
  intros H Ht Hfd Hf. assert (owing (err_rd proc) w [] w') as (t' & [Et' _ _] & Hw).
  2:{ rewrite Ht in Et'. apply (inj (app (w_trace w))) in Et'. subst t'. by rewrite <- Hw, app_nil_r. }
  revert H. apply (wp_Ret _ any (fun _ => owing (err_rd proc) w [])).
  apply wp_bind. eapply wp_mono; [|apply (wp_loop _ (report_body_consuming (err_rd proc)))
    with (I := fun _ => owing (err_rd proc) w []) (R := any) (Q := fun _ => owing (err_rd proc) w [])].
  - intros [h| | | |] w1 Hw1; try done. cbn [on_ret]. destruct h; [|done]. by apply (wp_print (err_rd proc) w []).
  - intros. by apply report_body_forwards.
  - exists []. split; [apply io_step_refl|done].
Qed.

Lemma remote_stderr_is_forwarded_witness :
  let w := mkWorld [RBytes (bytes_of "no route"); RErr EINTR; RBytes []; ROk 3; ROk 5; RBytes []] [] ∅ ∅ in
  let r := report_stderr_remote (mkProcess 77 6 7 9) w in
  written STDERR_FILENO (w_trace r.2) = received 9 (w_trace r.2) /\ received 9 (w_trace r.2) = bytes_of "no route".
Proof.
  intros w r. split; [|by vm_compute].
  apply (remote_stderr_is_forwarded (mkProcess 77 6 7 9) w r.2 (w_trace r.2)); [by vm_compute|by vm_compute|done|].
  vm_compute. repeat constructor.
Defined.

(** The report is defined, and leaves the files alone. *)
Lemma wp_report proc w : wp (report_stderr_remote proc) (on_ret any (fun _ w' => w_fs w' = w_fs w)) w.
Proof.
  apply wp_bind. eapply wp_mono; [|apply (wp_loop _ (report_body_consuming (err_rd proc)))
    with (I := fun _ w' => w_fs w' = w_fs w) (R := any) (Q := fun _ w' => w_fs w' = w_fs w)]; [| |done].
  { intros [h| | | |] w1 Hw1; try done. by destruct h. }
  intros h w1 Hw1. unfold report_body.
  apply wp_bind, (wp_strengthen (read_some (err_rd proc) w1) (read_post (err_rd proc) CHUNK_SIZE w1)); [done|apply read_partial_wp|].
  intros [r buf] w2 _ (t & [_ Hf _] & _). rewrite <- Hw1, <- Hf. destruct (n_bytes r =? 0); [done|].
  match goal with |- wp (_ ≫= fun _ => ?k) ?Q w2 => assert (forall w', w_fs w' = w_fs w2 -> wp k Q w') as Hk end.
  { intros w' Hw'. destruct (io_ok r); [|done]. apply wp_bind, wp_write_exact; [done|].
    intros r' w3 (b & Hb & _) _. apply wp_ret. by rewrite (sends_fs _ _ _ _ Hb). }
  apply wp_bind. destruct h; [by apply wp_ret, Hk|]. by apply (Hk (mkWorld _ _ _ _)).
Qed.

(** ** The end of a synchronisation *)

Lemma report_bad_descriptor proc w rest :
  w_ans w = RErr (EOTHER 9) :: rest ->
  exists n, report_stderr_remote proc w
    = (Ret tt, kernel (Read (err_rd proc) n) (RErr (EOTHER 9)) rest w).
Proof.
  intros Ha. exists CHUNK_SIZE. unfold report_stderr_remote.
  erewrite bind_of_Ret; [|apply loop_inr; [apply report_body_consuming|]].
  2:{ unfold report_body. erewrite bind_of_Ret; [|unfold read_partial; apply loop_inr; [apply read_body_consuming|]].
      2:{ unfold read_body. change (0 <? CHUNK_SIZE) with true. cbn iota beta.
          unfold sys, mbind, sys_bind. rewrite Ha. cbn. reflexivity. }
      reflexivity. }
  reflexivity.
Qed.

(** C40. The report of a failed remote comes too late: [terminate] has closed
    the pipe, so the read that follows fails (EBADF) and [sync_with_remote]
    ends in [false] with nothing printed. *)
Theorem late_report_is_silent ok p w status r1 r2 r3 rest :
  0 < pid p -> Forall (fun fd => 2 < fd) [in_wr p; out_rd p; err_rd p] ->
  w_ans w = ROk 0 :: ROk status :: r1 :: r2 :: r3 :: RErr (EOTHER 9) :: rest -> exit_code_of status <> 0 ->
  exists w' n, finish_sync ok p w = (Ret false, w') /\
    w_trace w' = w_trace w ++ terminate_calls p status r1 r2 r3 ++ [Called (Read (err_rd p) n) (RErr (EOTHER 9))].
Proof.
  intros Hp Hfd Ha Hst. destruct (terminate_run _ _ _ _ _ _ _ Hp Hfd Ha) as (w1 & H1 & H2 & H3).
  destruct (report_bad_descriptor (dead p) w1 rest H3) as (n & Hr).
  unfold finish_sync. rewrite (bind_of_Ret _ _ _ _ _ H1). rewrite (proj2 (Z.eqb_neq _ _)) by done. cbn [negb].
  rewrite (bind_of_Ret _ _ _ _ _ Hr). do 2 eexists. split; [reflexivity|]. cbn. by rewrite H2, <- app_assoc.
Qed.

Lemma late_report_is_silent_witness :
  exists w' n, finish_sync true (mkProcess 77 6 7 9)
      (mkWorld [ROk 0; ROk 65280; ROk 0; ROk 0; ROk 0; RErr (EOTHER 9)] [] ∅ ∅) = (Ret false, w') /\
    w_trace w' = terminate_calls (mkProcess 77 6 7 9) 65280 (ROk 0) (ROk 0) (ROk 0)
      ++ [Called (Read 9 n) (RErr (EOTHER 9))].
Proof.
  apply (late_report_is_silent true (mkProcess 77 6 7 9)
    (mkWorld [ROk 0; ROk 65280; ROk 0; ROk 0; ROk 0; RErr (EOTHER 9)] [] ∅ ∅) 65280 (ROk 0) (ROk 0) (ROk 0) []);
    [cbn; lia|cbn; repeat constructor|reflexivity|by vm_compute].
Defined.
