(* ===== verification/Client.v ===== *)
(** * What the client's calls may do

    The parts of the client other than [main] call neither signal(2) nor
    anything that changes a file, and only the senders write to descriptor 0:
    facts about all their events, which the theorems about whole runs need. *)

From S2P Require Import Prelude Sys Net Wire Spawn Tracked Meta Send Display Remote.

Definition client_call (c : syscall) : bool :=
  match c with
  | Signal _ _ | Mkstemp _ | Ftruncate _ _ | Rename _ _ | Mkdir _ _ | Unlink _ => false
  | _ => true
  end.

Definition client_event (e : event) : Prop := match e with Called c _ => client_call c = true | _ => True end.

(** No call of write(2) on descriptor 0. *)
Definition elsewhere (e : event) : Prop := match e with Called (Write fd _) _ => fd <> 0 | _ => True end.

Definition silent_event (e : event) : Prop := client_event e /\ elsewhere e.

(** [through P w w']: the events from [w] to [w'] satisfy [P], and the files
    are the same. *)
Definition through (P : event -> Prop) (w w' : World) : Prop :=
  exists t, w_trace w' = w_trace w ++ t /\ Forall P t /\ w_fs w' = w_fs w.

#[global] Instance through_pre P : PreOrder (through P).
Proof.
  split; [intros w; exists []; by rewrite app_nil_r|].
  intros w1 w2 w3 (t1 & E1 & H1 & F1) (t2 & E2 & H2 & F2). exists (t1 ++ t2).
  rewrite E2, E1, app_assoc, F2, F1. split_and!; [done|by apply Forall_app|done].
Qed.

Notation quietly := (through client_event).
Notation silently := (through silent_event).

Lemma through_mono (P Q : event -> Prop) w w' : (forall e, P e -> Q e) -> through P w w' -> through Q w w'.
Proof. intros H (t & E & Ht & F). exists t. split_and!; [done|by eapply Forall_impl|done]. Qed.

Lemma silently_quietly w w' : silently w w' -> quietly w w'.
Proof. apply through_mono. by intros e []. Qed.

Lemma silently_elsewhere w w' : silently w w' -> through elsewhere w w'.
Proof. apply through_mono. by intros e []. Qed.

Lemma elsewhere_written t : Forall elsewhere t -> written 0 t = [].
Proof.
  induction 1 as [|e t He _ IH]; [done|]. change (sent_on 0 e ++ written 0 t = []). rewrite IH, app_nil_r.
  destruct e as [[] []| |]; try done. cbn in *. by rewrite bool_decide_eq_false_2.
Qed.

Lemma client_fs e (fs : gmap string fnode) opened :
  client_event e -> match e with Called c r => fs_effect c r fs opened | _ => fs end = fs.
Proof. by destruct e as [[] r| |]. Qed.

Definition silent_call (c : syscall) : bool :=
  client_call c && match c with Write fd _ => negb (fd =? 0) | _ => true end.

Lemma silent_called c r : silent_call c = true -> silent_event (Called c r).
Proof.
  unfold silent_call. intros [Hc Hw]%andb_true_iff. split; [done|]. destruct c; try done. cbn.
  by apply negb_true_iff, Z.eqb_neq in Hw.
Qed.

Lemma silently_sys c : silent_call c = true -> within silently (sys c).
Proof.
  intros Hc w r w'. unfold sys. destruct (w_ans w) as [|x rest]; [done|]. case_ifs; [|done].
  intros [= <- <-]. exists [Called c (clip c x)]. split_and!; [done|by repeat constructor; apply silent_called|].
  cbn. apply andb_true_iff in Hc as [Hc _]. by destruct c.
Qed.

Lemma silently_emit e : (forall c r, e <> Called c r) -> within silently (emit e).
Proof.
  intros He w u w' [= <- <-]. exists [e]. split_and!; [done| |done]. repeat constructor;
    by destruct e as [c r| |]; [destruct (He c r)|..].
Qed.

Ltac silently_by leaf :=
  within_by ltac:(first [leaf | apply silently_sys; done | apply silently_emit; done]).

Lemma silently_clear : within silently clear_progress.
Proof. unfold clear_progress. silently_by fail. Qed.

Lemma silently_terminate p : within silently (terminate p).
Proof. unfold terminate, wait, close_pipe_end. silently_by fail. Qed.

Lemma silently_report p : within silently (report_stderr_remote p).
Proof.
  unfold report_stderr_remote, report_body, write_exact, write_partial, write_body, read_partial, read_body, print.
  silently_by fail.
Qed.

Lemma silently_finish ok p : within silently (finish_sync ok p).
Proof.
  unfold finish_sync. silently_by ltac:(first [apply silently_terminate | apply silently_report]).
Qed.

Lemma subprocess_never_returns strerror {A} args w (a : A) w' : subprocess strerror args w <> (Ret a, w').
Proof.
  intros H. unfold subprocess in H. do 4 apply bind_Ret in H as (? & ? & _ & H).
  apply bind_Ret in H as ([v|e] & ? & _ & H); [done|]. by apply bind_Ret in H as (? & ? & _ & H).
Qed.

Lemma silently_pipe : within silently new_pipe.
Proof. unfold new_pipe, close_on_exec. silently_by fail. Qed.

Lemma silently_await pid args : within silently (await_child pid args).
Proof. unfold await_child, restore_signals. silently_by fail. Qed.

Lemma silently_subprocess strerror {A} args : within silently (@subprocess strerror A args).
Proof. intros w a w' H. by apply subprocess_never_returns in H. Qed.

Lemma silently_spawn strerror : within silently (spawn_daemon strerror).
Proof.
  unfold spawn_daemon, spawn, process_spawn.
  silently_by ltac:(first [apply silently_pipe | apply silently_await | apply silently_subprocess]).
Qed.

(** ** Sends and reports, however they end *)

Ltac client_by leaf :=
  emits_by ltac:(first [leaf | apply emits_sys; done | apply emits_emit; done]).

Lemma emits_mapped p len : emits client_event (mapped p len).
Proof.
  intros w. unfold mapped. exists []. rewrite app_nil_r. split; [|done]. by destruct (w_fs w !! native p) as [[]|].
Qed.

Lemma emits_send wc render pad sock seq base p n t :
  emits client_event (send_datamsg wc render pad sock seq base p n t).
Proof.
  unfold send_datamsg, send_rel, write_file_contents, contents_body, tick_node, chunk_failed, write_exact,
    write_partial, write_body.
  client_by ltac:(apply emits_mapped).
Qed.

Lemma emits_report p : emits client_event (report_stderr_remote p).
Proof.
  unfold report_stderr_remote, report_body, write_exact, write_partial, write_body, read_partial, read_body, print.
  client_by fail.
Qed.
