(* ===== verification/Recurse.v ===== *)
(** * [enu/main.cpp], [sync_with_remote]: the tasks as one process runs them

    [recurse_run] executes the tasks of [Sync.v] in the order of a schedule,
    which stands for the threads of the pool and the operating system: an
    entry is a task and the thread it is on. All the calls go to the one
    kernel of the process and the sockets are those the source computes,
    [t_sock.local()]; a failed send reports the remote's errors. The steps
    between two accesses of shared state are those of [Sync.v]. A
    [send_datamsg] and a report take many steps, one for each of their system
    calls, and between two of them the other threads can run: two sends may
    interleave their writes in any way. A thread that is in a send or a report
    does nothing else.

    The answers the kernel gives to a send are taken from the script when the
    send begins, its calls appear in the trace when they are made; a read of
    [ok] must agree with its value at that time. The progress tree is counted
    up when the send ends; the frames it draws in between show the tree as of
    its beginning.

    [recurse_run] ends when every task is done; a schedule that stops before
    is a run that has not returned yet. *)

From S2P Require Import Prelude Sys Net Wire Frames Daemon Tracked Meta Scan Sync SyncInv SyncSafe Send Scanned Walk Spawn Poll Remote Client.

(** A send in progress: its node and sequence number, the thread, the tree it
    began with, the events still to come and how it will end. *)
Record sending := mkSending {
  s_node : nat;
  s_seq : Z;
  s_thread : nat;
  s_tree : Tracked M;
  s_left : list event;
  s_end : outcome (bool * Tracked M)
}.

(** A task of the pool: between two calls, in a send, or in a report. *)
Inductive ptask :=
  | Plain (tk : task)
  | Sending (sd : sending)
  | Reporting (th : nat) (es : list event) (o : outcome unit).

(** The tasks, the shared state, the sockets of the threads, the next port. *)
Record pool := mkPool { p_tasks : list ptask; p_shared : shared; p_sock : gmap nat Z; p_port : Z }.

Definition thread_of (x : ptask) : option nat :=
  match x with Plain _ => None | Sending sd => Some (s_thread sd) | Reporting th _ _ => Some th end.

(** Thread [th] is in a send or a report. *)
Definition occupied (th : nat) (s : pool) : bool := existsb (fun x => bool_decide (thread_of x = Some th)) (p_tasks s).

Definition ended (x : ptask) : bool := match x with Plain TDone => true | _ => false end.

(** The events of a run of [m] from here on and its end; they are not made yet. *)
Definition begin {A} (m : Sys A) : Sys (list event * outcome A) := fun w =>
  let r := m (mkWorld (w_ans w) [] (w_fs w) (w_open w)) in
  (Ret (w_trace r.2, r.1), mkWorld (w_ans r.2) (w_trace w) (w_fs w) (w_open w)).

(** A read of [ok] finds its value. *)
Definition agrees (ok : bool) (e : event) : bool :=
  match e with Called LoadOk (ROk v) => bool_decide (ok = negb (v =? 0)) | _ => true end.

(** The event [e] happens now. *)
Definition replay (ok : bool) (e : event) : Sys unit :=
  if agrees ok e then
    match e with
    | Called c r => fun w => (Ret tt, kernel c r (w_ans w) w)
    | _ => emit e
    end
  else stop Blocked.

Definition set_left (es : list event) (sd : sending) : sending :=
  mkSending (s_node sd) (s_seq sd) (s_thread sd) (s_tree sd) es (s_end sd).

(** What [t] draws from now on is what [t'] would. *)
Definition drawn_as (t' t : Tracked M) : Tracked M :=
  let r := root_meta_ t in
  let r' := root_meta_ t' in
  set_root (mkRoot (start_ r) (last_draw_ r') (last_drawn_rows_ r') (sum_done_ r) (sum_total_ r) (mutex_ r')) t.

Section Recurse.
Context (wc : path -> option path) (render_fn_ : RenderFn M) (pad : byte * list byte).
Context (root : path) (t0 : Tracked M) (daemon : Process).

(** [int &sock = t_sock.local(); if (sock == -1) ...]. *)
Definition local_sock (th : nat) (s : pool) : Sys pool :=
  let '(sock, socks) := t_sock_local (p_sock s) th in
  if sock =? -1 then
    let port := p_port s in
    fd ← connect_to_daemon port INADDR_LOOPBACK;
    mret (mkPool (p_tasks s) (p_shared s) (<[th := fd]> socks) (u16 (port + 1)))
  else mret (mkPool (p_tasks s) (p_shared s) socks (p_port s)).

(** Task [i] is replaced by [ts]. *)
Definition replace (i : nat) (ts : list ptask) (g : shared) (s : pool) : pool :=
  mkPool (take i (p_tasks s) ++ ts ++ drop (S i) (p_tasks s)) g (p_sock s) (p_port s).

(** The end of a send, and the branch on its result. *)
Definition end_send (i : nat) (sd : sending) (s : pool) : Sys pool :=
  let g := p_shared s in
  match s_end sd with
  | Ret (sent, t') =>
      match count (s_node sd) (sum_done t' - sum_done (s_tree sd)) (g_tree g) with
      | None => undef "tick of a destroyed node"
      | Some t =>
          let g := set_tree (drawn_as t' t) g in
          if (sent : bool) then mret (replace i [Plain (TSwitch (s_node sd))] (add_sent (s_node sd) (s_seq sd) g) s)
          else mret (replace i [Plain TReport] g s)
      end
  | Fatal fmt => pfatal fmt
  | Exit code => stop (Exit code)
  | Undef what => undef what
  | Blocked => mret s
  end.

Definition end_report (i : nat) (o : outcome unit) (s : pool) : Sys pool :=
  match o with
  | Ret _ => mret (replace i [Plain TDone] (p_shared s) s)
  | Fatal fmt => pfatal fmt
  | Exit code => stop (Exit code)
  | Undef what => undef what
  | Blocked => mret s
  end.

(** A task between two calls goes on, on thread [th]. *)
Definition plain_step (i th : nat) (tk : task) (s : pool) : Sys pool :=
  let g := p_shared s in
  match tk with
  | TCheck n =>
      if g_ok g then s ← local_sock th s; mret (replace i [Plain (TSeqLoad n)] g s)
      else mret (replace i [Plain TDone] g s)
  | TSend n seq =>
      match node_path t0 root n with
      | None => undef "no path"
      | Some p =>
          r ← begin (send_datamsg wc render_fn_ pad (t_sock_local (p_sock s) th).1 seq (parent_path root) p n (g_tree g));
          mret (replace i [Sending (mkSending n seq th (g_tree g) r.1 r.2)] g s)
      end
  | TReport =>
      if g_ok g then
        r ← begin (report_stderr_remote daemon);
        mret (replace i [Reporting th r.1 r.2] (set_ok false g) s)
      else mret (replace i [Plain TDone] (set_ok false g) s)
  | _ =>
      match task_step tk (mkChoice true 0) g with
      | Go ts g' => mret (replace i (map Plain ts) g' s)
      | Wait => mret s
      | Crash what => undef what
      end
  end.

Definition recurse_step (i th : nat) (s : pool) : Sys pool :=
  let g := p_shared s in
  match p_tasks s !! i with
  | None => mret s
  | Some (Plain tk) => if occupied th s then mret s else plain_step i th tk s
  | Some (Sending sd) =>
      if (s_thread sd =? th)%nat then
        match s_left sd with
        | e :: es => _ ← replay (g_ok g) e; mret (replace i [Sending (set_left es sd)] g s)
        | [] => end_send i sd s
        end
      else mret s
  | Some (Reporting th' es o) =>
      if (th' =? th)%nat then
        match es with
        | e :: es' => _ ← replay (g_ok g) e; mret (replace i [Reporting th' es' o] g s)
        | [] => end_report i o s
        end
      else mret s
  end.

Fixpoint recurse_run (sched : list (nat * nat)) (s : pool) : Sys bool :=
  if forallb ended (p_tasks s) then mret (g_ok (p_shared s))
  else match sched with
       | [] => stop Blocked
       | (i, th) :: sched' => recurse_step i th s ≫= recurse_run sched'
       end.

(** [recurse(recurse, root, root_node)], and [ok] after it. *)
Definition recurse (sched : list (nat * nat)) (base_port : Z) : Sys bool :=
  recurse_run sched (mkPool (map Plain (f_tasks (start t0))) (f_shared (start t0)) ∅ base_port).
End Recurse.

(** ** The tasks do not read the times of the last drawing *)

Definition shared_like (g g' : shared) : Prop := exists t, g' = set_tree t g /\ tree_like (g_tree g) t.

Inductive effect_like : effect -> effect -> Prop :=
  | like_crash what : effect_like (Crash what) (Crash what)
  | like_wait : effect_like Wait Wait
  | like_go ts g g' : shared_like g g' -> effect_like (Go ts g) (Go ts g').

Lemma effect_like_go e ts g' : effect_like e (Go ts g') -> exists g, e = Go ts g /\ shared_like g g'.
Proof. inversion 1; subst. by eexists. Qed.

Lemma remove_like n t t2 :
  tree_like t t2 ->
  match remove n t, remove n t2 with Some t', Some t2' => tree_like t' t2' | None, None => True | _, _ => False end.
Proof.
  intros (Hn & Hi & Hs & Ht). unfold remove. rewrite <- Hn, <- Hi. destruct (nodes t !! n) as [nd|]; [|done]. cbn.
  destruct (parent nd) as [p|]; [|done]. cbn. destruct (nodes t !! p) as [pd|]; [|done]. by split_and!.
Qed.

Lemma with_node_like n g g' k k' :
  shared_like g g' -> (forall nd, effect_like (k nd) (k' nd)) -> effect_like (with_node n g k) (with_node n g' k').
Proof.
  intros (t & -> & Hn & _) Hk. unfold with_node. cbn. rewrite <- Hn. destruct (nodes (g_tree g) !! n); [done|constructor].
Qed.

Lemma step_remove_like n p g g' k k' :
  shared_like g g' -> (forall t t', tree_like t t' -> effect_like (k t) (k' t')) ->
  effect_like (step_remove n p g k) (step_remove n p g' k').
Proof.
  intros Hg Hk. unfold step_remove. apply with_node_like; [done|]. intros _. apply with_node_like; [done|]. intros _.
  destruct Hg as (t & -> & Ht). cbn. case_bool_decide; [constructor|]. pose proof (remove_like n _ _ Ht) as Hr.
  destruct (remove n (g_tree g)), (remove n t); try done; [by apply Hk|constructor].
Qed.

Lemma task_step_like tk ch g g' :
  (forall n seq, tk <> TSend n seq) -> shared_like g g' -> effect_like (task_step tk ch g) (task_step tk ch g').
Proof.
  intros Hne Hg. pose proof Hg as (t & -> & Ht).
  destruct tk; cbn; try by (constructor; exists t).
  - destruct (g_ok g); constructor; by exists t.
  - by destruct (Hne n seq).
  - apply with_node_like; [done|]. intros nd. destruct (m_ftype (meta nd)); try constructor;
      destruct (parent nd); try destruct (children_ nd); constructor; by exists t.
  - apply step_remove_like; [done|]. intros t1 t2 H. constructor. by exists t2.
  - apply with_node_like; [done|]. intros nd. case_match; constructor. by exists t.
  - destruct cs as [|c cs]; apply with_node_like; try done; intros _; [constructor; by exists t|].
    apply with_node_like; [done|]. intros _. constructor. by exists t.
  - unfold step_bubble. cbn. destruct (g_pending g !! n); [|constructor]. case_match; [|constructor; by exists t].
    apply with_node_like; [done|]. intros nd. destruct (parent nd); constructor; by exists t.
  - apply step_remove_like; [done|]. intros t1 t2 H. constructor. by exists t2.
Qed.

(** The tree of the abstract send against that of the run. *)
Lemma send_like n d t1 t2 t' :
  tree_like t1 t2 -> is_Some (nodes t1 !! n) ->
  exists t1' t2', count n d t1 = Some t1' /\ count n d t2 = Some t2' /\ tree_like t1' (drawn_as t' t2').
Proof.
  intros (Hn & Hi & Hs & Ht) [nd Hnd]. unfold count. rewrite <- Hn, Hnd. cbn. do 2 eexists. split_and!; [done..|].
  unfold tree_like, sum_done, sum_total in *. cbn. by rewrite Hn, Hi, Hs, Ht.
Qed.

(** What the walk expects of the scanned tree and the files. *)
Record prepared (root : path) (t0 : Tracked M) (fs : gmap string fnode) : Prop := mkPrepared {
  pr_meta : forall n nd, nodes t0 !! n = Some nd -> M_wf (meta nd);
  pr_file : forall n nd p, nodes t0 !! n = Some nd -> node_path t0 root n = Some p ->
    (exists c, fs !! native p = Some (File c)) \/ m_ftype (meta nd) <> regular;
  pr_paths : forall n, is_Some (nodes t0 !! n) -> is_Some (node_path t0 root n);
  pr_tree : tree_ok t0 t0;
  pr_scanned : scanned t0
}.

(** The scan provides it. *)
Lemma scan_prepared wc v sort base x k fs paths :
  StdSort sort -> sees wc v base x fs -> scan_result v sort (base ++ [x]) k paths ->
  prepared (base ++ [x]) (Scan.k_tree k) fs.
Proof.
  intros Hsort Hsees HR. split.
  - by eapply node_meta_wf.
  - by eapply node_file.
  - intros n [nd Hn]. pose proof (sees_root _ _ _ _ _ Hsees) as Hd.
    rewrite (node_path_paths _ _ _ _ Hd _ HR) by by exists nd.
    destruct (node_facts _ _ _ _ Hd _ HR n nd Hn) as (p & Hp & _). by exists p.
  - by eapply scan_tree_ok.
  - eapply scan_scanned; [|done]. apply (sees_root _ _ _ _ _ Hsees).
Qed.

(** ** What interleaved sends write *)

(** The events of node [n] in a list of events with the node each belongs to. *)
Definition of_node (n : nat) (L : list (nat * event)) : list event := (base.filter (fun y => y.1 = n) L).*2.

Lemma of_node_app n L1 L2 : of_node n (L1 ++ L2) = of_node n L1 ++ of_node n L2.
Proof. unfold of_node. by rewrite filter_app, fmap_app. Qed.

Lemma of_node_one n m e : of_node n [(m, e)] = if bool_decide (m = n) then [e] else [].
Proof.
  unfold of_node. case_bool_decide; [by rewrite filter_cons_True|by rewrite filter_cons_False].
Qed.

Lemma of_node_none n L : n ∉ L.*1 -> of_node n L = [].
Proof.
  intros Hn. unfold of_node. induction L as [|[m e] L IH]; [done|]. cbn in Hn. apply not_elem_of_cons in Hn as [Hne Hn].
  rewrite filter_cons_False by (cbn; congruence). by apply IH.
Qed.

Definition sendings (l : list ptask) : list sending :=
  omap (fun x => match x with Sending sd => Some sd | _ => None end) l.

Lemma sendings_app l1 l2 : sendings (l1 ++ l2) = sendings l1 ++ sendings l2.
Proof. apply omap_app. Qed.

Lemma sendings_plain ts : sendings (map Plain ts) = [].
Proof. by induction ts. Qed.

Section Stream.
Context (wc : path -> option path) (pad : byte * list byte).
Context (root : path) (t0 : Tracked M) (fs : gmap string fnode) (one : bool).

Let bytes_of_node (x : nat * Z) : list byte := frame_bytes (frame_of wc pad root t0 fs x).
Let all_bytes (l : list (nat * Z)) : list byte := concat (map bytes_of_node l).

(** [sds] are in progress and [l] have ended; [L] is what happened so far.
    With one thread at most one send is in progress. *)
Record streamed (sds : list sending) (l : list (nat * Z)) (L : list (nat * event)) : Prop := mkStreamed {
  st_now : forall sd t', sd ∈ sds -> s_end sd = Ret (true, t') ->
    frame_ok wc pad root t0 fs (s_node sd, s_seq sd) /\
    written 0 (of_node (s_node sd) L ++ s_left sd) = bytes_of_node (s_node sd, s_seq sd);
  st_sent : forall x, x ∈ l -> frame_ok wc pad root t0 fs x /\ written 0 (of_node x.1 L) = bytes_of_node x;
  st_nodes : forall n, n ∈ L.*1 -> n ∈ l.*1 \/ n ∈ map s_node sds;
  st_order : forall L1 n e L2 nd p, L = L1 ++ (n, e) :: L2 -> nodes t0 !! n = Some nd -> parent nd = Some p ->
    p ∈ l.*1 /\ p ∉ L2.*1;
  st_one : one = true ->
    match sds with
    | [] => written 0 L.*2 = all_bytes l
    | [sd] => written 0 L.*2 = all_bytes l ++ written 0 (of_node (s_node sd) L)
    | _ => False
    end
}.

(** A node is sent by one task, and by none again. *)
Definition disjoint_nodes (sds : list sending) (l : list (nat * Z)) : Prop :=
  NoDup (map s_node sds ++ l.*1).

Lemma streamed_start : streamed [] [] [].
Proof.
  split; try done; [by intros ? ? ?%not_elem_of_nil|by intros ? ?%not_elem_of_nil|by intros ? ?%not_elem_of_nil|].
  by intros [].
Qed.

Lemma streamed_perm sds sds' l L : sds ≡ₚ sds' -> streamed sds l L -> streamed sds' l L.
Proof.
  intros Hp [H1 H2 H3 H4 H5]. split; try done.
  - intros sd t'. rewrite <- Hp. apply H1.
  - intros n. rewrite <- Hp. apply H3.
  - intros E. specialize (H5 E). destruct sds as [|sd [|? ?]]; [|by apply Permutation_singleton_l in Hp; subst|done].
    by apply Permutation_nil_l in Hp; subst.
Qed.

Lemma streamed_begin sd sds l L :
  disjoint_nodes (sd :: sds) l -> (one = true -> sds = []) ->
  (forall t', s_end sd = Ret (true, t') -> frame_ok wc pad root t0 fs (s_node sd, s_seq sd) /\
     written 0 (s_left sd) = bytes_of_node (s_node sd, s_seq sd)) ->
  streamed sds l L -> streamed (sd :: sds) l L.
Proof.
  intros Hd Hone Hsd [H1 H2 H3 H4 H5].
  assert (of_node (s_node sd) L = []) as Hnone.
  { apply of_node_none. intros Hin%H3. apply NoDup_cons in Hd as [Hd _]. apply Hd, elem_of_app. tauto. }
  split; try done.
  - intros sd' t' [->|Hin]%elem_of_cons He; [|by eapply H1]. rewrite Hnone. by eapply Hsd.
  - intros n Hn. destruct (H3 n Hn); [by left|right; by right].
  - intros E. specialize (H5 E). rewrite (Hone E) in H5 |- *. by rewrite Hnone, app_nil_r.
Qed.

Lemma order_snoc sds l L n e :
  streamed sds l L -> n ∉ l.*1 ->
  (forall nd p, nodes t0 !! n = Some nd -> parent nd = Some p -> p ∈ l.*1) ->
  forall L1 m e' L2 nd p, L ++ [(n, e)] = L1 ++ (m, e') :: L2 -> nodes t0 !! m = Some nd -> parent nd = Some p ->
    p ∈ l.*1 /\ p ∉ L2.*1.
Proof.
  intros [_ _ _ H4 _] Hn Hup L1 m e' L2 nd p E Hm Hp.
  destruct L2 as [|y L2 _] using rev_ind.
  - apply app_inj_tail in E as [_ [= -> ->]]. split; [by eapply Hup|apply not_elem_of_nil].
  - rewrite app_comm_cons, app_assoc in E. apply app_inj_tail in E as [-> <-].
    destruct (H4 L1 m e' L2 nd p eq_refl Hm Hp) as [H H']. split; [done|].
    rewrite fmap_app, elem_of_app. intros [?|Hy]; [done|]. apply list_elem_of_singleton in Hy as ->. done.
Qed.

Lemma streamed_event sd e es sds l L :
  s_left sd = e :: es -> disjoint_nodes (sd :: sds) l ->
  (forall nd p, nodes t0 !! s_node sd = Some nd -> parent nd = Some p -> p ∈ l.*1) ->
  streamed (sd :: sds) l L -> streamed (set_left es sd :: sds) l (L ++ [(s_node sd, e)]).
Proof.
  intros Hleft Hd Hup HL. pose proof HL as [H1 H2 H3 H4 H5].
  pose proof Hd as [Hnew _]%NoDup_cons. rewrite not_elem_of_app in Hnew. destruct Hnew as [Hns Hnl].
  assert (forall m, m <> s_node sd -> of_node m (L ++ [(s_node sd, e)]) = of_node m L) as Hother.
  { intros m Hm. rewrite of_node_app, of_node_one, bool_decide_eq_false_2 by congruence. apply app_nil_r. }
  assert (of_node (s_node sd) (L ++ [(s_node sd, e)]) = of_node (s_node sd) L ++ [e]) as Hself.
  { by rewrite of_node_app, of_node_one, bool_decide_eq_true_2. }
  split.
  - intros sd' t' [->|Hin]%elem_of_cons He; cbn in *.
    + destruct (H1 sd t') as [Hok Hw]; [by left|done|]. split; [done|]. rewrite Hself, <- app_assoc. cbn. by rewrite <- Hleft.
    + rewrite Hother; [apply (H1 sd' t'); [by right|done]|]. intros E. apply Hns. rewrite <- E. by apply list_elem_of_fmap_2.
  - intros x Hx. rewrite Hother; [by apply H2|]. intros E. apply Hnl. rewrite <- E. by apply list_elem_of_fmap_2.
  - intros n. rewrite fmap_app, elem_of_app. intros [Hn|Hn]; [by apply H3 in Hn|].
    apply list_elem_of_singleton in Hn as ->. right. by left.
  - by eapply order_snoc.
  - intros E. specialize (H5 E). destruct sds; [|done]. cbn in *.
    by rewrite fmap_app, written_app, Hself, written_app, H5, app_assoc.
Qed.

Lemma streamed_end sd t' sds l L :
  s_left sd = [] -> s_end sd = Ret (true, t') -> streamed (sd :: sds) l L ->
  streamed sds (l ++ [(s_node sd, s_seq sd)]) L.
Proof.
  intros Hleft Hend [H1 H2 H3 H4 H5]. destruct (H1 sd t') as [Hok Hw]; [by left|done|].
  rewrite Hleft, app_nil_r in Hw. split.
  - intros sd' t1 Hin. apply H1. by right.
  - intros x [Hx|Hx]%elem_of_app; [by apply H2|]. by apply list_elem_of_singleton in Hx as ->.
  - intros n Hn. rewrite fmap_app, elem_of_app. destruct (H3 n Hn) as [|[->|]%elem_of_cons]; auto. left. right. by left.
  - intros L1 n e L2 nd p E Hn Hp. destruct (H4 L1 n e L2 nd p E Hn Hp). split; [|done].
    rewrite fmap_app, elem_of_app. by left.
  - intros E. specialize (H5 E). destruct sds; [|done]. unfold all_bytes in *.
    rewrite map_app, concat_app. cbn. by rewrite app_nil_r, H5, Hw.
Qed.
End Stream.

(** ** A run against the steps of [Sync.v] *)

(** The task of [Sync.v] a task of the pool is. *)
Definition abs (x : ptask) : task :=
  match x with
  | Plain tk => tk
  | Sending sd => TSend (s_node sd) (s_seq sd)
  | Reporting _ _ _ => TDone
  end.

Lemma abs_plain ts : map abs (map Plain ts) = ts.
Proof. rewrite map_map. apply map_id. Qed.

Lemma ended_abs l : forallb ended l = true -> Forall (fun tk => tk = TDone) (map abs l) /\ sendings l = [].
Proof.
  induction l as [|x l IH]; [by split|]. cbn. intros [Hx [H1 H2]%IH]%andb_prop. destruct x as [[]| |]; try done.
  split; [by constructor|done].
Qed.

Lemma sendings_busy l : map s_node (sendings l) `sublist_of` busy (map role_of (map abs l)).
Proof.
  induction l as [|x l IH]; [done|]. destruct x as [tk|sd|th es o]; cbn.
  - destruct (owner (role_of tk)); [by constructor|done].
  - by constructor.
  - done.
Qed.

Lemma sendings_replace i x ts g s :
  p_tasks s !! i = Some x -> exists rest, sendings (p_tasks s) ≡ₚ sendings [x] ++ rest /\
    sendings (p_tasks (replace i ts g s)) ≡ₚ sendings ts ++ rest.
Proof.
  intros Hx. exists (sendings (take i (p_tasks s)) ++ sendings (drop (S i) (p_tasks s))). split.
  - rewrite <- (take_drop_middle _ _ _ Hx) at 1. change (x :: ?l) with ([x] ++ l). rewrite !sendings_app. solve_Permutation.
  - cbn. rewrite !sendings_app. solve_Permutation.
Qed.

Lemma begin_run {A} (m : Sys A) w :
  begin m w = (Ret (w_trace (m (mkWorld (w_ans w) [] (w_fs w) (w_open w))).2,
                    (m (mkWorld (w_ans w) [] (w_fs w) (w_open w))).1),
               mkWorld (w_ans (m (mkWorld (w_ans w) [] (w_fs w) (w_open w))).2) (w_trace w) (w_fs w) (w_open w)).
Proof. done. Qed.

(** A step of a client's send or report adds its event and nothing else. *)
Lemma replay_run ok e w u w' :
  client_event e -> replay ok e w = (Ret u, w') -> w_trace w' = w_trace w ++ [e] /\ w_fs w' = w_fs w.
Proof.
  intros He. unfold replay. destruct (agrees ok e); [|done]. destruct e as [c r| |]; intros [= <- <-]; try done.
  split; [done|]. cbn. by apply (client_fs (Called c r)).
Qed.

Lemma replay_not_undef ok e w what w' : replay ok e w <> (Undef what, w').
Proof. unfold replay. destruct (agrees ok e); [by destruct e|done]. Qed.

Section Simulation.
Context (wc : path -> option path) (render_fn_ : RenderFn M) (pad : byte * list byte).
Context (root : path) (t0 : Tracked M) (daemon : Process) (fs : gmap string fnode).
Hypothesis Hpad : zlen (pad.2) = 4.
Hypothesis Hprep : prepared root t0 fs.
Hypothesis Hsmall : Z.of_nat (next_id t0) < 2 ^ 64.
Context (w0 : World).
Hypothesis Hfs : w_fs w0 = fs.

Let any := fun _ : World => True.
Let Hscanned := pr_scanned _ _ _ Hprep.

Section pool.
(** The one thread of the schedule, if it has just one. *)
Context (one : option nat).

Definition task_ok (g : shared) (x : ptask) : Prop :=
  match x with
  | Plain _ => True
  | Sending sd => Forall client_event (s_left sd) /\ forall what, s_end sd <> Undef what
  | Reporting _ es o => Forall client_event es /\ (forall what, o <> Undef what) /\ g_ok g = false
  end /\ forall th th', one = Some th -> thread_of x = Some th' -> th' = th.

(** The tasks are those of a reachable configuration [c] of [Sync.v], and the
    sockets of the threads are what [t_sock] gives them. *)
Record follows (s : pool) (w : World) (c : config) : Prop := mkFollows {
  fo_reach : reachable t0 c;
  fo_cfg : cfg_inv t0 c;
  fo_tasks : f_tasks c = map abs (p_tasks s);
  fo_shared : shared_like (f_shared c) (p_shared s);
  fo_ok : Forall (task_ok (p_shared s)) (p_tasks s);
  fo_socks : map_Forall (fun _ v => v = 0) (p_sock s);
  fo_fs : w_fs w = fs
}.

(** The events since [w0], with the node each belongs to. *)
Definition carried (s : pool) (w : World) : Prop :=
  exists L, w_trace w = w_trace w0 ++ L.*2 /\
    streamed wc pad root t0 fs (bool_decide (is_Some one)) (sendings (p_tasks s)) (g_sent (p_shared s)) L.

Definition sim (s : pool) (w : World) : Prop := exists c, follows s w c /\ (doomed c \/ carried s w).

Lemma sim_start port : sim (mkPool (map Plain (f_tasks (start t0))) (f_shared (start t0)) ∅ port) w0.
Proof using Hprep Hfs.
  exists (start t0). split.
  - split; [apply rtc_refl|apply cfg_inv_start, (pr_tree _ _ _ Hprep)|done| |by repeat constructor|apply map_Forall_empty|done].
    exists t0. split; [done|reflexivity].
  - right. exists []. rewrite app_nil_r. split; [done|apply streamed_start].
Qed.

Lemma follows_like s w c : follows s w c ->
  g_ok (p_shared s) = g_ok (f_shared c) /\ g_sent (p_shared s) = g_sent (f_shared c) /\
  tree_like (g_tree (f_shared c)) (g_tree (p_shared s)).
Proof. intros Hc. by destruct (fo_shared _ _ _ Hc) as (t & -> & Ht). Qed.

(** Every send in progress has its node to itself, and its parent was sent. *)
Lemma follows_disjoint s w c : follows s w c -> disjoint_nodes (sendings (p_tasks s)) (g_sent (p_shared s)).
Proof using Hprep Hsmall.
  intros Hc. destruct (reachable_good t0 Hscanned Hsmall c (fo_reach _ _ _ Hc)) as [Hinv _].
  destruct (follows_like _ _ _ Hc) as (_ & -> & _). rewrite (fo_tasks _ _ _ Hc) in Hinv.
  apply NoDup_app. split_and!.
  - eapply sublist_NoDup; [apply (v_nodup _ _ _ Hinv)|apply sendings_busy].
  - intros n (sd & -> & Hsd)%list_elem_of_fmap. apply list_elem_of_omap in Hsd as (x & Hx & E).
    destruct x as [|sd'|]; try done. injection E as ->.
    destruct (v_stage _ _ _ Hinv (s_node sd) Pre) as (nd & _ & H & _); [|exact H].
    apply list_elem_of_fmap. eexists. split; [|by apply list_elem_of_fmap_2]. done.
  - apply (v_sent _ _ _ Hinv).
Qed.

Lemma follows_parent s w c sd nd p : follows s w c -> sd ∈ sendings (p_tasks s) ->
  nodes t0 !! s_node sd = Some nd -> parent nd = Some p -> p ∈ (g_sent (p_shared s)).*1.
Proof using Hprep Hsmall.
  intros Hc Hsd Hn Hp. destruct (reachable_good t0 Hscanned Hsmall c (fo_reach _ _ _ Hc)) as [Hinv _].
  destruct (follows_like _ _ _ Hc) as (_ & -> & _). rewrite (fo_tasks _ _ _ Hc) in Hinv.
  eapply (parent_sent _ _ _ (s_node sd)); [done| |done|done].
  eapply elem_of_submseteq; [by apply (list_elem_of_fmap_2 s_node)|apply sublist_submseteq, sendings_busy].
Qed.

Lemma local_sock_zero th s w :
  map_Forall (fun _ v => v = 0) (p_sock s) ->
  exists socks, local_sock th s w = (Ret (mkPool (p_tasks s) (p_shared s) socks (p_port s)), w) /\
    map_Forall (fun _ v => v = 0) socks.
Proof.
  intros Hz. unfold local_sock, t_sock_local. destruct (p_sock s !! th) as [sock|] eqn:E.
  - rewrite (Hz th sock E). by eexists.
  - eexists. split; [done|]. by apply map_Forall_insert_2.
Qed.

Lemma socket_zero th m : map_Forall (fun _ v => v = 0) m -> (t_sock_local m th).1 = 0.
Proof. intros Hz. unfold t_sock_local. destruct (m !! th) as [v|] eqn:E; [by apply (Hz th)|done]. Qed.

(** ** One step *)

Section one.
Context (i : nat) (s : pool) (w : World) (x : ptask) (c : config).
Hypothesis Hx : p_tasks s !! i = Some x.
Hypothesis Hc : follows s w c.

Let g := p_shared s.

Lemma task_in : abs x ∈ f_tasks c.
Proof using Hx Hc. rewrite (fo_tasks _ _ _ Hc). apply list_elem_of_fmap_2. by eapply list_elem_of_lookup_2. Qed.

Lemma all_replaced (P : ptask -> Prop) ts :
  Forall P (p_tasks s) -> Forall P ts -> Forall P (take i (p_tasks s) ++ ts ++ drop (S i) (p_tasks s)).
Proof using Hx.
  rewrite <- (take_drop_middle _ _ _ Hx) at 1. rewrite !Forall_app, Forall_cons. by intros (? & ? & ?) ?.
Qed.

Lemma abs_replaced ts :
  map abs (take i (p_tasks s) ++ ts ++ drop (S i) (p_tasks s)) =
  take i (f_tasks c) ++ map abs ts ++ drop (S i) (f_tasks c).
Proof using Hc. rewrite (fo_tasks _ _ _ Hc), !map_app. by rewrite <- !fmap_take, <- fmap_drop. Qed.

Lemma task_here : f_tasks c !! i = Some (abs x).
Proof using Hx Hc. rewrite (fo_tasks _ _ _ Hc). apply list_lookup_fmap_Some. by exists x. Qed.

(** The task goes on inside a send or a report. *)
Lemma follows_same x' w' :
  abs x' = abs x -> task_ok g x' -> w_fs w' = fs -> follows (replace i [x'] g s) w' c.
Proof using Hx Hc.
  intros Ha Hok Hw. pose proof Hc as [Hr Hi _ Hs Hf Hz _]. split; try done; cbn [replace p_tasks p_shared].
  - rewrite abs_replaced. cbn [map app]. rewrite Ha. symmetry. apply take_drop_middle, task_here.
  - apply all_replaced; [done|by apply Forall_singleton].
Qed.

(** It makes a step of [Sync.v]. *)
Lemma follows_step ts ch ga g' socks port w' :
  task_step (abs x) ch (f_shared c) = Go (map abs ts) ga -> shared_like ga g' -> Forall (task_ok g') ts ->
  map_Forall (fun _ v => v = 0) socks -> w_fs w' = fs ->
  exists c', step c c' /\ f_shared c' = ga /\ follows (replace i ts g' (mkPool (p_tasks s) (p_shared s) socks port)) w' c'.
Proof using Hx Hc.
  intros Hgo Hl Hts Hz Hw. pose proof Hc as [Hr Hi Ht _ Hf _ _]. pose proof task_here as Hhere.
  exists (mkConfig (take i (f_tasks c) ++ map abs ts ++ drop (S i) (f_tasks c)) ga).
  assert (step c (mkConfig (take i (f_tasks c) ++ map abs ts ++ drop (S i) (f_tasks c)) ga)) as Hst.
  { destruct c as [tasks gc]. cbn in *. rewrite <- (take_drop_middle _ _ _ Hhere) at 1. by econstructor. }
  assert (g_ok g = false -> g_ok g' = false) as Hmono.
  { destruct (follows_like _ _ _ Hc) as (E & _ & _). destruct Hl as (t & -> & _). intros Hg. cbn.
    apply (proj1 (step_flags _ _ _ _ _ Hgo)). left. by rewrite <- E. }
  split_and!; [done..|]. split; [by eapply rtc_r|by eapply cfg_inv_step|by rewrite <- abs_replaced|done| |done|done].
  apply all_replaced; [|done]. eapply Forall_impl; [exact Hf|]. intros y [Hy Hth]. split; [|done].
  destruct y as [| |th es o]; [done|done|]. destruct Hy as (Hy1 & Hy2 & Hy3). by split_and!; [| |apply Hmono].
Qed.

Lemma carried_same ts g' socks port w' :
  sendings ts = sendings [x] -> g_sent g' = g_sent g -> w_trace w' = w_trace w -> carried s w ->
  carried (replace i ts g' (mkPool (p_tasks s) (p_shared s) socks port)) w'.
Proof using Hx.
  intros Hts Hsent Hw (L & Hw0 & HL). exists L. split; [congruence|]. cbn. rewrite Hsent.
  destruct (sendings_replace i x ts g' s Hx) as (rest & H1 & H2). rewrite Hts, <- H1 in H2.
  eapply streamed_perm; [by symmetry|done].
Qed.

(** A step of [Sync.v] that sends nothing. *)
Lemma sim_silent ts ch ga g' socks port w' :
  task_step (abs x) ch (f_shared c) = Go ts ga -> shared_like ga g' -> map_Forall (fun _ v => v = 0) socks ->
  (forall n seq, abs x <> TSend n seq) -> w_trace w' = w_trace w -> w_fs w' = fs ->
  doomed c \/ carried s w -> sim (replace i (map Plain ts) g' (mkPool (p_tasks s) (p_shared s) socks port)) w'.
Proof using Hx Hc.
  intros Hgo Hl Hz Hne Htr Hw Hout. destruct (step_flags _ _ _ _ _ Hgo) as [_ Hsent]. specialize (Hsent Hne).
  destruct (follows_step (map Plain ts) ch ga g' socks port w') as (c' & Hst & _ & Hf'); try done.
  { by rewrite abs_plain. }
  { apply Forall_fmap, Forall_forall. by intros tk _. }
  exists c'. split; [done|]. destruct Hout as [Hd|Hcar]; [left; by eapply doomed_step|right].
  apply carried_same; [|destruct Hl as (t & -> & _), (follows_like _ _ _ Hc) as (_ & E & _); cbn; unfold g; congruence|done|done].
  rewrite sendings_plain. destruct x as [tk|sd|]; [done|by destruct (Hne (s_node sd) (s_seq sd))|done].
Qed.

Lemma wp_other ch tk :
  x = Plain tk -> (forall n seq, tk <> TSend n seq) -> doomed c \/ carried s w ->
  wp (match task_step tk ch g with
      | Go ts g' => mret (replace i (map Plain ts) g' s) | Wait => mret s | Crash what => undef what end)
    (on_ret any sim) w.
Proof using Hx Hc Hprep Hsmall.
  intros Ex Hne Hs. pose proof task_in as Hin. rewrite Ex in Hin.
  pose proof (task_step_like tk ch _ _ Hne (fo_shared _ _ _ Hc)) as Hl. fold g in Hl.
  destruct (task_step tk ch g) as [what| |ts g'] eqn:E; [|by exists c|].
  - exfalso. inversion Hl as [what' E'| |].
    by eapply (reachable_no_crash t0 Hscanned Hsmall c tk ch); [apply (fo_reach _ _ _ Hc)|apply Hin|].
  - apply effect_like_go in Hl as (ga & Ea & Hga). apply wp_ret.
    apply (sim_silent ts ch ga g' (p_sock s) (p_port s) w); try done;
      [by rewrite Ex|apply (fo_socks _ _ _ Hc)|by rewrite Ex|apply (fo_fs _ _ _ Hc)].
Qed.

Lemma send_alive n seq : abs x = TSend n seq -> is_Some (nodes (g_tree (f_shared c)) !! n).
Proof using Hx Hc Hprep Hsmall.
  intros Etk. destruct (nodes (g_tree (f_shared c)) !! n) eqn:En; [by eexists|].
  destruct (reachable_no_crash t0 Hscanned Hsmall c (abs x) (mkChoice true 0) "destroyed node" (fo_reach _ _ _ Hc) task_in).
  rewrite Etk. cbn. unfold step_send, count. by rewrite En.
Qed.

(** ** Sends *)

(** The send of a task and what it promises. *)
Lemma begun th n seq p :
  x = Plain (TSend n seq) -> node_path t0 root n = Some p ->
  exists es o ans, begin (send_datamsg wc render_fn_ pad 0 seq (parent_path root) p n (g_tree g)) w =
    (Ret (es, o), mkWorld ans (w_trace w) (w_fs w) (w_open w)) /\
    Forall client_event es /\ (forall what, o <> Undef what) /\
    (forall t', o = Ret (true, t') -> frame_ok wc pad root t0 fs (n, seq) /\
       written 0 es = frame_bytes (frame_of wc pad root t0 fs (n, seq))) /\
    abs (Sending (mkSending n seq th (g_tree g) es o)) = abs x.
Proof using Hx Hc Hpad Hprep Hsmall.
  intros Ex Hp. destruct (follows_like _ _ _ Hc) as (_ & _ & Hl).
  pose proof (fo_cfg _ _ _ Hc) as [Ht _ Hk].
  assert (fits 32 seq) as Hseq.
  { pose proof task_in as Hin. rewrite Forall_forall in Hk. apply Hk in Hin. by rewrite Ex in Hin. }
  assert (is_Some (nodes (g_tree g) !! n)) as Hn.
  { unfold g. destruct Hl as [<- _]. apply (send_alive n seq). by rewrite Ex. }
  rewrite begin_run. set (m := send_datamsg _ _ _ _ _ _ _ _ _). set (w1 := mkWorld _ _ _ _).
  pose proof (wp_send wc render_fn_ pad root t0 fs Hpad (pr_meta _ _ _ Hprep) (pr_file _ _ _ Hprep) 0 n seq p
    (g_tree g) w1 (tree_ok_like _ _ _ Hl Ht) Hn Hseq (fo_fs _ _ _ Hc) Hp) as Hwp.
  destruct (emits_send wc render_fn_ pad 0 seq (parent_path root) p n (g_tree g) w1) as (es & Hes & Hev).
  fold m in Hwp, Hes. unfold wp in Hwp. cbn [w_trace w1 app] in Hes. rewrite Hes.
  do 3 eexists. split; [done|]. split_and!; [done| | |by rewrite Ex].
  - intros what E. by rewrite E in Hwp.
  - intros t' E. rewrite E in Hwp. cbn in Hwp. destruct Hwp as (_ & _ & Hs). destruct (Hs eq_refl) as [Hok (t & Htr & _ & Hw)].
    split; [done|]. cbn in Htr. rewrite Hes in Htr. by subst.
Qed.

Lemma wp_begin th n seq p :
  x = Plain (TSend n seq) -> node_path t0 root n = Some p -> occupied th s = false ->
  (forall th', one = Some th' -> th = th') -> doomed c \/ carried s w ->
  wp (r ← begin (send_datamsg wc render_fn_ pad 0 seq (parent_path root) p n (g_tree g));
      mret (replace i [Sending (mkSending n seq th (g_tree g) r.1 r.2)] g s)) (on_ret any sim) w.
Proof using Hx Hc Hpad Hprep Hsmall.
  intros Ex Hp Hocc Hth Hout. destruct (begun th n seq p Ex Hp) as (es & o & ans & Hrun & Hes & Ho & Hok & Ha).
  unfold wp. erewrite bind_of_Ret by exact Hrun. cbn [fst snd mret sys_ret on_ret].
  set (sd := mkSending n seq th (g_tree g) es o) in *. set (w' := mkWorld ans _ _ _).
  assert (follows (replace i [Sending sd] g s) w' c) as Hf.
  { apply follows_same; [done| |apply (fo_fs _ _ _ Hc)]. split; [by split|]. cbn. intros th1 th2 E [= <-]. by apply Hth. }
  exists c. split; [done|]. destruct Hout as [Hd|(L & Htr & HL)]; [by left|right]. exists L. split; [done|].
  destruct (sendings_replace i x [Sending sd] g s Hx) as (rest & H1 & H2). rewrite Ex in H1. cbn in H1.
  pose proof (follows_disjoint _ _ _ Hf) as Hdis. cbn [replace p_shared] in Hdis |- *.
  eapply streamed_perm; [symmetry; exact H2|]. apply streamed_begin.
  - unfold disjoint_nodes in *. by rewrite H2 in Hdis.
  - intros Hone%bool_decide_eq_true. destruct Hone as [th' Hone]. specialize (Hth th' Hone) as <-.
    destruct rest as [|sd' rest]; [done|exfalso].
    assert (sd' ∈ sendings (p_tasks s)) as Hsd by (rewrite H1; by left).
    apply list_elem_of_omap in Hsd as (y & Hy & Ey). destruct y as [|sd2|]; try done. injection Ey as ->.
    pose proof (fo_ok _ _ _ Hc) as Hall. rewrite Forall_forall in Hall. destruct (Hall _ Hy) as [_ Hy2].
    specialize (Hy2 th _ Hone eq_refl). unfold occupied in Hocc.
    apply not_true_iff_false in Hocc. apply Hocc, existsb_exists. exists (Sending sd'). split; [by apply list_elem_of_In|].
    apply bool_decide_eq_true. cbn. by rewrite Hy2.
  - exact Hok.
  - by eapply streamed_perm.
Qed.

Lemma wp_replay ok e (Q : World -> Prop) :
  client_event e -> (forall w', w_trace w' = w_trace w ++ [e] -> w_fs w' = w_fs w -> Q w') ->
  wp (replay ok e) (on_ret any (fun _ => Q)) w.
Proof.
  intros He HQ. unfold wp. destruct (replay ok e w) as [[[]| | | |what] w'] eqn:E; try done; cbn.
  - by apply replay_run in E as [? ?]; [apply HQ|].
  - by apply replay_not_undef in E.
Qed.

Lemma x_ok : task_ok g x.
Proof using Hx Hc.
  pose proof (fo_ok _ _ _ Hc) as Hf. rewrite Forall_forall in Hf. apply Hf. by eapply list_elem_of_lookup_2.
Qed.

Lemma wp_event sd e es :
  x = Sending sd -> s_left sd = e :: es -> doomed c \/ carried s w ->
  wp (_ ← replay (g_ok g) e; mret (replace i [Sending (set_left es sd)] g s)) (on_ret any sim) w.
Proof using Hx Hc Hprep Hsmall.
  intros Ex Hleft Hout. pose proof x_ok as [Hok Hth]. rewrite Ex in Hok, Hth. destruct Hok as [Hev Hu].
  rewrite Hleft in Hev. apply Forall_cons in Hev as [He Hes].
  apply wp_bind, wp_replay; [done|]. intros w' Htr Hw. apply wp_ret.
  assert (follows (replace i [Sending (set_left es sd)] g s) w' c) as Hf.
  { apply follows_same; [by rewrite Ex| |rewrite Hw; apply (fo_fs _ _ _ Hc)]. by repeat split. }
  exists c. split; [done|]. destruct Hout as [Hd|(L & HL0 & HL)]; [by left|right].
  exists (L ++ [(s_node sd, e)]). split; [by rewrite Htr, HL0, fmap_app, <- app_assoc|].
  destruct (sendings_replace i x [Sending (set_left es sd)] g s Hx) as (rest & H1 & H2). rewrite Ex in H1. cbn in H1.
  eapply streamed_perm; [symmetry; exact H2|]. apply streamed_event; [done| | |by eapply streamed_perm].
  - unfold disjoint_nodes. rewrite <- H1. exact (follows_disjoint _ _ _ Hc).
  - intros nd p. apply (follows_parent _ _ _ _ _ _ Hc). rewrite H1. by left.
Qed.

Lemma wp_end sd :
  x = Sending sd -> s_left sd = [] -> doomed c \/ carried s w -> wp (end_send i sd s) (on_ret any sim) w.
Proof using Hx Hc Hprep Hsmall.
  intros Ex Hleft Hout. pose proof x_ok as [Hok _]. rewrite Ex in Hok. destruct Hok as [_ Hu].
  unfold end_send. destruct (s_end sd) as [[sent t']| | | |what] eqn:Hend; try done; [|by exists c|by destruct (Hu what)].
  destruct (follows_like _ _ _ Hc) as (_ & Esent & Hl). pose proof (fo_shared _ _ _ Hc) as (t & Hg & _).
  set (d := sum_done t' - sum_done (s_tree sd)).
  destruct (send_like (s_node sd) d _ _ t' Hl) as (t1 & t2 & Ht1 & Ht2 & Hl').
  { apply (send_alive _ (s_seq sd)). by rewrite Ex. }
  rewrite Ht2. pose proof (fo_socks _ _ _ Hc) as Hz. pose proof (fo_fs _ _ _ Hc) as Hw.
  destruct sent; apply wp_ret.
  - destruct (follows_step [Plain (TSwitch (s_node sd))] (mkChoice true d) (add_sent (s_node sd) (s_seq sd) (set_tree t1 (f_shared c)))
      (add_sent (s_node sd) (s_seq sd) (set_tree (drawn_as t' t2) (p_shared s))) (p_sock s) (p_port s) w)
      as (c' & Hst & _ & Hf); try done.
    { rewrite Ex. cbn. unfold step_send. cbn. by rewrite Ht1. }
    { exists (drawn_as t' t2). rewrite Hg. by split. }
    { by repeat constructor. }
    exists c'. split; [done|]. destruct Hout as [Hd|(L & HL0 & HL)]; [left; by eapply doomed_step|right].
    exists L. split; [done|]. destruct (sendings_replace i x [Plain (TSwitch (s_node sd))] g s Hx) as (rest' & H1' & H2').
    rewrite Ex in H1'. cbn in H1'. eapply streamed_perm; [symmetry; exact H2'|]. cbn [sendings omap app].
    eapply streamed_end; [done|exact Hend|]. by eapply streamed_perm.
  - destruct (follows_step [Plain TReport] (mkChoice false d) (set_tree t1 (f_shared c))
      (set_tree (drawn_as t' t2) (p_shared s)) (p_sock s) (p_port s) w) as (c' & Hst & _ & Hf); try done.
    { rewrite Ex. cbn. unfold step_send. cbn. by rewrite Ht1. }
    { exists (drawn_as t' t2). rewrite Hg. by split. }
    { by repeat constructor. }
    exists c'. split; [done|]. left. right. rewrite (fo_tasks _ _ _ Hf). cbn. rewrite map_app. apply elem_of_app. right. by left.
Qed.

(** ** Reports *)

Lemma wp_report_begin th :
  x = Plain TReport -> (forall th', one = Some th' -> th = th') ->
  wp (r ← begin (report_stderr_remote daemon); mret (replace i [Reporting th r.1 r.2] (set_ok false g) s))
    (on_ret any sim) w.
Proof using Hx Hc.
  intros Ex Hth. pose proof (begin_run (report_stderr_remote daemon) w) as Hrun.
  set (w1 := mkWorld (w_ans w) [] (w_fs w) (w_open w)) in *.
  destruct (emits_report daemon w1) as (es & Hes & Hev). cbn [w_trace w1 app] in Hes.
  pose proof (wp_report daemon w1) as Hwp. unfold wp in Hwp |- *. erewrite bind_of_Ret by exact Hrun.
  cbn [fst snd mret sys_ret on_ret]. rewrite Hes. destruct (fo_shared _ _ _ Hc) as (t & Hg & Hl).
  destruct (follows_step [Reporting th es (report_stderr_remote daemon w1).1] (mkChoice true 0) (set_ok false (f_shared c))
    (set_ok false (p_shared s)) (p_sock s) (p_port s)
    (mkWorld (w_ans (report_stderr_remote daemon w1).2) (w_trace w) (w_fs w) (w_open w))) as (c' & Hst & Eg & Hf).
  - by rewrite Ex.
  - exists t. rewrite Hg. by split.
  - apply Forall_singleton. split; [|intros th1 th2 E [= <-]; by apply Hth]. split_and!; [done| |done].
    intros what E. by rewrite E in Hwp.
  - apply (fo_socks _ _ _ Hc).
  - apply (fo_fs _ _ _ Hc).
  - exists c'. split; [exact Hf|]. left. left. by rewrite Eg.
Qed.

(** While a report is made [ok] is clear. *)
Lemma report_doomed th es o : x = Reporting th es o -> doomed c.
Proof using Hx Hc.
  intros Ex. pose proof x_ok as [Hok _]. rewrite Ex in Hok. destruct Hok as (_ & _ & Hg).
  left. by destruct (follows_like _ _ _ Hc) as (<- & _ & _).
Qed.

Lemma wp_report_event th e es o :
  x = Reporting th (e :: es) o ->
  wp (_ ← replay (g_ok g) e; mret (replace i [Reporting th es o] g s)) (on_ret any sim) w.
Proof using Hx Hc.
  intros Ex. pose proof (report_doomed _ _ _ Ex) as Hd. pose proof x_ok as [Hok Hth]. rewrite Ex in Hok, Hth.
  destruct Hok as ([He Hes]%Forall_cons & Hu & Hg).
  apply wp_bind, wp_replay; [done|]. intros w' Htr Hw. apply wp_ret. exists c. split; [|by left].
  apply follows_same; [by rewrite Ex|by repeat split|]. rewrite Hw. apply (fo_fs _ _ _ Hc).
Qed.

Lemma wp_report_end th o : x = Reporting th [] o -> wp (end_report i o s) (on_ret any sim) w.
Proof using Hx Hc.
  intros Ex. pose proof (report_doomed _ _ _ Ex) as Hd. pose proof x_ok as [Hok _]. rewrite Ex in Hok.
  destruct Hok as (_ & Hu & _). unfold end_report. destruct o; try done; [| |by destruct (Hu what)]; exists c; (split; [|by left]).
  - apply (follows_same (Plain TDone)); [by rewrite Ex|by repeat split|apply (fo_fs _ _ _ Hc)].
  - exact Hc.
Qed.
End one.

Lemma wp_plain i th tk s w :
  p_tasks s !! i = Some (Plain tk) -> occupied th s = false -> (forall th', one = Some th' -> th = th') -> sim s w ->
  wp (plain_step wc render_fn_ pad root t0 daemon i th tk s) (on_ret any sim) w.
Proof using All.
  intros Hx Hocc Hth (c & Hc & Hout). unfold plain_step.
  destruct tk; try by apply (wp_other i s w (Plain _) c Hx Hc).
  - destruct (g_ok (p_shared s)) eqn:Eok.
    + destruct (local_sock_zero th s w (fo_socks _ _ _ Hc)) as (socks & El & Hz).
      unfold wp. erewrite bind_of_Ret by exact El. cbn [fst snd mret sys_ret on_ret].
      apply (sim_silent i s w (Plain (TCheck n)) c Hx Hc [TSeqLoad n] (mkChoice true 0) (f_shared c)); try done;
        [|apply (fo_shared _ _ _ Hc)|apply (fo_fs _ _ _ Hc)].
      destruct (follows_like _ _ _ Hc) as (E & _ & _). cbn. by rewrite <- E, Eok.
    + pose proof (wp_other i s w _ c Hx Hc (mkChoice true 0) (TCheck n) eq_refl ltac:(done) Hout) as H. cbn in H.
      by rewrite Eok in H.
  - destruct (pr_paths _ _ _ Hprep n) as [p Hp].
    { destruct (send_alive i s w _ c Hx Hc n seq eq_refl) as [nd Hn].
      destruct (ci_tree _ _ (fo_cfg _ _ _ Hc)) as [_ H]. destruct (H n nd Hn) as (_ & nd0 & Hn0 & _). by exists nd0. }
    rewrite Hp, (socket_zero th _ (fo_socks _ _ _ Hc)). by apply (wp_begin i s w (Plain (TSend n seq)) c).
  - destruct (g_ok (p_shared s)) eqn:Eok; [by apply (wp_report_begin i s w (Plain TReport) c)|].
    exact (wp_other i s w (Plain TReport) c Hx Hc (mkChoice true 0) TReport eq_refl ltac:(done) Hout).
Qed.

Lemma wp_step i th s w :
  (forall th', one = Some th' -> th = th') -> sim s w ->
  wp (recurse_step wc render_fn_ pad root t0 daemon i th s) (on_ret any sim) w.
Proof using All.
  intros Hth Hs. unfold recurse_step. destruct (p_tasks s !! i) as [x|] eqn:Hx; [|done].
  destruct x as [tk|sd|th' es o].
  - destruct (occupied th s) eqn:Hocc; [done|by apply wp_plain].
  - destruct Hs as (c & Hc & Hout). destruct (s_thread sd =? th)%nat; [|by exists c].
    destruct (s_left sd) as [|e es] eqn:El; [by apply (wp_end i s w (Sending sd) c)|by apply (wp_event i s w (Sending sd) c)].
  - destruct Hs as (c & Hc & Hout). destruct (th' =? th)%nat; [|by exists c].
    destruct es as [|e es]; [by eapply (wp_report_end i s w _ c)|by eapply (wp_report_event i s w _ c)].
Qed.

(** However a run ends, it is defined; one that returns has done all tasks. *)
Lemma wp_run sched s w :
  (forall th i th', one = Some th' -> (i, th) ∈ sched -> th = th') ->
  sim s w -> wp (recurse_run wc render_fn_ pad root t0 daemon sched s) (on_ret any (fun ok w' =>
    exists s', forallb ended (p_tasks s') = true /\ ok = g_ok (p_shared s') /\ sim s' w')) w.
Proof using All.
  revert s w. induction sched as [|[i th] sched IH]; intros s w Hone Hs; cbn [recurse_run];
    destruct (forallb ended (p_tasks s)) eqn:Hf; try (apply wp_ret; by exists s); try done.
  apply wp_bind. eapply wp_mono; [|apply wp_step; [intros th' E; apply (Hone th i th' E); by left|done]].
  intros [s'| | | |] w' H; try done. apply IH; [|done]. intros th1 i1 th' E Hin. apply (Hone th1 i1 th' E). by right.
Qed.

(** The end of a run without an error. *)
Lemma recurse_carried sched port w' :
  (forall th i th', one = Some th' -> (i, th) ∈ sched -> th = th') ->
  recurse wc render_fn_ pad root t0 daemon sched port w0 = (Ret true, w') ->
  exists l L, w_fs w' = w_fs w0 /\ w_trace w' = w_trace w0 ++ L.*2 /\
    streamed wc pad root t0 fs (bool_decide (is_Some one)) [] l L /\
    NoDup l.*1 /\ (forall n, n ∈ l.*1 <-> is_Some (nodes t0 !! n)) /\
    (forall l1 n l2 nd p, l.*1 = l1 ++ n :: l2 -> nodes t0 !! n = Some nd -> parent nd = Some p -> p ∈ l1).
Proof using All.
  intros Hone Hrun.
  destruct (wp_Ret _ _ _ _ _ _ (wp_run _ _ _ Hone (sim_start port)) Hrun) as (s & Hend & Hok & c & Hc & Hout).
  apply ended_abs in Hend as [Hfin Hnone]. rewrite <- (fo_tasks _ _ _ Hc) in Hfin.
  destruct (follows_like _ _ _ Hc) as (Eok & Esent & _).
  destruct (ended_all_sent t0 Hscanned Hsmall c (fo_reach _ _ _ Hc) Hfin) as (H1 & H2 & H3 & _); [congruence|].
  destruct Hout as [[?|Hin]|(L & Htr & HL)]; [congruence| |].
  - rewrite Forall_forall in Hfin. by apply Hfin in Hin.
  - rewrite Hnone, Esent in HL. exists (g_sent (f_shared c)), L. rewrite (fo_fs _ _ _ Hc), Hfs. by split_and!.
Qed.
End pool.

(** C4. What a synchronisation writes, with any number of threads: whenever
    [recurse] has returned with [ok] still set, in whatever order the threads
    ran and however their system calls interleaved, every call of the run was
    made for one node of the tree; the calls for a node wrote exactly its
    frame to descriptor 0, every node was sent once, and no call for a
    directory comes after one for something it contains. The client's files
    are as before. *)
Theorem recurse_writes_tree sched port w' :
  recurse wc render_fn_ pad root t0 daemon sched port w0 = (Ret true, w') ->
  exists (l : list (nat * Z)) (L : list (nat * event)),
    w_fs w' = w_fs w0 /\ w_trace w' = w_trace w0 ++ L.*2 /\ (forall n, n ∈ L.*1 -> n ∈ l.*1) /\
    NoDup l.*1 /\ (forall n, n ∈ l.*1 <-> is_Some (nodes t0 !! n)) /\
    (forall n seq, (n, seq) ∈ l -> frame_ok wc pad root t0 fs (n, seq) /\
       written 0 (of_node n L) = frame_bytes (frame_of wc pad root t0 fs (n, seq))) /\
    (forall L1 n e L2 nd p, L = L1 ++ (n, e) :: L2 -> nodes t0 !! n = Some nd -> parent nd = Some p -> p ∉ L2.*1).
Proof using All.
  intros Hrun. destruct (recurse_carried None sched port w') as (l & L & H1 & H2 & [_ Hsent Hnodes Hord _] & H4 & H5 & _); try done.
  exists l, L. split_and!; try done.
  - intros n Hn. by destruct (Hnodes n Hn) as [|?%not_elem_of_nil].
  - intros n seq Hin. by apply (Hsent (n, seq)).
  - intros L1 n e L2 nd p E Hn Hp. by apply (Hord L1 n e L2 nd p).
Qed.

Lemma recurse_one_thread th sched port w' :
  Forall (fun x => x.2 = th) sched ->
  recurse wc render_fn_ pad root t0 daemon sched port w0 = (Ret true, w') ->
  exists l : list (nat * Z),
    sends 0 (concat (map frame_bytes (map (frame_of wc pad root t0 fs) l))) w0 w' /\
    Forall (frame_ok wc pad root t0 fs) l /\ NoDup l.*1 /\ (forall n, n ∈ l.*1 <-> is_Some (nodes t0 !! n)) /\
    (forall l1 n l2 nd p, l.*1 = l1 ++ n :: l2 -> nodes t0 !! n = Some nd -> parent nd = Some p -> p ∈ l1).
Proof using All.
  intros Hth Hrun. rewrite Forall_forall in Hth.
  destruct (recurse_carried (Some th) sched port w') as (l & L & H1 & H2 & [_ Hsent _ _ Hone] & H4 & H5 & H6); try done.
  { intros th1 i th' [= <-] Hin. by apply (Hth (i, th1)). }
  exists l. split_and!; try done.
  - exists L.*2. split_and!; [done..|]. rewrite map_map. apply Hone. apply bool_decide_eq_true. by eexists.
  - apply Forall_forall. intros x Hx. by apply Hsent.
Qed.

(** C3. The walk has no undefined behaviour: in whatever order the tasks run,
    however the system calls of their sends interleave and end, whatever the
    kernel answers, no task touches a destroyed node or a missing entry of
    [pending], and no [send_datamsg] or report reads or writes outside its
    buffers. *)
Theorem recurse_defined sched port what w' :
  recurse wc render_fn_ pad root t0 daemon sched port w0 <> (Undef what, w').
Proof using All. eapply wp_not_undef, (wp_run None); [done|apply sim_start]. Qed.

(** C5. With one thread the sends follow one another: descriptor 0 has carried
    the frames of all the nodes of the tree and nothing else, each node once,
    a directory before what it contains. *)
Theorem recurse_one_thread_writes_frames th sched port w' :
  Forall (fun x => x.2 = th) sched ->
  recurse wc render_fn_ pad root t0 daemon sched port w0 = (Ret true, w') ->
  exists l : list (nat * Z),
    sends 0 (concat (map frame_bytes (map (frame_of wc pad root t0 fs) l))) w0 w' /\
    Forall (frame_ok wc pad root t0 fs) l /\ NoDup l.*1 /\ (forall n, n ∈ l.*1 <-> is_Some (nodes t0 !! n)) /\
    (forall l1 n l2 nd p, l.*1 = l1 ++ n :: l2 -> nodes t0 !! n = Some nd -> parent nd = Some p -> p ∈ l1).
Proof using All. apply recurse_one_thread. Qed.
End Simulation.

(** ** The calls of a run *)

Section Calls.
Context (wc : path -> option path) (render_fn_ : RenderFn M) (pad : byte * list byte).
Context (root : path) (t0 : Tracked M) (daemon : Process).

Definition left_ok (x : ptask) : Prop :=
  match x with
  | Plain _ => True
  | Sending sd => Forall client_event (s_left sd)
  | Reporting _ es _ => Forall client_event es
  end.

Definition pool_ok (s : pool) : Prop := Forall left_ok (p_tasks s).

Lemma pool_ok_replace i ts g s : pool_ok s -> Forall left_ok ts -> pool_ok (replace i ts g s).
Proof. intros Hs Hts. unfold pool_ok. cbn. rewrite !Forall_app. auto using Forall_take, Forall_drop. Qed.

Lemma pool_ok_plain i ts g s : pool_ok s -> pool_ok (replace i (map Plain ts) g s).
Proof. intros Hs. apply pool_ok_replace; [done|]. apply Forall_fmap, Forall_forall. by intros. Qed.

Lemma begin_quiet {A} (m : Sys A) w r w' :
  emits client_event m -> begin m w = (Ret r, w') -> Forall client_event r.1 /\ quietly w w'.
Proof.
  intros Hm [= <- <-]. destruct (Hm (mkWorld (w_ans w) [] (w_fs w) (w_open w))) as (t & Ht & He). cbn in *.
  rewrite Ht. split; [done|]. exists []. by rewrite app_nil_r.
Qed.

Lemma replay_quiet ok e w u w' : client_event e -> replay ok e w = (Ret u, w') -> quietly w w'.
Proof. intros He H. destruct (replay_run _ _ _ _ _ He H). exists [e]. split_and!; [done|by repeat constructor|done]. Qed.

Lemma local_sock_quiet th s w s' w' :
  local_sock th s w = (Ret s', w') -> p_tasks s' = p_tasks s /\ quietly w w'.
Proof.
  unfold local_sock. destruct (t_sock_local (p_sock s) th) as [sock socks]. case_ifs; [|intros [= <- <-]; by split].
  intros (fd & w1 & H & _)%bind_Ret. by apply connect_to_daemon_never_returns in H.
Qed.

Lemma plain_step_quiet i th tk s w s' w' :
  pool_ok s -> plain_step wc render_fn_ pad root t0 daemon i th tk s w = (Ret s', w') -> pool_ok s' /\ quietly w w'.
Proof.
  intros Hs. unfold plain_step.
  assert (forall ch, match task_step tk ch (p_shared s) with
    | Go ts g' => mret (replace i (map Plain ts) g' s) | Wait => mret s | Crash what => undef what end w = (Ret s', w') ->
    pool_ok s' /\ quietly w w') as Hother.
  { intros ch. destruct (task_step _ _ _); [done|by intros [= <- <-]|]. intros [= <- <-]. split; [by apply pool_ok_plain|done]. }
  destruct tk; try exact (Hother (mkChoice true 0)).
  - destruct (g_ok _); [|intros [= <- <-]; split; [by apply (pool_ok_plain i [TDone])|done]].
    intros (s1 & w1 & [Ht Hq]%local_sock_quiet & [= <- <-])%bind_Ret. split; [|done].
    apply (pool_ok_plain i [TSeqLoad n]). unfold pool_ok. by rewrite Ht.
  - destruct (node_path _ _ _); [|done].
    intros (r & w1 & [Hr Hq]%begin_quiet & [= <- <-])%bind_Ret; [|apply emits_send]. split; [|done].
    apply pool_ok_replace; [done|by apply Forall_singleton].
  - destruct (g_ok _); [|intros [= <- <-]; split; [by apply (pool_ok_plain i [TDone])|done]].
    intros (r & w1 & [Hr Hq]%begin_quiet & [= <- <-])%bind_Ret; [|apply emits_report]. split; [|done].
    apply pool_ok_replace; [done|by apply Forall_singleton].
Qed.

Lemma recurse_step_quiet i th s w s' w' :
  pool_ok s -> recurse_step wc render_fn_ pad root t0 daemon i th s w = (Ret s', w') -> pool_ok s' /\ quietly w w'.
Proof.
  intros Hs. unfold recurse_step. destruct (p_tasks s !! i) as [x|] eqn:Hx; [|by intros [= <- <-]].
  assert (left_ok x) as Hxok by (unfold pool_ok in Hs; rewrite Forall_forall in Hs; apply Hs; by eapply list_elem_of_lookup_2).
  destruct x as [tk|sd|th' es o]; cbn in Hxok.
  - case_ifs; [by intros [= <- <-]|]. by apply plain_step_quiet.
  - case_ifs; [|by intros [= <- <-]]. destruct (s_left sd) as [|e es].
    + unfold end_send. repeat case_match; try done; intros [= <- <-]; (split; [|done]); try done;
        by apply (pool_ok_plain i [_]).
    + apply Forall_cons in Hxok as [He Hes]. intros (u & w1 & Hq%replay_quiet & [= <- <-])%bind_Ret; [|done].
      split; [|done]. apply pool_ok_replace; [done|by apply Forall_singleton].
  - case_ifs; [|by intros [= <- <-]]. destruct es as [|e es].
    + unfold end_report. case_match; try done; intros [= <- <-]; (split; [|done]); try done. by apply (pool_ok_plain i [_]).
    + apply Forall_cons in Hxok as [He Hes]. intros (u & w1 & Hq%replay_quiet & [= <- <-])%bind_Ret; [|done].
      split; [|done]. apply pool_ok_replace; [done|by apply Forall_singleton].
Qed.

(** The walk installs no signal handler and changes no file. *)
Lemma quietly_recurse sched port : within quietly (recurse wc render_fn_ pad root t0 daemon sched port).
Proof.
  unfold recurse. set (s := mkPool _ _ _ _). assert (pool_ok s) as Hs by by repeat constructor. clearbody s.
  intros w b w'. revert s w Hs. induction sched as [|[i th] sched IH]; intros s w Hs; cbn [recurse_run];
    (destruct (forallb ended (p_tasks s)); [by intros [= _ <-]|]); [done|].
  intros (s1 & w1 & [Hs1 Hq]%recurse_step_quiet & H)%bind_Ret; [|done]. trans w1; [done|by eapply IH].
Qed.
End Calls.

(** ** The directory of [Walk.v], written to descriptor 0 *)

Module RecurseDemo.
Definition world : World :=
  mkWorld (full_script (M_of WalkDemo.view WalkDemo.root) ++ full_script (M_of WalkDemo.view (WalkDemo.file "f")) ++
           full_script (M_of WalkDemo.view (WalkDemo.file "g"))) [] WalkDemo.fs ∅.
Definition tree : Tracked M := Scan.k_tree WalkDemo.k.
Definition remote : Process := mkProcess 77 6 7 9.
Definition run (sched : list (nat * nat)) : outcome bool * World :=
  recurse SendDemo.wc SendDemo.render SendDemo.pad WalkDemo.root tree remote sched 50000 world.

(** One thread: the directory, then its files one after the other. *)
Definition sched : list (nat * nat) := replicate 13 (0, 0)%nat ++ replicate 25 (2, 0)%nat ++ replicate 25 (1, 0)%nat.

(** Two threads: the second sends [g] while the first is between the path and
    the contents of [f]. *)
Definition torn : list (nat * nat) :=
  replicate 13 (0, 0)%nat ++ replicate 7 (2, 0)%nat ++ replicate 25 (1, 1)%nat ++ replicate 18 (2, 0)%nat.

Lemma ready : prepared WalkDemo.root tree WalkDemo.fs.
Proof.
  destruct (scan_has_result WalkDemo.view insertion_sort insertion_sort_ok WalkDemo.root 0 5 WalkDemo.k
    WalkDemo.scanned_ok) as [paths HR].
  by apply (scan_prepared SendDemo.wc WalkDemo.view insertion_sort ["home"%string] "d" WalkDemo.k WalkDemo.fs paths
    insertion_sort_ok WalkDemo.view_ok).
Qed.
End RecurseDemo.

Lemma recurse_writes_tree_witness :
  (RecurseDemo.run RecurseDemo.torn).1 = Ret true /\
  exists (l : list (nat * Z)) (L : list (nat * event)),
    w_trace (RecurseDemo.run RecurseDemo.torn).2 = w_trace RecurseDemo.world ++ L.*2 /\ NoDup l.*1.
Proof.
  assert (RecurseDemo.run RecurseDemo.torn = (Ret true, (RecurseDemo.run RecurseDemo.torn).2)) as Hrun
    by (vm_compute; reflexivity).
  split; [by rewrite Hrun|].
  destruct (recurse_writes_tree SendDemo.wc SendDemo.render SendDemo.pad WalkDemo.root RecurseDemo.tree RecurseDemo.remote
    WalkDemo.fs eq_refl RecurseDemo.ready ltac:(vm_compute; reflexivity) RecurseDemo.world eq_refl
    RecurseDemo.torn 50000 _ Hrun) as (l & L & _ & HL & _ & Hl & _).
  exists l, L. by split.
Defined.

Lemma recurse_one_thread_writes_frames_witness :
  (RecurseDemo.run RecurseDemo.sched).1 = Ret true /\ exists l, sends 0 (concat (map frame_bytes
    (map (frame_of SendDemo.wc SendDemo.pad WalkDemo.root RecurseDemo.tree WalkDemo.fs) l)))
    RecurseDemo.world (RecurseDemo.run RecurseDemo.sched).2.
Proof.
  assert (RecurseDemo.run RecurseDemo.sched = (Ret true, (RecurseDemo.run RecurseDemo.sched).2)) as Hrun
    by (vm_compute; reflexivity).
  split; [by rewrite Hrun|].
  destruct (recurse_one_thread_writes_frames SendDemo.wc SendDemo.render SendDemo.pad WalkDemo.root RecurseDemo.tree
    RecurseDemo.remote WalkDemo.fs eq_refl RecurseDemo.ready ltac:(vm_compute; reflexivity) RecurseDemo.world eq_refl
    0%nat RecurseDemo.sched 50000 _ ltac:(by repeat constructor) Hrun) as (l & Hl & _).
  by exists l.
Defined.

Lemma recurse_defined_witness :
  RecurseDemo.run RecurseDemo.torn <> (Undef "destroyed node", (RecurseDemo.run RecurseDemo.torn).2).
Proof.
  apply (recurse_defined SendDemo.wc SendDemo.render SendDemo.pad WalkDemo.root RecurseDemo.tree RecurseDemo.remote
    WalkDemo.fs eq_refl RecurseDemo.ready ltac:(vm_compute; reflexivity) RecurseDemo.world eq_refl).
Defined.


