(* ===== verification/Main.v ===== *)
(** * The rest of [enu/main.cpp]: signals, [enu_main] and [main]

    The queries [fs::current_path], [fs::canonical] and [fs::is_directory] are
    arguments: what the file system answers, an error with its message or a
    value ([fs::is_directory] answers [false] on an error). So are the watcher
    of the platform, with what CoreServices answers to it, and the order in
    which the threads of [sync_with_remote] run. *)

From S2P Require Import Prelude Sys Net Wire Frames Daemon Conn Spawn Args Tracked Meta Scan Send Watcher Display Poll Cleanup Remote Sync SyncInv SyncSafe Scanned EndToEnd Walk Client Recurse.

(** ** Signals *)

Definition SIGINT : Z := 2.
Definition SIGPIPE : Z := 13.

(** What signal(2) was last told about [sig]. *)
Definition installed (sig : Z) (d : disposition) (e : event) : disposition :=
  match e with
  | Called (Signal s d') _ => if s =? sig then d' else d
  | _ => d
  end.

Definition disposition_of (sig : Z) (t : list event) : disposition := foldl (installed sig) SIG_DFL t.

(** The arrival of a signal between two calls; the default of both ends the
    process. The handler is the lambda of [enu_main]. *)
Definition deliver (sig : Z) : Sys unit := fun w =>
  match disposition_of sig (w_trace w) with
  | SIG_DFL => (Exit (128 + sig), w)
  | SIG_IGN => (Ret tt, w)
  | Handler => clear_progress w
  end.

(** ** What the program is told from outside *)

Record fs_queries := mkQueries {
  q_current_path : string + string;         (* an error's message, or the path *)
  q_canonical : string -> string + string;
  q_is_directory : string -> bool * option string
}.

(** The path the program works on. *)
Definition resolve_path (q : fs_queries) (p : string) : Sys string :=
  if bool_decide (p = EmptyString) then
    match q_current_path q with
    | inl m => pfatal (str_to_lower m)
    | inr p' => mret p'
    end
  else
    match q_canonical q p with
    | inl m => pfatal (p +:+ ": " +:+ str_to_lower m)
    | inr p' =>
        let '(is_dir, ec) := q_is_directory q p' in
        if (is_dir : bool) then
          match ec with
          | None => mret p'
          | Some m => pfatal (str_to_lower m)
          end
        else pfatal (p' +:+ " is not a directory")
    end.

(** The answers of the file system to the client ([e_view], and
    [weakly_canonical] of [fs::relative]), [std::sort] and the bound on the
    walk, [strerror], the watcher of the platform, the padding of
    a message on the stack, the rows of the terminal when a frame is drawn,
    [rand()], and the order in which the threads of the pool run. *)
Record surroundings {double : Type} := mkSurroundings {
  e_queries : fs_queries;
  e_view : fsview;
  e_canonical : path -> option path;
  e_sort : list M -> list M;
  e_fuel : nat;
  e_strerror : errno -> string;
  e_watcher : Watcher double;
  e_pad : byte * list byte;
  e_rows : Z -> option Z;
  e_rand : Z;
  e_sched : list (nat * nat)
}.
Arguments surroundings : clear implicits.

(** ** [enu_main] and [main] *)

Section client.
Context {double : Type} (e : surroundings double).

(** [scan_dir(...).join()]: the walk of [Scan.v] with its warnings. *)
Definition scan_thread (p : path) (root_node : Tracked M) : Sys (Tracked M) :=
  match scan_dir (e_view e) (e_sort e) (e_fuel e) p root_node with
  | Ret k =>
      _ ← foldr (fun _ m => log warn "{}: {} file type ignored" ≫= fun _ => m) (mret tt) (k_ignored k);
      mret (k_tree k)
  | Undef what => undef what
  | Fatal fmt => pfatal fmt
  | Exit code => stop (Exit code)
  | Blocked => stop Blocked
  end.

(** [dmsg] is built and its port read, but it is not sent. *)
Definition walk_tree (p : path) (root_node : Tracked M) (daemon : Process) : Sys bool :=
  let dmsg := init_message (e_rand e) ∅ in
  recurse (e_canonical e) (render_fn_ (e_rows e)) (e_pad e) p root_node daemon (e_sched e) (base_port dmsg).

Definition sync_with_remote (p : path) (root_node : Tracked M) : Sys bool :=
  daemon ← spawn_daemon (e_strerror e);
  ok ← walk_tree p root_node daemon;
  finish_sync ok daemon.

Definition enu_main (p : path) (latency : double) : Sys Z :=
  match watch_dir (e_watcher e) latency with
  | inl msg => pfatal msg
  | inr _ =>
      start ← sys_or_pfatal Now "steady_clock";
      _ ← sys_ignore (Signal SIGINT Handler);
      root_node ← scan_thread p (new_root (M_of (e_view e) p) start);
      synced ← sync_with_remote p root_node;
      if (synced : bool) then
        _ ← sys_ignore (Signal SIGINT SIG_DFL);
        _ ← clear_progress;
        mret 0
      else
        _ ← clear_progress;
        _ ← log error "syncing error";
        mret 1
  end.
End client.

Section main.
Context {double : Type} (zero : double) (stod : string -> option double) (e : surroundings double).

Definition main (argv : list string) : Sys Z :=
  match parse zero stod argv with
  | PExit _ => stop (Exit 1)
  | PAbort => stop (Exit 134)
  | PArgs arg =>
      p ← resolve_path (e_queries e) (Args.path arg);
      _ ← sys_ignore (Signal SIGPIPE SIG_IGN);
      if daemon arg then
        '(b, anon) ← daemon_main;
        _ ← run_atexit anon;
        mret (if (b : bool) then 0 else 1)
      else enu_main e (components p) (Args.latency arg)
  end.
End main.

(** ** The client's run *)

Lemma disposition_of_quiet sig t1 t2 : Forall client_event t2 -> disposition_of sig (t1 ++ t2) = disposition_of sig t1.
Proof.
  intros Ht. unfold disposition_of. rewrite foldl_app. revert Ht.
  generalize (foldl (installed sig) SIG_DFL t1). induction 1 as [|x t Hx _ IH] using Forall_ind; [done|].
  cbn. rewrite <- IH. f_equal. by destruct x as [[] r| |].
Qed.

Lemma quietly_signals w w' : quietly w w' -> forall sig, disposition_of sig (w_trace w') = disposition_of sig (w_trace w).
Proof. intros (t & -> & Ht & _) sig. by apply disposition_of_quiet. Qed.

Section client_facts.
Context {double : Type} (e : surroundings double).

Lemma silently_scan p t : within silently (scan_thread e p t).
Proof.
  unfold scan_thread. destruct (scan_dir _ _ _ _ _) as [k| | | |]; try by apply within_stop.
  apply within_bind; [apply _| |intros _; apply within_ret, _].
  induction (k_ignored k) as [|x l IH]; cbn; [apply within_ret, _|].
  apply within_bind; [apply _|by apply silently_emit|done].
Qed.

Lemma scan_thread_Ret p t w t' w' :
  scan_thread e p t w = (Ret t', w') -> exists k, scan_dir (e_view e) (e_sort e) (e_fuel e) p t = Ret k /\ k_tree k = t'.
Proof.
  unfold scan_thread. destruct (scan_dir _ _ _ _ _) as [k| | | |]; try done.
  intros (? & ? & _ & H)%bind_Ret. injection H as <- <-. by exists k.
Qed.

(** What [finish_sync] makes of the flag and of the remote's exit status. *)
Lemma finish_sync_Ret ok p w b w' :
  finish_sync ok p w = (Ret b, w') ->
  exists exit_code p' w1, terminate p w = (Ret (exit_code, p'), w1) /\ b = ok && (exit_code =? 0).
Proof.
  intros ([code p'] & w1 & E & H)%bind_Ret. exists code, p', w1. split; [done|].
  destruct (code =? 0); cbn [negb] in H.
  - apply bind_Ret in H as (? & ? & _ & H). injection H as <- <-. by rewrite andb_true_r.
  - apply bind_Ret in H as (? & ? & _ & H). apply bind_Ret in H as (? & ? & _ & H). injection H as <- <-.
    by rewrite andb_false_r.
Qed.

Lemma signal_elsewhere sig d w u w' : sys_ignore (Signal sig d) w = (Ret u, w') -> through elsewhere w w'.
Proof.
  intros (r & w1 & E & H)%bind_Ret. injection H as <- <-. unfold sys in E.
  destruct (w_ans w) as [|x rest]; [done|]. cbn in E. injection E as <- <-.
  exists [Called (Signal sig d) x]. split_and!; [done|by repeat constructor|done].
Qed.

Lemma signal_installs sig d w u w' s :
  sys_ignore (Signal sig d) w = (Ret u, w') ->
  disposition_of s (w_trace w') = if s =? sig then d else disposition_of s (w_trace w).
Proof.
  intros (r & w1 & E & H)%bind_Ret. injection H as <- <-. unfold sys in E.
  destruct (w_ans w) as [|x rest]; [done|]. cbn in E. injection E as <- <-.
  cbn [w_trace kernel]. unfold disposition_of. rewrite foldl_snoc. cbn. by rewrite Z.eqb_sym.
Qed.

(** The client up to the end of its walk, part by part. *)
Definition client_walked (p : path) (w : World) (k : walk) (remote : Process) (w1 : World) (ok : bool) (w2 : World) : Prop :=
  exists start wa wb wc,
    sys_or_pfatal Now "steady_clock" w = (Ret start, wa) /\
    sys_ignore (Signal SIGINT Handler) wa = (Ret tt, wb) /\
    scan_dir (e_view e) (e_sort e) (e_fuel e) p (new_root (M_of (e_view e) p) start) = Ret k /\
    scan_thread e p (new_root (M_of (e_view e) p) start) wb = (Ret (k_tree k), wc) /\
    spawn_daemon (e_strerror e) wc = (Ret remote, w1) /\
    walk_tree e p (k_tree k) remote w1 = (Ret ok, w2).

Lemma walked_before p w k remote w1 ok w2 :
  client_walked p w k remote w1 ok w2 ->
  through elsewhere w w1 /\ quietly w1 w2 /\
  forall sig, disposition_of sig (w_trace w1) = if sig =? SIGINT then Handler else disposition_of sig (w_trace w).
Proof.
  intros (start & wa & wb & wc & E1 & E2 & _ & E3 & E4 & E5).
  pose proof (within_sys_or_pfatal silently _ _ (silently_sys Now ltac:(done)) _ _ _ E1) as S1.
  pose proof (silently_scan _ _ _ _ _ E3) as S3. pose proof (silently_spawn _ _ _ _ E4) as S4.
  split_and!.
  - etrans; [by apply silently_elsewhere|]. etrans; [by eapply signal_elsewhere|]. etrans; by apply silently_elsewhere.
  - by eapply quietly_recurse.
  - intros sig. rewrite (quietly_signals _ _ (silently_quietly _ _ S4)), (quietly_signals _ _ (silently_quietly _ _ S3)).
    by rewrite (signal_installs _ _ _ _ _ sig E2), (quietly_signals _ _ (silently_quietly _ _ S1)).
Qed.

(** A run of the client that returned. *)
Record client_run (p : path) (w : World) (code : Z) (w' : World) : Prop := mkClientRun {
  cr_run : exists k remote ok exit_code remote' w1 w2 w3,
    client_walked p w k remote w1 ok w2 /\ terminate remote w2 = (Ret (exit_code, remote'), w3) /\
    code = (if ok && (exit_code =? 0) then 0 else 1) /\ through elsewhere w2 w' /\
    forall sig, disposition_of sig (w_trace w') =
      if (sig =? SIGINT) && (code =? 0) then SIG_DFL else disposition_of sig (w_trace w2)
}.

Lemma enu_main_run p latency w code w' :
  enu_main e p latency w = (Ret code, w') -> client_run p w code w'.
Proof.
  unfold enu_main. destruct (watch_dir (e_watcher e) latency) as [|cs]; [done|].
  intros (start & w1 & E1 & H)%bind_Ret. apply bind_Ret in H as ([] & w2 & E2 & H).
  apply bind_Ret in H as (t & w3 & E3 & H). apply bind_Ret in H as (b & w4 & E4 & H).
  apply bind_Ret in E4 as (daemon & w5 & E5 & E4). apply bind_Ret in E4 as (ok & w6 & E6 & E4).
  pose proof (silently_finish _ _ _ _ _ E4) as S4. pose proof (scan_thread_Ret _ _ _ _ _ E3) as (k & Hk & <-).
  destruct (finish_sync_Ret _ _ _ _ _ E4) as (code' & d' & w7 & Ht & Hb).
  split. exists k, daemon, ok, code', d', w5, w6, w7. rewrite Hb in H.
  split; [by exists start, w1, w2, w3|]. split; [done|].
  destruct (ok && (code' =? 0)); [apply bind_Ret in H as (? & w8 & E8 & H)|];
    apply bind_Ret in H as (? & w9 & E9%silently_clear & H);
    [|apply bind_Ret in H as (? & w10 & E10%silently_emit & H); [|done]]; injection H as <- <-; split_and!; try done.
  - etrans; [by apply silently_elsewhere|]. etrans; [by eapply signal_elsewhere|]. by apply silently_elsewhere.
  - intros sig. rewrite (quietly_signals _ _ (silently_quietly _ _ E9)), (signal_installs _ _ _ _ _ sig E8).
    rewrite (quietly_signals _ _ (silently_quietly _ _ S4)). by destruct (sig =? SIGINT).
  - apply silently_elsewhere. etrans; [exact S4|]. by etrans.
  - intros sig. rewrite andb_false_r. apply quietly_signals, silently_quietly. etrans; [exact S4|]. by etrans.
Qed.
End client_facts.

(** ** Properties of [main] *)

Section status.
Context {double : Type} (zero : double) (stod : string -> option double) (e : surroundings double).

Let run_main := main zero stod e.
Let q := e_queries e.

Lemma resolve_path_world p w p' w' : resolve_path q p w = (Ret p', w') -> w' = w.
Proof.
  unfold resolve_path. case_bool_decide; [destruct (q_current_path q)|destruct (q_canonical q p) as [|p1]];
    try done; try by intros [= _ ->].
  destruct (q_is_directory q p1) as [[] [m|]]; try done. by intros [= _ ->].
Qed.

Lemma main_Ret argv w code w' :
  run_main argv w = (Ret code, w') ->
  exists arg p w1, parse zero stod argv = PArgs arg /\ resolve_path q (Args.path arg) w = (Ret p, w) /\
    sys_ignore (Signal SIGPIPE SIG_IGN) w = (Ret tt, w1) /\
    if daemon arg
    then exists a w2, daemon_main w1 = (Ret (false, a), w2) /\ run_atexit a w2 = (Ret tt, w') /\ code = 1
    else client_run e (components p) w1 code w'.
Proof.
  unfold run_main, main. destruct (parse zero stod argv) as [arg|?|]; [|done|done].
  intros (p & w1 & Hp & H)%bind_Ret. apply bind_Ret in H as ([] & w2 & Hs & H). exists arg, p, w2.
  pose proof (resolve_path_world _ _ _ _ Hp) as ->. split_and!; [done|done|done|].
  destruct (daemon arg); [|by apply enu_main_run in H].
  apply bind_Ret in H as ([b a] & w3 & E & H). pose proof E as Hb%daemon_main_false. cbn in Hb. subst b.
  apply bind_Ret in H as ([] & w4 & E2 & H). injection H as <- <-. by exists a, w3.
Qed.

(** Where a call that the parts around the walk do not make must be. *)
Lemma in_the_middle {A} (P : A -> Prop) t1 t2 t3 pre (y : A) post :
  Forall P t1 -> Forall P t3 -> ~ P y -> t1 ++ t2 ++ t3 = pre ++ y :: post ->
  exists pre2 post2, pre = t1 ++ pre2 /\ t2 = pre2 ++ y :: post2.
Proof.
  intros H1 H3 Hy E. rewrite Forall_forall in H1, H3. revert pre E.
  induction t1 as [|z t1 IH]; intros pre E; cbn [app] in E.
  - exists pre. clear H1. revert pre E. induction t2 as [|z t2 IH2]; intros pre E; cbn [app] in E.
    + destruct Hy. apply H3. rewrite E. set_solver.
    + destruct pre as [|z' pre]; injection E as -> E; [by exists t2|].
      destruct (IH2 pre E) as (post2 & _ & ->). by exists post2.
  - destruct pre as [|z' pre]; injection E as -> E; [destruct Hy; apply H1; by left|].
    destruct (IH ltac:(set_solver) pre E) as (pre2 & post2 & -> & ->). by exists pre2, post2.
Qed.

(** C31. Signals: a client that returned made every write to descriptor 0 with
    SIGPIPE ignored and with its own handler for SIGINT, so that a SIGINT that
    arrives then ends nothing and only erases the display; at the end SIGINT
    has its default again if the synchronisation succeeded, and only then. *)
Theorem client_signals argv w code w' arg :
  run_main argv w = (Ret code, w') -> parse zero stod argv = PArgs arg -> daemon arg = false ->
  (forall pre data r post, w_trace w' = w_trace w ++ pre ++ Called (Write 0 data) r :: post ->
     disposition_of SIGPIPE (w_trace w ++ pre) = SIG_IGN /\ disposition_of SIGINT (w_trace w ++ pre) = Handler /\
     forall wi, w_trace wi = w_trace w ++ pre ->
       deliver SIGINT wi = clear_progress wi /\ forall c w3, deliver SIGINT wi <> (Exit c, w3)) /\
  disposition_of SIGPIPE (w_trace w') = SIG_IGN /\
  disposition_of SIGINT (w_trace w') = if code =? 0 then SIG_DFL else Handler.
Proof.
  intros (arg' & p & w0 & Ha & _ & Hs & H)%main_Ret Harg Hd. assert (arg' = arg) as -> by congruence.
  rewrite Hd in H. destruct H as [(k & remote & ok & ec & r' & w1 & w2 & w3 & Hw & _ & _ & H3 & Hend)].
  destruct (walked_before _ _ _ _ _ _ _ _ Hw) as (H1 & Hq & Hsig).
  pose proof (signal_installs _ _ _ _ _ SIGPIPE Hs) as Hpipe.
  assert (through elsewhere w w1) as (t1 & T1 & F1 & _) by (etrans; [by eapply signal_elsewhere|done]).
  pose proof (quietly_signals _ _ Hq) as Hq2. destruct Hq as (t2 & T2 & F2 & _). destruct H3 as (t3 & T3 & F3 & _).
  split_and!; [|rewrite Hend, Hq2, Hsig, Hpipe; done|rewrite Hend, Hq2, Hsig; done].
  intros pre data r post E. rewrite T3, T2, T1, <- !app_assoc in E. apply app_inv_head in E.
  assert (~ elsewhere (Called (Write 0 data) r)) as Hy by (cbn; lia).
  destruct (in_the_middle elsewhere _ _ _ _ _ _ F1 F3 Hy E) as (pre2 & post2 & -> & ->).
  apply Forall_app in F2 as [F2 _]. rewrite app_assoc, <- T1.
  assert (forall sig, disposition_of sig (w_trace w1 ++ pre2) = disposition_of sig (w_trace w1)) as Hpre
    by (intros sig; by apply disposition_of_quiet).
  split_and!; [by rewrite Hpre, Hsig, Hpipe|by rewrite Hpre, Hsig|]. intros wi Ti.
  assert (deliver SIGINT wi = clear_progress wi) as Hdel by (unfold deliver; by rewrite Ti, Hpre, Hsig).
  split; [done|]. intros c w5. rewrite Hdel. unfold clear_progress. sys_go.
  destruct (w_ans wi) as [|r1 l]; [done|]. cbn. destruct l as [|r2 l]; [done|]. cbn. by destruct l.
Qed.

(** C32. The exit status: when [main] returns, the command line was
    accepted; the daemon's status is 1 however it ends. The client has
    ignored SIGPIPE, taken the time, installed its handler, scanned the
    resolved path, started the remote and walked the tree, in this order and
    each with the world the one before left; its status is 0 exactly when that
    walk ended without an error and the remote it started exited with 0, and
    otherwise it is 1. *)
Theorem main_exit_status argv w code w' :
  run_main argv w = (Ret code, w') ->
  exists arg p w0, parse zero stod argv = PArgs arg /\ resolve_path q (Args.path arg) w = (Ret p, w) /\
    sys_ignore (Signal SIGPIPE SIG_IGN) w = (Ret tt, w0) /\
    if daemon arg then code = 1
    else exists k remote w1 ok w2 exit_code remote' w3,
      client_walked e (components p) w0 k remote w1 ok w2 /\ terminate remote w2 = (Ret (exit_code, remote'), w3) /\
      (code = 0 <-> ok = true /\ exit_code = 0) /\ (code = 0 \/ code = 1).
Proof.
  intros (arg & p & w0 & Ha & Hp & Hs & H)%main_Ret. exists arg, p, w0. split_and!; [done..|].
  destruct (daemon arg); [by destruct H as (? & ? & _ & _ & ->)|].
  destruct H as [(k & r & ok & ec & r' & w1 & w2 & w3 & Hw & Ht & -> & _)].
  exists k, r, w1, ok, w2, ec, r', w3. split_and!; [done|done| |by destruct (_ && _); auto].
  destruct ok, (Z.eqb_spec ec 0); cbn; naive_solver.
Qed.

(** C30. The daemon leaves no temporary file: whenever [main] returns in the
    daemon's role, every file mkstemp(3) made has been renamed or is unlinked
    by the handler of exit(3), the files of connections that hung up or were
    cut short included. *)
Theorem daemon_cleans_up temporary argv w code w' arg :
  run_main argv w = (Ret code, w') -> parse zero stod argv = PArgs arg -> daemon arg = true ->
  Forall (clean temporary) (w_trace w') -> Forall unlinked (w_trace w') ->
  (forall n, temporary n -> w_fs w !! n = None) -> forall n, temporary n -> w_fs w' !! n = None.
Proof.
  intros (arg' & p & w0 & Ha & _ & Hs & H)%main_Ret Harg Hd Hcl Hu Hfs.
  assert (arg' = arg) as -> by congruence. rewrite Hd in H. destruct H as (a & w2 & Hm & He & _).
  assert (tidy temporary no_anon w0) as H0.
  { eapply (within_sys_ignore (keeps_tidy temporary) _ (tidy_sys temporary (Signal _ _) ltac:(done)) _ _ _ Hs).
    split; [intros n Hn; by apply elem_of_empty in Hn|]. intros _ n Hn. rewrite (Hfs n Hn). by intros []. }
  eapply (atexit_removes temporary a w2); [|done..]. by eapply daemon_main_tidy.
Qed.
(** ** What a successful client has written *)

Section sent.
Context (argv : list string) (w w' : World) (arg : Args.Args (double := double)) (p : string) (base : path) (x : string).
Hypothesis Hrun : run_main argv w = (Ret 0, w').
Hypothesis Harg : parse zero stod argv = PArgs arg.
Hypothesis Hrole : daemon arg = false.
Hypothesis Hpath : resolve_path q (Args.path arg) w = (Ret p, w).
Hypothesis Hroot : components p = base ++ [x].
Hypothesis Hsees : sees (e_canonical e) (e_view e) base x (w_fs w).
Hypothesis Hsort : StdSort (e_sort e).
Hypothesis Hpad : zlen ((e_pad e).2) = 4.
Hypothesis Hsmall : forall start k,
  scan_dir (e_view e) (e_sort e) (e_fuel e) (base ++ [x]) (new_root (M_of (e_view e) (base ++ [x])) start) = Ret k ->
  Z.of_nat (next_id (k_tree k)) < 2 ^ 64.

(** The frames make of a file system what the client's directory is. *)
Definition is_tree (fs1 : gmap string fnode) (frames : list frame) : Prop :=
  NoDup (map target_name frames) /\
  (forall p, listed (e_view e) (base ++ [x]) p ->
     ((v_status (e_view e) p).2 = directory -> apply_frames fs1 frames !! Walk.remote base p = Some Dir) /\
     (forall content, (v_status (e_view e) p).2 = regular -> w_fs w !! native p = Some (File content) ->
        apply_frames fs1 frames !! Walk.remote base p = Some (File content))) /\
  (forall m, (forall p, listed (e_view e) (base ++ [x]) p -> m <> Walk.remote base p) ->
     apply_frames fs1 frames !! m = fs1 !! m).

(** The walk of a run that returned 0, and what its frames are. *)
Lemma client_frames :
  exists k remote w1 w2 t1 t3,
    through elsewhere w w1 /\ w_trace w1 = w_trace w ++ t1 /\ written 0 t1 = [] /\
    walk_tree e (base ++ [x]) (k_tree k) remote w1 = (Ret true, w2) /\ prepared (base ++ [x]) (k_tree k) (w_fs w1) /\
    Z.of_nat (next_id (k_tree k)) < 2 ^ 64 /\
    w_trace w' = w_trace w2 ++ t3 /\ written 0 t3 = [] /\ w_fs w' = w_fs w2 /\ w_fs w1 = w_fs w /\
    forall fs1 l, NoDup l.*1 -> (forall n, n ∈ l.*1 <-> is_Some (nodes (k_tree k) !! n)) ->
      Forall (frame_ok (e_canonical e) (e_pad e) (base ++ [x]) (k_tree k) (w_fs w1)) l ->
      is_tree fs1 (map (frame_of (e_canonical e) (e_pad e) (base ++ [x]) (k_tree k) (w_fs w1)) l).
Proof using Hrun Harg Hrole Hpath Hroot Hsees Hsort Hsmall.
  destruct (main_Ret _ _ _ _ Hrun) as (arg' & p' & w0 & Ha & Hp & Hs%signal_elsewhere & H).
  assert (arg' = arg) as -> by congruence. assert (p' = p) as -> by congruence. rewrite Hrole, Hroot in H.
  destruct H as [(k & remote & ok & ec & r' & w1 & w2 & w3 & Hw & _ & Hcode & X3 & _)].
  assert (ok = true) as -> by by destruct ok. destruct (walked_before _ _ _ _ _ _ _ _ Hw) as (H1 & _ & _).
  assert (through elsewhere w w1) as X1 by by etrans. pose proof X1 as (t1 & T1 & F1 & E1). destruct X3 as (t3 & T3 & F3 & E3).
  destruct Hw as (start & wa & wb & wc & _ & _ & Hk & _ & _ & Hwalk).
  destruct (scan_has_result _ _ Hsort _ _ _ _ Hk) as [paths HR].
  assert (sees (e_canonical e) (e_view e) base x (w_fs w1)) as Hsees1 by by rewrite E1.
  exists k, remote, w1, w2, t1, t3. split_and!; try done; try by apply elsewhere_written.
  - by apply (scan_prepared _ _ _ _ _ _ _ _ Hsort Hsees1 HR).
  - by eapply Hsmall.
  - intros fs1 l Hnd Hall Hok.
    destruct (frames_apply (e_canonical e) (e_pad e) (e_view e) (e_sort e) base x k (w_fs w1) Hsort Hsees1 paths HR fs1 _ l
      (reflexivity _) Hnd Hall Hok) as (G1 & _ & G2 & G3).
    unfold is_tree. by rewrite <- E1.
Qed.

(** C2. What a successful client has done: when [main] returns 0 in the client's
    role for a directory the scan sees as it is, then with any number of
    threads, however they interleaved, everything the program wrote to
    descriptor 0 was written for one of a set of frames: the writes for each
    frame, in their order, are exactly its bytes, and the frames, each
    applied once, create every listed directory and every listed file with its
    contents under the path relative to the parent of the root, and nothing
    else. No file of the client was changed. *)
Theorem client_sends_tree :
  w_fs w' = w_fs w /\
  exists (frames : list (nat * frame)) (L : list (nat * event)) t1 t3,
    w_trace w' = w_trace w ++ t1 ++ L.*2 ++ t3 /\ written 0 t1 = [] /\ written 0 t3 = [] /\
    NoDup frames.*1 /\ (forall n, n ∈ L.*1 -> n ∈ frames.*1) /\
    (forall n f, (n, f) ∈ frames -> frame_wf f /\ written 0 (of_node n L) = frame_bytes f) /\
    is_tree ∅ frames.*2.
Proof using All.
  destruct client_frames as (k & remote & w1 & w2 & t1 & t3 & _ & T1 & E1 & Hwalk & Hprep & Hsm & T3 & E3 & F3 & F1 & Hframes).
  destruct (recurse_carried (e_canonical e) (render_fn_ (e_rows e)) (e_pad e) (base ++ [x]) (k_tree k) remote (w_fs w1) Hpad
    Hprep Hsm w1 eq_refl None (e_sched e) _ w2 ltac:(done) Hwalk) as (l & L & F2 & T2 & [_ Hsent Hnodes _ _] & Hnd & Hall & _).
  split; [congruence|]. set (fr := frame_of _ _ _ _ _) in *.
  exists (map (fun y => (y.1, fr y)) l), L, t1, t3. 
  assert ((map (fun y : nat * Z => (y.1, fr y)) l).*1 = l.*1) as El1 by by rewrite <- list_fmap_compose.
  assert ((map (fun y : nat * Z => (y.1, fr y)) l).*2 = map fr l) as El2 by by rewrite <- list_fmap_compose.
  rewrite El1, El2. split_and!; [by rewrite T3, T2, T1, <- !app_assoc|done..| | |].
  - intros n Hn. by destruct (Hnodes n Hn) as [|?%not_elem_of_nil].
  - intros n f (y & [= -> ->] & Hy)%list_elem_of_fmap. destruct (Hsent y Hy) as [[Hwf _] Hw]. by split.
  - apply Hframes; [done|done|]. apply Forall_forall. intros y Hy. by apply Hsent.
Qed.

(** C1. A directory is synchronised: the client runs on one thread and [main]
    returns 0; a fresh connection of a daemon receives what the client wrote
    to descriptor 0, in any fragmentation. Then every directory of the client
    exists at the daemon under its path relative to the parent of the root,
    every regular file holds the bytes it has at the client, and no other name
    is touched: no temporary file is left either. *)
Theorem directory_synchronised th tr m fd a client lsock w2 x' w2' tr2 :
  Forall (fun y => y.2 = th) (e_sched e) -> w_trace w' = w_trace w ++ tr ->
  anon_inv a w2 -> serve m fd (a, set_fds client lsock new_conn) w2 = (Ret (inl x'), w2') ->
  w_trace w2' = w_trace w2 ++ tr2 -> received fd tr2 = written 0 tr ->
  (forall p, listed (e_view e) (base ++ [x]) p ->
     ((v_status (e_view e) p).2 = directory -> w_fs w2' !! Walk.remote base p = Some Dir) /\
     (forall content, (v_status (e_view e) p).2 = regular -> w_fs w !! native p = Some (File content) ->
        w_fs w2' !! Walk.remote base p = Some (File content))) /\
  (forall n, (forall p, listed (e_view e) (base ++ [x]) p -> n <> Walk.remote base p) -> w_fs w2' !! n = w_fs w2 !! n).
Proof using All.
  intros Hth Ht Ha Hserve Ht2 Hrec.
  destruct client_frames as (k & remote & w1 & we & t1 & t3 & _ & T1 & E1 & Hwalk & Hprep & Hsm & T3 & E3 & _ & _ & Hframes).
  destruct (recurse_one_thread (e_canonical e) (render_fn_ (e_rows e)) (e_pad e) (base ++ [x]) (k_tree k) remote (w_fs w1) Hpad
    Hprep Hsm w1 eq_refl th (e_sched e) _ we Hth Hwalk) as (l & (t2 & T2 & _ & E2) & Hok & Hnd & Hall & _).
  assert (tr = t1 ++ t2 ++ t3) as -> by (apply (inj (app (w_trace w))); by rewrite <- Ht, T3, T2, T1, <- !app_assoc).
  rewrite !written_app, E1, E2, E3, app_nil_r in Hrec. cbn [app] in Hrec.
  set (frames := map (frame_of _ _ _ _ _) l) in *. destruct (Hframes (w_fs w2) l Hnd Hall Hok) as (_ & H1 & H2).
  rewrite (serve_stream m fd (a, set_fds client lsock new_conn) w2 x' w2' frames tr2); try done; try by split.
  apply Forall_fmap. eapply Forall_impl; [exact Hok|]. by intros y [].
Qed.
End sent.
End status.


Module MainDemo.
Definition queries : fs_queries :=
  mkQueries (inr "/home") (fun p => inr p) (fun p => (bool_decide (p = "/home/d"), None)).

(** The directory of [Walk.v], with a schedule of [Recurse.v]. *)
Definition env (sched : list (nat * nat)) : surroundings unit :=
  mkSurroundings unit queries WalkDemo.view SendDemo.wc insertion_sort 5 (fun _ => "") (fsevent true true) SendDemo.pad
    (fun _ => Some 24) 7 sched.

(** The clock and signal(2); the pipes, vfork(2) and the end of the result
    pipe; the sends; kill(2), waitpid(2) and the ends of the pipes, what
    [report_stderr_remote] reads; signal(2) and three writes. *)
Definition pipe_script (fd : Z) : list sysret := RInts [fd; fd + 1] :: replicate 4 (ROk 0).
Definition client_script (status : Z) (report : list sysret) : list sysret :=
  replicate 3 (ROk 0) ++ concat (map pipe_script [3; 5; 7; 9]) ++
  [ROk 0; ROk 0; ROk 77] ++ replicate 4 (ROk 0) ++ RBytes [] :: replicate 3 (ROk 0) ++
  w_ans RecurseDemo.world ++
  [ROk 0; ROk status] ++ replicate 3 (ROk 0) ++ report ++ replicate 4 (ROk 0).
Definition client_world (status : Z) (report : list sysret) : World :=
  mkWorld (client_script status report) [] WalkDemo.fs ∅.
Definition argv : list string := ["enu"; "--path"; "/home/d"; "me@host"].
Definition run (sched : list (nat * nat)) (w : World) (argv : list string) : outcome Z * World :=
  main tt (fun _ => None) (env sched) argv w.

(** The calls before the first write to descriptor 0. *)
Fixpoint before_write (t : list event) : list event :=
  match t with
  | [] => []
  | Called (Write 0 _) _ :: _ => []
  | ev :: t' => ev :: before_write t'
  end.

Definition args : Args.Args (double := unit) :=
  match parse tt (fun _ => None) argv with PArgs arg => arg | _ => default_args tt end.

Lemma small start k :
  scan_dir WalkDemo.view insertion_sort 5 WalkDemo.root (new_root (M_of WalkDemo.view WalkDemo.root) start) = Ret k ->
  Z.of_nat (next_id (k_tree k)) < 2 ^ 64.
Proof. intros Hk. vm_compute in Hk. by injection Hk as <-. Qed.

(** A daemon that reads the stream of the client in one connection: each
    header, path and file, the second file in two pieces. *)
Definition hdr (seq perms : Z) (t : file_type) (plen size : Z) : list byte :=
  encode_hdr SendDemo.pad (mkDataMessage seq perms t plen size).
Definition receiver_script : list sysret :=
  [RBytes (hdr 0 493 directory 1 0); RBytes (bytes_of "d"); ROk 0; RErr (EOTHER 9);
   RBytes (hdr 1 420 regular 3 2); RBytes (bytes_of "d/f"); RFile 11 "/tmp/enu.t1"; ROk 0; ROk 4096; RBytes (bytes_of "hi");
   ROk 0; ROk 0; ROk 0;
   RBytes (hdr 2 420 regular 3 3); RBytes (bytes_of "d/g"); RFile 11 "/tmp/enu.t2"; ROk 0; ROk 4096; RBytes (bytes_of "a");
   RBytes (bytes_of "bc"); ROk 0; ROk 0; ROk 0].
Definition receiver_world : World := mkWorld receiver_script [] ∅ ∅.
Definition receiver : outcome (flow conn) * World := serve 3 9 (no_anon, set_fds 9 4 new_conn) receiver_world.
Definition receiver_conn : conn := match receiver.1 with Ret (inl c) => c | _ => (no_anon, new_conn) end.

(** A daemon whose only client is cut off in the middle of a file: signal(2),
    the port, a connection, the header, the path, mkstemp(3) and the mapping,
    one byte and an error; three close(2) and unlink(2). *)
Definition tmp : string := "/tmp/enu.a1b2c3".
Definition daemon_script : list sysret :=
  [ROk 0; RBytes (encode_init (mkDaemonInitMessage 50000 1))] ++ replicate 6 (ROk 4) ++
  [RInts [POLLIN]; ROk 9; RInts [0; POLLIN];
   RBytes (encode_hdr (Byte.x00, replicate 4 Byte.x00) (mkDataMessage 0 493 regular 1 2)); RBytes (bytes_of "f");
   RFile 11 tmp; ROk 0; ROk 4096; RBytes (bytes_of "h"); RErr (EOTHER 104); ROk 0; ROk 0; ROk 0; ROk 0].
Definition daemon_world : World := mkWorld daemon_script [] ∅ ∅.
Definition daemon_argv : list string := ["enu"; "--daemon"].
End MainDemo.

Lemma main_exit_status_witness :
  let w := MainDemo.client_world 256 [RErr (EOTHER 9)] in
  exists arg p w0, parse tt (fun _ => None) MainDemo.argv = PArgs arg /\
    resolve_path MainDemo.queries (Args.path arg) w = (Ret p, w) /\
    sys_ignore (Signal SIGPIPE SIG_IGN) w = (Ret tt, w0) /\
    if daemon arg then 1 = 1
    else exists k remote w1 ok w2 exit_code remote' w3,
      client_walked (MainDemo.env RecurseDemo.torn) (components p) w0 k remote w1 ok w2 /\
      terminate remote w2 = (Ret (exit_code, remote'), w3) /\
      (1 = 0 <-> ok = true /\ exit_code = 0) /\ (1 = 0 \/ 1 = 1).
Proof.
  apply (main_exit_status tt (fun _ => None) (MainDemo.env RecurseDemo.torn) MainDemo.argv
    (MainDemo.client_world 256 [RErr (EOTHER 9)]) 1
    (MainDemo.run RecurseDemo.torn (MainDemo.client_world 256 [RErr (EOTHER 9)]) MainDemo.argv).2).
  vm_compute. reflexivity.
Defined.

Lemma client_signals_witness :
  let w := MainDemo.client_world 256 [RErr (EOTHER 9)] in
  let r := MainDemo.run RecurseDemo.sched w MainDemo.argv in
  let pre := MainDemo.before_write (w_trace r.2) in
  r.1 = Ret 1 /\ pre <> w_trace r.2 /\ disposition_of SIGINT pre = Handler /\ disposition_of SIGPIPE (w_trace r.2) = SIG_IGN /\
  disposition_of SIGINT (w_trace r.2) = Handler.
Proof.
  intros w r pre. split; [by vm_compute|].
  destruct (client_signals tt (fun _ => None) (MainDemo.env RecurseDemo.sched) MainDemo.argv w 1 r.2 MainDemo.args)
    as (Hpre & H); [vm_compute; reflexivity..|].
  split; [by vm_compute|]. split; [|exact H].
  destruct (drop (length pre) (w_trace r.2)) as [|ev post] eqn:E; [vm_compute in E; discriminate E|].
  assert (exists data x, ev = Called (Write 0 data) x) as (data & x & ->)
    by (vm_compute in E; injection E as <- _; by eexists _, _).
  destruct (Hpre pre data x post) as (_ & Hint & _); [|exact Hint].
  rewrite <- E. vm_compute. reflexivity.
Defined.

Lemma daemon_cleans_up_witness :
  let r := MainDemo.run [] MainDemo.daemon_world MainDemo.daemon_argv in
  r.1 = Ret 1 /\ Called (Mkstemp "/tmp/enu.XXXXXX") (RFile 11 MainDemo.tmp) ∈ w_trace r.2 /\
  w_fs r.2 !! MainDemo.tmp = None.
Proof.
  intros r. split; [by vm_compute|]. split; [apply list_elem_of_In; vm_compute; tauto|].
  destruct (parse tt (fun _ => None) MainDemo.daemon_argv) as [arg| |] eqn:E; [|vm_compute in E; discriminate E..].
  apply (daemon_cleans_up tt (fun _ => None) (MainDemo.env []) (fun n => n = MainDemo.tmp) MainDemo.daemon_argv
    MainDemo.daemon_world 1 r.2 arg); [by vm_compute|done|vm_compute in E; by injection E as <-| | |done|done].
  - vm_compute. repeat constructor.
  - vm_compute. repeat constructor. by eexists.
Defined.

Lemma client_sends_tree_witness :
  let w := MainDemo.client_world 0 [] in
  let w' := (MainDemo.run RecurseDemo.torn w MainDemo.argv).2 in
  w_fs w' = w_fs w /\ exists (frames : list (nat * frame)) L t1 t3,
    w_trace w' = w_trace w ++ t1 ++ L.*2 ++ t3 /\ (forall n f, (n, f) ∈ frames -> written 0 (of_node n L) = frame_bytes f) /\
    apply_frames ∅ frames.*2 !! "d"%string = Some Dir /\
    apply_frames ∅ frames.*2 !! "d/f"%string = Some (File (bytes_of "hi")).
Proof.
  intros w w'.
  destruct (client_sends_tree tt (fun _ => None) (MainDemo.env RecurseDemo.torn) MainDemo.argv w w' MainDemo.args "/home/d"
    ["home"%string] "d") as (Hfs & frames & L & t1 & t3 & Ht & _ & _ & _ & _ & Hw & _ & Hl & _);
    [vm_compute; reflexivity..|exact WalkDemo.view_ok|exact insertion_sort_ok|reflexivity|exact MainDemo.small|].
  split; [done|]. exists frames, L, t1, t3. split_and!; [done|by intros n f []%Hw| |].
  - destruct (Hl WalkDemo.root) as [Hd _]; [constructor|]. by apply Hd.
  - destruct (Hl (WalkDemo.file "f")) as [_ Hf]; [apply WalkDemo.listed_file; by left|]. by apply Hf.
Defined.

Lemma directory_synchronised_witness :
  (MainDemo.run RecurseDemo.sched (MainDemo.client_world 0 []) MainDemo.argv).1 = Ret 0 /\
  w_fs MainDemo.receiver.2 !! "d"%string = Some Dir /\
  w_fs MainDemo.receiver.2 !! "d/g"%string = Some (File (bytes_of "abc")) /\
  w_fs MainDemo.receiver.2 !! "/tmp/enu.t1"%string = None.
Proof.
  split; [by vm_compute|].
  destruct (directory_synchronised tt (fun _ => None) (MainDemo.env RecurseDemo.sched) MainDemo.argv
    (MainDemo.client_world 0 []) (MainDemo.run RecurseDemo.sched (MainDemo.client_world 0 []) MainDemo.argv).2 MainDemo.args
    "/home/d" ["home"%string] "d") with (th := 0%nat) (m := 3%nat) (fd := 9) (a := no_anon) (client := 9) (lsock := 4)
    (w2 := MainDemo.receiver_world) (x' := MainDemo.receiver_conn) (w2' := MainDemo.receiver.2)
    (tr := w_trace (MainDemo.run RecurseDemo.sched (MainDemo.client_world 0 []) MainDemo.argv).2)
    (tr2 := w_trace MainDemo.receiver.2) as (Hl & Hother);
    [vm_compute; reflexivity..|exact WalkDemo.view_ok|exact insertion_sort_ok|reflexivity|exact MainDemo.small|
     refine (bool_decide_eq_true_1 _ _); vm_compute; reflexivity|exact (eq_sym (app_nil_l _))|intros n Hn; by apply elem_of_empty in Hn|vm_compute; reflexivity|
     exact (eq_sym (app_nil_l _))|vm_compute; reflexivity|].
  split_and!.
  - destruct (Hl WalkDemo.root) as [Hd _]; [constructor|]. by apply Hd.
  - destruct (Hl (WalkDemo.file "g")) as [_ Hf]; [apply WalkDemo.listed_file; by right|]. by apply Hf.
  - rewrite Hother; [done|]. by intros p [->|[->| ->]]%WalkDemo.listed_cases.
Defined.
